(* ===== verification/_CoqProject ===== *)
-Q . S2P
Prelude.v
RustStr.v
Errors.v
Json.v
Wire.v
CryptoLib.v
CryptoModel.v
Encryption.v
Message.v
TextModel.v
Regex.v
SessionUri.v
Ntfy.v
Tasks.v
Channel.v
Mqtt.v
NtfyChannel.v
SignalingLayer.v
SignalingSafety.v
SignalingRun.v
Announce.v
Handshake.v
Rendezvous.v
Link.v
SessionMessage.v
Response.v
Control.v
Ownership.v
Closing.v
Transport.v
Session.v
SessionSpec.v
SessionSafety.v
Setup.v
JsonRpc.v
Wallet.v
EndToEnd.v
Linking.v
Bridge.v
Alloy.v
Ffi.v
Native.v
Examples.v
