(* ===== verification/Prelude.v ===== *)
(** * Verification of the openlv session protocol

    openlv links a dApp (the host) and a wallet (the client). The host prints a
    connection URL with a session identifier, the hash of its public key and a
    handshake key. Both ends meet on a public signaling channel, exchange keys and
    capabilities, negotiate a WebRTC connection, and then send requests and
    responses over its data channel. Paths below are relative to
    [src/crates/openlv/src/], unless they name another crate.

    ** The parts

    - [Prelude], [RustStr], [Json], [Regex], [Tasks]: what the program takes from
      Rust and its standard libraries. A [Result] is [Res] with a third value
      [Panic]; a [String] is its UTF-8 bytes; a [serde_json::Value] is an inductive
      type; a pattern is a syntax tree with a backtracking matcher; an [async fn] is
      a resumption of [Tasks.v] ([prog]): atomic accesses to the shared state, and
      suspension points where other tasks run and an abort takes effect.
    - [Errors] ([errors.rs], [utils/mod.rs]), [Wire] ([signaling/wire/mod.rs]: frames),
      [Message] ([signaling/message/mod.rs]: handshake messages and their bounds),
      [SessionMessage] ([transport/message/mod.rs]), [SessionUri] ([url/], [signaling/mod.rs]:
      the connection URL).
    - [CryptoLib], [CryptoModel], [Encryption] ([encryption/]): the primitives as a class
      with laws, an instance of it, and the program's constructions over them: the
      handshake key, the keys between peers, the hash in the URL.
    - [Channel] ([signaling/channel.rs]): the trait of a signaling channel as a class, and
      what a channel promises as laws; [Mqtt] ([signaling/mqtt/]), [Ntfy] and [NtfyChannel]
      ([signaling/ntfy/]: the URL of a server, its events, the channel) are the instances.
    - [SignalingLayer] ([signaling/layer/mod.rs]): the state [Inner] behind the layer's
      [Arc], [handle_receive], [setup], [send], [teardown], and the two tasks it spawns
      (resending, and the handshake deadline). [SignalingSafety] proves what holds in
      every configuration that any interleaving of calls, tasks, aborts and foreign
      frames reaches; [SignalingRun] and [Announce] what each call does and announces
      undisturbed; [Handshake] puts a host and a client together, [Rendezvous] over a network
      that loses, repeats and reorders their frames, with the resend tasks, and [Link] over
      two channels.
    - [Response] ([session/response/mod.rs]), [Control] ([session/control/mod.rs]),
      [Transport] ([transport/mod.rs], [transport/webrtc.rs]), and [Session]
      ([session/mod.rs]), which runs the programs of the other parts on
      its own state ([zoom] of [Tasks.v]) and forwards between them. [SessionSpec] says
      what each method does undisturbed, [SessionSafety] what holds however the methods,
      event loops, request tasks, callbacks and signaling tasks of a session interleave,
      [Ownership] which references keep a session alive, and [Closing] concurrent calls
      of [close] that may go away.
    - [Setup] ([session/mod.rs], [signaling/mod.rs]): the configuration, and how a session
      is created or joined. [JsonRpc] ([provider/jsonrpc/mod.rs]): requests and the
      check of their responses; [Alloy] ([provider/alloy_1.rs], [alloy_2.rs]): single
      requests and batches of an alloy client over them.
    - [Wallet] ([src/examples/client/main.rs]): the request handler of the example wallet.
      [EndToEnd] composes a dApp's session, a wallet's session and this handler, and
      [Linking] the whole way to there: the signaling handshake of two sessions, the
      negotiation of their transports over it, and the data channel;
      [Examples] ([src/examples/app/main.rs], [src/examples/client/main.rs]) has the two
      [main] functions.
    - [Bridge] and [Ffi] ([src/crates/openlv-ffi/src/lib.rs]): the requests that wait for
      native code, as a step relation over the accesses of concurrent calls; and the
      functions and methods that native code calls, as the core's with texts for values.
      [Native] puts the bridge behind the wallet's session of [EndToEnd].

    ** What the theorems show

    - The whole: the URL of a session that a dApp creates gives a client that completes
      the handshake with it; both select the same transport, exchange the descriptions
      and the candidates of their peer connections over signaling, and link; a request
      sent on one side runs the other side's handler once and returns its value, so
      that from any well-formed configuration a request can be served; a dApp gets the
      example wallet's response to each of its JSON-RPC requests; bad configurations
      are errors.
    - Signaling: the handshake of an honest pair completes, also when the client's
      answer was lost; the peer key is pinned, on the client to the URL's hash; what is
      published is confidential; what is delivered was decrypted; unexpected payloads
      are inert; terminal states stop the tasks. A frame that arrives after the key was
      recorded is opened with that key, and names it as its sender; the ghost field
      [early] of [Inner] lists the frames that had arrived before. Two executions show a task that
      survives the handshake and a foreign payload that is delivered. Both channels
      carry frames unchanged, one in order, the other in any order.
    - The handshake over an unreliable network: the two layers implement six stages that
      only go forward; from every state that losses, repetitions and reorderings can
      leave, three rounds of resending and hearing complete it; a channel implements
      that network, so two layers on channels can always complete it. One publication
      that the channel refuses to the host stops it.
    - Encryption, wire, URL, messages: round trips, authenticity, exact acceptance,
      absence of panics (and the one that exists), bounds; an ntfy
      URL is split into its parts, and how an [@] in its query misleads the parser.
    - Sessions, under every interleaving: what leaves through the data channel is
      encrypted for the pinned key; what reaches the handler or a waiting request was
      opened with that key and names it as its sender (a message over signaling that
      had arrived before the key was recorded names whom it likes); after closing
      nothing starts and nothing runs. The interleaved calls include operations and request
      tasks that are destroyed after any number of their steps.
    - Requests: a session message crosses the transport unchanged, a request is admitted
      under its bound, acknowledged and answered, calls its handler once and gives its
      permit back; destroyed before its end it calls the handler at most once, before its
      first poll not at all, and gives its permit back too; a dApp's [exchange], suspended
      at its wait and resumed with what its session received, returns the wallet's response;
      the wait for a response obeys its deadlines, whatever arrives.
    - Transport and closing: candidates keep their order; both ends choose the same
      transport; an answer that overtakes the setup that made the offer is lost; close
      runs once, is final, lets every waiter through, and waits for every task; a peer
      that closes is no failure. While its callers stay, a close ends after a bounded
      number of steps that are work. A connected session that nobody closes outlives its
      handles; a closed one can be released. A close that returns has waited for every
      task, unless an earlier caller of it went away.
    - Native code: it creates and joins sessions as the core does; what it sends is the
      core's request; each waiting request gets the answer with its own id and no
      other, which is what the peer's session receives for its request; requests come in
      order and at most once, and a stop ends every call and is final. A batch of an alloy
      client is its requests one by one.

    ** Conventions and bounds

    - Code outside the repository is a class: [CryptoLib], the serde codecs
      ([SignalingCodec], [SessionCodec], [ValueText], [OptionsText]), [WebRtcLib],
      [AlloyLib] and [SignerLib]; the laws used are separate classes, and
      [CryptoModel], [TextModel], [SessionSpec.SessionModel], [Transport.TransportModel],
      [BridgeModel], [FfiModel], [AlloyModel] and [WalletModel] are instances in which the
      witnesses are evaluated. The JSON laws of [SignalingCodec] and [SessionCodec] ask
      for values without floating-point numbers and nested less than 100 deep, below
      serde_json's limit of 128.
    - What a call of the environment yields (random bytes, the clock, the outcome of a
      channel or library call) is an input of each atom; theorems quantify over them.
      The calls into a network library are recorded in the state.
    - Tasks have no clock: a timer is a suspension point that any scheduler may pass,
      so what is proved holds for every duration. Deadlines are numbers in [Response].
    - [play 200] in the executions of [SignalingSafety] runs a thread for at most 200
      steps; every call of the layer ends in fewer than 30, and the witnesses check
      the state in which it has ended. [receive_loop], the event loops and [poll_dc] recurse on what
      they receive; the resend task is a thread that starts again after each round.
    - A broadcast channel is the list of what was sent to it, and a receiver the list
      of what [recv] yields, with [Lagged] and [Closed].
    - [SessionSpec], [EndToEnd] and [Linking] run one method or one loop at a time, over
      everything the environment may do in its inputs; [SignalingSafety], [SessionSafety], [Control]
      and [Bridge] interleave all of them. In [SessionSafety] a turn of an event loop
      is a call of its own, and a request task a call with its message id and permit; the
      WebRTC library calls back only after [Transport.setup] has begun, since that is what
      gives it its handler. [run_for] and [first_steps] of [Tasks.v] stop a function after
      some of its steps: a superset of the suspension points at which the runtime destroys
      a task.
    - [Session.wait_for_tasks] returns with every task it took finished ([Control.joined]);
      that the tasks do finish, and what happens when the waiting call goes away, is in
      [Closing] and [Ownership].
    - [Transport.sent] holds the texts given to [send_text], also when that call failed.
    - In [Linking] every library call succeeds and each message that one end sends is
      taken by the other before the next; the states that the signaling layer announces
      reach the session's loop when the handshake is over. [WebRtcLaws] asks that a
      description is read back as it was printed.
    - In [Rendezvous] and [Link] each call of [handle_receive] and each round of a resend
      task runs undisturbed, no handshake deadline expires, and the calls of the network
      library succeed, except where a theorem says that the channel is down. The
      deadline, the concurrency of the calls and their failures are in
      [SignalingSafety].
    - Request ids of the bridge are 64 bits wide and wrap around; the theorems that need
      distinct ids ask for at most 2^64 requests.

    ** Not modelled

    The MQTT, HTTP, WebSocket and WebRTC libraries (network I/O; the ICE server list and
    the wait of at most 500 ms for the last messages before a teardown), the Tokio
    runtime of the bindings and the code that UniFFI generates, the crate root
    ([lib.rs]: re-exports), the lines that request handlers of the examples print, and
    the tests; logging has no effect. In [Ownership] no task panics and the runtime is
    not shut down. A foreign future of the bindings that is dropped
    aborts its task: [Bridge] has the cancellation of the core's calls of [handle],
    [Closing] that of [close], [Ownership] the abort of an operation's task.

    ** What is left

    In [SessionSafety] the destruction of an operation or a request task is a call with a
    number of steps, not an effect of [close] on its task: that close aborts the tasks, and
    that they end, is in [Control], [Closing] and [Ownership]. A negotiation whose
    messages overlap with the setup of the transport is an execution
    ([Transport.early_answer_is_lost]), not a general theorem. Liveness is stated as
    steps that remain possible and bounded, without a model of the scheduler. *)
From Stdlib Require Export Lia ZArith Ascii String.
From Stdlib Require Strings.Byte.
From stdpp Require Export base tactics option list numbers strings gmap.

(** ** Results

    [Res E A] is what a Rust function returning [Result<A, E>] can do: return a
    value, return an error, or panic (a slice off a character boundary, an
    [expect] that fails, an arithmetic underflow). *)
Inductive Res (E A : Type) : Type :=
| Ok (a : A)
| Err (e : E)
| Panic.
Arguments Ok {E A} a.
Arguments Err {E A} e.
Arguments Panic {E A}.

#[export] Instance res_ret {E} : MRet (Res E) := fun A a => Ok a.
#[export] Instance res_bind {E} : MBind (Res E) := fun A B f m =>
  match m with Ok a => f a | Err e => Err e | Panic => Panic end.
#[export] Instance res_fmap {E} : FMap (Res E) := fun A B f m =>
  match m with Ok a => Ok (f a) | Err e => Err e | Panic => Panic end.

#[export] Instance res_eq_dec {E A} `{EqDecision E, EqDecision A} : EqDecision (Res E A).
Proof. solve_decision. Defined.

(** [r.map_err(f)] *)
Definition map_err {E F A} (f : E -> F) (r : Res E A) : Res F A :=
  match r with Ok a => Ok a | Err e => Err (f e) | Panic => Panic end.

(** [o.ok_or(e)] *)
Definition ok_or {E A} (o : option A) (e : E) : Res E A :=
  match o with Some a => Ok a | None => Err e end.

(** [r.is_ok()] *)
Definition is_ok {E A} (r : Res E A) : bool :=
  match r with Ok _ => true | _ => false end.

(** [r.and(r2)]: the first error, or the second result. *)
Definition res_and {E A B} (r : Res E A) (r2 : Res E B) : Res E B :=
  match r with Ok _ => r2 | Err e => Err e | Panic => Panic end.

(** [expect] on an option: a panic when there is no value. *)
Definition expect {E A} (o : option A) : Res E A :=
  match o with Some a => Ok a | None => Panic end.

(** ** Automation

    [openlv] holds the facts that close the common side conditions; the rewrite
    base of the same name normalises lengths and conversions. *)
Create HintDb openlv discriminated.
Create Rewrite HintDb openlv.

Lemma bind_Ok {E A B} (m : Res E A) (f : A -> Res E B) b :
  mbind f m = Ok b <-> exists a, m = Ok a /\ f a = Ok b.
Proof. destruct m; simpl; split; first [intros (?&?&?)|eauto]; congruence. Qed.

Lemma bind_Err {E A B} (m : Res E A) (f : A -> Res E B) e :
  mbind f m = Err e <-> m = Err e \/ exists a, m = Ok a /\ f a = Err e.
Proof.
  destruct m; simpl; split; intros H; try (right; eauto; congruence); try (left; congruence);
    destruct H as [H|(? & H1 & H2)]; congruence.
Qed.

Lemma bind_Panic {E A B} (m : Res E A) (f : A -> Res E B) :
  mbind f m = Panic <-> m = Panic \/ exists a, m = Ok a /\ f a = Panic.
Proof.
  destruct m; simpl; split; intros H; try (right; eauto; congruence); try (left; congruence);
    try discriminate; destruct H as [H|(? & H1 & H2)]; congruence.
Qed.

Lemma ok_or_Ok {E A} (o : option A) (e : E) a : ok_or o e = Ok a <-> o = Some a.
Proof. destruct o; simpl; split; congruence || done. Qed.

Lemma ok_or_Panic {E A} (o : option A) (e : E) : ok_or o e = Panic <-> False.
Proof. destruct o; simpl; split; congruence || done. Qed.

(** Split a hypothesis that a chain of binds returned a value into the values
    of its steps, and drop the failing branches. *)
Ltac inv_res :=
  repeat match goal with
  | H : mbind _ _ = Ok _ |- _ => apply bind_Ok in H as (? & ? & H)
  | H : ok_or _ _ = Ok _ |- _ => apply ok_or_Ok in H
  | H : (if ?b then _ else _) = Ok _ |- _ => destruct b eqn:?; try discriminate H
  | H : Ok _ = Ok _ |- _ => injection H as H; try subst
  | H : Err _ = Ok _ |- _ => discriminate H
  | H : Panic = Ok _ |- _ => discriminate H
  end; try discriminate.
