(* ===== verification/RustStr.v ===== *)
(** * Rust strings, bytes and hexadecimal

    The part of Rust's [str], [String], [char] and [u8] the program uses. A
    [String] is its UTF-8 byte sequence, so it is a [string] here (an [ascii]
    is one byte); a [Vec<u8>] or [[u8; N]] is a [bytes]; a [char] is the
    [string] of its encoding. *)
From S2P Require Import Prelude.
From stdpp Require Import pretty.
Local Open Scope string_scope.

Definition bytes := list Byte.byte.

#[export] Instance byte_eq_dec : EqDecision Byte.byte := Byte.byte_eq_dec.

(** [str::as_bytes] *)
Definition as_bytes (s : string) : bytes := list_byte_of_string s.

(** [str::len]: the number of bytes. *)
Definition str_len (s : string) : Z := Z.of_nat (String.length s).

(** [b"..."] literals and [concat] of byte strings are lists already. *)
Definition byte_literal (s : string) : bytes := as_bytes s.

(** ** Characters *)

(** A continuation byte of a multi-byte character: [0b10xxxxxx]. *)
Definition is_continuation (a : ascii) : bool :=
  let n := N_of_ascii a in (128 <=? n)%N && (n <? 192)%N.

(** [str::is_char_boundary] *)
Definition is_char_boundary (s : string) (i : nat) : bool :=
  if Nat.eqb i 0 then true else
  match String.get i s with
  | Some a => negb (is_continuation a)
  | None => Nat.eqb i (String.length s)
  end.

(** [&s[..i]]: panics off a character boundary or out of range. *)
Definition slice_to {E} (s : string) (i : nat) : Res E string :=
  if is_char_boundary s i then Ok (substring 0 i s) else Panic.

(** [&s[i..]] *)
Definition slice_from {E} (s : string) (i : nat) : Res E string :=
  if is_char_boundary s i then Ok (substring i (String.length s - i) s) else Panic.

(** [str::chars]: a character starts at every byte that is not a
    continuation byte. *)
Fixpoint chars (s : string) : list string :=
  match s with
  | EmptyString => []
  | String a r =>
      match r with
      | String b _ =>
          if is_continuation b then
            match chars r with
            | c :: cs => String a c :: cs
            | [] => [String a EmptyString]
            end
          else String a EmptyString :: chars r
      | EmptyString => [String a EmptyString]
      end
  end.

(** [chars().collect::<String>()] *)
Fixpoint str_join (cs : list string) : string :=
  match cs with
  | [] => ""
  | c :: r => c ++ str_join r
  end.

(** [str::starts_with] on a string pattern. *)
Definition starts_with (pat s : string) : bool := String.prefix pat s.

(** [str::find] on an ASCII character: the byte index of its first occurrence. *)
Fixpoint find_char (c : ascii) (s : string) : option nat :=
  match s with
  | EmptyString => None
  | String a r => if Ascii.eqb a c then Some 0%nat else S <$> find_char c r
  end.

(** ** Classes of characters *)

Definition in_range (lo hi : ascii) (a : ascii) : bool :=
  (N_of_ascii lo <=? N_of_ascii a)%N && (N_of_ascii a <=? N_of_ascii hi)%N.

Definition is_ascii_digit (a : ascii) : bool := in_range "0" "9" a.
Definition is_ascii_lower (a : ascii) : bool := in_range "a" "z" a.
Definition is_ascii_upper (a : ascii) : bool := in_range "A" "Z" a.

(** [char::is_ascii_hexdigit] *)
Definition is_ascii_hexdigit (a : ascii) : bool :=
  is_ascii_digit a || in_range "a" "f" a || in_range "A" "F" a.

(** The lowercase hexadecimal digits, [[0-9a-f]]. *)
Definition is_lower_hexdigit (a : ascii) : bool :=
  is_ascii_digit a || in_range "a" "f" a.

(** [Iterator::all] over the characters, for a test that only ASCII
    characters pass: every byte passes it. *)
Fixpoint str_forall (p : ascii -> bool) (s : string) : bool :=
  match s with
  | EmptyString => true
  | String a r => p a && str_forall p r
  end.

Fixpoint str_map (f : ascii -> ascii) (s : string) : string :=
  match s with
  | EmptyString => EmptyString
  | String a r => String (f a) (str_map f r)
  end.

Definition is_ascii (a : ascii) : bool := (N_of_ascii a <? 128)%N.

(** [char::to_ascii_lowercase] and [str::to_ascii_lowercase] *)
Definition ascii_lowercase (a : ascii) : ascii :=
  if is_ascii_upper a then ascii_of_N (N_of_ascii a + 32) else a.
Definition to_ascii_lowercase (s : string) : string := str_map ascii_lowercase s.

(** [char::is_whitespace]: the Unicode [White_Space] characters, each as its
    UTF-8 encoding. *)
Definition is_whitespace (c : string) : bool :=
  let b (l : list N) : string := string_of_list_ascii (ascii_of_N <$> l) in
  bool_decide (c ∈ (b <$> [[9]; [10]; [11]; [12]; [13]; [32]; [0xC2; 0x85]; [0xC2; 0xA0];
    [0xE1; 0x9A; 0x80];
    [0xE2; 0x80; 0x80]; [0xE2; 0x80; 0x81]; [0xE2; 0x80; 0x82]; [0xE2; 0x80; 0x83];
    [0xE2; 0x80; 0x84]; [0xE2; 0x80; 0x85]; [0xE2; 0x80; 0x86]; [0xE2; 0x80; 0x87];
    [0xE2; 0x80; 0x88]; [0xE2; 0x80; 0x89]; [0xE2; 0x80; 0x8A]; [0xE2; 0x80; 0xA8];
    [0xE2; 0x80; 0xA9]; [0xE2; 0x80; 0xAF]; [0xE2; 0x81; 0x9F]; [0xE3; 0x80; 0x80]]%N)).

(** [s.trim().is_empty()] *)
Definition trim_is_empty (s : string) : bool := forallb is_whitespace (chars s).

(** ** UTF-8 validation: [String::from_utf8] *)

Definition byte_in (lo hi : N) (b : Byte.byte) : bool :=
  (lo <=? Byte.to_N b)%N && (Byte.to_N b <=? hi)%N.

Definition is_tail (b : Byte.byte) : bool := byte_in 0x80 0xBF b.

Fixpoint utf8_valid (l : bytes) : bool :=
  match l with
  | [] => true
  | b :: r =>
      if byte_in 0x00 0x7F b then utf8_valid r
      else match r with
      | [] => false
      | b1 :: r1 =>
          if byte_in 0xC2 0xDF b then is_tail b1 && utf8_valid r1
          else match r1 with
          | [] => false
          | b2 :: r2 =>
              if byte_in 0xE0 0xEF b then
                (if byte_in 0xE0 0xE0 b then byte_in 0xA0 0xBF b1
                 else if byte_in 0xED 0xED b then byte_in 0x80 0x9F b1
                 else is_tail b1) && is_tail b2 && utf8_valid r2
              else match r2 with
              | [] => false
              | b3 :: r3 =>
                  byte_in 0xF0 0xF4 b &&
                  (if byte_in 0xF0 0xF0 b then byte_in 0x90 0xBF b1
                   else if byte_in 0xF4 0xF4 b then byte_in 0x80 0x8F b1
                   else is_tail b1) && is_tail b2 && is_tail b3 && utf8_valid r3
              end
          end
      end
  end.

(** [String::from_utf8] *)
Definition from_utf8 (l : bytes) : option string :=
  if utf8_valid l then Some (string_of_list_byte l) else None.

(** How the text starts: with a character of so many bytes, or with so many bytes that
    are no part of one (the longest start of a character, or one byte). *)
Definition utf8_width (l : bytes) : nat + nat :=
  match l with
  | [] => inr 0
  | b :: r =>
      if byte_in 0x00 0x7F b then inl 1
      else match r with
      | [] => inr 1
      | b1 :: r1 =>
          if byte_in 0xC2 0xDF b then if is_tail b1 then inl 2 else inr 1
          else if byte_in 0xE0 0xEF b then
            if (if byte_in 0xE0 0xE0 b then byte_in 0xA0 0xBF b1
                else if byte_in 0xED 0xED b then byte_in 0x80 0x9F b1
                else is_tail b1)
            then match r1 with b2 :: _ => if is_tail b2 then inl 3 else inr 2 | [] => inr 2 end
            else inr 1
          else if byte_in 0xF0 0xF4 b then
            if (if byte_in 0xF0 0xF0 b then byte_in 0x90 0xBF b1
                else if byte_in 0xF4 0xF4 b then byte_in 0x80 0x8F b1
                else is_tail b1)
            then match r1 with
                 | b2 :: r2 =>
                     if is_tail b2
                     then match r2 with b3 :: _ => if is_tail b3 then inl 4 else inr 3 | [] => inr 3 end
                     else inr 2
                 | [] => inr 2
                 end
            else inr 1
          else inr 1
      end
  end.

(** [String::from_utf8_lossy]: each invalid part becomes U+FFFD. *)
Fixpoint utf8_lossy (fuel : nat) (l : bytes) : bytes :=
  match fuel, l with
  | S fuel, _ :: _ =>
      match utf8_width l with
      | inl n => take n l ++ utf8_lossy fuel (drop n l)
      | inr n => [Byte.xef; Byte.xbf; Byte.xbd] ++ utf8_lossy fuel (drop n l)
      end
  | _, _ => []
  end%list.

Definition from_utf8_lossy (l : bytes) : string := string_of_list_byte (utf8_lossy (length l) l).

(** ** Numbers in text *)

Definition hex_digit (n : N) : ascii :=
  if (n <? 10)%N then ascii_of_N (48 + n) else ascii_of_N (87 + n).

(** [format!("{byte:02x}")] *)
Definition format_02x (b : Byte.byte) : string :=
  String (hex_digit (Byte.to_N b / 16)) (String (hex_digit (Byte.to_N b mod 16)) "").

(** [iter().map(|byte| format!("{byte:02x}")).collect::<String>()] *)
Fixpoint hex_encode (l : bytes) : string :=
  match l with
  | [] => ""
  | b :: r => format_02x b ++ hex_encode r
  end.

(** [char::to_digit(16)] *)
Definition hex_value (a : ascii) : option N :=
  let n := N_of_ascii a in
  if is_ascii_digit a then Some (n - 48)%N
  else if in_range "a" "f" a then Some (n - 87)%N
  else if in_range "A" "F" a then Some (n - 55)%N
  else None.

(** [char::to_digit(10)] *)
Definition digit_value (a : ascii) : option N :=
  if is_ascii_digit a then Some (N_of_ascii a - 48)%N else None.

(** The digit loop of [u8::from_str_radix]: each digit is multiplied in with a
    check against overflow. *)
Fixpoint u8_digits (radix : N) (value : ascii -> option N) (acc : N) (s : string) : option N :=
  match s with
  | EmptyString => Some acc
  | String a r =>
      match value a with
      | Some d => let acc' := (acc * radix + d)%N in
                  if (acc' <? 256)%N then u8_digits radix value acc' r else None
      | None => None
      end
  end.

(** [u8::from_str_radix]: an optional sign [+], then at least one digit. *)
Definition u8_from_str (radix : N) (value : ascii -> option N) (s : string) : option N :=
  match s with
  | EmptyString => None
  | String "+"%char EmptyString => None
  | String "+"%char r => u8_digits radix value 0 r
  | _ => u8_digits radix value 0 s
  end.

Definition u8_from_str_radix_16 (s : string) : option Byte.byte :=
  n ← u8_from_str 16 hex_value s; Byte.of_N n.

(** [str::parse::<u8>] *)
Definition u8_parse (s : string) : option N := u8_from_str 10 digit_value s.

(** [utils::redact_url]: the query string of a URL never reaches an error
    message. *)
Definition redact_url (url : string) : string :=
  match find_char "?" url with
  | Some idx => substring 0 idx url ++ "?[redacted]"
  | None => url
  end.

(** ** Lemmas *)

Lemma to_N_byte_of_ascii a : Byte.to_N (byte_of_ascii a) = N_of_ascii a.
Proof. by destruct a as [[] [] [] [] [] [] [] []]. Qed.

Lemma as_bytes_cons a s : as_bytes (String a s) = byte_of_ascii a :: as_bytes s.
Proof. done. Qed.

Lemma str_app_cons a s t : String a s ++ t = String a (s ++ t).
Proof. done. Qed.

Lemma as_bytes_app s t : as_bytes (s ++ t) = (as_bytes s ++ as_bytes t)%list.
Proof.
  induction s as [|a s IH]; [done|].
  by rewrite str_app_cons, !as_bytes_cons, IH.
Qed.

Lemma length_as_bytes s : length (as_bytes s) = String.length s.
Proof. induction s as [|a s IH]; [done|]. by rewrite as_bytes_cons; simpl; rewrite IH. Qed.

Lemma string_of_as_bytes s : string_of_list_byte (as_bytes s) = s.
Proof. apply string_of_list_byte_of_string. Qed.

Lemma as_bytes_string_of l : as_bytes (string_of_list_byte l) = l.
Proof. apply list_byte_of_string_of_list_byte. Qed.

Lemma str_app_assoc s t u : s ++ (t ++ u) = (s ++ t) ++ u.
Proof. induction s as [|a s IH]; [done|]. by rewrite !str_app_cons, IH. Qed.

Lemma str_app_nil_r s : s ++ "" = s.
Proof. induction s as [|a s IH]; [done|]. by rewrite str_app_cons, IH. Qed.

Lemma str_app_cancel_l s t u : s ++ t = s ++ u -> t = u.
Proof. induction s as [|a s IH]; [done|]. rewrite !str_app_cons. intros [=]; auto. Qed.

Lemma str_length_app s t : String.length (s ++ t) = (String.length s + String.length t)%nat.
Proof. induction s as [|a s IH]; [done|]. rewrite str_app_cons. simpl. by rewrite IH. Qed.

Lemma substring_full s : substring 0 (String.length s) s = s.
Proof. induction s as [|a s IH]; simpl; [done|by rewrite IH]. Qed.

Lemma substring_app_l s t : substring 0 (String.length s) (s ++ t) = s.
Proof. induction s as [|a s IH]; [by destruct t|]. rewrite str_app_cons. simpl. by rewrite IH. Qed.

(** The first byte of well-formed UTF-8 starts a character. *)
Lemma utf8_valid_head a s : utf8_valid (as_bytes (String a s)) = true -> is_continuation a = false.
Proof.
  rewrite as_bytes_cons. unfold is_continuation. intros Hv.
  destruct (128 <=? N_of_ascii a)%N eqn:H1; [|done].
  destruct (N_of_ascii a <? 192)%N eqn:H2; [|done]. exfalso.
  apply N.leb_le in H1. apply N.ltb_lt in H2. revert Hv. simpl.
  unfold byte_in. rewrite to_N_byte_of_ascii.
  set (n := N_of_ascii a) in *. clearbody n.
  replace (n <=? 127)%N with false by (symmetry; apply N.leb_gt; lia).
  replace (194 <=? n)%N with false by (symmetry; apply N.leb_gt; lia).
  replace (224 <=? n)%N with false by (symmetry; apply N.leb_gt; lia).
  replace (240 <=? n)%N with false by (symmetry; apply N.leb_gt; lia).
  rewrite andb_false_r. simpl. repeat case_match; done.
Qed.

(** After an ASCII byte the rest of well-formed UTF-8 is well formed. *)
Lemma utf8_valid_ascii_tail a s :
  is_ascii a = true -> utf8_valid (as_bytes (String a s)) = utf8_valid (as_bytes s).
Proof.
  intros Ha. rewrite as_bytes_cons. simpl. unfold byte_in. rewrite to_N_byte_of_ascii.
  unfold is_ascii in Ha. apply N.ltb_lt in Ha.
  replace (0 <=? N_of_ascii a)%N with true by (symmetry; apply N.leb_le; lia).
  by replace (N_of_ascii a <=? 127)%N with true by (symmetry; apply N.leb_le; lia).
Qed.

(** Well-formed text starts with a character, and the rest is well formed. *)
Lemma utf8_valid_width b l :
  utf8_valid (b :: l) = true ->
  exists n, utf8_width (b :: l) = inl (S n) /\ utf8_valid (drop n l) = true /\ n <= length l.
Proof.
  cbn [utf8_valid utf8_width]. destruct (byte_in 0x00 0x7F b); [intros; exists 0; split_and!; [done|done|lia]|].
  destruct l as [|b1 l]; [done|]. destruct (byte_in 0xC2 0xDF b).
  { intros [-> Hl]%andb_true_iff. exists 1. split_and!; [done|done|cbn; lia]. }
  destruct l as [|b2 l]; [done|]. destruct (byte_in 0xE0 0xEF b).
  { intros [[-> ->]%andb_true_iff Hl]%andb_true_iff. exists 2. split_and!; [done|done|cbn; lia]. }
  destruct l as [|b3 l]; [done|].
  intros [[[[-> ->]%andb_true_iff ->]%andb_true_iff ->]%andb_true_iff Hl]%andb_true_iff.
  exists 3. split_and!; [done|done|cbn; lia].
Qed.

Lemma utf8_lossy_valid fuel l :
  utf8_valid l = true -> length l <= fuel -> utf8_lossy fuel l = l.
Proof.
  revert l. induction fuel as [|fuel IH]; intros [|b l] Hv Hf; try done; [cbn in Hf; lia|].
  destruct (utf8_valid_width _ _ Hv) as (n & Hn & Hd & Hle). cbn [utf8_lossy]. rewrite Hn.
  cbn [take drop]. rewrite IH; [|done|].
  - by rewrite <- app_comm_cons, take_drop.
  - cbn in Hf. rewrite length_drop. lia.
Qed.

Lemma from_utf8_lossy_valid s : utf8_valid (as_bytes s) = true -> from_utf8_lossy (as_bytes s) = s.
Proof. intros Hv. unfold from_utf8_lossy. rewrite utf8_lossy_valid by done. apply string_of_as_bytes. Qed.

Lemma from_utf8_as_bytes s : utf8_valid (as_bytes s) = true -> from_utf8 (as_bytes s) = Some s.
Proof. intros H. unfold from_utf8. by rewrite H, string_of_as_bytes. Qed.

Lemma from_utf8_Some l s : from_utf8 l = Some s -> as_bytes s = l /\ utf8_valid l = true.
Proof.
  unfold from_utf8. case_match; [|done]. intros [= <-]. by rewrite as_bytes_string_of.
Qed.

Lemma is_ascii_not_continuation a : is_ascii a = true -> is_continuation a = false.
Proof.
  unfold is_ascii, is_continuation. intros H. apply N.ltb_lt in H.
  by replace (128 <=? N_of_ascii a)%N with false by (symmetry; apply N.leb_gt; lia).
Qed.

(** The characters of an ASCII string are its bytes. *)
Lemma chars_ascii s :
  str_forall is_ascii s = true -> chars s = (fun a => String a "") <$> list_ascii_of_string s.
Proof.
  induction s as [|a s IH]; [done|]. simpl. intros [Ha Hs]%andb_true_iff.
  specialize (IH Hs). destruct s as [|b s]; [done|].
  simpl in Hs. apply andb_true_iff in Hs as [Hb _].
  rewrite (is_ascii_not_continuation b Hb). by rewrite IH.
Qed.

Lemma str_forall_app p s t : str_forall p (s ++ t) = str_forall p s && str_forall p t.
Proof.
  induction s as [|a s IH]; [done|]. rewrite str_app_cons. simpl. by rewrite IH, andb_assoc.
Qed.

Lemma str_forall_impl (p q : ascii -> bool) s :
  (forall a, p a = true -> q a = true) -> str_forall p s = true -> str_forall q s = true.
Proof.
  intros H. induction s as [|a s IH]; [done|]. simpl.
  intros [Ha Hs]%andb_true_iff. by rewrite (H a Ha), IH.
Qed.

Lemma chars_cons_shape a s : exists x cs, chars (String a s) = String a x :: cs.
Proof.
  cbn [chars]. destruct s as [|b r]; [eauto|].
  destruct (is_continuation b); [|eauto]. destruct (chars _); eauto.
Qed.

(** The characters of a string make up the string. *)
Lemma str_join_chars s : str_join (chars s) = s.
Proof.
  induction s as [|a s IH]; [done|]. cbn [chars]. destruct s as [|b r]; [done|].
  destruct (is_continuation b).
  - destruct (chars_cons_shape b r) as (x & cs & Hc). rewrite Hc in *. cbn [str_join] in *.
    by rewrite str_app_cons, IH.
  - cbn [str_join] in *. by rewrite str_app_cons, IH.
Qed.

Lemma str_join_app l k : str_join (l ++ k)%list = str_join l ++ str_join k.
Proof. induction l as [|c l IH]; [done|]. simpl. by rewrite IH, str_app_assoc. Qed.

(** The single-byte characters of ASCII text. *)
Definition singles (s : string) : list string := (fun a => String a "") <$> list_ascii_of_string s.

Lemma singles_app s t : singles (s ++ t) = (singles s ++ singles t)%list.
Proof.
  induction s as [|a s IH]; [done|]. rewrite str_app_cons. unfold singles in *. csimpl.
  by rewrite IH.
Qed.

Lemma str_join_singles s : str_join (singles s) = s.
Proof.
  induction s as [|a s IH]; [done|]. unfold singles in *. csimpl. by rewrite IH.
Qed.

Lemma length_singles s : length (singles s) = String.length s.
Proof. induction s as [|a s IH]; [done|]. unfold singles in *. csimpl. by rewrite IH. Qed.

(** ASCII text is well-formed UTF-8. *)
Lemma ascii_utf8_valid s : str_forall is_ascii s = true -> utf8_valid (as_bytes s) = true.
Proof.
  induction s as [|a s IH]; [done|]. intros H. cbn [str_forall] in H.
  apply andb_true_iff in H as [Ha Hs]. rewrite utf8_valid_ascii_tail by done. auto.
Qed.

#[export] Hint Resolve ascii_utf8_valid from_utf8_as_bytes : openlv.
#[export] Hint Rewrite as_bytes_app length_as_bytes string_of_as_bytes as_bytes_string_of
  str_length_app : openlv.

Lemma starts_with_app p s : starts_with p (p ++ s) = true.
Proof.
  unfold starts_with. induction p as [|a p IH]; [by destruct s|].
  rewrite str_app_cons. cbn [String.prefix]. by destruct (ascii_dec a a).
Qed.

(** ** Hexadecimal text *)

Lemma hex_value_digit a :
  is_ascii_hexdigit a = true -> exists n, hex_value a = Some n /\ (n < 16)%N.
Proof.
  destruct a as [[] [] [] [] [] [] [] []]; try discriminate;
    intros _; eexists; split; reflexivity.
Qed.

Lemma hex_value_lowercase a : hex_value (ascii_lowercase a) = hex_value a.
Proof. by destruct a as [[] [] [] [] [] [] [] []]. Qed.

Lemma hexdigit_lowercase a :
  is_ascii_hexdigit a = true -> is_lower_hexdigit (ascii_lowercase a) = true.
Proof. by destruct a as [[] [] [] [] [] [] [] []]. Qed.

Lemma lower_hexdigit_hexdigit a : is_lower_hexdigit a = true -> is_ascii_hexdigit a = true.
Proof. by destruct a as [[] [] [] [] [] [] [] []]. Qed.

Lemma lower_hexdigit_lowercase a : is_lower_hexdigit a = true -> ascii_lowercase a = a.
Proof. by destruct a as [[] [] [] [] [] [] [] []]. Qed.

Lemma lower_hexdigit_ascii a : is_lower_hexdigit a = true -> is_ascii a = true.
Proof. by destruct a as [[] [] [] [] [] [] [] []]. Qed.

Lemma str_map_length f s : String.length (str_map f s) = String.length s.
Proof. induction s as [|a s IH]; simpl; [done|by rewrite IH]. Qed.

Lemma str_forall_map (p q : ascii -> bool) f s :
  (forall a, p a = true -> q (f a) = true) ->
  str_forall p s = true -> str_forall q (str_map f s) = true.
Proof.
  intros H. induction s as [|a s IH]; [done|]. simpl.
  intros [Ha Hs]%andb_true_iff. by rewrite (H a Ha), IH.
Qed.

Lemma to_ascii_lowercase_id s : str_forall is_lower_hexdigit s = true -> to_ascii_lowercase s = s.
Proof.
  induction s as [|a s IH]; [done|]. simpl. intros [Ha Hs]%andb_true_iff.
  unfold to_ascii_lowercase in *. simpl. by rewrite lower_hexdigit_lowercase, IH.
Qed.

Lemma u8_radix_16_pair a b :
  is_ascii_hexdigit a = true -> is_ascii_hexdigit b = true ->
  u8_from_str_radix_16 (String a (String b ""))
  = (x ← hex_value a; y ← hex_value b; Byte.of_N (x * 16 + y)).
Proof.
  intros Ha Hb. unfold u8_from_str_radix_16.
  assert (u8_from_str 16 hex_value (String a (String b ""))
          = u8_digits 16 hex_value 0 (String a (String b ""))) as ->.
  { clear Hb. by destruct a as [[] [] [] [] [] [] [] []]. }
  cbn [u8_digits].
  destruct (hex_value_digit a Ha) as (x & -> & Hx), (hex_value_digit b Hb) as (y & -> & Hy).
  cbn [mbind option_bind].
  replace (0 * 16 + x <? 256)%N with true by (symmetry; apply N.ltb_lt; lia).
  by replace ((0 * 16 + x) * 16 + y <? 256)%N with true by (symmetry; apply N.ltb_lt; lia).
Qed.

(** Two hexadecimal digits always make a byte. *)
Lemma u8_radix_16_pair_ok a b :
  is_ascii_hexdigit a = true -> is_ascii_hexdigit b = true ->
  exists x, u8_from_str_radix_16 (String a (String b "")) = Some x.
Proof.
  intros Ha Hb. rewrite u8_radix_16_pair by done.
  destruct (hex_value_digit a Ha) as (x & -> & Hx), (hex_value_digit b Hb) as (y & -> & Hy).
  cbn [mbind option_bind].
  destruct (Byte.of_N (x * 16 + y)) eqn:E; [eauto|]. apply Byte.of_N_None_iff in E. lia.
Qed.

Lemma u8_radix_16_format b : u8_from_str_radix_16 (format_02x b) = Some b.
Proof. by destruct b. Qed.

Lemma format_02x_hex b : str_forall is_lower_hexdigit (format_02x b) = true.
Proof. by destruct b. Qed.

Lemma hex_encode_cons b l : hex_encode (b :: l) = format_02x b ++ hex_encode l.
Proof. done. Qed.

Lemma hex_encode_hex l : str_forall is_lower_hexdigit (hex_encode l) = true.
Proof.
  induction l as [|b l IH]; [done|].
  by rewrite hex_encode_cons, str_forall_app, format_02x_hex, IH.
Qed.

Lemma hex_encode_length l : String.length (hex_encode l) = (2 * length l)%nat.
Proof.
  induction l as [|b l IH]; [done|]. rewrite hex_encode_cons, str_length_app, IH. simpl. lia.
Qed.

#[export] Hint Resolve hex_encode_hex : openlv.
