(* ===== verification/Errors.v ===== *)
(** * The error type of the library ([errors.rs]) *)
From S2P Require Import Prelude RustStr.
Local Open Scope string_scope.

Inductive OpenLvError : Type :=
| InvalidUri (m : string)
| Signaling (m : string)
| Transport (m : string)
| Session (m : string)
| SessionClosed
| RequestLimitReached
| Encryption (m : string)
| WireFrameError (m : string)
| ProtocolViolation (m : string)
| UnsupportedProtocol (m : string)
| NoConnection
| RequestTimeout (m : string)
| RequestFailed
| InvalidRequestTimeout
| ResponseChannelClosed
| Other (m : string).

#[export] Instance OpenLvError_eq_dec : EqDecision OpenLvError.
Proof. solve_decision. Defined.

(** [Result<T, OpenLvError>] *)
Abbreviation Result A := (Res OpenLvError A).

(** The [Display] that [thiserror] derives from the [#[error]] attributes. *)
Definition OpenLvError_to_string (e : OpenLvError) : string :=
  match e with
  | InvalidUri m => "invalid session URI: " ++ m
  | Signaling m => "signaling error: " ++ m
  | Transport m => "transport error: " ++ m
  | Session m => "session error: " ++ m
  | SessionClosed => "session is closed"
  | RequestLimitReached => "incoming request limit reached; request declined"
  | Encryption m => "encryption error: " ++ m
  | WireFrameError m => "invalid wire frame: " ++ m
  | ProtocolViolation m => "protocol violation: " ++ m
  | UnsupportedProtocol m => "unsupported signaling protocol: " ++ m
  | NoConnection => "no signaling connection"
  | RequestTimeout m => "request timed out: " ++ m
  | RequestFailed => "remote peer failed to handle the request"
  | InvalidRequestTimeout => "timeout exceeds supported range"
  | ResponseChannelClosed => "response channel closed"
  | Other m => m
  end.

(** [From<serde_json::Error>], given the error's text. *)
Definition from_json_error (text : string) : OpenLvError := Other text.

(** What a call into a third-party crate returns: a value, or an error of which
    the program only uses the text ([error.to_string()]). *)
Abbreviation LibResult A := (A + string)%type.

(** [lib_call().map_err(|error| OpenLvError::K(error.to_string()))] *)
Definition lib_err {A} (k : string -> OpenLvError) (r : LibResult A) : Result A :=
  match r with inl a => Ok a | inr text => Err (k text) end.
