(* ===== verification/Json.v ===== *)
(** * JSON values ([serde_json::Value])

    The public data type of [serde_json], with the operations the program
    applies to it. A [Map] is serde_json's default [BTreeMap]: the entries in
    the order of their keys. *)
From S2P Require Import Prelude RustStr.
Local Open Scope string_scope.

(** [serde_json::Number]: [u64], negative [i64], or a finite [f64] by its bits. *)
Inductive Number : Type :=
| PosInt (n : Z)
| NegInt (n : Z)
| Float (bits : Z).

#[export] Instance Number_eq_dec : EqDecision Number.
Proof. solve_decision. Defined.

Unset Elimination Schemes.
Inductive Value : Type :=
| Null
| Bool (b : bool)
| Num (n : Number)
| Str (s : string)
| Array (l : list Value)
| Object (m : list (string * Value)).
Set Elimination Schemes.

(** [Value::is_object], [Value::as_str] *)
Definition is_object (v : Value) : bool := match v with Object _ => true | _ => false end.
Definition as_str (v : Value) : option string := match v with Str s => Some s | _ => None end.

(** [Map::get] *)
Fixpoint map_get (k : string) (m : list (string * Value)) : option Value :=
  match m with
  | [] => None
  | (k', v) :: r => if String.eqb k k' then Some v else map_get k r
  end.

(** [Map::insert] into a [BTreeMap]: replaces, or inserts in key order. *)
Fixpoint map_insert (k : string) (v : Value) (m : list (string * Value)) : list (string * Value) :=
  match m with
  | [] => [(k, v)]
  | (k', v') :: r =>
      if String.eqb k k' then (k, v) :: r
      else if String.ltb k k' then (k, v) :: m
      else (k', v') :: map_insert k v r
  end.

(** [json!({...})] and [Serialize] for structs: the fields are inserted in turn. *)
Definition object (fields : list (string * Value)) : Value :=
  Object (fold_left (fun m kv => map_insert kv.1 kv.2 m) fields []).

(** [Value::get] with a string key: [None] unless the value is an object. *)
Definition value_get (k : string) (v : Value) : option Value :=
  match v with Object m => map_get k m | _ => None end.

(** [value[key]]: [Null] when there is no such member. *)
Definition value_index (k : string) (v : Value) : Value :=
  match value_get k v with Some x => x | None => Null end.

(** [f64 == f64] on finite numbers: the two zeros are equal. *)
Definition f64_eqb (a b : Z) : bool :=
  Z.eqb a b || (Z.eqb (a mod 2 ^ 63) 0 && Z.eqb (b mod 2 ^ 63) 0).

Definition number_eqb (a b : Number) : bool :=
  match a, b with
  | PosInt x, PosInt y => Z.eqb x y
  | NegInt x, NegInt y => Z.eqb x y
  | Float x, Float y => f64_eqb x y
  | _, _ => false
  end.

(** [Value == Value] *)
Fixpoint value_eqb (a b : Value) : bool :=
  match a, b with
  | Null, Null => true
  | Bool x, Bool y => Bool.eqb x y
  | Num x, Num y => number_eqb x y
  | Str x, Str y => String.eqb x y
  | Array x, Array y =>
      (fix go (x y : list Value) : bool :=
         match x, y with
         | [], [] => true
         | v :: x', w :: y' => value_eqb v w && go x' y'
         | _, _ => false
         end) x y
  | Object x, Object y =>
      (fix go (x y : list (string * Value)) : bool :=
         match x, y with
         | [], [] => true
         | (k, v) :: x', (l, w) :: y' => String.eqb k l && value_eqb v w && go x' y'
         | _, _ => false
         end) x y
  | _, _ => false
  end.

(** [Value == &str] *)
Definition value_eq_str (v : Value) (s : string) : bool :=
  match as_str v with Some t => String.eqb t s | None => false end.

(** ** Induction over nested values *)
Lemma Value_ind (P : Value -> Prop) :
  P Null -> (forall b, P (Bool b)) -> (forall n, P (Num n)) -> (forall s, P (Str s)) ->
  (forall l, Forall P l -> P (Array l)) ->
  (forall m, Forall (fun kv => P kv.2) m -> P (Object m)) ->
  forall v, P v.
Proof.
  intros HN HB Hn Hs HA HO. fix IH 1. intros [|b|n|s|l|m].
  - exact HN.
  - apply HB.
  - apply Hn.
  - apply Hs.
  - apply HA. induction l as [|v l IHl]; constructor; [apply IH|exact IHl].
  - apply HO. induction m as [|[k v] m IHm]; constructor; [apply IH|exact IHm].
Qed.

Lemma number_eqb_refl n : number_eqb n n = true.
Proof. destruct n; simpl; unfold f64_eqb; rewrite ?Z.eqb_refl; done. Qed.

(** [==] on values is reflexive: JSON has no NaN. *)
Lemma value_eqb_refl v : value_eqb v v = true.
Proof.
  induction v as [|b|n|s|l IH|m IH] using Value_ind; simpl.
  - done.
  - by destruct b.
  - apply number_eqb_refl.
  - apply String.eqb_refl.
  - induction IH as [|v l Hv _ IHl]; [done|]. by rewrite Hv.
  - induction IH as [|[k v] m Hv _ IHm]; [done|]. simpl in Hv.
    by rewrite String.eqb_refl, Hv.
Qed.

(** ** Maps *)
Lemma map_get_insert k v m : map_get k (map_insert k v m) = Some v.
Proof.
  induction m as [|[k' v'] m IH]; simpl; [by rewrite String.eqb_refl|].
  destruct (String.eqb_spec k k'); simpl; [by rewrite String.eqb_refl|].
  destruct (String.ltb k k'); simpl; [by rewrite String.eqb_refl|].
  by destruct (String.eqb_spec k k').
Qed.

Lemma map_get_insert_ne k k' v m : k <> k' -> map_get k (map_insert k' v m) = map_get k m.
Proof.
  intros Hne. induction m as [|[k1 v1] m IH]; simpl.
  - by destruct (String.eqb_spec k k').
  - destruct (String.eqb_spec k' k1); simpl.
    + subst. by destruct (String.eqb_spec k k1).
    + destruct (String.ltb k' k1); simpl.
      * by destruct (String.eqb_spec k k').
      * by rewrite IH.
Qed.
