(* ===== verification/Wire.v ===== *)
(** * Wire frames ([signaling/wire/mod.rs])

    A frame is one prefix character (which key encrypts the payload), one
    recipient character (the role that must read it) and the ciphertext. *)
From S2P Require Import Prelude RustStr Errors.
Local Open Scope string_scope.

Definition HANDSHAKE_PREFIX : string := "h".
Definition ENCRYPTED_PREFIX : string := "x".

Inductive WirePrefix : Type := Handshake | Encrypted.

Inductive WireRecipient : Type := Host | Client.

#[export] Instance WirePrefix_eq_dec : EqDecision WirePrefix.
Proof. solve_decision. Defined.
#[export] Instance WireRecipient_eq_dec : EqDecision WireRecipient.
Proof. solve_decision. Defined.

(** [WireRecipient::as_char]; a [char] is the string of its encoding. *)
Definition as_char (r : WireRecipient) : string :=
  match r with Host => "h" | Client => "c" end.

(** [WireRecipient::from_char] *)
Definition from_char (value : string) : option WireRecipient :=
  if String.eqb value "h" then Some Host
  else if String.eqb value "c" then Some Client
  else None.

(** [WireRecipient::for_role] *)
Definition for_role (is_host : bool) : WireRecipient := if is_host then Host else Client.

Record WireFrame : Type := mkWireFrame {
  prefix : WirePrefix;
  recipient : WireRecipient;
  ciphertext : string;
}.

#[export] Instance WireFrame_eq_dec : EqDecision WireFrame.
Proof. solve_decision. Defined.

Definition prefix_char (p : WirePrefix) : string :=
  match p with Handshake => HANDSHAKE_PREFIX | Encrypted => ENCRYPTED_PREFIX end.

Definition compose_frame (p : WirePrefix) (r : WireRecipient) (c : string) : string :=
  prefix_char p ++ as_char r ++ c.

Definition parse_frame (payload : string) : Result WireFrame :=
  if (str_len payload <? 2)%Z then Err (WireFrameError "wire frame is too short")
  else
    first ← slice_to payload 1;
    p ← (if String.eqb first HANDSHAKE_PREFIX then Ok Handshake
         else if String.eqb first ENCRYPTED_PREFIX then Ok Encrypted
         else Err (WireFrameError "invalid wire frame prefix"));
    c ← ok_or (chars payload !! 1%nat) (WireFrameError "invalid wire frame recipient");
    r ← ok_or (from_char c) (WireFrameError "invalid wire frame recipient");
    rest ← slice_from payload 2;
    Ok (mkWireFrame p r rest).

Definition is_recipient (frame : WireFrame) (is_host : bool) : bool :=
  bool_decide (recipient frame = for_role is_host).

(** ** Lemmas *)

Lemma str_length_2 s : (2 <= str_len s)%Z -> exists a b r, s = String a (String b r).
Proof.
  unfold str_len. destruct s as [|a [|b r]]; simpl; [lia..|]. eauto.
Qed.

Lemma prefix_char_cases a :
  (if String.eqb (String a "") HANDSHAKE_PREFIX then Ok Handshake
   else if String.eqb (String a "") ENCRYPTED_PREFIX then Ok Encrypted
   else Err (WireFrameError "invalid wire frame prefix"))
  = (if Ascii.eqb a "h" then Ok Handshake
     else if Ascii.eqb a "x" then Ok Encrypted
     else Err (WireFrameError "invalid wire frame prefix") : Result WirePrefix).
Proof.
  unfold HANDSHAKE_PREFIX, ENCRYPTED_PREFIX. simpl.
  by destruct (Ascii.eqb a "h"), (Ascii.eqb a "x").
Qed.

Lemma from_char_Some c r : from_char c = Some r <-> c = as_char r.
Proof.
  unfold from_char. destruct (String.eqb_spec c "h"), (String.eqb_spec c "c"), r;
    subst; simpl; split; congruence.
Qed.

Lemma slice_to_1 a b r :
  slice_to (E:=OpenLvError) (String a (String b r)) 1
  = if is_continuation b then Panic else Ok (String a "").
Proof. unfold slice_to, is_char_boundary. simpl. by destruct (is_continuation b), r. Qed.

(** The second character starts right after an ASCII first byte. *)
Lemma chars_second a b r :
  is_continuation b = false ->
  chars (String a (String b r)) !! 1%nat = chars (String b r) !! 0%nat.
Proof. intros Hb. cbn [chars]. by rewrite Hb. Qed.

Lemma chars_head a s : exists rest cs, chars (String a s) = String a rest :: cs.
Proof.
  cbn [chars]. destruct s as [|b r]; [eauto|].
  destruct (is_continuation b); [|eauto]. destruct (chars _); eauto.
Qed.

(** A character that is a single byte is followed by a character boundary. *)
Lemma chars_head_single a s cs :
  chars (String a s) = String a "" :: cs -> is_char_boundary (String a s) 1 = true.
Proof.
  cbn [chars]. unfold is_char_boundary. destruct s as [|b r]; [done|]. simpl.
  destruct (is_continuation b) eqn:Hb; [|done].
  destruct (chars_head b r) as (x & xs & Hc). cbn [chars] in Hc. rewrite Hc. discriminate.
Qed.

Lemma slice_from_2 a b r :
  is_char_boundary (String b r) 1 = true ->
  slice_from (E:=OpenLvError) (String a (String b r)) 2 = Ok r.
Proof.
  unfold slice_from, is_char_boundary. simpl.
  destruct r as [|c r]; simpl; [done|]. destruct (is_continuation c); [done|].
  intros _. by rewrite substring_full.
Qed.

(** [parse_frame] on a payload whose second character starts at byte 1. *)
Lemma parse_frame_ascii a b r :
  is_continuation b = false ->
  parse_frame (String a (String b r)) =
    p ← (if Ascii.eqb a "h" then Ok Handshake
         else if Ascii.eqb a "x" then Ok Encrypted
         else Err (WireFrameError "invalid wire frame prefix"));
    c ← ok_or (chars (String b r) !! 0%nat) (WireFrameError "invalid wire frame recipient");
    rc ← ok_or (from_char c) (WireFrameError "invalid wire frame recipient");
    rest ← slice_from (String a (String b r)) 2;
    Ok (mkWireFrame p rc rest).
Proof.
  intros Hb. unfold parse_frame.
  replace (str_len (String a (String b r)) <? 2)%Z with false
    by (symmetry; apply Z.ltb_ge; unfold str_len; simpl; lia).
  rewrite slice_to_1, Hb. cbn [mbind res_bind]. rewrite prefix_char_cases.
  destruct (Ascii.eqb a "h"); [|destruct (Ascii.eqb a "x"); [|done]];
    cbn [mbind res_bind]; by rewrite chars_second.
Qed.

Lemma parse_compose_frame p r c :
  utf8_valid (as_bytes c) = true -> parse_frame (compose_frame p r c) = Ok (mkWireFrame p r c).
Proof.
  intros Hc. set (pa := match p with Handshake => "h" | Encrypted => "x" end%char).
  set (ra := match r with Host => "h" | Client => "c" end%char).
  assert (compose_frame p r c = String pa (String ra c)) as -> by (by destruct p, r).
  assert (Hb : is_char_boundary (String ra c) 1 = true).
  { unfold is_char_boundary. destruct c as [|x c]; [done|]. simpl.
    by rewrite (utf8_valid_head _ _ Hc). }
  assert (chars (String ra c) !! 0%nat = Some (as_char r)) as Hh.
  { destruct c as [|x c]; [by destruct r|]. cbn [chars].
    rewrite (utf8_valid_head _ _ Hc). by destruct r. }
  rewrite parse_frame_ascii by (by destruct r). rewrite Hh, slice_from_2 by done.
  by destruct p, r.
Qed.

Lemma parse_frame_inv s f :
  parse_frame s = Ok f -> s = compose_frame (prefix f) (recipient f) (ciphertext f).
Proof.
  destruct (Z.ltb_spec (str_len s) 2) as [Hl|Hl].
  { unfold parse_frame. by replace (str_len s <? 2)%Z with true by (symmetry; lia). }
  apply str_length_2 in Hl as (a & b & r & ->).
  destruct (is_continuation b) eqn:Hb.
  { unfold parse_frame. rewrite slice_to_1, Hb. by destruct (_ <? _)%Z. }
  rewrite parse_frame_ascii by done. intros H. inv_res.
  all: match goal with H : from_char _ = Some _ |- _ => apply from_char_Some in H; subst end.
  all: destruct (chars_head b r) as (x0 & cs & Hc); rewrite Hc in *; simpl in *.
  all: match goal with H : Some _ = Some (as_char ?r) |- _ =>
         destruct r; injection H as -> ->; apply chars_head_single in Hc end.
  all: rewrite slice_from_2 in * by done; inv_res; simplify_eq.
  all: match goal with H : Ascii.eqb _ _ = true |- _ => apply Ascii.eqb_eq in H; subst; try done end.
Qed.

(** ** Properties *)

(** C40. Frames round trip: parsing a composed frame gives back its prefix, recipient
    and ciphertext, and every payload that parses is the composition of the frame
    it parsed to, so the two functions are inverse to each other. *)
Theorem parse_frame_compose_iff p r c s :
  utf8_valid (as_bytes c) = true ->
  parse_frame s = Ok (mkWireFrame p r c) <-> s = compose_frame p r c.
Proof.
  intros Hc. split; [|intros ->; by apply parse_compose_frame].
  intros H. by apply parse_frame_inv in H.
Qed.

Example parse_frame_compose_iff_witness :
  utf8_valid (as_bytes "abc123") = true /\
  (parse_frame "hcabc123" = Ok (mkWireFrame Handshake Client "abc123")
   <-> "hcabc123" = compose_frame Handshake Client "abc123").
Proof.
  split; [reflexivity|].
  apply (parse_frame_compose_iff Handshake Client "abc123" "hcabc123"). reflexivity.
Defined.

(** [parse_frame] panics exactly on the payloads of at least two bytes whose
    first character is not a single byte: the slice [payload[..1]] is taken
    before the prefix is checked, so a frame from the network that starts with a
    multi-byte character aborts the receiving task instead of being rejected. *)
Theorem parse_frame_panics_iff s :
  parse_frame s = Panic <->
  (2 <= str_len s)%Z /\ exists c, chars s !! 0%nat = Some c /\ String.length c <> 1%nat.
Proof.
  destruct (Z.ltb_spec (str_len s) 2) as [Hl|Hl].
  { unfold parse_frame. replace (str_len s <? 2)%Z with true by (symmetry; lia).
    split; [done|lia]. }
  apply str_length_2 in Hl as Hs. destruct Hs as (a & b & r & ->).
  destruct (is_continuation b) eqn:Hb.
  - split; intros _.
    + split; [done|]. cbn [chars]. rewrite Hb.
      destruct (chars_head b r) as (x & cs & Hc). cbn [chars] in Hc. rewrite Hc. simpl.
      eexists; split; [done|]. simpl. lia.
    + unfold parse_frame. rewrite slice_to_1, Hb.
      by replace (str_len (String a (String b r)) <? 2)%Z with false by (symmetry; lia).
  - split.
    + rewrite parse_frame_ascii by done. intros H.
      apply bind_Panic in H as [H|(p & _ & H)]; [by repeat case_match|].
      apply bind_Panic in H as [H|(c & Hc & H)]; [by apply ok_or_Panic in H|].
      apply bind_Panic in H as [H|(rc & Hr & H)]; [by apply ok_or_Panic in H|].
      apply bind_Panic in H as [H|(t & _ & H)]; [|done].
      apply ok_or_Ok in Hc, Hr. apply from_char_Some in Hr as ->.
      destruct (chars_head b r) as (x0 & cs & Hcs). rewrite Hcs in Hc. simpl in Hc.
      assert (x0 = "") as -> by (destruct rc; by injection Hc).
      apply chars_head_single in Hcs. by rewrite slice_from_2 in H.
    + intros (_ & c & Hc & Hlen). cbn [chars] in Hc. rewrite Hb in Hc. simpl in Hc.
      injection Hc as <-. simpl in Hlen. lia.
Qed.
