(* ===== verification/CryptoLib.v ===== *)
(** * The cryptographic primitives

    base64, SHA-256, X25519, HKDF and AES-GCM come from third-party crates: they
    are the operations of the class [CryptoLib], and [CryptoLaws] states what
    their documentation promises and the code relies on. Every theorem about
    encryption is proved for all instances. *)
From S2P Require Import Prelude RustStr Errors.

Class CryptoLib : Type := {
  (** [base64::engine::general_purpose::STANDARD] *)
  base64_encode : bytes -> string;
  base64_decode : string -> LibResult bytes;
  (** [sha2::Sha256] *)
  sha256 : bytes -> bytes;
  (** [x25519_dalek]: the public key of a secret, the shared secret of a secret
      and a public key, and [SharedSecret::was_contributory]. *)
  x25519_public : bytes -> bytes;
  x25519_diffie_hellman : bytes -> bytes -> bytes;
  was_contributory : bytes -> bool;
  (** [Hkdf::<Sha256>::new(None, ikm).expand(info, &mut okm)] for an output of
      the given length: [None] when that length is invalid. *)
  hkdf_sha256_expand : bytes -> bytes -> nat -> option bytes;
  (** [Aes256Gcm] with a key, a nonce and a message *)
  aes256gcm_encrypt : bytes -> bytes -> bytes -> LibResult bytes;
  aes256gcm_decrypt : bytes -> bytes -> bytes -> LibResult bytes;
  (** [Aes128Gcm::new_from_slice], then the cipher it returns *)
  aes128gcm_new_from_slice : bytes -> LibResult bytes;
  aes128gcm_encrypt : bytes -> bytes -> bytes -> LibResult bytes;
  aes128gcm_decrypt : bytes -> bytes -> bytes -> LibResult bytes;
  (** The texts of [FromUtf8Error] and [ParseIntError] *)
  from_utf8_error : bytes -> string;
  parse_int_error : string -> string;
}.

(** The plaintext limit of AES-GCM: 2^36 - 32 bytes. *)
Definition aes_gcm_max : Z := 2 ^ 36 - 32.

Class CryptoLaws `{CryptoLib} : Prop := {
  base64_decode_encode b : base64_decode (base64_encode b) = inl b;
  base64_encode_ascii b : str_forall is_ascii (base64_encode b) = true;
  base64_encode_nonempty b : b <> [] -> base64_encode b <> "";
  sha256_length b : length (sha256 b) = 32;
  x25519_public_length sk : length sk = 32 -> length (x25519_public sk) = 32;
  x25519_commutes a b :
    x25519_diffie_hellman a (x25519_public b) = x25519_diffie_hellman b (x25519_public a);
  hkdf_sha256_expand_32 ikm info : exists okm,
    hkdf_sha256_expand ikm info 32 = Some okm /\ length okm = 32;
  aes256gcm_encrypt_ok k n p : length k = 32 -> length n = 12 ->
    (Z.of_nat (length p) <= aes_gcm_max)%Z ->
    exists c, aes256gcm_encrypt k n p = inl c /\ length c = length p + 16;
  aes256gcm_decrypt_iff k n p c : length k = 32 -> length n = 12 ->
    aes256gcm_decrypt k n c = inl p <-> aes256gcm_encrypt k n p = inl c;
  aes128gcm_new_ok k : length k = 16 -> aes128gcm_new_from_slice k = inl k;
  aes128gcm_encrypt_ok k n p : length k = 16 -> length n = 12 ->
    (Z.of_nat (length p) <= aes_gcm_max)%Z ->
    exists c, aes128gcm_encrypt k n p = inl c /\ length c = length p + 16;
  aes128gcm_decrypt_iff k n p c : length k = 16 -> length n = 12 ->
    aes128gcm_decrypt k n c = inl p <-> aes128gcm_encrypt k n p = inl c;
}.

