(* ===== verification/CryptoModel.v ===== *)
(** * An instance of the cryptographic primitives

    A deliberately weak instance of [CryptoLib] that satisfies [CryptoLaws]: it
    shows that the laws are consistent, and the witnesses of the theorems are
    evaluated in it. Keys are 32 bytes, the shared secret is the exclusive or of
    the keys, and a ciphertext is the plaintext followed by a tag made of the
    nonce and the key. *)
From S2P Require Import Prelude RustStr Errors CryptoLib.
Local Open Scope string_scope.
Local Open Scope list_scope.

Module CryptoModel.

Definition zero : Byte.byte := Byte.x00.

(** Cut or fill to [n] bytes. *)
Definition pad (n : nat) (l : bytes) : bytes := take n (l ++ replicate n zero).

Definition byte_xor (a b : Byte.byte) : Byte.byte :=
  default zero (Byte.of_N (N.lxor (Byte.to_N a) (Byte.to_N b))).

Definition tag (k n : bytes) : bytes := pad 16 (n ++ k).

Definition seal (k n p : bytes) : LibResult bytes := inl (p ++ tag k n).

Definition open (k n c : bytes) : LibResult bytes :=
  let m := (length c - 16)%nat in
  if bool_decide (16 <= length c) && bool_decide (drop m c = tag k n)
  then inl (take m c) else inr "aead::Error".

Fixpoint hex_decode (s : string) : option bytes :=
  match s with
  | EmptyString => Some []
  | String a (String b r) =>
      x ← u8_from_str_radix_16 (String a (String b "")); (cons x) <$> hex_decode r
  | String a EmptyString => None
  end.

Definition decode (s : string) : LibResult bytes :=
  match hex_decode s with Some b => inl b | None => inr "Invalid symbol" end.

#[export] Instance lib : CryptoLib := {|
  base64_encode := hex_encode;
  base64_decode := decode;
  sha256 := pad 32;
  x25519_public sk := sk;
  x25519_diffie_hellman := zip_with byte_xor;
  was_contributory s := negb (forallb (fun b => bool_decide (b = zero)) s);
  hkdf_sha256_expand ikm info n := Some (pad n (ikm ++ info));
  aes256gcm_encrypt := seal;
  aes256gcm_decrypt := open;
  aes128gcm_new_from_slice k :=
    if bool_decide (length k = 16) then inl k else inr "Invalid Length";
  aes128gcm_encrypt := seal;
  aes128gcm_decrypt := open;
  from_utf8_error _ := "invalid utf-8 sequence";
  parse_int_error _ := "invalid digit found in string";
|}.

Lemma length_pad n l : length (pad n l) = n.
Proof. unfold pad. rewrite length_take, length_app, length_replicate. lia. Qed.

Lemma zip_xor_comm a b : zip_with byte_xor a b = zip_with byte_xor b a.
Proof.
  revert b. induction a as [|x a IH]; intros [|y b]; simpl; [done..|].
  unfold byte_xor at 1 3. by rewrite N.lxor_comm, IH.
Qed.

Lemma open_seal k n p c : open k n c = inl p <-> seal k n p = inl c.
Proof.
  unfold open, seal. split.
  - case_bool_decide as Hl; [|done]. case_bool_decide as Ht; [|done].
    intros [= <-]. f_equal. rewrite <- Ht. apply take_drop.
  - intros [= <-]. rewrite length_app. unfold tag. rewrite length_pad.
    replace (length p + 16 - 16)%nat with (length p) by lia.
    rewrite bool_decide_true by lia. rewrite drop_app_length, bool_decide_true by done.
    by rewrite take_app_length.
Qed.

Lemma hex_decode_encode b : hex_decode (hex_encode b) = Some b.
Proof.
  induction b as [|x b IH]; [done|].
  assert (hex_decode (hex_encode (x :: b))
    = (y ← u8_from_str_radix_16 (format_02x x); (cons y) <$> hex_decode (hex_encode b))) as -> by done.
  rewrite u8_radix_16_format. simpl. by rewrite IH.
Qed.

#[export] Instance laws : CryptoLaws.
Proof.
  split; simpl.
  - intros b. unfold decode. by rewrite hex_decode_encode.
  - intros b. eapply str_forall_impl; [apply lower_hexdigit_ascii|apply hex_encode_hex].
  - by intros [|x b].
  - intros b. apply length_pad.
  - done.
  - intros. apply zip_xor_comm.
  - intros. eexists; split; [done|apply length_pad].
  - intros k n p _ _ _. eexists; split; [done|]. rewrite length_app. unfold tag.
    by rewrite length_pad.
  - intros. apply open_seal.
  - intros k Hk. by rewrite bool_decide_true.
  - intros k n p _ _ _. eexists; split; [done|]. rewrite length_app. unfold tag.
    by rewrite length_pad.
  - intros. apply open_seal.
Qed.

End CryptoModel.
