(* ===== verification/Encryption.v ===== *)
(** * Encryption ([encryption/])

    The handshake key (AES-128-GCM under the key of the connection URL), the
    peer keys (X25519, HKDF-SHA256 and AES-256-GCM) and the hash that binds the
    connection URL to the host's public key. The primitives are those of the
    class [CryptoLib]; random bytes are arguments. *)
From S2P Require Import Prelude RustStr Errors CryptoLib CryptoModel.
Local Open Scope string_scope.
Local Open Scope list_scope.

Section encryption.
Context `{CryptoLib}.

(** [to_base64], [from_base64] *)
Definition to_base64 (data : bytes) : string := base64_encode data.
Definition from_base64 (value : string) : Result bytes :=
  lib_err Encryption (base64_decode value).

(** [String::from_utf8(plaintext).map_err(...)] *)
Definition plaintext_to_string (plaintext : bytes) : Result string :=
  match from_utf8 plaintext with
  | Some s => Ok s
  | None => Err (Encryption (from_utf8_error plaintext))
  end.

(** ** The handshake key ([handshake/mod.rs]) *)

Definition IV_LENGTH : nat := 12.

(** The cipher is represented by its key. *)
Record HandshakeKey : Type := mkHandshakeKey {
  hex : string;
  cipher : bytes;
}.

(** The loop over [hex.as_bytes().chunks(2)]. *)
Fixpoint parse_hex_chunks (s : string) : Result bytes :=
  match s with
  | EmptyString => Ok []
  | String a EmptyString =>
      b ← ok_or (u8_from_str_radix_16 s) (Encryption (parse_int_error s)); Ok [b]
  | String a (String a' r) =>
      let chunk := String a (String a' EmptyString) in
      b ← ok_or (u8_from_str_radix_16 chunk) (Encryption (parse_int_error chunk));
      bs ← parse_hex_chunks r;
      Ok (b :: bs)
  end.

(** [HandshakeKey::from_hex] *)
Definition from_hex (h : string) : Result HandshakeKey :=
  if negb (str_len h =? 32)%Z || negb (str_forall is_ascii_hexdigit h)
  then Err (Encryption "handshake key must be 32 lowercase hex characters")
  else
    key_bytes ← parse_hex_chunks h;
    c ← lib_err Encryption (aes128gcm_new_from_slice key_bytes);
    Ok (mkHandshakeKey (to_ascii_lowercase h) c).

(** [HandshakeKey::generate], with the 16 random bytes. *)
Definition handshake_generate (key_bytes : bytes) : Result HandshakeKey :=
  from_hex (hex_encode key_bytes).

(** [HandshakeKey == HandshakeKey] *)
Definition handshake_key_eqb (a b : HandshakeKey) : bool := String.eqb (hex a) (hex b).

(** [HandshakeKey::encrypt], with the random initialisation vector. *)
Definition handshake_encrypt (key : HandshakeKey) (iv : bytes) (message : string) : Result string :=
  encrypted ← lib_err Encryption (aes128gcm_encrypt (cipher key) iv (as_bytes message));
  Ok (to_base64 (iv ++ encrypted)).

(** [HandshakeKey::decrypt] *)
Definition handshake_decrypt (key : HandshakeKey) (message : string) : Result string :=
  combined ← from_base64 message;
  if (length combined <? IV_LENGTH)%nat
  then Err (Encryption "encrypted payload is too short")
  else
    plaintext ← lib_err Encryption
      (aes128gcm_decrypt (cipher key) (take IV_LENGTH combined) (drop IV_LENGTH combined));
    plaintext_to_string plaintext.

(** ** Peer keys ([asymmetric/mod.rs]) *)

Definition PUBLIC_KEY_BYTES : nat := 32.
Definition NONCE_BYTES : nat := 12.
Definition KEY_INFO : bytes := byte_literal "openlv/1 peer-key".

Record EncryptionKey : Type := mkEncryptionKey {
  public_key : bytes;
  serialized : string;
}.

Record DecryptionKey : Type := mkDecryptionKey {
  secret_key : bytes;
  dk_public_key : bytes;
  dk_serialized : string;
}.

(** [fmt::Debug] of the keys: [debug_struct(..).finish_non_exhaustive()], nothing of the
    key itself. *)
Definition EncryptionKey_debug (k : EncryptionKey) : string := "EncryptionKey { .. }".
Definition DecryptionKey_debug (k : DecryptionKey) : string := "DecryptionKey { .. }".

Record KeyPair : Type := mkKeyPair {
  encryption_key : EncryptionKey;
  decryption_key : DecryptionKey;
}.

(** [EncryptionKey::from_base64] *)
Definition encryption_key_from_base64 (s : string) : Result EncryptionKey :=
  b ← from_base64 s;
  if negb (length b =? PUBLIC_KEY_BYTES)%nat
  then Err (Encryption "public key must be 32 bytes")
  else Ok (mkEncryptionKey b s).

(** [EncryptionKey::from_ciphertext]: the sender's key, the head of a payload. *)
Definition from_ciphertext (c : string) : Result EncryptionKey :=
  b ← from_base64 c;
  if (length b <? PUBLIC_KEY_BYTES)%nat
  then Err (Encryption "encrypted payload is malformed")
  else encryption_key_from_base64 (to_base64 (take PUBLIC_KEY_BYTES b)).

(** [DecryptionKey::from_base64] *)
Definition decryption_key_from_base64 (s : string) : Result DecryptionKey :=
  b ← from_base64 s;
  if negb (length b =? PUBLIC_KEY_BYTES)%nat
  then Err (Encryption "secret key must be 32 bytes")
  else Ok (mkDecryptionKey b (x25519_public b) s).

(** [DecryptionKey::cipher]: the AES-256 key shared with a peer for one
    direction. *)
Definition peer_cipher (self : DecryptionKey) (peer_public_key info : bytes) : Result bytes :=
  if negb (length peer_public_key =? PUBLIC_KEY_BYTES)%nat
  then Err (Encryption "public key must be 32 bytes")
  else
    let shared_secret := x25519_diffie_hellman (secret_key self) peer_public_key in
    if negb (was_contributory shared_secret)
    then Err (Encryption "peer public key yields an all-zero shared secret")
    else expect (hkdf_sha256_expand shared_secret info 32).

(** [[KEY_INFO, sender, receiver].concat()] *)
Definition key_info (sender receiver : bytes) : bytes := KEY_INFO ++ sender ++ receiver.

(** [DecryptionKey::encrypt], with the random nonce. *)
Definition peer_encrypt (self : DecryptionKey) (nonce : bytes) (message : string)
    (peer : EncryptionKey) : Result string :=
  key ← peer_cipher self (public_key peer) (key_info (dk_public_key self) (public_key peer));
  encrypted ← lib_err Encryption (aes256gcm_encrypt key nonce (as_bytes message));
  Ok (to_base64 (dk_public_key self ++ nonce ++ encrypted)).

(** [DecryptionKey::decrypt] *)
Definition peer_decrypt (self : DecryptionKey) (message : string)
    (peer : option EncryptionKey) : Result string :=
  if String.eqb message "" then Err (Encryption "cannot decrypt an empty payload")
  else
    b ← from_base64 message;
    if (length b <=? PUBLIC_KEY_BYTES + NONCE_BYTES)%nat
    then Err (Encryption "encrypted payload is malformed")
    else
      let sender := take PUBLIC_KEY_BYTES b in
      let rest := drop PUBLIC_KEY_BYTES b in
      let nonce := take NONCE_BYTES rest in
      let encrypted := drop NONCE_BYTES rest in
      if match peer with Some k => negb (bool_decide (public_key k = sender)) | None => false end
      then Err (Encryption "sender key does not match the peer key")
      else
        key ← peer_cipher self sender (key_info sender (dk_public_key self));
        plaintext ← lib_err Encryption (aes256gcm_decrypt key nonce encrypted);
        plaintext_to_string plaintext.

(** [KeyPair::generate], with the 32 random bytes. *)
Definition key_pair_generate (secret : bytes) : Result KeyPair :=
  let public := x25519_public secret in
  Ok (mkKeyPair (mkEncryptionKey public (to_base64 public))
                (mkDecryptionKey secret public (to_base64 secret))).

(** [parse_encryption_key] *)
Definition parse_encryption_key (s : string) : Result EncryptionKey := encryption_key_from_base64 s.

(** ** The hash of a public key ([hash/mod.rs]) *)

Definition HASH_LENGTH : nat := 16.

(** [hash_hex.chars().take(n).collect()] *)
Definition chars_take (n : nat) (s : string) : string := str_join (take n (chars s)).

Definition hash_public_key (key : EncryptionKey) : string :=
  chars_take HASH_LENGTH (hex_encode (sha256 (public_key key))).

Definition validate_public_key_hash (key : EncryptionKey) (expected_hash : string) : Result bool :=
  Ok (String.eqb (hash_public_key key) expected_hash).

Record InitHash : Type := mkInitHash { hash : string; init_is_host : bool }.

Definition init_hash (initial_hash : option string) (key : EncryptionKey) : Result InitHash :=
  let our_hash := hash_public_key key in
  let h := default our_hash initial_hash in
  Ok (mkInitHash h (String.eqb h our_hash)).

End encryption.

(** ** Well-formedness *)

Section encryption_wf.
Context `{CryptoLib}.

Definition encryption_key_wf (k : EncryptionKey) : Prop := length (public_key k) = PUBLIC_KEY_BYTES.

Definition decryption_key_wf (d : DecryptionKey) : Prop :=
  length (secret_key d) = PUBLIC_KEY_BYTES /\ dk_public_key d = x25519_public (secret_key d).

Definition handshake_key_wf (k : HandshakeKey) : Prop :=
  String.length (hex k) = 32 /\ str_forall is_lower_hexdigit (hex k) = true /\
  parse_hex_chunks (hex k) = Ok (cipher k) /\ length (cipher k) = 16.

(** The pair of a public key and the secret behind it. *)
Definition key_pair_wf (kp : KeyPair) : Prop :=
  decryption_key_wf (decryption_key kp) /\
  public_key (encryption_key kp) = dk_public_key (decryption_key kp) /\
  serialized (encryption_key kp) = to_base64 (public_key (encryption_key kp)).

End encryption_wf.

(** ** Lemmas *)

Section encryption_lemmas.
Context `{CryptoLaws}.
Implicit Types (k : HandshakeKey) (d : DecryptionKey) (e : EncryptionKey).

Lemma from_to_base64 b : from_base64 (to_base64 b) = Ok b.
Proof. unfold from_base64, to_base64. by rewrite base64_decode_encode. Qed.

Lemma plaintext_to_string_as_bytes s :
  utf8_valid (as_bytes s) = true -> plaintext_to_string (as_bytes s) = Ok s.
Proof. intros Hs. unfold plaintext_to_string. by rewrite from_utf8_as_bytes. Qed.

Lemma plaintext_to_string_Ok b s : plaintext_to_string b = Ok s -> b = as_bytes s.
Proof.
  unfold plaintext_to_string. destruct (from_utf8 b) eqn:E; [|done]. intros [= <-].
  by apply from_utf8_Some in E as [-> _].
Qed.

Lemma parse_hex_chunks_cons2 a b r :
  parse_hex_chunks (String a (String b r)) =
    x ← ok_or (u8_from_str_radix_16 (String a (String b "")))
              (Encryption (parse_int_error (String a (String b ""))));
    xs ← parse_hex_chunks r; Ok (x :: xs).
Proof. done. Qed.

Lemma parse_hex_chunks_ok n s :
  String.length s = (2 * n)%nat -> str_forall is_ascii_hexdigit s = true ->
  exists l, parse_hex_chunks s = Ok l /\ length l = n.
Proof.
  revert s. induction n as [|n IH]; intros [|a [|b r]]; simpl String.length; try lia.
  - by exists [].
  - intros Hl Hh. cbn [str_forall] in Hh. apply andb_true_iff in Hh as [Ha Hh].
    apply andb_true_iff in Hh as [Hb Hr].
    destruct (u8_radix_16_pair_ok a b Ha Hb) as (x & Hx).
    destruct (IH r) as (l & Hp & Hn); [lia|done|].
    exists (x :: l). rewrite parse_hex_chunks_cons2, Hx. cbn [ok_or mbind res_bind].
    rewrite Hp. simpl. auto.
Qed.

Lemma parse_hex_chunks_lowercase n s :
  String.length s = (2 * n)%nat -> str_forall is_ascii_hexdigit s = true ->
  parse_hex_chunks (to_ascii_lowercase s) = parse_hex_chunks s.
Proof.
  revert s. induction n as [|n IH]; intros [|a [|b r]]; simpl String.length; try lia; [done|].
  intros Hl Hh. cbn [str_forall] in Hh. apply andb_true_iff in Hh as [Ha Hh].
  apply andb_true_iff in Hh as [Hb Hr].
  assert (Hlow : forall x, is_ascii_hexdigit x = true ->
            is_ascii_hexdigit (ascii_lowercase x) = true)
    by eauto using hexdigit_lowercase, lower_hexdigit_hexdigit.
  unfold to_ascii_lowercase in *. cbn [str_map].
  rewrite !parse_hex_chunks_cons2, (IH r) by (done || lia).
  destruct (u8_radix_16_pair_ok a b Ha Hb) as (x & Hx).
  rewrite (u8_radix_16_pair (ascii_lowercase a)) by auto.
  rewrite !hex_value_lowercase, <- u8_radix_16_pair by done. by rewrite Hx.
Qed.

Lemma parse_hex_chunks_encode l : parse_hex_chunks (hex_encode l) = Ok l.
Proof.
  induction l as [|b l IH]; [done|].
  assert (hex_encode (b :: l) = String (hex_digit (Byte.to_N b / 16))
           (String (hex_digit (Byte.to_N b mod 16)) (hex_encode l))) as -> by done.
  rewrite parse_hex_chunks_cons2. fold (format_02x b). rewrite u8_radix_16_format.
  cbn [ok_or mbind res_bind]. by rewrite IH.
Qed.

Lemma from_hex_guard h :
  negb (str_len h =? 32)%Z || negb (str_forall is_ascii_hexdigit h) = false <->
  String.length h = 32 /\ str_forall is_ascii_hexdigit h = true.
Proof.
  rewrite orb_false_iff, !negb_false_iff, Z.eqb_eq. unfold str_len. split; intros [??]; split; auto; lia.
Qed.

(** [from_hex] on the texts it accepts. *)
Lemma from_hex_ok h :
  String.length h = 32 -> str_forall is_ascii_hexdigit h = true ->
  exists c, parse_hex_chunks h = Ok c /\ length c = 16 /\
    from_hex h = Ok (mkHandshakeKey (to_ascii_lowercase h) c).
Proof.
  intros Hl Hh. destruct (parse_hex_chunks_ok 16 h Hl Hh) as (c & Hc & Hn).
  exists c. split_and!; [done..|]. unfold from_hex.
  destruct (from_hex_guard h) as [_ ->]; [|done]. rewrite Hc.
  cbn [mbind res_bind]. by rewrite aes128gcm_new_ok.
Qed.

Lemma from_hex_wf h k : from_hex h = Ok k -> handshake_key_wf k.
Proof.
  intros Hk. unfold from_hex in Hk.
  destruct (negb _ || _) eqn:G; [done|]. apply from_hex_guard in G as [Hl Hh].
  destruct (from_hex_ok h Hl Hh) as (c & Hc & Hn & Hf).
  rewrite Hc in Hk. cbn [mbind res_bind] in Hk. rewrite aes128gcm_new_ok in Hk by done.
  cbn in Hk. simplify_eq. unfold handshake_key_wf. simpl. split_and!.
  - unfold to_ascii_lowercase. by rewrite str_map_length.
  - eapply str_forall_map; [|done]. apply hexdigit_lowercase.
  - by rewrite (parse_hex_chunks_lowercase 16).
  - done.
Qed.

Lemma take_app_exact {A} (l r : list A) n : length l = n -> take n (l ++ r) = l.
Proof. intros <-. apply take_app_length. Qed.

Lemma drop_app_exact {A} (l r : list A) n : length l = n -> drop n (l ++ r) = r.
Proof. intros <-. apply drop_app_length. Qed.

Lemma handshake_decrypt_encrypt k iv m c :
  handshake_key_wf k -> length iv = IV_LENGTH -> utf8_valid (as_bytes m) = true ->
  handshake_encrypt k iv m = Ok c -> handshake_decrypt k c = Ok m.
Proof.
  intros (_ & _ & _ & Hk) Hiv Hm He. unfold handshake_encrypt in He.
  destruct (aes128gcm_encrypt _ _ _) as [ct|] eqn:Hct; [|done]. cbn in He. injection He as <-.
  unfold handshake_decrypt. rewrite from_to_base64. cbn [mbind res_bind].
  replace (length (iv ++ ct) <? IV_LENGTH)%nat with false
    by (symmetry; apply Nat.ltb_ge; rewrite length_app; lia).
  rewrite take_app_exact, drop_app_exact by done.
  apply aes128gcm_decrypt_iff in Hct; [|done..]. rewrite Hct. cbn [lib_err mbind res_bind].
  by apply plaintext_to_string_as_bytes.
Qed.

Lemma handshake_encrypt_ok k iv m :
  handshake_key_wf k -> length iv = IV_LENGTH -> (str_len m <= aes_gcm_max)%Z ->
  exists c, handshake_encrypt k iv m = Ok c.
Proof.
  intros (_ & _ & _ & Hk) Hiv Hm. unfold handshake_encrypt.
  destruct (aes128gcm_encrypt_ok (cipher k) iv (as_bytes m)) as (ct & -> & _); [done..| |].
  - by rewrite length_as_bytes.
  - simpl. eauto.
Qed.

(** ** Peer keys *)

Lemma peer_cipher_ok d pk info :
  length pk = PUBLIC_KEY_BYTES ->
  was_contributory (x25519_diffie_hellman (secret_key d) pk) = true ->
  exists key, peer_cipher d pk info = Ok key /\ length key = 32 /\
    hkdf_sha256_expand (x25519_diffie_hellman (secret_key d) pk) info 32 = Some key.
Proof.
  intros Hl Hc. unfold peer_cipher. rewrite Hl, Nat.eqb_refl. cbn [negb]. rewrite Hc.
  destruct (hkdf_sha256_expand_32 (x25519_diffie_hellman (secret_key d) pk) info) as (o & Ho & Hn).
  rewrite Ho. cbn. eauto.
Qed.

Lemma peer_cipher_inv d pk info key :
  peer_cipher d pk info = Ok key ->
  length pk = PUBLIC_KEY_BYTES /\
  was_contributory (x25519_diffie_hellman (secret_key d) pk) = true /\
  length key = 32 /\
  hkdf_sha256_expand (x25519_diffie_hellman (secret_key d) pk) info 32 = Some key.
Proof.
  unfold peer_cipher. destruct (Nat.eqb_spec (length pk) PUBLIC_KEY_BYTES); [|done]. cbn [negb].
  destruct (was_contributory _); [|done]. cbn [negb].
  destruct (hkdf_sha256_expand_32 (x25519_diffie_hellman (secret_key d) pk) info) as (o & Ho & Hn).
  rewrite Ho. cbn. intros [= <-]. auto.
Qed.

(** The two ends of a pair derive the same key for the same direction. *)
Lemma peer_cipher_agree a b info :
  decryption_key_wf a -> decryption_key_wf b ->
  peer_cipher a (dk_public_key b) info = peer_cipher b (dk_public_key a) info.
Proof.
  intros [Ha Hpa] [Hb Hpb]. unfold peer_cipher.
  rewrite Hpa, Hpb, !x25519_public_length by done. cbn.
  by rewrite (x25519_commutes (secret_key a) (secret_key b)).
Qed.

Lemma dk_public_key_length d : decryption_key_wf d -> length (dk_public_key d) = PUBLIC_KEY_BYTES.
Proof. intros [Hs ->]. by apply x25519_public_length. Qed.

(** A payload split at its fixed offsets. *)
Lemma payload_split (pk nonce ct : bytes) :
  length pk = PUBLIC_KEY_BYTES -> length nonce = NONCE_BYTES ->
  let b := (pk ++ nonce ++ ct) in
  take PUBLIC_KEY_BYTES b = pk /\
  take NONCE_BYTES (drop PUBLIC_KEY_BYTES b) = nonce /\
  drop NONCE_BYTES (drop PUBLIC_KEY_BYTES b) = ct.
Proof.
  intros Hp Hn. cbn zeta. rewrite (take_app_exact pk), (drop_app_exact pk) by done.
  by rewrite take_app_exact, drop_app_exact.
Qed.

Lemma peer_encrypt_inv d nonce m e c :
  peer_encrypt d nonce m e = Ok c ->
  exists key ct,
    peer_cipher d (public_key e) (key_info (dk_public_key d) (public_key e)) = Ok key /\
    aes256gcm_encrypt key nonce (as_bytes m) = inl ct /\
    c = to_base64 (dk_public_key d ++ nonce ++ ct).
Proof.
  unfold peer_encrypt. intros Hc. apply bind_Ok in Hc as (key & Hk & Hc).
  apply bind_Ok in Hc as (ct & Hct & Hc). injection Hc as <-.
  destruct (aes256gcm_encrypt _ _ _) eqn:E; [|done]. injection Hct as ->. eauto.
Qed.

(** What [peer_encrypt] produces is longer than its fixed part. *)
Lemma peer_ciphertext_length d nonce m key ct :
  length key = 32 -> length nonce = NONCE_BYTES -> decryption_key_wf d ->
  aes256gcm_encrypt key nonce (as_bytes m) = inl ct -> (str_len m <= aes_gcm_max)%Z ->
  (PUBLIC_KEY_BYTES + NONCE_BYTES < length (dk_public_key d ++ nonce ++ ct))%nat.
Proof.
  intros Hk Hn Hd Hct Hm.
  destruct (aes256gcm_encrypt_ok key nonce (as_bytes m)) as (ct' & Hct' & Hl);
    [done..|by rewrite length_as_bytes|].
  rewrite Hct in Hct'. injection Hct' as <-.
  rewrite !length_app, dk_public_key_length, Hn, Hl by done. lia.
Qed.

End encryption_lemmas.

Section encryption_results.
Context `{CryptoLaws}.

(** Decrypting what the peer's key encrypted. *)
Lemma peer_decrypt_encrypt a b nonce m c e peer :
  decryption_key_wf a -> decryption_key_wf b -> length nonce = NONCE_BYTES ->
  utf8_valid (as_bytes m) = true -> (str_len m <= aes_gcm_max)%Z ->
  public_key e = dk_public_key b ->
  (forall k, peer = Some k -> public_key k = dk_public_key a) ->
  peer_encrypt a nonce m e = Ok c -> peer_decrypt b c peer = Ok m.
Proof.
  intros Ha Hb Hn Hu Hm He Hpeer Hc.
  apply peer_encrypt_inv in Hc as (key & ct & Hk & Hct & ->). rewrite He in Hk.
  assert (Hkl := peer_cipher_inv _ _ _ _ Hk). destruct Hkl as (_ & _ & Hkl & _).
  assert (Hlen := peer_ciphertext_length a nonce m key ct Hkl Hn Ha Hct Hm).
  unfold peer_decrypt. set (b0 := dk_public_key a ++ nonce ++ ct) in *.
  destruct (String.eqb_spec (to_base64 b0) "") as [E|_].
  { exfalso. apply (base64_encode_nonempty b0); [|done].
    intros E0. rewrite E0 in Hlen. simpl in Hlen. lia. }
  rewrite from_to_base64. cbn [mbind res_bind].
  replace (length b0 <=? PUBLIC_KEY_BYTES + NONCE_BYTES)%nat with false
    by (symmetry; apply Nat.leb_gt; done).
  unfold b0. destruct (payload_split (dk_public_key a) nonce ct) as (-> & -> & ->);
    [by apply dk_public_key_length|done|].
  assert (match peer with
          | Some k => negb (bool_decide (public_key k = dk_public_key a))
          | None => false end = false) as ->.
  { destruct peer as [k|]; [|done]. by rewrite bool_decide_true by auto. }
  rewrite (peer_cipher_agree b a) by done. rewrite Hk. cbn [mbind res_bind].
  apply aes256gcm_decrypt_iff in Hct; [|done..]. rewrite Hct. cbn [lib_err mbind res_bind].
  by apply plaintext_to_string_as_bytes.
Qed.

Lemma peer_encrypt_ok a nonce m e :
  length nonce = NONCE_BYTES -> (str_len m <= aes_gcm_max)%Z -> encryption_key_wf e ->
  was_contributory (x25519_diffie_hellman (secret_key a) (public_key e)) = true ->
  exists c, peer_encrypt a nonce m e = Ok c.
Proof.
  intros Hn Hm He Hc. unfold peer_encrypt.
  destruct (peer_cipher_ok a (public_key e) (key_info (dk_public_key a) (public_key e)) He Hc)
    as (key & -> & Hl & _).
  cbn [mbind res_bind].
  destruct (aes256gcm_encrypt_ok key nonce (as_bytes m)) as (ct & -> & _);
    [done..|by rewrite length_as_bytes|]. simpl. eauto.
Qed.

(** The sender recorded in a payload that [peer_encrypt] produced. *)
Lemma from_ciphertext_encrypt a nonce m e c :
  decryption_key_wf a -> peer_encrypt a nonce m e = Ok c ->
  from_ciphertext c = Ok (mkEncryptionKey (dk_public_key a) (to_base64 (dk_public_key a))).
Proof.
  intros Ha Hc. apply peer_encrypt_inv in Hc as (key & ct & _ & _ & ->).
  unfold from_ciphertext. rewrite from_to_base64. cbn [mbind res_bind].
  replace (length (dk_public_key a ++ nonce ++ ct) <? PUBLIC_KEY_BYTES)%nat with false.
  2: { symmetry. apply Nat.ltb_ge. rewrite length_app, dk_public_key_length by done. lia. }
  rewrite take_app_exact by (by apply dk_public_key_length).
  unfold encryption_key_from_base64. rewrite from_to_base64. cbn [mbind res_bind].
  by rewrite dk_public_key_length.
Qed.

(** What an accepted payload consists of. *)
Lemma peer_decrypt_inv d msg peer m :
  peer_decrypt d msg peer = Ok m ->
  exists sender nonce ct key,
    from_base64 msg = Ok (sender ++ nonce ++ ct) /\
    length sender = PUBLIC_KEY_BYTES /\ length nonce = NONCE_BYTES /\
    (forall k, peer = Some k -> public_key k = sender) /\
    peer_cipher d sender (key_info sender (dk_public_key d)) = Ok key /\
    aes256gcm_encrypt key nonce (as_bytes m) = inl ct.
Proof.
  unfold peer_decrypt. destruct (String.eqb msg ""); [done|]. intros Hd.
  apply bind_Ok in Hd as (b & Hb & Hd).
  destruct (Nat.leb_spec (length b) (PUBLIC_KEY_BYTES + NONCE_BYTES)) as [|Hl]; [done|].
  destruct (match peer with Some _ => _ | None => _ end) eqn:Hp; [done|].
  apply bind_Ok in Hd as (key & Hk & Hd). apply bind_Ok in Hd as (pt & Hpt & Hd).
  apply plaintext_to_string_Ok in Hd as ->.
  exists (take PUBLIC_KEY_BYTES b), (take NONCE_BYTES (drop PUBLIC_KEY_BYTES b)),
    (drop NONCE_BYTES (drop PUBLIC_KEY_BYTES b)), key.
  assert (length (take NONCE_BYTES (drop PUBLIC_KEY_BYTES b)) = NONCE_BYTES) as Hn.
  { rewrite length_take, length_drop. lia. }
  split_and!; try done.
  - rewrite !take_drop. done.
  - rewrite length_take. lia.
  - intros k ->. apply negb_false_iff, bool_decide_eq_true in Hp. done.
  - destruct (peer_cipher_inv _ _ _ _ Hk) as (_ & _ & Hkl & _).
    apply aes256gcm_decrypt_iff; [done..|].
    destruct (aes256gcm_decrypt _ _ _) eqn:E; [|done]. by injection Hpt as ->.
Qed.

Lemma hash_chars b : sha256 b <> [] ->
  chars_take HASH_LENGTH (hex_encode (sha256 b)) = substring 0 16 (hex_encode (sha256 b)).
Proof.
  intros _. assert (Hl : String.length (hex_encode (sha256 b)) = 64)
    by (by rewrite hex_encode_length, sha256_length).
  unfold chars_take. rewrite chars_ascii
    by (eapply str_forall_impl; [apply lower_hexdigit_ascii|apply hex_encode_hex]).
  generalize dependent (hex_encode (sha256 b)). intros s Hl.
  do 17 (destruct s as [|? s]; [simpl in Hl; lia|]). done.
Qed.

(** The hash of a key is 16 lowercase hexadecimal digits. *)
Lemma hash_public_key_hex e :
  String.length (hash_public_key e) = HASH_LENGTH /\
  str_forall is_lower_hexdigit (hash_public_key e) = true.
Proof.
  assert (Hs : sha256 (public_key e) <> []).
  { intros E. assert (Hl := sha256_length (public_key e)). by rewrite E in Hl. }
  unfold hash_public_key. rewrite hash_chars by done.
  assert (Hh := hex_encode_hex (sha256 (public_key e))).
  assert (Hl : String.length (hex_encode (sha256 (public_key e))) = 64)
    by (by rewrite hex_encode_length, sha256_length).
  generalize dependent (hex_encode (sha256 (public_key e))). intros s Hh Hl.
  do 16 (destruct s as [|? s]; [simpl in Hl; lia|]). simpl in Hh |- *.
  rewrite !andb_true_iff in Hh. destruct_and! Hh.
  by repeat match goal with H : _ = true |- _ => rewrite H; clear H end; destruct s.
Qed.

End encryption_results.

(** ** Properties *)

(** [HandshakeKey::from_hex] is total and exact: it accepts the texts of 32
    hexadecimal digits of either case, keeps their lowercase form as the key's
    text (which it accepts again, with the same key), derives 16 key bytes, and
    answers every other text with the same error. *)
Theorem from_hex_spec `{CryptoLaws} h :
  (String.length h = 32 /\ str_forall is_ascii_hexdigit h = true /\
   exists k, from_hex h = Ok k /\ hex k = to_ascii_lowercase h /\
             handshake_key_wf k /\ from_hex (hex k) = Ok k)
  \/ (~ (String.length h = 32 /\ str_forall is_ascii_hexdigit h = true) /\
      from_hex h = Err (Encryption "handshake key must be 32 lowercase hex characters")).
Proof.
  destruct (negb (str_len h =? 32)%Z || negb (str_forall is_ascii_hexdigit h)) eqn:G.
  - right. split; [intros Hh; apply from_hex_guard in Hh; congruence|].
    unfold from_hex. by rewrite G.
  - left. apply from_hex_guard in G as [Hl Hh]. split_and!; [done..|].
    destruct (from_hex_ok h Hl Hh) as (c & Hc & Hn & Hf).
    exists (mkHandshakeKey (to_ascii_lowercase h) c).
    assert (Hw := from_hex_wf _ _ Hf). split_and!; try done. simpl.
    assert (Hlow := Hw). destruct Hlow as (Hl' & Hh' & _). simpl in Hl', Hh'.
    assert (Hhex : str_forall is_ascii_hexdigit (to_ascii_lowercase h) = true)
      by (eapply str_forall_impl; [apply lower_hexdigit_hexdigit|done]).
    destruct (from_hex_ok (to_ascii_lowercase h) Hl' Hhex) as (c' & Hc' & _ & ->).
    rewrite (parse_hex_chunks_lowercase 16) in Hc' by done.
    rewrite to_ascii_lowercase_id by done. congruence.
Qed.

(** Handshake encryption round trips: under a key made by [from_hex] or
    [generate], every message up to the cipher's limit encrypts, and the holder
    of the same key text decrypts it to the same message. *)
Theorem handshake_round_trip `{CryptoLaws} h k k' iv m :
  from_hex h = Ok k -> from_hex (hex k) = Ok k' ->
  length iv = IV_LENGTH -> utf8_valid (as_bytes m) = true -> (str_len m <= aes_gcm_max)%Z ->
  exists c, handshake_encrypt k iv m = Ok c /\ handshake_decrypt k' c = Ok m.
Proof.
  intros Hk Hk' Hiv Hm Hl. assert (Hw := from_hex_wf _ _ Hk). assert (Hw' := from_hex_wf _ _ Hk').
  destruct (handshake_encrypt_ok k iv m Hw Hiv Hl) as (c & Hc). exists c. split; [done|].
  apply (handshake_decrypt_encrypt k' iv); [done..|].
  assert (cipher k' = cipher k) as E.
  { destruct Hw as (? & Hx & Hp & Hn). destruct Hw' as (? & ? & Hp' & ?).
    unfold from_hex in Hk'. destruct (negb _ || _); [done|]. rewrite Hp in Hk'.
    cbn [mbind res_bind] in Hk'. rewrite aes128gcm_new_ok in Hk' by done. cbn in Hk'.
    by simplify_eq. }
  unfold handshake_encrypt in *. by rewrite E.
Qed.

(** Peer encryption round trips: what one end encrypts to the other end's
    public key, the other end decrypts, whether or not it already knows the
    sender, provided the two keys contribute to the shared secret. *)
Theorem peer_round_trip `{CryptoLaws} a b nonce m e peer :
  decryption_key_wf a -> decryption_key_wf b -> length nonce = NONCE_BYTES ->
  utf8_valid (as_bytes m) = true -> (str_len m <= aes_gcm_max)%Z ->
  was_contributory (x25519_diffie_hellman (secret_key a) (dk_public_key b)) = true ->
  public_key e = dk_public_key b ->
  (forall k, peer = Some k -> public_key k = dk_public_key a) ->
  exists c, peer_encrypt a nonce m e = Ok c /\ peer_decrypt b c peer = Ok m.
Proof.
  intros Ha Hb Hn Hu Hm Hc He Hp.
  destruct (peer_encrypt_ok a nonce m e) as (c & Henc); [done..| | |].
  - unfold encryption_key_wf. rewrite He. by apply dk_public_key_length.
  - by rewrite He.
  - exists c. split; [done|]. by apply (peer_decrypt_encrypt a b nonce m c e).
Qed.

(** Decryption authenticates the sender: a payload that decrypts with a known
    peer key is byte for byte what the holder of that peer's secret key would
    produce with [encrypt] for us, with the nonce the payload carries. *)
Theorem peer_decrypt_authentic `{CryptoLaws} a b msg m k e :
  decryption_key_wf a -> decryption_key_wf b ->
  public_key k = dk_public_key a -> public_key e = dk_public_key b ->
  peer_decrypt b msg (Some k) = Ok m ->
  exists payload nonce, from_base64 msg = Ok payload /\ length nonce = NONCE_BYTES /\
    peer_encrypt a nonce m e = Ok (to_base64 payload).
Proof.
  intros Ha Hb Hk He Hd.
  apply peer_decrypt_inv in Hd as (s & n & ct & key & Hm & Hs & Hn & Hpk & Hc & Hct).
  specialize (Hpk k eq_refl). rewrite Hk in Hpk. subst s.
  exists (dk_public_key a ++ n ++ ct), n. split_and!; [done..|].
  unfold peer_encrypt. rewrite He, (peer_cipher_agree a b) by done. rewrite Hc.
  cbn [mbind res_bind]. by rewrite Hct.
Qed.

(** The two directions of a pair use separate keys: the key derivation context
    names the sender before the receiver, so the contexts of two encryptions
    agree only when both sender and receiver agree. A payload reflected to its
    sender under the other key's name is opened with another context. *)
Theorem key_info_injective s r s' r' :
  length s = PUBLIC_KEY_BYTES -> length s' = PUBLIC_KEY_BYTES ->
  key_info s r = key_info s' r' <-> s = s' /\ r = r'.
Proof.
  intros Hs Hs'. unfold key_info. split; [|by intros [-> ->]].
  intros E. apply app_inv_head in E. apply app_inj_1 in E; [done|congruence].
Qed.

(** The role follows from the hash: without a hash to match, a session is the
    host and its own hash goes into the connection URL; with one, it is the host
    exactly when the hash is that of its own key, and it keeps the given hash.
    The hash is always 16 lowercase hexadecimal digits. *)
Theorem init_hash_role `{CryptoLaws} h e :
  exists r, init_hash h e = Ok r /\
    hash r = default (hash_public_key e) h /\
    (init_is_host r = true <-> hash r = hash_public_key e) /\
    (h = None -> init_is_host r = true) /\
    String.length (hash_public_key e) = HASH_LENGTH /\
    str_forall is_lower_hexdigit (hash_public_key e) = true.
Proof.
  eexists. split; [done|]. destruct (hash_public_key_hex e). simpl.
  split_and!; [done|apply String.eqb_eq| |done..].
  intros ->. apply String.eqb_refl.
Qed.

(** ** Witnesses, in the model instance *)

Import CryptoModel.

Example from_hex_spec_witness :
  exists k, from_hex "000102030405060708090A0B0C0D0E0F" = Ok k /\
            hex k = "000102030405060708090a0b0c0d0e0f".
Proof.
  destruct (from_hex_spec "000102030405060708090A0B0C0D0E0F")
    as [(_ & _ & k & Hk & Hh & _)|(Hn & _)].
  - exists k. split; [exact Hk|]. rewrite Hh. reflexivity.
  - exfalso. apply Hn. split; reflexivity.
Defined.

Definition witness_iv : bytes := replicate 12 Byte.x07.

Example handshake_round_trip_witness :
  exists k c, from_hex "000102030405060708090a0b0c0d0e0f" = Ok k /\
    handshake_encrypt k witness_iv "hello" = Ok c /\ handshake_decrypt k c = Ok "hello".
Proof.
  destruct (from_hex "000102030405060708090a0b0c0d0e0f") as [k| |] eqn:E; [|discriminate E..].
  destruct (handshake_round_trip "000102030405060708090a0b0c0d0e0f" k k witness_iv "hello")
    as (c & Hc & Hd).
  - exact E.
  - injection E as <-. reflexivity.
  - reflexivity.
  - reflexivity.
  - vm_compute. discriminate.
  - exists k, c. auto.
Defined.

Definition witness_alice : bytes := replicate 32 Byte.x01.
Definition witness_bob : bytes := replicate 32 Byte.x02.

(** The key pair a secret makes in the model instance. *)
Definition witness_decryption_key (secret : bytes) : DecryptionKey :=
  mkDecryptionKey secret secret (to_base64 secret).
Definition witness_encryption_key (secret : bytes) : EncryptionKey :=
  mkEncryptionKey secret (to_base64 secret).

Example peer_round_trip_witness :
  exists c, peer_encrypt (witness_decryption_key witness_alice) witness_iv "test"
              (witness_encryption_key witness_bob) = Ok c /\
    peer_decrypt (witness_decryption_key witness_bob) c
      (Some (witness_encryption_key witness_alice)) = Ok "test".
Proof.
  apply (peer_round_trip (witness_decryption_key witness_alice)
           (witness_decryption_key witness_bob) witness_iv "test"
           (witness_encryption_key witness_bob)
           (Some (witness_encryption_key witness_alice))).
  all: try (vm_compute; reflexivity || (split; reflexivity)).
  - vm_compute. discriminate.
  - intros k Hk. injection Hk as <-. reflexivity.
Defined.

Definition witness_ciphertext : string :=
  match peer_encrypt (witness_decryption_key witness_alice) witness_iv "test"
          (witness_encryption_key witness_bob) with Ok c => c | _ => "" end.

Example peer_decrypt_authentic_witness :
  exists payload nonce, from_base64 witness_ciphertext = Ok payload /\
    length nonce = NONCE_BYTES /\
    peer_encrypt (witness_decryption_key witness_alice) nonce "test"
      (witness_encryption_key witness_bob) = Ok (to_base64 payload).
Proof.
  apply (peer_decrypt_authentic (witness_decryption_key witness_alice)
           (witness_decryption_key witness_bob) witness_ciphertext "test"
           (witness_encryption_key witness_alice) (witness_encryption_key witness_bob)).
  all: vm_compute; reflexivity || (split; reflexivity).
Defined.

Example key_info_injective_witness :
  key_info witness_alice witness_bob = key_info witness_bob witness_alice
  <-> witness_alice = witness_bob /\ witness_bob = witness_alice.
Proof. apply (key_info_injective witness_alice witness_bob); reflexivity. Defined.

Example init_hash_role_witness :
  exists r, init_hash (Some "0000000000000000") (witness_encryption_key witness_alice) = Ok r /\
    init_is_host r = false.
Proof.
  destruct (init_hash_role (Some "0000000000000000") (witness_encryption_key witness_alice))
    as (r & Hr & Hh & Hi & _).
  exists r. split; [exact Hr|]. injection Hr as <-. vm_compute. reflexivity.
Defined.
