(* ===== verification/Message.v ===== *)
(** * Signaling messages ([signaling/message/mod.rs])

    The messages of the signaling handshake, their validation, and the JSON
    codec that serde derives for them. *)
From S2P Require Import Prelude RustStr Errors Json.
Local Open Scope string_scope.

Record PubkeyPayload : Type := mkPubkeyPayload { pk_public_key : string }.

Record PeerInfo : Type := mkPeerInfo {
  identity : string;
  name : string;
  icon : option string;
}.

Record PeerCapabilities : Type := mkPeerCapabilities {
  transports : list string;
  info : option PeerInfo;
}.

(** A timestamp is a [u64]: milliseconds since the Unix epoch. *)
Inductive SignalingMessage : Type :=
| Flash (payload : Value) (timestamp : Z)
| Pubkey (payload : PubkeyPayload) (timestamp : Z)
| Capabilities (payload : PeerCapabilities) (timestamp : Z)
| Data (payload : Value) (timestamp : Z).

(** [is_bounded_string]: the length is [str::len], in bytes. *)
Definition is_bounded_string (value : string) (max_length : Z) : bool :=
  negb (String.eqb value "") && (str_len value <=? max_length)%Z.

(** [PeerInfo::validate] *)
Definition peer_info_validate (self : PeerInfo) : Res string unit :=
  if negb (is_bounded_string (identity self) 128) then Err "peer identity must be 1-128 characters"
  else if negb (is_bounded_string (name self) 128) then Err "peer name must be 1-128 characters"
  else match icon self with
       | Some i => if negb (is_bounded_string i 8192)
                   then Err "peer icon must be 1-8192 characters" else Ok tt
       | None => Ok tt
       end.

(** [PeerCapabilities::validate] *)
Definition capabilities_validate (self : PeerCapabilities) : Res string unit :=
  if (match transports self with [] => true | _ => false end)
     || (8 <? Z.of_nat (length (transports self)))%Z
  then Err "transports must contain 1-8 entries"
  else if negb (forallb (fun t => is_bounded_string t 32) (transports self))
  then Err "transport identifiers must be 1-32 characters"
  else match info self with
       | Some i => peer_info_validate i
       | None => Ok tt
       end.

(** [SignalingMessage::validate] *)
Definition message_validate (self : SignalingMessage) : Res string unit :=
  match self with
  | Flash payload _ | Data payload _ =>
      if negb (is_object payload) then Err "signaling payload must be an object" else Ok tt
  | Pubkey payload _ =>
      if String.eqb (pk_public_key payload) "" then Err "public key must not be empty" else Ok tt
  | Capabilities payload _ => capabilities_validate payload
  end.

(** ** The JSON codec

    [serde_json::to_string] and [serde_json::from_str] on the derived
    [Serialize] and [Deserialize] of [SignalingMessage]. *)
Class SignalingCodec : Type := {
  signaling_to_string : SignalingMessage -> LibResult string;
  signaling_from_str : string -> LibResult SignalingMessage;
}.

(** The values that survive a trip through JSON text: no floating point number
    (its shortest decimal form need not read back to the same bits) and nesting
    below serde_json's recursion limit of 128. *)
Fixpoint json_safe (depth : nat) (v : Value) : bool :=
  match depth with
  | O => false
  | S d =>
      match v with
      | Num (Float _) => false
      | Array l => forallb (json_safe d) l
      | Object m => forallb (fun kv => json_safe d kv.2) m
      | _ => true
      end
  end.

Definition message_safe (m : SignalingMessage) : bool :=
  match m with
  | Flash v _ | Data v _ => json_safe 100 v
  | Pubkey _ _ | Capabilities _ _ => true
  end.

Class SignalingCodecLaws `{SignalingCodec} : Prop := {
  signaling_to_string_ok m : exists s, signaling_to_string m = inl s;
  signaling_to_string_utf8 m s : signaling_to_string m = inl s -> utf8_valid (as_bytes s) = true;
  signaling_from_to_string m s :
    message_safe m = true -> signaling_to_string m = inl s -> signaling_from_str s = inl m;
}.

(** ** Lemmas *)

Lemma is_bounded_string_iff s n :
  is_bounded_string s n = true <-> (1 <= str_len s <= n)%Z.
Proof.
  unfold is_bounded_string, str_len. rewrite andb_true_iff, negb_true_iff, Z.leb_le, String.eqb_neq.
  destruct s; simpl; split; intros [H1 H2]; split; try done; lia.
Qed.

Lemma peer_info_validate_ok i :
  peer_info_validate i = Ok tt <->
  (1 <= str_len (identity i) <= 128)%Z /\ (1 <= str_len (name i) <= 128)%Z /\
  (forall s, icon i = Some s -> (1 <= str_len s <= 8192)%Z).
Proof.
  rewrite <- !is_bounded_string_iff. unfold peer_info_validate.
  destruct (is_bounded_string (identity i) 128); simpl; [|by split; [|intros []]].
  destruct (is_bounded_string (name i) 128); simpl; [|by split; [|intros (_ & ? & _)]].
  destruct (icon i) as [s|].
  - destruct (is_bounded_string s 8192) eqn:E; simpl.
    + apply is_bounded_string_iff in E. split; [|done]. intros _. split_and!; try done.
      by intros ? [= <-].
    + split; [done|]. intros (_ & _ & Hs). specialize (Hs s eq_refl).
      apply is_bounded_string_iff in Hs. congruence.
  - split; [|done]. by intros _.
Qed.

Lemma peer_info_validate_no_panic i : peer_info_validate i <> Panic.
Proof. unfold peer_info_validate. repeat case_match; done. Qed.

(** ** Properties *)

(** Capabilities are accepted exactly within their bounds: one to eight
    transports of 1 to 32 bytes each, and an optional peer info whose identity
    and name have 1 to 128 bytes and whose icon, when present, has 1 to 8192
    bytes. Validation never panics. *)
Theorem capabilities_validate_bounds c :
  (capabilities_validate c = Ok tt <->
   (1 <= length (transports c) <= 8)%nat /\
   Forall (fun t => 1 <= str_len t <= 32)%Z (transports c) /\
   (forall i, info c = Some i ->
      (1 <= str_len (identity i) <= 128)%Z /\ (1 <= str_len (name i) <= 128)%Z /\
      (forall s, icon i = Some s -> (1 <= str_len s <= 8192)%Z)))
  /\ capabilities_validate c <> Panic.
Proof.
  split.
  - unfold capabilities_validate.
    destruct (_ || _) eqn:G.
    { split; [done|]. intros ([H1 H2] & _). apply orb_true_iff in G as [G|G].
      - destruct (transports c); [simpl in H1; lia|done].
      - apply Z.ltb_lt in G. lia. }
    apply orb_false_iff in G as [G1 G2]. apply Z.ltb_ge in G2.
    assert (Hlen : (1 <= length (transports c) <= 8)%nat).
    { destruct (transports c); [done|]. simpl in *. lia. }
    assert (Hall : forallb (fun t => is_bounded_string t 32) (transports c) = true <->
                   Forall (fun t => 1 <= str_len t <= 32)%Z (transports c)).
    { rewrite forallb_forall, Forall_forall. setoid_rewrite is_bounded_string_iff.
      by setoid_rewrite list_elem_of_In. }
    destruct (forallb _ _); simpl.
    + destruct (info c) as [i|].
      * rewrite peer_info_validate_ok. split.
        -- intros Hi. split_and!; [lia..|by apply Hall|]. by intros ? [= <-].
        -- intros (_ & _ & Hi). by apply Hi.
      * split; [|done]. intros _. split_and!; [lia..|by apply Hall|done].
    + split; [done|]. intros (_ & Hf & _). apply Hall in Hf. done.
  - unfold capabilities_validate, peer_info_validate. repeat case_match; done.
Qed.

(** The bounds count bytes where their error texts count characters: a peer
    name of 65 two-byte characters is within the 128 characters the text allows
    and is rejected with that text. *)
Theorem peer_name_bound_counts_bytes :
  exists i, (length (chars (name i)) <= 128)%nat /\
    peer_info_validate i = Err "peer name must be 1-128 characters".
Proof.
  exists (mkPeerInfo "com.example.wallet" (String.concat "" (replicate 65 "é")) None).
  split; [vm_compute; lia|reflexivity].
Qed.
