(* ===== verification/TextModel.v ===== *)
(** * Instances of the text codecs

    The witnesses need concrete instances of the serialisation crates. Any
    countable type has an injective encoding into positive numbers, and a number
    has one into ASCII text: this gives an instance of each codec class whose
    round-trip law holds. *)
From S2P Require Import Prelude RustStr Errors Json Message.
Local Open Scope string_scope.

Module TextModel.

Fixpoint bits (p : positive) : string :=
  match p with
  | xH => "#"
  | xO q => String "0" (bits q)
  | xI q => String "1" (bits q)
  end.

Fixpoint unbits (s : string) : positive :=
  match s with
  | String "0"%char r => xO (unbits r)
  | String "1"%char r => xI (unbits r)
  | _ => xH
  end.

Definition to_text `{Countable A} (a : A) : string := bits (encode a).
Definition of_text `{Countable A} (s : string) : LibResult A :=
  match decode (unbits s) with Some a => inl a | None => inr "invalid text" end.

Lemma unbits_bits p : unbits (bits p) = p.
Proof. induction p as [p IH|p IH|]; simpl; [by rewrite IH..|done]. Qed.

Lemma of_to_text `{Countable A} (a : A) : of_text (to_text a) = inl a.
Proof. unfold of_text, to_text. by rewrite unbits_bits, decode_encode. Qed.

(** The characters of an encoding are digits and the end mark. *)
Definition text_char (a : ascii) : bool :=
  Ascii.eqb a "0" || Ascii.eqb a "1" || Ascii.eqb a "#".

Lemma to_text_chars `{Countable A} (a : A) : str_forall text_char (to_text a) = true.
Proof. unfold to_text. by induction (encode a) as [p IH|p IH|]. Qed.

Lemma to_text_nonempty `{Countable A} (a : A) : to_text a <> "".
Proof. unfold to_text. by destruct (encode a). Qed.

Lemma text_char_ascii a : text_char a = true -> is_ascii a = true.
Proof. by destruct a as [[] [] [] [] [] [] [] []]. Qed.

(** ** JSON values are countable *)

#[export] Instance Number_countable : Countable Number.
Proof.
  refine (inj_countable'
    (fun n => match n with PosInt x => (0%Z, x) | NegInt x => (1%Z, x) | Float x => (2%Z, x) end)
    (fun p => match p with (0%Z, x) => PosInt x | (1%Z, x) => NegInt x | (_, x) => Float x end) _).
  by intros [].
Defined.

Abbreviation leaf := (unit + bool + Number + string)%type.

Fixpoint value_tree (v : Value) : gen_tree leaf :=
  match v with
  | Null => GenLeaf (inl (inl (inl tt)))
  | Bool b => GenLeaf (inl (inl (inr b)))
  | Num n => GenLeaf (inl (inr n))
  | Str s => GenLeaf (inr s)
  | Array l => GenNode 0 (value_tree <$> l)
  | Object m => GenNode 1 ((fun kv => GenNode 2 [GenLeaf (inr kv.1); value_tree kv.2]) <$> m)
  end.

Fixpoint tree_value (t : gen_tree leaf) : Value :=
  match t with
  | GenLeaf (inl (inl (inl _))) => Null
  | GenLeaf (inl (inl (inr b))) => Bool b
  | GenLeaf (inl (inr n)) => Num n
  | GenLeaf (inr s) => Str s
  | GenNode 0 l => Array (tree_value <$> l)
  | GenNode _ l =>
      Object ((fun t => match t with
                        | GenNode _ [GenLeaf (inr k); w] => (k, tree_value w)
                        | _ => ("", Null)
                        end) <$> l)
  end.

Lemma tree_value_tree v : tree_value (value_tree v) = v.
Proof.
  induction v as [|b|n|s|l IH|m IH] using Value_ind; simpl; try done.
  - f_equal. induction IH as [|w l Hw _ IHl]; csimpl; [done|]. by rewrite Hw, IHl.
  - f_equal. induction IH as [|[k w] m Hw _ IHm]; csimpl; [done|]. simpl in Hw.
    by rewrite Hw, IHm.
Qed.

#[export] Instance Value_eq_dec : EqDecision Value.
Proof.
  intros v w. destruct (decide (value_tree v = value_tree w)) as [E|E].
  - left. by rewrite <- (tree_value_tree v), E, tree_value_tree.
  - right. congruence.
Defined.

#[export] Instance Value_countable : Countable Value :=
  inj_countable' value_tree tree_value tree_value_tree.

#[export] Instance PeerInfo_eq_dec : EqDecision PeerInfo.
Proof. solve_decision. Defined.
#[export] Instance PeerInfo_countable : Countable PeerInfo.
Proof.
  refine (inj_countable' (fun i => (identity i, name i, icon i))
    (fun p => mkPeerInfo p.1.1 p.1.2 p.2) _).
  by intros [].
Defined.

#[export] Instance PeerCapabilities_eq_dec : EqDecision PeerCapabilities.
Proof. solve_decision. Defined.
#[export] Instance PeerCapabilities_countable : Countable PeerCapabilities.
Proof.
  refine (inj_countable' (fun c => (transports c, info c))
    (fun p => mkPeerCapabilities p.1 p.2) _).
  by intros [].
Defined.

#[export] Instance SignalingMessage_eq_dec : EqDecision SignalingMessage.
Proof.
  assert (EqDecision PubkeyPayload) by solve_decision. solve_decision.
Defined.

#[export] Instance SignalingMessage_countable : Countable SignalingMessage.
Proof.
  refine (inj_countable'
    (fun m => match m with
              | Flash v t => inl (inl (v, t))
              | Pubkey p t => inl (inr (pk_public_key p, t))
              | Capabilities c t => inr (inl (c, t))
              | Data v t => inr (inr (v, t))
              end)
    (fun x => match x with
              | inl (inl (v, t)) => Flash v t
              | inl (inr (p, t)) => Pubkey (mkPubkeyPayload p) t
              | inr (inl (c, t)) => Capabilities c t
              | inr (inr (v, t)) => Data v t
              end) _).
  by intros [|[]| |].
Defined.

#[export] Instance signaling_codec : SignalingCodec := {|
  signaling_to_string m := inl (to_text m);
  signaling_from_str := of_text;
|}.

#[export] Instance signaling_codec_laws : SignalingCodecLaws.
Proof.
  split; simpl.
  - eauto.
  - intros m s [= <-]. apply ascii_utf8_valid.
    eapply str_forall_impl; [apply text_char_ascii|apply to_text_chars].
  - intros m s _ [= <-]. apply of_to_text.
Qed.

End TextModel.
