(* ===== verification/Regex.v ===== *)
(** * Regular expressions

    The patterns of the program, as syntax trees, and the documented meaning of
    the [regex] crate on them: an anchored pattern is tried by backtracking,
    alternatives from left to right and repetitions longest first, and the first
    way to match the whole text gives the captures (leftmost-first matching).
    Text is a list of characters. The crate itself is the class [RegexLib]. *)
From S2P Require Import Prelude RustStr.
Local Open Scope string_scope.
Local Open Scope list_scope.

(** A character class. *)
Definition char_class := string -> bool.

(** [[...]] of ASCII characters, and its complement [[^...]]. *)
Definition ascii_class (p : ascii -> bool) : char_class := fun c =>
  match c with String a EmptyString => p a | _ => false end.
Definition not_class (l : list string) : char_class := fun c => negb (bool_decide (c ∈ l)).

(** [.]: any character except a line feed. *)
Definition dot : char_class := not_class [String (ascii_of_nat 10) ""].

Inductive regex : Type :=
| Lit (s : string)
| Plus (c : char_class)
| Star (c : char_class)
| Rep (n : nat) (c : char_class)
| Opt (r : regex)
| Alt (r r' : regex)
| Seq (r r' : regex)
| Cap (name : string) (r : regex).

(** The captures of a match: a group that took part, with its text. *)
Abbreviation captures := (list (string * string)).

(** One way to match a prefix of the text: the captures, the text consumed and
    the text left. *)
Abbreviation way := (captures * list string * list string)%type.

(** The splits of the longest run of a class at the head of the text, longest
    first. *)
Fixpoint greedy (c : char_class) (t : list string) : list (list string * list string) :=
  match t with
  | [] => [([], [])]
  | x :: r =>
      if c x then ((fun p => (x :: p.1, p.2)) <$> greedy c r) ++ [([], t)]
      else [([], t)]
  end.

Definition nonempty {A} (l : list A) : bool := match l with [] => false | _ => true end.

(** Exactly [n] characters of a class. *)
Fixpoint exactly (n : nat) (c : char_class) (t : list string) : option (list string * list string) :=
  match n, t with
  | O, _ => Some ([], t)
  | S m, x :: r => if c x then (fun p => (x :: p.1, p.2)) <$> exactly m c r else None
  | S _, [] => None
  end.

(** A literal at the head of the text. *)
Fixpoint strip (l t : list string) : option (list string) :=
  match l, t with
  | [], _ => Some t
  | x :: l', y :: t' => if String.eqb x y then strip l' t' else None
  | _ :: _, [] => None
  end.

Definition plain (p : list string * list string) : way := ([], p.1, p.2).

(** All ways to match a prefix of the text, in the order they are tried. *)
Fixpoint ways (r : regex) (t : list string) : list way :=
  match r with
  | Lit s => match strip (singles s) t with Some rest => [([], singles s, rest)] | None => [] end
  | Plus c => plain <$> List.filter (fun p => nonempty p.1) (greedy c t)
  | Star c => plain <$> greedy c t
  | Rep n c => match exactly n c t with Some p => [plain p] | None => [] end
  | Opt r => ways r t ++ [([], [], t)]
  | Alt r r' => ways r t ++ ways r' t
  | Seq r r' =>
      w ← ways r t;
      (fun w' => (w.1.1 ++ w'.1.1, w.1.2 ++ w'.1.2, w'.2)) <$> ways r' w.2
  | Cap name r => (fun w => ((name, str_join w.1.2) :: w.1.1, w.1.2, w.2)) <$> ways r t
  end.

(** The first way that consumes the whole text, for a pattern [^r$]. *)
Fixpoint first_full (l : list way) : option captures :=
  match l with
  | [] => None
  | w :: r => match w.2 with [] => Some w.1.1 | _ => first_full r end
  end.

Definition leftmost_first (r : regex) (s : string) : option captures := first_full (ways r (chars s)).

(** [Regex::captures] for the pattern [^r$]. *)
Class RegexLib : Type := {
  regex_captures : regex -> string -> option captures;
  regex_captures_spec r s : regex_captures r s = leftmost_first r s;
}.

(** [Regex::is_match] *)
Definition is_match `{RegexLib} (r : regex) (s : string) : bool :=
  match regex_captures r s with Some _ => true | None => false end.

(** [captures.get(name)]: the first entry of the name. *)
Fixpoint group (name : string) (c : captures) : option string :=
  match c with
  | [] => None
  | (n, t) :: r => if String.eqb n name then Some t else group name r
  end.

(** ** Lemmas *)

Lemma greedy_split c t p : p ∈ greedy c t -> t = p.1 ++ p.2 /\ Forall (fun x => c x = true) p.1.
Proof.
  revert p. induction t as [|x r IH]; intros p; simpl.
  - intros ->%list_elem_of_singleton. split; [done|constructor].
  - destruct (c x) eqn:E.
    + rewrite elem_of_app, list_elem_of_fmap. intros [(q & -> & Hq)|Hp].
      * destruct (IH q Hq) as [-> Hf]. simpl. split; [done|by constructor].
      * apply list_elem_of_singleton in Hp as ->. split; [done|constructor].
    + intros ->%list_elem_of_singleton. split; [done|constructor].
Qed.

(** A run of the class that the next character ends: the longest split. *)
Lemma greedy_run c l t :
  Forall (fun x => c x = true) l ->
  match t with [] => True | x :: _ => c x = false end ->
  exists ps, greedy c (l ++ t) = (l, t) :: ps /\
    Forall (fun p => exists x, c x = true /\ head p.2 = Some x) ps.
Proof.
  intros Hl Ht. induction Hl as [|x l Hx Hl IH]; simpl.
  - exists []. split; [|constructor]. destruct t as [|x r]; simpl; [done|]. by rewrite Ht.
  - destruct IH as (ps & -> & Hps). rewrite Hx. csimpl. eexists. split; [done|].
    apply Forall_app. split.
    + apply Forall_fmap. eapply Forall_impl; [done|]. by intros [? ?].
    + constructor; [|constructor]. exists x. done.
Qed.

Lemma exactly_split n c t p :
  exactly n c t = Some p -> t = p.1 ++ p.2 /\ length p.1 = n /\ Forall (fun x => c x = true) p.1.
Proof.
  revert t p. induction n as [|n IH]; intros t p; simpl.
  - destruct t; intros [= <-]; done.
  - destruct t as [|x t]; [done|]. destruct (c x) eqn:E; [|done].
    destruct (exactly n c t) as [q|] eqn:Eq; [|done]. intros [= <-].
    destruct (IH t q Eq) as (-> & <- & Hf). simpl. split_and!; [done..|by constructor].
Qed.

Lemma exactly_app n c l t :
  length l = n -> Forall (fun x => c x = true) l -> exactly n c (l ++ t) = Some (l, t).
Proof.
  intros <-. induction 1 as [|x l Hx Hl IH]; simpl; [by destruct t|]. rewrite Hx. by rewrite IH.
Qed.

Lemma strip_app l t : strip l (l ++ t) = Some t.
Proof. induction l as [|x l IH]; simpl; [by destruct t|]. by rewrite String.eqb_refl. Qed.

Lemma strip_Some l t rest : strip l t = Some rest -> t = l ++ rest.
Proof.
  revert t. induction l as [|x l IH]; intros [|y t]; simpl; try done; try congruence.
  destruct (String.eqb_spec x y); [|done]. intros H. subst. f_equal. auto.
Qed.

Lemma ways_Lit s t : ways (Lit s) (singles s ++ t) = [([], singles s, t)].
Proof. simpl. by rewrite strip_app. Qed.

Lemma ways_Seq_singleton r r' t w :
  ways r t = [w] ->
  ways (Seq r r') t = (fun w' => (w.1.1 ++ w'.1.1, w.1.2 ++ w'.1.2, w'.2)) <$> ways r' w.2.
Proof. intros H. simpl. rewrite H. csimpl. by rewrite app_nil_r. Qed.

(** Every way splits the text. *)
Lemma ways_split r t w : w ∈ ways r t -> t = w.1.2 ++ w.2.
Proof.
  revert t w. induction r as [s|c|c|n c|r IH|r IH r' IH'|r IH r' IH'|name r IH]; intros t w; simpl.
  - destruct (strip _ _) eqn:E; [|by intros ?%not_elem_of_nil].
    intros ->%list_elem_of_singleton. by apply strip_Some.
  - rewrite list_elem_of_fmap. intros (p & -> & Hp). apply list_elem_of_In, filter_In in Hp as [Hp _].
    apply list_elem_of_In, greedy_split in Hp as [-> _]. done.
  - rewrite list_elem_of_fmap. intros (p & -> & Hp). by apply greedy_split in Hp as [-> _].
  - destruct (exactly n c t) eqn:E; [|by intros ?%not_elem_of_nil].
    intros ->%list_elem_of_singleton. by apply exactly_split in E as [-> _].
  - rewrite elem_of_app. intros [H| ->%list_elem_of_singleton]; [auto|done].
  - rewrite elem_of_app. intros [H|H]; auto.
  - rewrite list_elem_of_bind. intros (w1 & H & H1). apply list_elem_of_fmap in H as (w2 & -> & H2).
    apply IH in H1. apply IH' in H2. simpl. by rewrite H1, H2, app_assoc at 1.
  - rewrite list_elem_of_fmap. intros (w' & -> & H). by apply IH in H.
Qed.

Lemma first_full_Some l c : first_full l = Some c -> exists k, (c, k, []) ∈ l.
Proof.
  induction l as [|[[c' k] rest] l IH]; simpl; [done|]. destruct rest.
  - intros [= ->]. exists k. apply list_elem_of_here.
  - intros H. destruct (IH H) as [k' ?]. exists k'. by apply list_elem_of_further.
Qed.

(** A pattern that consumes the whole text on its first try. *)
Lemma first_full_hd c k l : first_full ((c, k, []) :: l) = Some c.
Proof. done. Qed.

(** [leftmost_first] is an instance of the crate. *)
Definition backtracking : RegexLib := {|
  regex_captures := leftmost_first;
  regex_captures_spec _ _ := eq_refl;
|}.
