(* ===== verification/SessionUri.v ===== *)
(** * Connection URLs ([url/mod.rs], [url/v1.rs], [SignalingProtocol])

    Parsing and printing of [openlv://] URLs, and the generation of session
    identifiers. *)
From S2P Require Import Prelude RustStr Errors Regex CryptoLib CryptoModel Encryption TextModel.
From stdpp Require Import pretty.
Local Open Scope string_scope.

(** ** What the code uses of other libraries *)

(** The Unicode tables behind [str::to_lowercase] and the class [\d]. *)
Class UnicodeLib : Type := {
  to_lowercase : string -> string;
  is_unicode_digit : string -> bool;
  to_lowercase_ascii s : str_forall is_ascii s = true -> to_lowercase s = to_ascii_lowercase s;
  is_unicode_digit_ascii a :
    is_ascii a = true -> is_unicode_digit (String a "") = is_ascii_digit a;
}.

Definition query_char (a : ascii) : bool := is_ascii a && negb (Ascii.eqb a (ascii_of_nat 10)).

(** [form_urlencoded::parse] and [form_urlencoded::Serializer]: percent-encoded
    pairs, whose text is ASCII without line feeds. *)
Class FormLib : Type := {
  form_parse : string -> list (string * string);
  form_serialize : list (string * string) -> string;
  form_parse_serialize l :
    Forall (fun kv => utf8_valid (as_bytes kv.1) = true /\ utf8_valid (as_bytes kv.2) = true) l ->
    form_parse (form_serialize l) = l;
  form_serialize_chars l : str_forall query_char (form_serialize l) = true;
  form_serialize_nonempty l : l <> [] -> form_serialize l <> "";
}.

(** ** The signaling protocol ([signaling/mod.rs]) *)

Inductive SignalingProtocol : Type := Mqtt | Ntfy | Unsupported (value : string).

#[export] Instance SignalingProtocol_eq_dec : EqDecision SignalingProtocol.
Proof. solve_decision. Defined.

(** [Display for SignalingProtocol] *)
Definition protocol_to_string (p : SignalingProtocol) : string :=
  match p with Mqtt => "mqtt" | Ntfy => "ntfy" | Unsupported value => value end.

Section uri.
Context `{CryptoLib} `{RegexLib} `{UnicodeLib} `{FormLib}.

(** [SignalingProtocol::from(String)] *)
Definition protocol_from (value : string) : SignalingProtocol :=
  let l := to_lowercase value in
  if String.eqb l "mqtt" then Mqtt
  else if String.eqb l "ntfy" then Ntfy
  else Unsupported l.

(** ** The URL *)

Definition OPENLV_PROTOCOL_VERSION : N := 1.

(** [A-Za-z0-9_-] *)
Definition is_session_id_char (a : ascii) : bool :=
  is_ascii_upper a || is_ascii_lower a || is_ascii_digit a || Ascii.eqb a "_" || Ascii.eqb a "-".

Definition URI_REGEX : regex :=
  Seq (Lit "openlv://")
  (Seq (Cap "1" (Rep 16 (ascii_class is_session_id_char)))
  (Seq (Lit "@")
  (Seq (Cap "2" (Plus is_unicode_digit))
  (Seq (Lit "?")
       (Cap "3" (Plus dot)))))).

Definition HASH_REGEX : regex := Rep 16 (ascii_class is_lower_hexdigit).
Definition SHARED_KEY_REGEX : regex := Rep 32 (ascii_class is_lower_hexdigit).

Record Version1SessionUri : Type := mkVersion1SessionUri {
  session_id : string;
  key_hash : string;
  shared_key : HandshakeKey;
  signaling_protocol : SignalingProtocol;
  signaling_server : string;
}.

(** [iter.collect::<HashMap<_, _>>()]: a later pair replaces an earlier one. *)
Definition collect_map (l : list (string * string)) : gmap string string :=
  foldl (fun m kv => <[kv.1 := kv.2]> m) ∅ l.

(** [Version1SessionUri::from_url] *)
Definition from_url (url : string) : Result Version1SessionUri :=
  if trim_is_empty url then Err (InvalidUri "URL cannot be empty")
  else if negb (starts_with "openlv://" url)
  then Err (InvalidUri ("invalid URL format: must start with 'openlv://', got: " ++ redact_url url))
  else
    captures ← ok_or (regex_captures URI_REGEX url)
                     (InvalidUri ("invalid URL format: " ++ redact_url url));
    sid ← ok_or (group "1" captures) (InvalidUri "session ID missing");
    version_text ← ok_or (group "2" captures) (InvalidUri "version missing");
    version ← ok_or (u8_parse version_text) (InvalidUri "invalid version");
    if negb (version =? OPENLV_PROTOCOL_VERSION)%N
    then Err (InvalidUri ("invalid protocol version: expected " ++ pretty OPENLV_PROTOCOL_VERSION
                          ++ ", got " ++ pretty version))
    else
      query_string ← ok_or (group "3" captures) (InvalidUri "query string missing");
      let query_params := collect_map (form_parse query_string) in
      h ← ok_or (query_params !! "h") (InvalidUri "h parameter is required");
      if negb (is_match HASH_REGEX h)
      then Err (InvalidUri "invalid public key hash format: must be 16 hex characters")
      else
        k ← ok_or (query_params !! "k") (InvalidUri "k parameter is required");
        if negb (is_match SHARED_KEY_REGEX k)
        then Err (InvalidUri "invalid shared key format: must be 32 lowercase hex characters")
        else
          let p := match query_params !! "p" with
                   | Some value => protocol_from value
                   | None => Mqtt
                   end in
          let server := default "" (query_params !! "s") in
          key ← from_hex k;
          Ok (mkVersion1SessionUri sid h key p server).

(** [Version1SessionUri::to_url] *)
Definition to_url (self : Version1SessionUri) : string :=
  let query := form_serialize
    [("h", key_hash self); ("k", hex (shared_key self));
     ("p", protocol_to_string (signaling_protocol self)); ("s", signaling_server self)] in
  "openlv://" ++ session_id self ++ "@" ++ pretty OPENLV_PROTOCOL_VERSION ++ "?" ++ query.

(** ** Session identifiers *)

Definition URL_SAFE_ALPHABET : string :=
  "ABCDEFGHIJKLMNOPQRSTUVWXYZabcdefghijklmnopqrstuvwxyz0123456789-_".

(** [generate_session_id], with the 16 random bytes; indexing out of range would
    panic. *)
Definition session_id_char (byte : Byte.byte) : Result ascii :=
  expect (String.get (N.to_nat (Byte.to_N byte) mod String.length URL_SAFE_ALPHABET)
                     URL_SAFE_ALPHABET).

Fixpoint generate_session_id (random : bytes) : Result string :=
  match random with
  | [] => Ok ""
  | b :: r => c ← session_id_char b; rest ← generate_session_id r; Ok (String c rest)
  end.

End uri.

(** ** Well-formed URLs *)

Section uri_wf.
Context `{CryptoLib} `{UnicodeLib}.

Definition session_id_wf (s : string) : Prop :=
  String.length s = 16 /\ str_forall is_session_id_char s = true.

(** The protocols [protocol_from] produces. *)
Definition protocol_wf (p : SignalingProtocol) : Prop :=
  match p with
  | Unsupported v =>
      to_lowercase v = v /\ v <> "mqtt" /\ v <> "ntfy" /\ utf8_valid (as_bytes v) = true
  | _ => True
  end.

Definition uri_wf (u : Version1SessionUri) : Prop :=
  session_id_wf (session_id u) /\
  String.length (key_hash u) = 16 /\ str_forall is_lower_hexdigit (key_hash u) = true /\
  handshake_key_wf (shared_key u) /\
  protocol_wf (signaling_protocol u) /\
  utf8_valid (as_bytes (signaling_server u)) = true.

End uri_wf.

(** ** Lemmas *)

Lemma session_id_char_ascii a : is_session_id_char a = true -> is_ascii a = true.
Proof. by destruct a as [[] [] [] [] [] [] [] []]. Qed.

Lemma Forall_singles (p : ascii -> bool) (c : char_class) s :
  (forall a, p a = true -> c (String a "") = true) -> str_forall p s = true ->
  Forall (fun x => c x = true) (singles s).
Proof.
  intros Hc. unfold singles. induction s as [|a s IH]; csimpl; [constructor|].
  intros [Ha Hs]%andb_true_iff. constructor; auto.
Qed.

Lemma singles_ascii_class p s :
  Forall (fun x => ascii_class p x = true) (singles s) <-> str_forall p s = true.
Proof.
  split; [|by apply Forall_singles].
  unfold singles. induction s as [|a s IH]; csimpl; [done|].
  intros [Ha Hs]%Forall_cons. simpl in Ha. by rewrite Ha, IH.
Qed.

(** Text whose characters are all of an ASCII class is that class's bytes. *)
Lemma ascii_class_str_join p l :
  Forall (fun x => ascii_class p x = true) l ->
  str_forall p (str_join l) = true /\ String.length (str_join l) = length l.
Proof.
  induction 1 as [|x l Hx Hl [IH1 IH2]]; [done|]. unfold ascii_class in Hx.
  destruct x as [|a [|]]; try done. cbn [str_join]. rewrite str_app_cons. simpl.
  change ("" ++ str_join l) with (str_join l). by rewrite Hx, IH1, IH2.
Qed.

Section uri_lemmas.
Context `{CryptoLaws} `{RegexLib} `{UnicodeLib} `{FormLib}.

(** *** The first way to match *)

Lemma head_Lit s t : head (ways (Lit s) (singles s ++ t)%list) = Some ([], singles s, t).
Proof. by rewrite ways_Lit. Qed.

Lemma head_Cap n r t w :
  head (ways r t) = Some w -> head (ways (Cap n r) t) = Some ((n, str_join w.1.2) :: w.1.1, w.1.2, w.2).
Proof. simpl. destruct (ways r t); [done|]. by intros [= ->]. Qed.

Lemma head_Rep n c l t :
  length l = n -> Forall (fun x => c x = true) l ->
  head (ways (Rep n c) (l ++ t)%list) = Some ([], l, t).
Proof. intros Hn Hl. simpl. by rewrite (exactly_app n c l t). Qed.

Lemma head_Plus c l t :
  l <> [] -> Forall (fun x => c x = true) l ->
  match t with [] => True | x :: _ => c x = false end ->
  head (ways (Plus c) (l ++ t)%list) = Some ([], l, t).
Proof.
  intros Hne Hl Ht. simpl. destruct (greedy_run c l t Hl Ht) as (ps & -> & _).
  simpl. by destruct l.
Qed.

Lemma head_Seq r r' t w w' :
  head (ways r t) = Some w -> head (ways r' w.2) = Some w' ->
  head (ways (Seq r r') t) = Some ((w.1.1 ++ w'.1.1)%list, (w.1.2 ++ w'.1.2)%list, w'.2).
Proof.
  intros Hw Hw'. simpl. destruct (ways r t) as [|w0 l]; [done|]. injection Hw as ->.
  csimpl. destruct (ways r' w.2) as [|w1 l']; [done|]. by injection Hw' as ->.
Qed.

Lemma first_full_head l c k : head l = Some (c, k, []) -> first_full l = Some c.
Proof. destruct l; [done|]. by intros [= ->]. Qed.

(** *** The URL pattern *)

Lemma question_not_digit : is_unicode_digit "?" = false.
Proof. by rewrite is_unicode_digit_ascii. Qed.

Lemma uri_regex_match id v q :
  length id = 16 -> Forall (fun x => ascii_class is_session_id_char x = true) id ->
  v <> [] -> Forall (fun x => is_unicode_digit x = true) v ->
  q <> [] -> Forall (fun x => dot x = true) q ->
  first_full (ways URI_REGEX
    (singles "openlv://" ++ id ++ singles "@" ++ v ++ singles "?" ++ q)%list)
  = Some [("1", str_join id); ("2", str_join v); ("3", str_join q)].
Proof.
  intros Hid1 Hid2 Hv1 Hv2 Hq1 Hq2. unfold URI_REGEX.
  eapply first_full_head. etransitivity.
  { eapply head_Seq; [apply head_Lit|]. cbn [snd].
    eapply head_Seq; [apply head_Cap, head_Rep; eassumption|]. cbn [snd].
    eapply head_Seq; [apply head_Lit|]. cbn [snd].
    eapply head_Seq; [apply head_Cap, head_Plus; [done..|apply question_not_digit]|]. cbn [snd].
    eapply head_Seq; [apply head_Lit|]. cbn [snd].
    eapply head_Cap. rewrite <- (app_nil_r q) at 1. by apply head_Plus. }
  reflexivity.
Qed.

Lemma is_match_hex n h :
  is_match (Rep n (ascii_class is_lower_hexdigit)) h = true <->
  String.length h = n /\ str_forall is_lower_hexdigit h = true.
Proof.
  unfold is_match. rewrite regex_captures_spec. unfold leftmost_first. split.
  - destruct (first_full _) as [c|] eqn:E; [|done]. intros _.
    apply first_full_Some in E as [k Hk]. simpl in Hk.
    destruct (exactly _ _ _) as [p|] eqn:Ex; [|by apply not_elem_of_nil in Hk].
    apply list_elem_of_singleton in Hk. injection Hk as _ -> Hp2.
    apply exactly_split in Ex as (Hc & Hl & Hf). rewrite <- Hp2, app_nil_r in Hc.
    apply ascii_class_str_join in Hf as [Hf1 Hf2].
    rewrite <- (str_join_chars h), Hc. by rewrite Hf2.
  - intros [Hl Hh]. rewrite chars_ascii
      by (eapply str_forall_impl; [apply lower_hexdigit_ascii|done]).
    fold (singles h). simpl. rewrite <- (app_nil_r (singles h)).
    rewrite exactly_app; [done|by rewrite length_singles|by apply singles_ascii_class].
Qed.

Lemma protocol_from_to_string p : protocol_wf p -> protocol_from (protocol_to_string p) = p.
Proof.
  destruct p as [| |v]; simpl; unfold protocol_from.
  - by rewrite to_lowercase_ascii.
  - by rewrite to_lowercase_ascii.
  - intros (-> & Hm & Hn & _). by destruct (String.eqb_spec v "mqtt"), (String.eqb_spec v "ntfy").
Qed.

(** The URL a well-formed session prints, split as the pattern splits it. *)
Lemma chars_to_url sid q :
  str_forall is_session_id_char sid = true -> str_forall query_char q = true ->
  chars ("openlv://" ++ sid ++ "@" ++ pretty OPENLV_PROTOCOL_VERSION ++ "?" ++ q)
  = (singles "openlv://" ++ singles sid ++ singles "@" ++ singles "1" ++ singles "?" ++ singles q)%list.
Proof.
  intros Hs Hq. change (pretty OPENLV_PROTOCOL_VERSION) with "1".
  rewrite chars_ascii; [fold (singles ("openlv://" ++ sid ++ "@" ++ "1" ++ "?" ++ q)); by rewrite !singles_app|].
  rewrite !str_forall_app.
  rewrite (str_forall_impl is_session_id_char is_ascii sid session_id_char_ascii Hs).
  rewrite (str_forall_impl query_char is_ascii q); [done| |done].
  intros a [Ha _]%andb_true_iff. done.
Qed.

Lemma query_char_dot a : query_char a = true -> dot (String a "") = true.
Proof. by destruct a as [[] [] [] [] [] [] [] []]. Qed.

End uri_lemmas.

Section uri_results.
Context `{CryptoLaws} `{RegexLib} `{UnicodeLib} `{FormLib}.

Lemma collect_query h k p s :
  let m := collect_map [("h", h); ("k", k); ("p", p); ("s", s)] in
  m !! "h" = Some h /\ m !! "k" = Some k /\ m !! "p" = Some p /\ m !! "s" = Some s.
Proof. unfold collect_map. cbn [foldl fst snd]. split_and!; by simplify_map_eq. Qed.

Lemma lower_hex_utf8 s : str_forall is_lower_hexdigit s = true -> utf8_valid (as_bytes s) = true.
Proof. intros Hs. apply ascii_utf8_valid. by eapply str_forall_impl; [apply lower_hexdigit_ascii|]. Qed.

(** The captures of a printed URL. *)
Lemma to_url_captures sid q :
  session_id_wf sid -> str_forall query_char q = true -> q <> "" ->
  regex_captures URI_REGEX ("openlv://" ++ sid ++ "@" ++ pretty OPENLV_PROTOCOL_VERSION ++ "?" ++ q)
  = Some [("1", sid); ("2", "1"); ("3", q)].
Proof.
  intros [Hl Hs] Hq Hne. rewrite regex_captures_spec. unfold leftmost_first.
  rewrite chars_to_url by done. rewrite uri_regex_match.
  - by rewrite !str_join_singles.
  - by rewrite length_singles.
  - by apply singles_ascii_class.
  - done.
  - apply Forall_singleton. by rewrite is_unicode_digit_ascii.
  - by destruct q.
  - eapply Forall_singles; [apply query_char_dot|done].
Qed.

Lemma to_url_not_blank u : trim_is_empty (to_url u) = false.
Proof.
  unfold trim_is_empty, to_url. set (r := session_id u ++ _). clearbody r.
  rewrite str_app_cons. destruct (chars_cons_shape "o"
    (String "p" (String "e" (String "n" (String "l" (String "v" (String ":" (String "/" (String "/" r)))))))))
    as (x & cs & Hc).
  change ("penlv://" ++ r) with
    (String "p" (String "e" (String "n" (String "l" (String "v" (String ":" (String "/" (String "/" r)))))))).
  rewrite Hc. cbn [forallb]. rewrite andb_false_iff. left.
  cbn in Hc. injection Hc as <- _. reflexivity.
Qed.

Lemma to_url_starts u : starts_with "openlv://" (to_url u) = true.
Proof. apply starts_with_app. Qed.

Lemma from_url_to_url u : uri_wf u -> from_url (to_url u) = Ok u.
Proof.
  intros ([Hl Hs] & Hh1 & Hh2 & Hk & Hp & Hsrv). unfold from_url.
  rewrite to_url_not_blank, to_url_starts. cbn [negb].
  set (pairs := [("h", key_hash u); ("k", hex (shared_key u));
     ("p", protocol_to_string (signaling_protocol u)); ("s", signaling_server u)]).
  assert (Hpairs : form_parse (form_serialize pairs) = pairs).
  { apply form_parse_serialize. unfold pairs. destruct Hk as (_ & Hk & _ & _).
    assert (utf8_valid (as_bytes (protocol_to_string (signaling_protocol u))) = true)
      by (destruct (signaling_protocol u); [done..|apply Hp]).
    repeat (apply Forall_cons; split; [split; [done|]|]); auto using lower_hex_utf8. }
  unfold to_url. fold pairs.
  rewrite to_url_captures; [|done|apply form_serialize_chars|by apply form_serialize_nonempty].
  cbn. rewrite Hpairs.
  destruct (collect_query (key_hash u) (hex (shared_key u))
    (protocol_to_string (signaling_protocol u)) (signaling_server u)) as (E1 & E2 & E3 & E4).
  fold pairs in E1, E2, E3, E4.
  set (m := collect_map pairs) in *. clearbody m. rewrite E1. cbn.
  destruct (is_match HASH_REGEX _) eqn:M1; [|by rewrite (proj2 (is_match_hex 16 _)) in M1].
  cbn. rewrite E2. cbn.
  destruct Hk as (Hk1 & Hk2 & Hk3 & Hk4).
  destruct (is_match SHARED_KEY_REGEX _) eqn:M2; [|by rewrite (proj2 (is_match_hex 32 _)) in M2].
  cbn. rewrite E3, E4, protocol_from_to_string by done.
  destruct (from_hex_ok (hex (shared_key u))) as (c & Hc & _ & ->);
    [done|by eapply str_forall_impl; [apply lower_hexdigit_hexdigit|]|].
  cbn. rewrite to_ascii_lowercase_id by done. rewrite Hk3 in Hc. injection Hc as <-.
  destruct u as [? ? [] ? ?]. done.
Qed.

(** What the pattern guarantees about the session identifier. *)
Lemma uri_regex_session_id s c sid :
  regex_captures URI_REGEX s = Some c -> group "1" c = Some sid -> session_id_wf sid.
Proof.
  rewrite regex_captures_spec. intros Hc Hg. apply first_full_Some in Hc as [k Hk].
  unfold URI_REGEX in Hk.
  remember (Seq (Lit "@") _) as tail eqn:Et. clear Et.
  cbn [ways] in Hk. apply list_elem_of_bind in Hk as (w & Hk & Hw).
  apply list_elem_of_fmap in Hk as (w' & Heq & Hk).
  apply list_elem_of_bind in Hk as (w1 & Hk & Hw1).
  apply list_elem_of_fmap in Hk as (w2 & -> & _).
  apply list_elem_of_fmap in Hw1 as (w3 & -> & Hw3).
  destruct (strip _ _); [|by apply not_elem_of_nil in Hw].
  apply list_elem_of_singleton in Hw as ->.
  destruct (exactly _ _ _) as [p|] eqn:Ex; [|by apply not_elem_of_nil in Hw3].
  apply list_elem_of_singleton in Hw3 as ->. apply exactly_split in Ex as (_ & Hl & Hf).
  cbn in Heq. injection Heq as -> _ _. cbn in Hg. injection Hg as <-.
  apply ascii_class_str_join in Hf as [Hf1 Hf2]. split; [by rewrite Hf2|done].
Qed.

Lemma from_hex_matching k :
  is_match SHARED_KEY_REGEX k = true -> exists key, from_hex k = Ok key.
Proof.
  intros Hk. apply is_match_hex in Hk as [Hl Hh].
  destruct (from_hex_ok k) as (c & _ & _ & ->);
    [done|by eapply str_forall_impl; [apply lower_hexdigit_hexdigit|]|eauto].
Qed.

(** *** Redaction *)

Lemma find_char_app a q :
  str_forall (fun x => negb (Ascii.eqb x "?")) a = true ->
  find_char "?" (a ++ "?" ++ q) = Some (String.length a).
Proof.
  induction a as [|x a IH]; [done|]. rewrite str_app_cons. cbn [str_forall find_char].
  intros [Hx Ha]%andb_true_iff. apply negb_true_iff in Hx. rewrite Hx, IH by done. done.
Qed.

Lemma redact_url_app a q :
  str_forall (fun x => negb (Ascii.eqb x "?")) a = true ->
  redact_url (a ++ "?" ++ q) = a ++ "?[redacted]".
Proof. intros Ha. unfold redact_url. by rewrite find_char_app, substring_app_l. Qed.

End uri_results.

(** The error texts [from_url] can produce for a URL with the given part before
    the query string. *)
Definition uri_error_texts (before_query : string) : list string :=
  ["URL cannot be empty";
   "invalid URL format: must start with 'openlv://', got: " ++ before_query ++ "?[redacted]";
   "invalid URL format: " ++ before_query ++ "?[redacted]";
   "session ID missing"; "version missing"; "invalid version"; "query string missing";
   "h parameter is required";
   "invalid public key hash format: must be 16 hex characters";
   "k parameter is required";
   "invalid shared key format: must be 32 lowercase hex characters"].

Definition version_error_text (n : N) : string :=
  "invalid protocol version: expected " ++ pretty OPENLV_PROTOCOL_VERSION ++ ", got " ++ pretty n.

(** Membership in [uri_error_texts]. *)
Ltac in_texts :=
  unfold uri_error_texts; repeat first [apply list_elem_of_here | apply list_elem_of_further].

Lemma alphabet_valid :
  forallb (fun i => match String.get i URL_SAFE_ALPHABET with
                    | Some c => is_session_id_char c
                    | None => false
                    end) (seq 0 64) = true.
Proof. vm_compute. reflexivity. Qed.

Lemma session_id_char_valid b :
  exists c, session_id_char b = Ok c /\ is_session_id_char c = true.
Proof.
  unfold session_id_char. change (String.length URL_SAFE_ALPHABET) with 64.
  set (i := N.to_nat (Byte.to_N b) mod 64).
  assert (i < 64) as Hi by (apply Nat.mod_upper_bound; lia).
  pose proof (proj1 (forallb_forall _ _) alphabet_valid i) as Hc.
  rewrite in_seq in Hc. specialize (Hc ltac:(lia)).
  destruct (String.get i URL_SAFE_ALPHABET) as [c|]; [|done]. by exists c.
Qed.

(** Sixteen random bytes give a valid session identifier. *)
Lemma generated_session_id random :
  length random = 16 ->
  exists s, generate_session_id random = Ok s /\ session_id_wf s.
Proof.
  assert (forall l, exists s, generate_session_id l = Ok s /\
            String.length s = length l /\ str_forall is_session_id_char s = true) as Hl.
  { induction l as [|b l (s & IH & Hs1 & Hs2)]; [by exists ""|].
    destruct (session_id_char_valid b) as (c & Hc1 & Hc2). exists (String c s).
    cbn [generate_session_id]. rewrite Hc1. cbn [mbind res_bind]. rewrite IH. cbn.
    by rewrite Hs1, Hc2, Hs2. }
  intros Hr. destruct (Hl random) as (s & Hs & Hs1 & Hs2). exists s.
  rewrite Hr in Hs1. by repeat split.
Qed.

(** What [from_url] accepts, and that it never panics. *)
Lemma from_url_accepts `{CryptoLaws, RegexLib, UnicodeLib, FormLib} s :
  from_url s <> Panic /\
  forall u, from_url s = Ok u ->
    session_id_wf (session_id u) /\
    String.length (key_hash u) = 16 /\ str_forall is_lower_hexdigit (key_hash u) = true /\
    handshake_key_wf (shared_key u) /\
    exists p, signaling_protocol u = protocol_from p.
Proof.
  unfold from_url. destruct (trim_is_empty s); [done|].
  destruct (starts_with _ s); [|done]. cbn [negb].
  destruct (regex_captures URI_REGEX s) as [c|] eqn:Hc; [|done]. cbn [ok_or mbind res_bind].
  destruct (group "1" c) as [sid|] eqn:Hsid; [|done]. cbn [ok_or mbind res_bind].
  destruct (group "2" c) as [vt|]; [|done]. cbn [ok_or mbind res_bind].
  destruct (u8_parse vt) as [v|]; [|done]. cbn [ok_or mbind res_bind].
  destruct (v =? _)%N; [|done]. cbn [negb].
  destruct (group "3" c) as [q|]; [|done]. cbn [ok_or mbind res_bind].
  set (m := collect_map _). destruct (m !! "h") as [h|]; [|done]. cbn [ok_or mbind res_bind].
  destruct (is_match HASH_REGEX h) eqn:Hh; [|done]. cbn [negb].
  destruct (m !! "k") as [k|]; [|done]. cbn [ok_or mbind res_bind].
  destruct (is_match SHARED_KEY_REGEX k) eqn:Hk; [|done]. cbn [negb].
  destruct (from_hex_matching k Hk) as [key Hkey]. rewrite Hkey. cbn [mbind res_bind].
  split; [done|]. intros u [= <-]. cbn. apply is_match_hex in Hh as [Hh1 Hh2].
  split_and!; [by eapply uri_regex_session_id|done|done|by eapply from_hex_wf|].
  destruct (m !! "p") as [p|]; [by exists p|]. exists "mqtt".
  unfold protocol_from. by rewrite to_lowercase_ascii.
Qed.

Lemma from_url_no_panic `{CryptoLaws, RegexLib, UnicodeLib, FormLib} s : from_url s <> Panic.
Proof. apply from_url_accepts. Qed.

(** ** Properties *)

(** C36. Connection URLs round trip: parsing the URL that a well-formed session
    prints gives back the same session, whatever its server URL contains. *)
Theorem uri_round_trip `{CryptoLaws, RegexLib, UnicodeLib, FormLib} u :
  uri_wf u -> from_url (to_url u) = Ok u.
Proof. apply from_url_to_url. Qed.

(** C37. Parsing is safe on every text: [from_url] never panics, and a session it
    accepts has a session identifier of 16 URL-safe characters, a key hash of 16
    lowercase hexadecimal digits, a well-formed handshake key, and a protocol
    normalised by [SignalingProtocol::from]. *)
Theorem from_url_sound `{CryptoLaws, RegexLib, UnicodeLib, FormLib} s :
  from_url s <> Panic /\
  forall u, from_url s = Ok u ->
    session_id_wf (session_id u) /\
    String.length (key_hash u) = 16 /\ str_forall is_lower_hexdigit (key_hash u) = true /\
    handshake_key_wf (shared_key u) /\
    exists p, signaling_protocol u = protocol_from p.
Proof. apply from_url_accepts. Qed.

(** The secrets in the query string never reach an error: for every URL with a
    query string, whatever it is, an error of [from_url] is one of the texts
    determined by the part of the URL before the query (or the version number). *)
Theorem from_url_errors_hide_query `{CryptoLaws, RegexLib, UnicodeLib, FormLib} a q e :
  str_forall (fun x => negb (Ascii.eqb x "?")) a = true ->
  from_url (a ++ "?" ++ q) = Err e ->
  exists m, e = InvalidUri m /\ (m ∈ uri_error_texts a \/ exists n, m = version_error_text n).
Proof.
  intros Ha. unfold from_url. rewrite redact_url_app by done.
  assert (forall m, m ∈ uri_error_texts a -> Err (InvalidUri m) = Err e :> Result Version1SessionUri ->
    exists m, e = InvalidUri m /\ (m ∈ uri_error_texts a \/ exists n, m = version_error_text n)) as Hin.
  { intros m Hm [= <-]. eauto. }
  destruct (trim_is_empty _); [apply Hin; in_texts|].
  destruct (starts_with _ _); [|apply Hin; in_texts]. cbn [negb].
  destruct (regex_captures _ _) as [c|]; [|apply Hin; in_texts].
  cbn [ok_or mbind res_bind].
  destruct (group "1" c) as [sid|]; [|apply Hin; in_texts].
  cbn [ok_or mbind res_bind].
  destruct (group "2" c) as [vt|]; [|apply Hin; in_texts].
  cbn [ok_or mbind res_bind].
  destruct (u8_parse vt) as [v|]; [|apply Hin; in_texts].
  cbn [ok_or mbind res_bind].
  destruct (v =? _)%N; cbn [negb]; [|intros [= <-]; eexists; split; [done|right; by exists v]].
  destruct (group "3" c) as [qs|]; [|apply Hin; in_texts].
  cbn [ok_or mbind res_bind]. set (m := collect_map _).
  destruct (m !! "h") as [h|]; [|apply Hin; in_texts].
  cbn [ok_or mbind res_bind].
  destruct (is_match HASH_REGEX h); [|apply Hin; in_texts]. cbn [negb].
  destruct (m !! "k") as [k|]; [|apply Hin; in_texts].
  cbn [ok_or mbind res_bind].
  destruct (is_match SHARED_KEY_REGEX k) eqn:Hk; [|apply Hin; in_texts].
  cbn [negb]. destruct (from_hex_matching k Hk) as [key ->]. done.
Qed.

(** ** Instances and witnesses *)

Module UriModel.

#[export] Instance unicode_lib : UnicodeLib := {|
  to_lowercase := to_ascii_lowercase;
  is_unicode_digit := ascii_class is_ascii_digit;
  to_lowercase_ascii _ _ := eq_refl;
  is_unicode_digit_ascii _ _ := eq_refl;
|}.

Lemma text_char_query a : TextModel.text_char a = true -> query_char a = true.
Proof. by destruct a as [[] [] [] [] [] [] [] []]. Qed.

#[export] Instance form_lib : FormLib.
Proof.
  refine {|
    form_parse s := match TextModel.of_text s with inl l => l | inr _ => [] end;
    form_serialize l := TextModel.to_text l;
  |}.
  - intros l _. by rewrite TextModel.of_to_text.
  - intros l. eapply str_forall_impl; [apply text_char_query|apply TextModel.to_text_chars].
  - intros l _. apply TextModel.to_text_nonempty.
Defined.

#[export] Instance regex_lib : RegexLib := backtracking.

End UriModel.

Import CryptoModel UriModel.

Definition witness_uri : Version1SessionUri := {|
  session_id := "AbCdEfGh-_012345";
  key_hash := "0123456789abcdef";
  shared_key := mkHandshakeKey "00112233445566778899aabbccddeeff"
    (match from_hex "00112233445566778899aabbccddeeff" with Ok k => cipher k | _ => [] end);
  signaling_protocol := Unsupported "webtransport";
  signaling_server := "wss://broker.example:8443/mqtt?x=1&y=2";
|}.

Lemma witness_uri_wf : uri_wf witness_uri.
Proof. unfold uri_wf, session_id_wf, protocol_wf, handshake_key_wf. by vm_compute. Qed.

Lemma uri_round_trip_witness : from_url (to_url witness_uri) = Ok witness_uri.
Proof. exact (uri_round_trip witness_uri witness_uri_wf). Defined.

Lemma from_url_sound_witness :
  from_url "openlv://short@1?h=0" <> Panic /\
  is_lower_hexdigit "f" = true /\ str_forall is_lower_hexdigit (key_hash witness_uri) = true.
Proof.
  split; [exact (proj1 (from_url_sound "openlv://short@1?h=0"))|]. split; [done|].
  exact (proj1 (proj2 (proj2 (proj2 (from_url_sound (to_url witness_uri)) witness_uri
    (from_url_to_url witness_uri witness_uri_wf))))).
Defined.

Lemma from_url_errors_hide_query_witness :
  exists e m, from_url ("openlv://AbCdEfGh-_012345@1" ++ "?" ++ "secret") = Err e /\
    e = InvalidUri m /\
    (m ∈ uri_error_texts "openlv://AbCdEfGh-_012345@1" \/ exists n, m = version_error_text n).
Proof.
  assert (from_url ("openlv://AbCdEfGh-_012345@1" ++ "?" ++ "secret")
    = Err (InvalidUri "h parameter is required")) as He by (vm_compute; reflexivity).
  destruct (from_url_errors_hide_query "openlv://AbCdEfGh-_012345@1" "secret" _ eq_refl He)
    as (m & Hm & Hin).
  exists (InvalidUri "h parameter is required"), m. split; [exact He|]. split; [exact Hm|exact Hin].
Defined.
