(* ===== verification/Ntfy.v ===== *)
(** * ntfy servers ([signaling/ntfy/mod.rs], [signaling/ntfy/url/mod.rs])

    The URL of an ntfy server, the credentials in it, the URLs that the channel
    derives from it, and the loop that reads the server's events. *)
From S2P Require Import Prelude RustStr Errors Json Regex CryptoLib CryptoModel Encryption SessionUri.
Local Open Scope string_scope.

(** ** Server URLs *)

Inductive NtfyCredentials : Type :=
| UserPassword (user password : string)
| Token (token : string).

(** [fmt::Debug for NtfyCredentials] *)
Definition NtfyCredentials_debug (c : NtfyCredentials) : string :=
  match c with UserPassword _ _ => "UserPassword(..)" | Token _ => "Token(..)" end.

Record NtfyConnectionInfo : Type := mkNtfyConnectionInfo {
  host : string;
  protocol : string;
  ws_protocol : string;
  credentials : option NtfyCredentials;
  parameters : option string;
}.

(** [(?P<user>[^:@]+):] *)
Definition USER_REGEX : regex := Seq (Cap "user" (Plus (not_class [":"; "@"]))) (Lit ":").

(** [(?:(?P<user>[^:@]+):)?(?P<password>[^@]+)?@] *)
Definition USERINFO_REGEX : regex :=
  Seq (Opt USER_REGEX) (Seq (Opt (Cap "password" (Plus (not_class ["@"])))) (Lit "@")).

Definition PROTOCOL_REGEX : regex :=
  Alt (Seq (Lit "http") (Opt (Lit "s"))) (Seq (Lit "ntfy") (Opt (Lit "s"))).

Definition NTFY_REGEX : regex :=
  Seq (Cap "protocol" PROTOCOL_REGEX)
  (Seq (Lit "://")
  (Seq (Opt USERINFO_REGEX)
  (Seq (Cap "host" (Plus (not_class ["/"; "?"])))
  (Seq (Opt (Lit "/"))
       (Cap "parameters" (Star dot)))))).

Section ntfy.
Context `{CryptoLib} `{RegexLib}.

(** [NtfyCredentials::authorization] *)
Definition authorization (self : NtfyCredentials) : string :=
  match self with
  | UserPassword user password => "Basic " ++ to_base64 (as_bytes (user ++ ":" ++ password))
  | Token token => "Bearer " ++ token
  end.

Definition protocols (protocol_type : string) : option (string * string) :=
  if String.eqb protocol_type "http" || String.eqb protocol_type "ntfy" then Some ("http", "ws")
  else if String.eqb protocol_type "https" || String.eqb protocol_type "ntfys"
  then Some ("https", "wss")
  else None.

Definition normalise_parameters (raw : string) : option string :=
  if String.eqb raw "" then None
  else if starts_with "?" raw then Some raw
  else Some ("?" ++ raw).

Definition credentials_from (user password : option string) : option NtfyCredentials :=
  match user, password with
  | Some user, Some password => Some (UserPassword user password)
  | None, Some token => Some (Token token)
  | _, _ => None
  end.

(** [parse_ntfy_url] *)
Definition parse_ntfy_url (url : string) : Result NtfyConnectionInfo :=
  let invalid := Signaling ("invalid NTFY URL: " ++ url) in
  captures ← ok_or (regex_captures NTFY_REGEX url) invalid;
  protocol_type ← ok_or (group "protocol" captures) invalid;
  ps ← ok_or (protocols protocol_type) invalid;
  h ← ok_or (group "host" captures) invalid;
  Ok (mkNtfyConnectionInfo h ps.1 ps.2
        (credentials_from (group "user" captures) (group "password" captures))
        (group "parameters" captures ≫= normalise_parameters)).

(** The URLs of [NtfyChannel::setup] and [NtfyChannel::publish]. *)
Definition ws_url (i : NtfyConnectionInfo) (topic : string) : string :=
  ws_protocol i ++ "://" ++ host i ++ "/" ++ topic ++ "/ws" ++ default "" (parameters i).
Definition publish_url (i : NtfyConnectionInfo) (topic : string) : string :=
  protocol i ++ "://" ++ host i ++ "/" ++ topic.

End ntfy.

(** ** The task that reads the server's events *)

(** One event of the [select!]: a text frame with what [serde_json] reads, what the
    request for its attachment returns, and whether a handler is subscribed. *)
Inductive WsEvent : Type :=
| WsText (data : LibResult Value) (attachment : LibResult string) (subscribed : bool)
| WsClose
| WsOther
| Shutdown.

(** [ready_tx] is still there; the bodies given to the handler. *)
Record WsTask : Type := mkWsTask {
  ready_pending : bool;
  delivered : list string;
}.

(** The URL of the attachment, and the body of a message. *)
Definition attachment_url (data : Value) : option string :=
  attachment ← value_get "attachment" data; url ← value_get "url" attachment; as_str url.

Definition on_ws_text (data : Value) (attachment : LibResult string) (subscribed : bool)
    (w : WsTask) : WsTask :=
  let deliver body :=
    if subscribed : bool then mkWsTask (ready_pending w) (delivered w ++ [body])%list else w in
  match value_get "event" data ≫= as_str with
  | Some event =>
      if String.eqb event "open" then mkWsTask false (delivered w)
      else if String.eqb event "message" then
        match value_get "message" data ≫= as_str with
        | Some body =>
            match attachment_url data with
            | Some _ => match attachment with inl text => deliver text | inr _ => w end
            | None => deliver body
            end
        | None => w
        end
      else w
  | None => w
  end.

Fixpoint ws_loop (events : list WsEvent) (w : WsTask) : WsTask :=
  match events with
  | [] => w
  | WsText (inl data) attachment subscribed :: r =>
      ws_loop r (on_ws_text data attachment subscribed w)
  | WsText (inr _) _ _ :: r | WsOther :: r => ws_loop r w
  | WsClose :: _ | Shutdown :: _ => w
  end.

(** ** Lemmas *)

Lemma not_class_ascii l (p : ascii -> bool) s :
  str_forall p s = true -> (forall a, p a = true -> String a "" ∉ l) ->
  Forall (fun x => not_class l x = true) (singles s).
Proof.
  intros Hs Hp. eapply Forall_singles; [|exact Hs]. intros a Ha. unfold not_class.
  by rewrite bool_decide_false by auto.
Qed.

Lemma head_Opt r t w : head (ways r t) = Some w -> head (ways (Opt r) t) = Some w.
Proof. simpl. by destruct (ways r t). Qed.

Lemma head_Opt_none r t : ways r t = [] -> head (ways (Opt r) t) = Some ([], [], t).
Proof. simpl. by intros ->. Qed.

Lemma head_Star c l : Forall (fun x => c x = true) l -> head (ways (Star c) l) = Some ([], l, []).
Proof.
  intros Hl. simpl. destruct (greedy_run c l [] Hl I) as (ps & Hps & _).
  rewrite app_nil_r in Hps. by rewrite Hps.
Qed.

(** A way through a sequence that ends with a literal contains it. *)
Lemma ways_Seq_end r r' t w x :
  (forall t' w', w' ∈ ways r' t' -> x ∈ w'.1.2) -> w ∈ ways (Seq r r') t -> x ∈ w.1.2.
Proof.
  intros Hr Hw. cbn in Hw. apply list_elem_of_bind in Hw as (w1 & Hw & _).
  apply list_elem_of_fmap in Hw as (w2 & -> & Hw2). cbn. apply elem_of_app. right. by eapply Hr.
Qed.

Lemma userinfo_needs_at t : "@" ∉ t -> ways USERINFO_REGEX t = [].
Proof.
  intros Ht. destruct (ways USERINFO_REGEX t) as [|w l] eqn:E; [done|]. destruct Ht.
  assert (w ∈ ways USERINFO_REGEX t) as Hw by (rewrite E; apply list_elem_of_here).
  rewrite (ways_split _ _ _ Hw). apply elem_of_app. left.
  eapply ways_Seq_end; [|exact Hw]. intros t' w' Hw'. eapply ways_Seq_end; [|exact Hw'].
  intros t2 w2. cbn [ways]. destruct (strip _ _); [|by intros ?%not_elem_of_nil].
  intros ->%list_elem_of_singleton. apply list_elem_of_here.
Qed.

(** No user name in front of a token. *)
Lemma token_has_no_user tok rest :
  Forall (fun x => not_class [":"; "@"] x = true) tok -> ways USER_REGEX (tok ++ "@" :: rest) = [].
Proof.
  intros Htok. destruct (greedy_run (not_class [":"; "@"]) tok ("@" :: rest) Htok) as (ps & Hps & Hf);
    [done|].
  destruct (ways USER_REGEX _) as [|w l] eqn:E; [done|]. exfalso.
  assert (w ∈ ways USER_REGEX (tok ++ "@" :: rest)) as Hw by (rewrite E; apply list_elem_of_here).
  cbn [ways USER_REGEX] in Hw. apply list_elem_of_bind in Hw as (w1 & Hw & Hw1).
  apply list_elem_of_fmap in Hw as (w2 & -> & Hw2).
  apply list_elem_of_fmap in Hw1 as (w3 & -> & Hw3).
  apply list_elem_of_fmap in Hw3 as (p & -> & Hp).
  apply list_elem_of_In, filter_In in Hp as [Hp _]. apply list_elem_of_In in Hp.
  assert (exists x, head p.2 = Some x /\ x <> ":") as (x & Hx & Hne).
  { rewrite Hps in Hp. apply elem_of_cons in Hp as [->|Hp]; [by exists "@"|].
    rewrite Forall_forall in Hf. destruct (Hf p Hp) as (x & Hc & Hx). exists x. split; [done|].
    intros ->. by vm_compute in Hc. }
  cbn [ways plain snd] in Hw2. destruct (strip _ _) as [rest'|] eqn:Hs; [|by apply not_elem_of_nil in Hw2].
  apply strip_Some in Hs. rewrite Hs in Hx. by injection Hx.
Qed.

(** ** The parts of a server URL *)

Definition user_char (a : ascii) : bool :=
  is_ascii a && negb (Ascii.eqb a ":") && negb (Ascii.eqb a "@").
Definition password_char (a : ascii) : bool := is_ascii a && negb (Ascii.eqb a "@").
Definition host_char (a : ascii) : bool :=
  is_ascii a && negb (Ascii.eqb a "/") && negb (Ascii.eqb a "?").

Definition userinfo (c : option NtfyCredentials) : string :=
  match c with
  | None => ""
  | Some (UserPassword user password) => user ++ ":" ++ password ++ "@"
  | Some (Token token) => token ++ "@"
  end.

Definition credentials_wf (c : option NtfyCredentials) : Prop :=
  match c with
  | None => True
  | Some (UserPassword user password) =>
      user <> "" /\ str_forall user_char user = true /\
      password <> "" /\ str_forall password_char password = true
  | Some (Token token) => token <> "" /\ str_forall user_char token = true
  end.

Definition schemes : list (string * (string * string)) :=
  [("http", ("http", "ws")); ("https", ("https", "wss"));
   ("ntfy", ("http", "ws")); ("ntfys", ("https", "wss"))].

(** The captures of the user information. *)
Definition userinfo_captures (c : option NtfyCredentials) : captures :=
  match c with
  | None => []
  | Some (UserPassword user password) => [("user", user); ("password", password)]
  | Some (Token token) => [("password", token)]
  end.

Lemma user_char_class s :
  str_forall user_char s = true -> Forall (fun x => not_class [":"; "@"] x = true) (singles s).
Proof.
  intros Hs. eapply not_class_ascii; [exact Hs|]. intros a Ha Hin.
  rewrite !elem_of_cons in Hin. destruct Hin as [[= ->]|[[= ->]|[]%not_elem_of_nil]]; done.
Qed.

Lemma password_char_class s :
  str_forall password_char s = true -> Forall (fun x => not_class ["@"] x = true) (singles s).
Proof.
  intros Hs. eapply not_class_ascii; [exact Hs|]. intros a Ha [= ->]%list_elem_of_singleton. done.
Qed.

Lemma host_char_class s :
  str_forall host_char s = true -> Forall (fun x => not_class ["/"; "?"] x = true) (singles s).
Proof.
  intros Hs. eapply not_class_ascii; [exact Hs|]. intros a Ha Hin.
  rewrite !elem_of_cons in Hin. destruct Hin as [[= ->]|[[= ->]|[]%not_elem_of_nil]]; done.
Qed.

Lemma user_char_password s : str_forall user_char s = true -> str_forall password_char s = true.
Proof.
  apply str_forall_impl. intros a. unfold user_char, password_char.
  intros [[-> _]%andb_true_iff ->]%andb_true_iff. done.
Qed.

Lemma singles_nonempty s : s <> "" -> singles s <> [].
Proof. by destruct s. Qed.

Lemma head_password s rest :
  s <> "" -> str_forall password_char s = true ->
  head (ways (Seq (Opt (Cap "password" (Plus (not_class ["@"])))) (Lit "@"))
          (singles s ++ singles "@" ++ rest)%list)
  = Some ([("password", s)], (singles s ++ singles "@")%list, rest).
Proof.
  intros Hne Hs. etransitivity.
  { eapply head_Seq; [eapply head_Opt, head_Cap, head_Plus|].
    - by apply singles_nonempty.
    - by apply password_char_class.
    - done.
    - cbn [snd]. apply head_Lit. }
  cbn [fst snd]. by rewrite str_join_singles.
Qed.

(** The first way through the user information. *)
Lemma head_userinfo c rest :
  credentials_wf c -> (c = None -> "@" ∉ rest) ->
  head (ways (Opt USERINFO_REGEX) (singles (userinfo c) ++ rest)%list)
  = Some (userinfo_captures c, singles (userinfo c), rest).
Proof.
  intros Hc Hat. destruct c as [[user password|token]|]; cbn [userinfo userinfo_captures].
  - destruct Hc as (Hu1 & Hu2 & Hp1 & Hp2). rewrite !singles_app, <- !(assoc_L app).
    apply head_Opt. etransitivity.
    { eapply head_Seq; [eapply head_Opt|].
      - eapply head_Seq; [eapply head_Cap, head_Plus|].
        + by apply singles_nonempty.
        + by apply user_char_class.
        + done.
        + cbn [snd]. apply head_Lit.
      - cbn [snd]. by apply head_password. }
    cbn [fst snd]. rewrite str_join_singles. cbn [app]. by rewrite <- !(assoc_L app).
  - destruct Hc as (Ht1 & Ht2). rewrite !singles_app, <- !(assoc_L app).
    apply head_Opt. etransitivity.
    { eapply head_Seq; [eapply head_Opt_none, token_has_no_user, user_char_class, Ht2|].
      cbn [snd]. apply (head_password token rest Ht1). by apply user_char_password. }
    done.
  - cbn [singles list_ascii_of_string fmap list_fmap app]. apply head_Opt_none, userinfo_needs_at. auto.
Qed.

Lemma head_protocol sch rest :
  sch ∈ schemes.*1 ->
  head (ways PROTOCOL_REGEX (singles sch ++ singles "://" ++ rest)%list)
  = Some ([], singles sch, (singles "://" ++ rest)%list).
Proof.
  unfold schemes. cbn [fmap list_fmap fst]. rewrite !elem_of_cons.
  by intros [->|[->|[->|[->|[]%not_elem_of_nil]]]].
Qed.

Lemma ntfy_regex_match sch c h raw :
  sch ∈ schemes.*1 -> credentials_wf c -> h <> "" -> str_forall host_char h = true ->
  str_forall query_char raw = true ->
  (c = None -> "@" ∉ (singles h ++ singles "/" ++ singles raw)%list) ->
  first_full (ways NTFY_REGEX
    (singles sch ++ singles "://" ++ singles (userinfo c) ++ singles h ++ singles "/" ++ singles raw)%list)
  = Some (("protocol", sch) :: userinfo_captures c ++ [("host", h); ("parameters", raw)])%list.
Proof.
  intros Hsch Hc Hh1 Hh2 Hraw Hat. eapply first_full_head. etransitivity.
  { eapply head_Seq; [by eapply head_Cap, head_protocol|]. cbn [snd].
    eapply head_Seq; [apply head_Lit|]. cbn [snd].
    eapply head_Seq; [by apply head_userinfo|]. cbn [snd].
    eapply head_Seq; [eapply head_Cap, head_Plus; [by apply singles_nonempty|by apply host_char_class|done]|].
    cbn [snd].
    eapply head_Seq; [apply head_Opt, head_Lit|]. cbn [snd].
    eapply head_Cap, head_Star, Forall_singles; [apply query_char_dot|exact Hraw]. }
  cbn [fst snd]. rewrite !str_join_singles. cbn [app]. done.
Qed.

Lemma chars_ntfy_url sch c h raw :
  sch ∈ schemes.*1 -> credentials_wf c -> str_forall host_char h = true ->
  str_forall query_char raw = true ->
  chars (sch ++ "://" ++ userinfo c ++ h ++ "/" ++ raw)
  = (singles sch ++ singles "://" ++ singles (userinfo c) ++ singles h ++ singles "/" ++ singles raw)%list.
Proof.
  intros Hsch Hc Hh Hraw.
  assert (str_forall is_ascii (userinfo c) = true) as Hu.
  { destruct c as [[u p|t]|]; cbn [userinfo]; [| |done].
    - destruct Hc as (_ & Hu & _ & Hp). rewrite !str_forall_app.
      rewrite (str_forall_impl user_char is_ascii u); [|by intros a [[? _]%andb_true_iff _]%andb_true_iff|done].
      rewrite (str_forall_impl password_char is_ascii p); [done|by intros a [? _]%andb_true_iff|done].
    - destruct Hc as (_ & Ht). rewrite !str_forall_app.
      by rewrite (str_forall_impl user_char is_ascii t); [|by intros a [[? _]%andb_true_iff _]%andb_true_iff|]. }
  assert (str_forall is_ascii sch = true) as Hs.
  { revert Hsch. unfold schemes. cbn [fmap list_fmap fst]. rewrite !elem_of_cons.
    by intros [->|[->|[->|[->|[]%not_elem_of_nil]]]]. }
  rewrite chars_ascii.
  { fold (singles (sch ++ "://" ++ userinfo c ++ h ++ "/" ++ raw)). by rewrite !singles_app. }
  rewrite !str_forall_app, Hu, Hs.
  rewrite (str_forall_impl host_char is_ascii h); [|by intros a [[? _]%andb_true_iff _]%andb_true_iff|done].
  by rewrite (str_forall_impl query_char is_ascii raw); [|by intros a [? _]%andb_true_iff|].
Qed.

Lemma singles_no_at s : str_forall password_char s = true -> "@" ∉ singles s.
Proof.
  intros Hs Hin. apply password_char_class in Hs. rewrite Forall_forall in Hs.
  specialize (Hs _ Hin). done.
Qed.

(** ** Properties *)

(** The parts of an ntfy URL are found: for each of the four schemes, with a user and a
    password, a token or nothing before the host, and any ASCII text after it, the
    parser returns exactly those parts, with the scheme's protocols and the
    parameters as a query string. The host may be followed by anything; without
    credentials there must be no [@] in the host or after it. *)
Theorem parse_ntfy_url_parts `{RegexLib} sch protocol ws_protocol c h raw :
  (sch, (protocol, ws_protocol)) ∈ schemes -> credentials_wf c ->
  h <> "" -> str_forall host_char h = true -> str_forall query_char raw = true ->
  (c = None -> str_forall password_char h = true /\ str_forall password_char raw = true) ->
  parse_ntfy_url (sch ++ "://" ++ userinfo c ++ h ++ "/" ++ raw)
  = Ok (mkNtfyConnectionInfo h protocol ws_protocol c (normalise_parameters raw)).
Proof.
  intros Hsch Hc Hh1 Hh2 Hraw Hat. unfold parse_ntfy_url.
  assert (sch ∈ schemes.*1) as Hs by (apply list_elem_of_fmap; by exists (sch, (protocol, ws_protocol))).
  rewrite regex_captures_spec. unfold leftmost_first. rewrite chars_ntfy_url, ntfy_regex_match; try done.
  - cbn [ok_or mbind res_bind group String.eqb Ascii.eqb]. cbn.
    assert (protocols sch = Some (protocol, ws_protocol)) as ->.
    { revert Hsch. unfold schemes. rewrite !elem_of_cons.
      by intros [[= -> -> ->]|[[= -> -> ->]|[[= -> -> ->]|[[= -> -> ->]|[]%not_elem_of_nil]]]]. }
    destruct c as [[u p|t]|]; done.
  - intros ->. destruct (Hat eq_refl) as [H1 H2]. rewrite !elem_of_app.
    intros [Hin|[Hin|Hin]]; [by apply singles_no_at in H1| |by apply singles_no_at in H2].
    by apply list_elem_of_singleton in Hin.
Qed.

(** Everything before the first [@] counts as user information, even when it is the
    host, the path or the query: a server URL with an [@] in its query is taken for
    another server, and the real host and the query become a bearer token that is
    sent to it. *)
Theorem query_taken_for_userinfo `{CryptoLib, RegexLib} :
  exists i, parse_ntfy_url "https://ntfy.sh/?auth=me@evil.example" = Ok i /\
    host i = "evil.example" /\
    authorization <$> credentials i = Some "Bearer ntfy.sh/?auth=me" /\
    publish_url i "topic" = "https://evil.example/topic".
Proof.
  eexists. split.
  { unfold parse_ntfy_url. rewrite regex_captures_spec.
    assert (leftmost_first NTFY_REGEX "https://ntfy.sh/?auth=me@evil.example"
      = Some [("protocol", "https"); ("password", "ntfy.sh/?auth=me"); ("host", "evil.example");
              ("parameters", "")]) as -> by (vm_compute; reflexivity).
    reflexivity. }
  by split_and!.
Qed.

(** The handler gets the bodies in their order: what the task delivers for a prefix of
    the events stays delivered, and closing or shutting down ends it. *)
Theorem ws_loop_delivers_in_order events events' w :
  exists l, delivered (ws_loop (events ++ events')%list w)
    = (delivered (ws_loop events w) ++ l)%list.
Proof.
  assert (forall es v, exists l, delivered (ws_loop es v) = (delivered v ++ l)%list) as Hmono.
  { intros es. induction es as [|[[data|e] a sub| | |] es IH]; intros v; cbn [ws_loop];
      try (by exists []; rewrite app_nil_r); try by apply IH.
    destruct (IH (on_ws_text data a sub v)) as [l ->]. unfold on_ws_text.
    repeat case_match; cbn [delivered]; rewrite <- ?(assoc_L app); eauto. }
  revert w. induction events as [|[[data|e] a sub| | |] events IH]; intros w; cbn [ws_loop app];
    try apply IH; try (by exists []; rewrite app_nil_r). apply Hmono.
Qed.

(** ** Witnesses *)

Import UriModel.

Lemma parse_ntfy_url_parts_witness :
  parse_ntfy_url ("ntfys" ++ "://" ++ userinfo (Some (UserPassword "user" "pass:word"))
      ++ "ntfy.example.com" ++ "/" ++ "auth=1")
  = Ok (mkNtfyConnectionInfo "ntfy.example.com" "https" "wss"
      (Some (UserPassword "user" "pass:word")) (Some "?auth=1")).
Proof.
  apply (parse_ntfy_url_parts "ntfys" "https" "wss" (Some (UserPassword "user" "pass:word"))
    "ntfy.example.com" "auth=1").
  - unfold schemes. repeat first [apply list_elem_of_here | apply list_elem_of_further].
  - split; [discriminate|]. split; [reflexivity|]. split; [discriminate|reflexivity].
  - discriminate.
  - reflexivity.
  - reflexivity.
  - discriminate.
Defined.
