(* ===== verification/Tasks.v ===== *)
(** * Asynchronous code

    The async functions of the program as resumptions. A [prog] is a sequence of
    atomic accesses to the shared state ([Atom]: one lock region, one channel
    send, one call whose result the environment decides) and of suspension
    points ([Await]). A [run] executes one function without interference. A
    [Config] is the shared state with all the tasks that work on it: [step]
    interleaves their atoms in any order, starts spawned tasks and cancels
    aborted ones, which can happen at their suspension points only.

    [wp] is the rely-guarantee reading of a program: every atom keeps the
    invariant and stays within the guarantee [G], and what the code learnt
    before may be used after, up to changes that [G] allows to the other
    tasks. [reachable_sound] lifts it to every interleaving. *)
From S2P Require Import Prelude Errors.

(** ** Programs *)

Section prog.
Context {W I : Type}.

(** [W] is the shared state, [I] what the environment decides at an atom: random
    bytes, the clock, the outcome of an I/O call. *)
Inductive prog (A : Type) : Type :=
| Done (r : Result A)
| Atom (B : Type) (f : I -> W -> W * B) (k : B -> prog A)
| Await (k : prog A).

End prog.
Arguments prog W I A : clear implicits.
Arguments Done {W I A} r.
Arguments Atom {W I A B} f k.
Arguments Await {W I A} k.

Section ops.
Context {W I : Type}.

Fixpoint prog_bind {A B} (p : prog W I A) (q : A -> prog W I B) : prog W I B :=
  match p with
  | Done (Ok a) => q a
  | Done (Err e) => Done (Err e)
  | Done Panic => Done Panic
  | Atom f k => Atom f (fun b => prog_bind (k b) q)
  | Await k => Await (prog_bind k q)
  end.

#[export] Instance prog_mret : MRet (prog W I) := fun A a => Done (Ok a).
#[export] Instance prog_mbind : MBind (prog W I) := fun A B q p => prog_bind p q.

(** One atomic access. *)
Definition atom {B} (f : I -> W -> W * B) : prog W I B := Atom f (fun b => Done (Ok b)).

(** Read the shared state. *)
Definition reads {B} (f : W -> B) : prog W I B := atom (fun _ w => (w, f w)).

(** Write the shared state. *)
Definition writes (f : W -> W) : prog W I unit := atom (fun _ w => (f w, tt)).

(** What the environment decides. *)
Definition asks {B} (f : I -> B) : prog W I B := atom (fun i w => (w, f i)).

(** A value computed without the shared state, with [?] on it. *)
Definition lift {A} (r : Result A) : prog W I A := Done r.

(** A suspension point. *)
Definition await : prog W I unit := Await (Done (Ok tt)).

(** [if let Err(error) = call { log }]: carry on after a failure; a panic goes
    through. *)
Fixpoint attempt {A} (p : prog W I A) : prog W I (Result A) :=
  match p with
  | Done Panic => Done Panic
  | Done r => Done (Ok r)
  | Atom f k => Atom f (fun b => attempt (k b))
  | Await k => Await (attempt k)
  end.

(** ** One function, without interference *)

(** [inputs n] is what the environment decides at the [n]-th atom. *)
Fixpoint run {A} (inputs : nat -> I) (n : nat) (p : prog W I A) (w : W) : Result A * nat * W :=
  match p with
  | Done r => (r, n, w)
  | Atom f k => let '(w', b) := f (inputs n) w in run inputs (S n) (k b) w'
  | Await k => run inputs n k w
  end.

Lemma run_bind {A B} inputs n (p : prog W I A) (q : A -> prog W I B) w :
  run inputs n (p ≫= q) w =
  match run inputs n p w with
  | (Ok a, n', w') => run inputs n' (q a) w'
  | (Err e, n', w') => (Err e, n', w')
  | (Panic, n', w') => (Panic, n', w')
  end.
Proof.
  change (p ≫= q) with (prog_bind p q). revert n w.
  induction p as [[a|e|]|B' f k IH|k IH]; intros n w; cbn; [done..| |].
  - destruct (f (inputs n) w) as [w' b]. apply IH.
  - apply IH.
Qed.

Lemma run_attempt {A} inputs n (p : prog W I A) w :
  run inputs n (attempt p) w =
  match run inputs n p w with
  | (Panic, n', w') => (Panic, n', w')
  | (r, n', w') => (Ok r, n', w')
  end.
Proof.
  revert n w. induction p as [[a|e|]|B' f k IH|k IH]; intros n w; cbn; [done..| |].
  - destruct (f (inputs n) w) as [w' b]. apply IH.
  - apply IH.
Qed.

Lemma run_lift_Ok {A B} inputs n (a : A) (q : A -> prog W I B) w :
  run inputs n (lift (Ok a) ≫= q) w = run inputs n (q a) w.
Proof. done. Qed.

End ops.

(** ** A function that is interrupted *)

Section interrupted.
Context {W I : Type}.

(** The first [steps] steps of a function: what is left of it then. A task that is
    destroyed there is a task whose remaining code never runs. *)
Fixpoint run_for {A} (inputs : nat -> I) (steps n : nat) (p : prog W I A) (w : W)
    : prog W I A * nat * W :=
  match steps, p with
  | S j, Atom f k => let '(w', b) := f (inputs n) w in run_for inputs j (S n) (k b) w'
  | S j, Await k => run_for inputs j n k w
  | _, _ => (p, n, w)
  end.

(** The same as a function: the result, if there is one by then. *)
Fixpoint first_steps {A} (steps : nat) (p : prog W I A) : prog W I (option (Result A)) :=
  match p with
  | Done r => Done (Ok (Some r))
  | Atom f k =>
      match steps with O => Done (Ok None) | S j => Atom f (fun b => first_steps j (k b)) end
  | Await k => match steps with O => Done (Ok None) | S j => Await (first_steps j k) end
  end.

(** The function has not returned. *)
Definition suspended {A} (p : prog W I A) : Prop := match p with Done _ => False | _ => True end.

Lemma suspended_or_done {A} (p : prog W I A) : suspended p \/ exists r, p = Done r.
Proof. destruct p; [right; eauto|by left..]. Qed.

Lemma run_for_0 {A} inputs n (p : prog W I A) w : run_for inputs 0 n p w = (p, n, w).
Proof. by destruct p. Qed.

Lemma run_first_steps {A} inputs j n (p : prog W I A) w :
  run inputs n (first_steps j p) w =
  let '(rest, n', w') := run_for inputs j n p w in
  (Ok (match rest with Done r => Some r | _ => None end), n', w').
Proof.
  revert n p w. induction j as [|j IH]; intros n p w; [by destruct p|].
  destruct p as [r|B f k|k]; cbn; [done| |apply IH].
  destruct (f (inputs n) w) as [w' b]. apply IH.
Qed.

Lemma run_le {A} inputs n (p : prog W I A) w r n1 w1 : run inputs n p w = (r, n1, w1) -> n <= n1.
Proof.
  revert n w. induction p as [r0|B f k IH|k IH]; intros n w; cbn; [by intros [= _ <- _]| |apply IH].
  destruct (f (inputs n) w) as [w' b]. intros Hr%IH. lia.
Qed.

Lemma run_for_le {A} inputs j n (p : prog W I A) w p1 n1 w1 :
  run_for inputs j n p w = (p1, n1, w1) -> n <= n1.
Proof.
  revert n p w. induction j as [|j IH]; intros n p w; [rewrite run_for_0; by intros [= <- <- <-]|].
  destruct p as [r|B f k|k]; cbn; [by intros [= <- <- <-]| |apply IH].
  destruct (f (inputs n) w) as [w' b]. intros Hr%IH. lia.
Qed.

(** Running on from an interruption. *)
Lemma run_for_run {A} inputs j n (p : prog W I A) w p1 n1 w1 :
  run_for inputs j n p w = (p1, n1, w1) -> run inputs n1 p1 w1 = run inputs n p w.
Proof.
  revert n p w. induction j as [|j IH]; intros n p w; [rewrite run_for_0; by intros [= <- <- <-]|].
  destruct p as [r|B f k|k]; cbn; [by intros [= <- <- <-]| |apply IH].
  destruct (f (inputs n) w) as [w' b]. apply IH.
Qed.

(** An interruption of the first of two functions is one of both. *)
Lemma run_for_inside {A B} inputs j n (p : prog W I A) (q : A -> prog W I B) w p1 n1 w1 :
  run_for inputs j n p w = (p1, n1, w1) -> suspended p1 ->
  run_for inputs j n (p ≫= q) w = (p1 ≫= q, n1, w1).
Proof.
  change (run_for inputs j n (prog_bind p q) w = (prog_bind p1 q, n1, w1)) with
    (run_for inputs j n (p ≫= q) w = (p1 ≫= q, n1, w1)).
  revert n p w. induction j as [|j IH]; intros n p w; [rewrite !run_for_0; by intros [= <- <- <-]|].
  destruct p as [r|B' f k|k]; cbn; [by intros [= <- <- <-]| |apply IH].
  destruct (f (inputs n) w) as [w' b]. apply IH.
Qed.

Lemma run_for_attempt {A} inputs j n (p : prog W I A) w p1 n1 w1 :
  run_for inputs j n p w = (p1, n1, w1) -> suspended p1 ->
  run_for inputs j n (attempt p) w = (attempt p1, n1, w1).
Proof.
  revert n p w. induction j as [|j IH]; intros n p w; [rewrite !run_for_0; by intros [= <- <- <-]|].
  destruct p as [r|B' f k|k]; cbn; [by intros [= <- <- <-]| |apply IH].
  destruct (f (inputs n) w) as [w' b]. apply IH.
Qed.

(** An interruption of the second, when the first returns. *)
Lemma run_for_after {A B} inputs n (p : prog W I A) (q : A -> prog W I B) w a n1 w1 :
  run inputs n p w = (Ok a, n1, w1) ->
  exists j, forall i, run_for inputs (j + i) n (p ≫= q) w = run_for inputs i n1 (q a) w1.
Proof.
  revert n w. induction p as [r|B' f k IH|k IH]; intros n w; cbn.
  - intros [= -> -> ->]. by exists 0.
  - destruct (f (inputs n) w) as [w' b] eqn:Hf. intros Hr. destruct (IH b (S n) w' Hr) as [j Hj].
    exists (S j). intros i. cbn. rewrite Hf. apply Hj.
  - intros Hr. destruct (IH n w Hr) as [j Hj]. exists (S j). exact Hj.
Qed.

(** After some steps, [rest] is left of the function. *)
Definition reaches {A} (inputs : nat -> I) (n : nat) (p : prog W I A) (w : W)
    (rest : prog W I A) (n1 : nat) (w1 : W) : Prop :=
  exists j, run_for inputs j n p w = (rest, n1, w1).

Lemma reaches_here {A} inputs n (p : prog W I A) w : reaches inputs n p w p n w.
Proof. exists 0. apply run_for_0. Qed.

Lemma reaches_inside {A B} inputs n (p : prog W I A) (q : A -> prog W I B) w p1 n1 w1 :
  reaches inputs n p w p1 n1 w1 -> suspended p1 ->
  reaches inputs n (p ≫= q) w (p1 ≫= q) n1 w1.
Proof. intros [j Hj] Hs. exists j. by apply run_for_inside. Qed.

Lemma reaches_attempt {A} inputs n (p : prog W I A) w p1 n1 w1 :
  reaches inputs n p w p1 n1 w1 -> suspended p1 ->
  reaches inputs n (attempt p) w (attempt p1) n1 w1.
Proof. intros [j Hj] Hs. exists j. by apply run_for_attempt. Qed.

Lemma reaches_after {A B} inputs n (p : prog W I A) (q : A -> prog W I B) w a n1 w1 rest n2 w2 :
  run inputs n p w = (Ok a, n1, w1) -> reaches inputs n1 (q a) w1 rest n2 w2 ->
  reaches inputs n (p ≫= q) w rest n2 w2.
Proof.
  intros Hp [i Hi]. destruct (run_for_after inputs n p q w a n1 w1 Hp) as [j Hj].
  exists (j + i). by rewrite Hj.
Qed.

(** Where two functions in sequence are interrupted. *)
Lemma run_for_cases {A B} inputs j n (p : prog W I A) (q : A -> prog W I B) w p' n' w' :
  run_for inputs j n (p ≫= q) w = (p', n', w') -> suspended p' ->
  (exists p1, run_for inputs j n p w = (p1, n', w') /\ suspended p1) \/
  (exists a n1 w1 i, run inputs n p w = (Ok a, n1, w1) /\
     run_for inputs i n1 (q a) w1 = (p', n', w')).
Proof.
  revert n p w. induction j as [|j IH]; intros n p w.
  - rewrite !run_for_0. intros [= <- <- <-]. destruct p as [[a|e|]|B' f k|k]; cbn; try done.
    + intros _. right. exists a, n, w, 0. by rewrite run_for_0.
    + intros _. left. by eexists.
    + intros _. left. by eexists.
  - destruct p as [[a|e|]|B' f k|k]; cbn [run].
    + intros Hr _. right. by exists a, n, w, (S j).
    + by intros [= <- _ _].
    + by intros [= <- _ _].
    + cbn. destruct (f (inputs n) w) as [w1 b]. apply IH.
    + apply IH.
Qed.

(** One atom is interrupted before it, if at all. *)
Lemma run_for_atom {B} inputs j n (f : I -> W -> W * B) w p' n' w' :
  run_for inputs j n (atom f) w = (p', n', w') -> suspended p' -> n' = n /\ w' = w.
Proof.
  destruct j as [|j]; cbn; [by intros [= <- <- <-]|].
  destruct (f (inputs n) w) as [w1 b]. destruct j; by intros [= <- _ _].
Qed.

Lemma run_for_await inputs j n w p' n' w' :
  run_for inputs j n (await : prog W I unit) w = (p', n', w') -> suspended p' -> n' = n /\ w' = w.
Proof. destruct j as [|[|j]]; cbn; [by intros [= <- <- <-]|by intros [= <- _ _]..]. Qed.

End interrupted.

(** ** Programs on a part of a larger state *)

Section zoom.
Context {W I W' I' : Type} (get : W' -> W) (put : W -> W' -> W') (input : I' -> I).

Fixpoint zoom {A} (p : prog W I A) : prog W' I' A :=
  match p with
  | Done r => Done r
  | Atom f k =>
      Atom (fun i w => let '(x, b) := f (input i) (get w) in (put x w, b)) (fun b => zoom (k b))
  | Await k => Await (zoom k)
  end.

Context (get_put : forall x w, get (put x w) = x).
Context (put_put : forall x y w, put x (put y w) = put x w).
Context (put_get : forall w, put (get w) w = w).

Lemma run_zoom {A} inputs n (p : prog W I A) w :
  run inputs n (zoom p) w =
  let '(r, n', x) := run (fun k => input (inputs k)) n p (get w) in (r, n', put x w).
Proof using get_put put_put put_get.
  revert n w. induction p as [r|B f k IH|k IH]; intros n w; cbn.
  - by rewrite put_get.
  - destruct (f (input (inputs n)) (get w)) as [x b]. rewrite IH, get_put.
    destruct (run _ (S n) (k b) x) as [[r n'] y]. by rewrite put_put.
  - apply IH.
Qed.

End zoom.

(** ** Rely-guarantee *)

Section wp.
Context {W I : Type} (Inv : W -> Prop) (G : W -> W -> Prop).

(** [w] is a state the code knows about: the current one is [G]-reachable from
    it. The postcondition speaks of such a state too. *)
Fixpoint wp {A} (p : prog W I A) (Q : Result A -> W -> Prop) (w : W) : Prop :=
  match p with
  | Done r => Q r w
  | Await k => wp k Q w
  | Atom f k => forall i w', G w w' -> Inv w' ->
      Inv (f i w').1 /\ G w' (f i w').1 /\ wp (k (f i w').2) Q (f i w').1
  end.

Definition stable (P : W -> Prop) : Prop := forall w w', G w w' -> P w -> P w'.

(** The code keeps the invariant, whatever it returns. *)
Definition safe {A} (p : prog W I A) (w : W) : Prop := wp p (fun _ _ => True) w.

Context `{!PreOrder G}.

Lemma wp_mono {A} (p : prog W I A) (Q Q' : Result A -> W -> Prop) w :
  (forall r w', Q r w' -> Q' r w') -> wp p Q w -> wp p Q' w.
Proof.
  intros HQ. revert w. induction p as [r|B f k IH|k IH]; intros w; cbn; [auto| |auto].
  intros Hp i w' HG HI. destruct (Hp i w' HG HI) as (? & ? & ?). auto.
Qed.

Lemma wp_stable {A} (p : prog W I A) (Q : Result A -> W -> Prop) w w' :
  (forall r, stable (Q r)) -> G w w' -> wp p Q w -> wp p Q w'.
Proof.
  intros HQ. revert w w'. induction p as [r|B f k IH|k IH]; intros w w' HG; cbn.
  - by apply HQ.
  - intros Hp i w'' HG' HI. apply Hp; [|done]. by etrans.
  - by apply IH.
Qed.

Lemma safe_stable {A} (p : prog W I A) w w' : G w w' -> safe p w -> safe p w'.
Proof. intros HG. apply wp_stable; [by intros|done]. Qed.

Lemma wp_bind {A B} (p : prog W I A) (q : A -> prog W I B) Q w :
  wp p (fun r w' => match r with
                    | Ok a => wp (q a) Q w'
                    | Err e => Q (Err e) w'
                    | Panic => Q Panic w'
                    end) w ->
  wp (p ≫= q) Q w.
Proof.
  change (p ≫= q) with (prog_bind p q). revert w.
  induction p as [[a|e|]|B' f k IH|k IH]; intros w; cbn; [done..| |auto].
  intros Hp i w' HG HI. destruct (Hp i w' HG HI) as (? & ? & ?). auto.
Qed.

(** Sequencing, for code whose result is not constrained. *)
Lemma safe_bind {A B} (p : prog W I A) (q : A -> prog W I B) (Q : A -> W -> Prop) w :
  wp p (fun r w' => match r with Ok a => Q a w' | _ => True end) w ->
  (forall a w', Q a w' -> safe (q a) w') ->
  safe (p ≫= q) w.
Proof.
  intros Hp Hq. apply wp_bind. eapply wp_mono; [|exact Hp].
  intros [a|e|] w' H; cbn; [by apply Hq|done..].
Qed.

Lemma safe_bind_any {A B} (p : prog W I A) (q : A -> prog W I B) w :
  safe p w -> (forall a w', safe (q a) w') -> safe (p ≫= q) w.
Proof.
  intros Hp Hq. eapply (safe_bind _ _ (fun _ _ => True)); [|auto].
  eapply wp_mono; [|exact Hp]. by intros [].
Qed.

(** What holds of the state the code knows holds of every later one. *)
Lemma wp_frame {A} (p : prog W I A) (P : W -> Prop) Q w :
  stable P -> P w -> wp p Q w -> wp p (fun r w' => Q r w' /\ P w') w.
Proof.
  intros HP. revert w. induction p as [r|B f k IH|k IH]; intros w Hw; cbn; [done| |auto].
  intros Hp i w' HG HI. destruct (Hp i w' HG HI) as (? & HG' & ?). split_and!; [done..|].
  apply IH; [|done]. eapply HP; [exact HG'|]. by eapply HP.
Qed.

(** Sequencing: what was known before is known after. *)
Lemma safe_seq {A B} (p : prog W I A) (q : A -> prog W I B) w :
  safe p w -> (forall a, safe (q a) w) -> safe (p ≫= q) w.
Proof.
  intros Hp Hq. apply (safe_bind _ _ (fun _ w' => G w w')).
  - eapply wp_mono; [|apply (wp_frame p (G w)); [by intros ? ? ?; etrans| |exact Hp]]; [|done].
    by intros [] w' [_ ?].
  - intros a w' HG. by eapply safe_stable.
Qed.

Lemma safe_writes (f : W -> W) w :
  (forall w', G w w' -> Inv w' -> Inv (f w') /\ G w' (f w')) -> safe (writes f : prog W I unit) w.
Proof. intros H i w' HG HI. destruct (H w' HG HI). by split_and!. Qed.

Lemma safe_reads {B} (f : W -> B) w : safe (reads f : prog W I B) w.
Proof. intros i w' HG HI. cbn. by split_and!. Qed.

Lemma safe_asks {B} (f : I -> B) w : safe (asks f : prog W I B) w.
Proof. intros i w' HG HI. cbn. by split_and!. Qed.

(** Reading the state, and what the value tells. *)
Lemma safe_read_bind {B C} (f : W -> B) (q : B -> prog W I C) w :
  (forall w', G w w' -> Inv w' -> safe (q (f w')) w') -> safe (reads f ≫= q) w.
Proof. intros H i w' HG HI. cbn. split_and!; [done..|]. by apply H. Qed.

Lemma safe_atom_bind {B C} (f : I -> W -> W * B) (q : B -> prog W I C) w :
  (forall i w', G w w' -> Inv w' ->
     Inv (f i w').1 /\ G w' (f i w').1 /\ safe (q (f i w').2) (f i w').1) ->
  safe (atom f ≫= q) w.
Proof. intros H i w' HG HI. cbn. by apply H. Qed.

Lemma safe_lift {A B} (r : Result A) (q : A -> prog W I B) w :
  (forall a, r = Ok a -> safe (q a) w) -> safe (lift r ≫= q) w.
Proof. intros Hq. destruct r as [a|e|]; [by apply Hq|by unfold safe; cbn..]. Qed.

Lemma wp_reads {B} (f : W -> B) Q w :
  (forall w', G w w' -> Inv w' -> Q (Ok (f w')) w') -> wp (@reads W I B f) Q w.
Proof. intros H i w' HG HI. cbn. split; [done|]. split; [done|]. by apply H. Qed.

Lemma wp_asks {B} (f : I -> B) Q w :
  (forall i w', G w w' -> Inv w' -> Q (Ok (f i)) w') -> wp (@asks W I B f) Q w.
Proof. intros H i w' HG HI. cbn. split; [done|]. split; [done|]. by apply H. Qed.

Lemma wp_writes (f : W -> W) Q w :
  (forall w', G w w' -> Inv w' -> Inv (f w') /\ G w' (f w') /\ Q (Ok tt) (f w')) ->
  wp (@writes W I f) Q w.
Proof. intros H i w' HG HI. cbn. by apply H. Qed.

Lemma wp_atom {B} (f : I -> W -> W * B) Q w :
  (forall i w', G w w' -> Inv w' ->
     Inv (f i w').1 /\ G w' (f i w').1 /\ Q (Ok (f i w').2) (f i w').1) ->
  wp (atom f) Q w.
Proof. intros H i w' HG HI. cbn. by apply H. Qed.

Lemma safe_attempt {A} (p : prog W I A) w : safe p w -> safe (attempt p) w.
Proof.
  unfold safe. revert w. induction p as [[a|e|]|B' f k IH|k IH]; intros w; cbn; [done..| |auto].
  intros Hp i w' HG HI. destruct (Hp i w' HG HI) as (? & ? & ?). auto.
Qed.

Lemma safe_first_steps {A} j (p : prog W I A) w : safe p w -> safe (first_steps j p) w.
Proof.
  unfold safe. revert j w. induction p as [r|B' f k IH|k IH]; intros j w; destruct j as [|j]; cbn; try done.
  - intros Hp i w' HG HI. destruct (Hp i w' HG HI) as (? & ? & ?). auto.
  - auto.
Qed.

(** A run without interference is one of the executions [wp] speaks of. *)
Lemma run_wp {A} inputs n (p : prog W I A) Q w :
  Inv w -> wp p Q w ->
  Inv (run inputs n p w).2 /\ G w (run inputs n p w).2 /\
  Q (run inputs n p w).1.1 (run inputs n p w).2.
Proof.
  revert n w. induction p as [r|B f k IH|k IH]; intros n w HI; cbn; [done| |by apply IH].
  intros Hp. destruct (Hp (inputs n) w) as (HI' & HG & Hk); [done..|].
  destruct (f (inputs n) w) as [w' b]. cbn in *.
  destruct (IH b (S n) w' HI' Hk) as (? & ? & ?). split; [done|]. split; [by etrans|done].
Qed.

End wp.

(** ** Interleaving *)

(** A task: its code, the body it repeats if it is a loop, and the name under
    which it can be aborted. *)
Record Thread (W I : Type) : Type := mkThread {
  code : prog W I unit;
  again : option (prog W I unit);
  task_id : option nat;
}.
Arguments mkThread {W I}.
Arguments code {W I}.
Arguments again {W I}.
Arguments task_id {W I}.

Record Config (W I : Type) : Type := mkConfig {
  world : W;
  threads : list (Thread W I);
}.
Arguments mkConfig {W I}.
Arguments world {W I}.
Arguments threads {W I}.

Inductive event (I C : Type) : Type :=
| Run (i : nat) (input : I)
| Cancel (i : nat)
| Start
| Enter (call : C).
Arguments Run {I C}.
Arguments Cancel {I C}.
Arguments Start {I C}.
Arguments Enter {I C}.

Section interleaving.
Context {W I C : Type}.

(** Which tasks have been aborted, the next spawned task, the code behind a call
    from outside (the public methods, the callbacks), and what a call leaves in
    the shared state when it arrives. *)
Context (is_aborted : W -> nat -> bool).
Context (take_spawned : W -> option (W * Thread W I)).
Context (entry : C -> prog W I unit).
Context (arrive : C -> W -> W).

Definition set_code (t : Thread W I) (p : prog W I unit) : Thread W I :=
  mkThread p (again t) (task_id t).

Definition aborted_thread (w : W) (t : Thread W I) : bool :=
  match task_id t with Some n => is_aborted w n | None => false end.

(** [None]: the event is not possible. *)
Definition step (e : event I C) (c : Config W I) : option (Config W I) :=
  match e with
  | Run i input =>
      t ← threads c !! i;
      match code t with
      | Atom f k =>
          let '(w', b) := f input (world c) in
          Some (mkConfig w' (<[i := set_code t (k b)]> (threads c)))
      | Await k =>
          if aborted_thread (world c) t then None
          else Some (mkConfig (world c) (<[i := set_code t k]> (threads c)))
      | Done Panic => Some (mkConfig (world c) (delete i (threads c)))
      | Done _ =>
          match again t with
          | Some p => Some (mkConfig (world c) (<[i := set_code t p]> (threads c)))
          | None => Some (mkConfig (world c) (delete i (threads c)))
          end
      end
  | Cancel i =>
      t ← threads c !! i;
      match code t with
      | Await _ =>
          if aborted_thread (world c) t then Some (mkConfig (world c) (delete i (threads c))) else None
      | _ => None
      end
  | Start =>
      '(w', t) ← take_spawned (world c);
      Some (mkConfig w' (threads c ++ [t]))
  | Enter call =>
      Some (mkConfig (arrive call (world c)) (threads c ++ [mkThread (entry call) None None]))
  end.

Fixpoint steps (es : list (event I C)) (c : Config W I) : option (Config W I) :=
  match es with [] => Some c | e :: r => c' ← step e c; steps r c' end.

Inductive reachable (c : Config W I) : Config W I -> Prop :=
| reachable_refl : reachable c c
| reachable_step e c' c'' : reachable c c' -> step e c' = Some c'' -> reachable c c''.

Lemma reachable_steps c c' es c'' :
  reachable c c' -> steps es c' = Some c'' -> reachable c c''.
Proof.
  revert c'. induction es as [|e es IH]; intros c' Hr; simpl.
  - by intros [= <-].
  - destruct (step e c') as [d|] eqn:E; [|done]. simpl. apply IH. by eapply reachable_step.
Qed.

Lemma reachable_trans c c' c'' : reachable c c' -> reachable c' c'' -> reachable c c''.
Proof. intros H. induction 1; [done|]. by eapply reachable_step. Qed.

(** A run without interference is one of the schedules, for a task that nobody
    aborts. *)
Lemma run_steps inputs n p w ts i t r n' w' :
  ts !! i = Some t -> code t = p -> task_id t = None ->
  run inputs n p w = (r, n', w') ->
  exists es, steps es (mkConfig w ts) = Some (mkConfig w' (<[i := set_code t (Done r)]> ts)).
Proof.
  revert n w ts t. induction p as [r0|B f k IH|k IH]; intros n w ts t Hi Hc Ht Hr; cbn in Hr.
  - injection Hr as -> _ ->. exists []. simpl. do 2 f_equal. symmetry. apply list_insert_id.
    rewrite Hi. f_equal. destruct t; cbn in *. by subst.
  - destruct (f (inputs n) w) as [w1 b] eqn:Hf.
    destruct (IH b (S n) w1 (<[i := set_code t (k b)]> ts) (set_code t (k b))) as [es Hes]; try done.
    { apply list_lookup_insert_eq. by eapply lookup_lt_Some. }
    exists (Run i (inputs n) :: es). simpl. rewrite Hi. cbn. rewrite Hc, Hf. cbn. rewrite Hes.
    by rewrite list_insert_insert_eq.
  - destruct (IH n w (<[i := set_code t k]> ts) (set_code t k)) as [es Hes]; try done.
    { apply list_lookup_insert_eq. by eapply lookup_lt_Some. }
    exists (Run i (inputs n) :: es). simpl. rewrite Hi. cbn. rewrite Hc.
    unfold aborted_thread. rewrite Ht. cbn. rewrite Hes. by rewrite list_insert_insert_eq.
Qed.

(** *** Schedules *)

(** Run one task until it ends or is stuck, with the same input at every atom. *)
Fixpoint play (fuel : nat) (i : nat) (input : I) (c : Config W I) : Config W I :=
  match fuel with
  | O => c
  | S n =>
      match step (Run i input) c with
      | Some c' =>
          if length (threads c') <? length (threads c) then c' else play n i input c'
      | None => c
      end
  end.

(** Perform an event, if it is possible. *)
Definition perform (e : event I C) (c : Config W I) : Config W I := default c (step e c).

(** A call from outside that runs to its end. *)
Definition invoke (input : I) (call : C) (c : Config W I) : Config W I :=
  play 200 (length (threads c)) input (perform (Enter call) c).

Lemma perform_reachable e c c' : reachable c c' -> reachable c (perform e c').
Proof.
  intros H. unfold perform. destruct (step e c') as [d|] eqn:E; [|done]. by eapply reachable_step.
Qed.

Lemma play_reachable fuel i input c c' : reachable c c' -> reachable c (play fuel i input c').
Proof.
  revert c'. induction fuel as [|n IH]; intros c' H; cbn [play]; [done|].
  destruct (step (Run i input) c') as [d|] eqn:E; [|done].
  assert (reachable c d) by (by eapply reachable_step).
  destruct (_ <? _); auto.
Qed.

Lemma invoke_reachable input call c c' : reachable c c' -> reachable c (invoke input call c').
Proof. intros H. by apply play_reachable, perform_reachable. Qed.

(** *** Soundness of [wp] *)

Context (Inv : W -> Prop) (G : W -> W -> Prop) `{!PreOrder G}.

Definition safe_thread (w : W) (t : Thread W I) : Prop :=
  safe Inv G (code t) w /\
  match again t with Some p => safe Inv G p w | None => True end.

Definition safe_config (c : Config W I) : Prop :=
  Inv (world c) /\ Forall (safe_thread (world c)) (threads c).

Context (take_spawned_safe : forall w w' t, Inv w -> take_spawned w = Some (w', t) ->
  Inv w' /\ G w w' /\ safe_thread w' t).
Context (entry_safe : forall call w, Inv w ->
  Inv (arrive call w) /\ G w (arrive call w) /\ safe Inv G (entry call) (arrive call w)).

Lemma safe_thread_stable w w' t : G w w' -> safe_thread w t -> safe_thread w' t.
Proof.
  intros HG [Hc Ha]. split; [by eapply safe_stable|].
  destruct (again t); [by eapply safe_stable|done].
Qed.

Lemma safe_threads_stable w w' ts :
  G w w' -> Forall (safe_thread w) ts -> Forall (safe_thread w') ts.
Proof. intros HG Ht. eapply Forall_impl; [exact Ht|]. intros t. by apply safe_thread_stable. Qed.

Lemma step_sound e c c' :
  safe_config c -> step e c = Some c' -> safe_config c' /\ G (world c) (world c').
Proof.
  intros [HI Ht]. destruct e as [i input|i| |call]; simpl.
  - destruct (threads c !! i) as [t|] eqn:Hi; [|done]. cbn.
    assert (Hti := Forall_lookup_1 _ _ _ _ Ht Hi). destruct Hti as [Hc Ha].
    destruct (code t) as [r|B f k|k] eqn:Ecode.
    + assert (safe_config (mkConfig (world c) (delete i (threads c)))) as Hdel
        by (split; [done|by apply Forall_delete]).
      assert (forall p, again t = Some p ->
        safe_config (mkConfig (world c) (<[i:=set_code t p]> (threads c)))) as Hagain.
      { intros p Hp. split; [done|]. apply Forall_insert; [done|].
        rewrite Hp in Ha. split; cbn; [done|by rewrite Hp]. }
      destruct r; [destruct (again t); intros [= <-]..|intros [= <-]]; (split; [by auto|done]).
    + destruct (Hc input (world c)) as (HI' & HG & Hk); [done..|].
      destruct (f input (world c)) as [w' b]. intros [= <-]. cbn in *. split; [|done].
      split; cbn; [done|]. apply Forall_insert; [by eapply safe_threads_stable|].
      split; cbn; [done|]. destruct (again t); [by eapply safe_stable|done].
    + destruct (aborted_thread _ _); [done|]. intros [= <-]. split; [|done].
      split; cbn; [done|]. apply Forall_insert; [done|]. by split.
  - destruct (threads c !! i) as [t|]; [|done]. cbn. destruct (code t); [done..|].
    destruct (aborted_thread _ _); [|done]. intros [= <-].
    split; [|done]. split; cbn; [done|by apply Forall_delete].
  - destruct (take_spawned (world c)) as [[w' t]|] eqn:E; [|done]. intros [= <-].
    destruct (take_spawned_safe _ _ _ HI E) as (HI' & HG & Hst). split; [|done].
    split; cbn; [done|]. apply Forall_app. split; [by eapply safe_threads_stable|].
    by apply Forall_singleton.
  - intros [= <-]. destruct (entry_safe call (world c) HI) as (HI' & HG & Hst).
    split; [|done]. split; cbn; [done|]. apply Forall_app.
    split; [by eapply safe_threads_stable|]. apply Forall_singleton. by split.
Qed.

(** In every reachable configuration the invariant holds, and it only changed
    within the guarantee. *)
Lemma reachable_sound c c' :
  safe_config c -> reachable c c' -> safe_config c' /\ G (world c) (world c').
Proof.
  intros Hc. induction 1 as [|e c' c'' _ [IH HG] Hs]; [done|].
  destruct (step_sound _ _ _ IH Hs) as [? ?]. split; [done|]. by etrans.
Qed.

End interleaving.

(** ** Safe programs on a part of a larger state *)

Section safe_zoom.
Context {W I W' I' : Type} (get : W' -> W) (put : W -> W' -> W') (input : I' -> I).
Context (Inv : W -> Prop) (G : W -> W -> Prop) (Inv' : W' -> Prop) (G' : W' -> W' -> Prop).
Context (get_put : forall x w, get (put x w) = x).
Context (get_inv : forall w, Inv' w -> Inv (get w)).
Context (get_G : forall w w', G' w w' -> G (get w) (get w')).
Context `{!PreOrder G'} (w0 : W').
Context (put_inv : forall w x, G' w0 w -> Inv' w -> Inv x -> G (get w) x ->
  Inv' (put x w) /\ G' w (put x w)).

(** What is safe on the part is safe on the whole, where the whole has evolved from
    a state [w0] that the code knows. *)
Lemma safe_zoom_from {A} (p : prog W I A) w :
  G' w0 w -> safe Inv G p (get w) -> safe Inv' G' (zoom get put input p) w.
Proof using All.
  unfold safe. revert w. induction p as [r|B f k IH|k IH]; intros w H0; cbn; [done| |auto].
  intros Hp i w' HG HI. destruct (Hp (input i) (get w')) as (HIx & HGx & Hk); [auto..|].
  assert (G' w0 w') as H0' by (by etrans).
  destruct (f (input i) (get w')) as [x b]. cbn in *.
  destruct (put_inv w' x H0' HI HIx HGx) as [HI' HG']. split_and!; [done..|].
  apply IH; [by etrans|]. by rewrite get_put.
Qed.

Lemma safe_zoom {A} (p : prog W I A) :
  safe Inv G p (get w0) -> safe Inv' G' (zoom get put input p) w0.
Proof using All. by apply safe_zoom_from. Qed.

Definition zoom_thread (t : Thread W I) : Thread W' I' :=
  mkThread (zoom get put input (code t)) (zoom get put input <$> again t) (task_id t).

Lemma safe_zoom_thread t :
  safe_thread Inv G (get w0) t -> safe_thread Inv' G' w0 (zoom_thread t).
Proof using All.
  intros [Hc Ha]. split; cbn; [by apply safe_zoom|].
  destruct (again t); cbn; [by apply safe_zoom|done].
Qed.

End safe_zoom.

(** ** What every atom of a program does *)

Section every.
Context {W I : Type} (Q : W -> W -> Prop).

(** Whatever the state in which an atom runs, it changes it within [Q]. *)
Fixpoint every {A} (p : prog W I A) : Prop :=
  match p with
  | Done _ => True
  | Atom f k => forall i w, Q w (f i w).1 /\ every (k (f i w).2)
  | Await k => every k
  end.

Lemma every_bind {A B} (p : prog W I A) (q : A -> prog W I B) :
  every p -> (forall a, every (q a)) -> every (p ≫= q).
Proof.
  change (p ≫= q) with (prog_bind p q). intros Hp Hq. revert Hp.
  induction p as [[a|e|]|B' f k IH|k IH]; cbn; [auto..| |auto].
  intros Hp i w. destruct (Hp i w). auto.
Qed.

Lemma every_atom {B} (f : I -> W -> W * B) : (forall i w, Q w (f i w).1) -> every (atom f).
Proof. intros Hf i w. split; [apply Hf|exact Logic.I]. Qed.

Lemma every_atom_bind {B C} (f : I -> W -> W * B) (q : B -> prog W I C) :
  (forall i w, Q w (f i w).1 /\ every (q (f i w).2)) -> every (atom f ≫= q).
Proof. intros Hf i w. apply Hf. Qed.

Lemma every_writes (f : W -> W) : (forall w, Q w (f w)) -> every (@writes W I f).
Proof. intros Hf. by apply every_atom. Qed.

Lemma every_lift {A} (r : Result A) : every (lift r : prog W I A).
Proof. exact Logic.I. Qed.

Context `{!Reflexive Q}.

Lemma every_reads {B} (f : W -> B) : every (@reads W I B f).
Proof. by apply every_atom. Qed.

Lemma every_asks {B} (f : I -> B) : every (@asks W I B f).
Proof. by apply every_atom. Qed.

End every.

Lemma every_run {W I A} (Q : W -> W -> Prop) `{!PreOrder Q} inputs n (p : prog W I A) w :
  every Q p -> Q w (run inputs n p w).2.
Proof.
  revert n w. induction p as [r|B f k IH|k IH]; intros n w Hp; cbn; [done| |by apply IH].
  destruct (Hp (inputs n) w) as [HQ Hk]. destruct (f (inputs n) w) as [w' b]. etrans; [exact HQ|by apply IH].
Qed.

(** At every interruption, too, the changes are within [Q]. *)
Lemma every_run_for {W I A} (Q : W -> W -> Prop) `{!PreOrder Q} inputs j n (p : prog W I A) w p' n' w' :
  every Q p -> run_for inputs j n p w = (p', n', w') -> Q w w'.
Proof.
  revert n p w. induction j as [|j IH]; intros n p w Hp; [rewrite run_for_0; by intros [= _ _ <-]|].
  destruct p as [r|B f k|k]; cbn; [by intros [= _ _ <-]| |by apply IH].
  destruct (Hp (inputs n) w) as [HQ Hk]. destruct (f (inputs n) w) as [w1 b]. intros Hr.
  etrans; [exact HQ|]. by eapply IH.
Qed.

(** A program on a part leaves alone what [put] leaves alone. *)
Lemma every_zoom {W I W' I'} (get : W' -> W) (put : W -> W' -> W') (input : I' -> I)
    (Q : W' -> W' -> Prop) {A} (p : prog W I A) :
  (forall x w, Q w (put x w)) -> every Q (zoom get put input p).
Proof.
  intros Hput. induction p as [r|B f k IH|k IH]; cbn; [done| |done]. intros i w.
  destruct (f (input i) (get w)) as [x b]. cbn. auto.
Qed.

Lemma every_attempt {W I A} (Q : W -> W -> Prop) (p : prog W I A) : every Q p -> every Q (attempt p).
Proof.
  induction p as [[a|e|]|B f k IH|k IH]; cbn; [done..| |done].
  intros Hp i w. destruct (Hp i w). split; [done|by apply IH].
Qed.

(** A program on a part is safe on the whole when every change it makes to the part,
    in any state after [w0], keeps the invariant and the guarantee. *)
Lemma safe_zoom_every {W I W' I'} (get : W' -> W) (put : W -> W' -> W') (input : I' -> I)
    (Q : W -> W -> Prop) (Inv' : W' -> Prop) (G' : W' -> W' -> Prop) `{!PreOrder G'} (w0 : W')
    {A} (p : prog W I A) :
  (forall w x, G' w0 w -> Inv' w -> Q (get w) x -> Inv' (put x w) /\ G' w (put x w)) ->
  every Q p -> safe Inv' G' (zoom get put input p) w0.
Proof.
  intros Hput. unfold safe. enough (forall w, G' w0 w -> every Q p ->
    wp Inv' G' (zoom get put input p) (fun _ _ => True) w) as Hall by (by apply Hall).
  induction p as [r|B f k IH|k IH]; intros w H0; cbn; [done| |by apply IH].
  intros Hp i w' HG HI. destruct (Hp (input i) (get w')) as [HQ Hk].
  assert (G' w0 w') as H0' by (by etrans).
  destruct (f (input i) (get w')) as [x b]. cbn in *.
  destruct (Hput w' x H0' HI HQ) as [HI' HG']. split_and!; [done..|].
  apply IH; [by etrans|done].
Qed.
