(* ===== verification/Channel.v ===== *)
(** * Signaling channels ([signaling/channel.rs])

    The trait [SignalingChannel] as a class: the operations, and what a channel
    promises to the signaling layer. A channel's methods are programs over its state;
    the calls into its network library are recorded, and their outcomes are inputs. *)
From S2P Require Import Prelude RustStr Errors Tasks.
Local Open Scope string_scope.
Local Open Scope list_scope.

(** A call that leaves the program. *)
Inductive NetCall : Type :=
| MqttConnect (server : string)
| MqttSubscribe (topic : string)
| MqttPublish (topic : string) (payload : bytes)
| MqttDisconnect
| WsConnect (url : string) (authorization : option string)
| HttpPost (url : string) (authorization : option string) (content_type body : string).

(** How the wait for the server's confirmation ends. *)
Inductive ReadyOutcome : Type := Confirmed | NotWithin10s | SenderDropped.

(** What the environment decides: the outcome of a library call, the confirmation, and
    whether there is a Tokio runtime where a message arrives. *)
Record NetInput : Type := mkNetInput {
  net_io : LibResult unit;
  net_ready : ReadyOutcome;
  net_runtime : bool;
}.

(** ** The interface *)

(** The trait, for a channel with states [C], whose library brings it [Event]s:
    [on_event] is the code that the library calls, which may leave the delivery of a
    payload to a task of its own ([pending], run by [run_task]); [connected] tells
    whether the channel has its connection, [net] the calls it made, [handed] what it
    gave to the subscribed handler, and [relays] which event brings what a call
    published. A channel that is [ordered] starts no tasks. *)
Class SignalingChannel (C Event : Type) : Type := {
  channel_type : string;
  setup : prog C NetInput unit;
  teardown : prog C NetInput unit;
  publish : string -> prog C NetInput unit;
  subscribe : prog C NetInput unit;
  on_event : Event -> prog C NetInput unit;
  run_task : nat -> prog C NetInput unit;
  connected : C -> bool;
  subscribed : C -> bool;
  net : C -> list NetCall;
  handed : C -> list string;
  pending : C -> list string;
  relays : NetCall -> Event -> Prop;
  ordered : bool;
}.

(** A payload arrives: it is handed over, or left to a task. *)
Definition takes {C Event} `{SignalingChannel C Event} (p : string) (w w' : C) : Prop :=
  subscribed w' = true /\ connected w' = connected w /\ net w' = net w /\
  if ordered then handed w' = handed w ++ [p] /\ pending w' = pending w
  else handed w' = handed w /\ pending w' = pending w ++ [p].

(** The call carries the payload to every subscriber. *)
Definition carries_to {C Event} `{SignalingChannel C Event} (call : NetCall) (p : string) : Prop :=
  forall e inputs n (w : C), relays call e -> subscribed w = true -> net_runtime (inputs n) = true ->
  exists n' w', run inputs n (on_event e) w = (Ok tt, n', w') /\ takes p w w'.

(** What a channel promises. *)
Class SignalingChannelLaws (C Event : Type) `{!SignalingChannel C Event} : Prop := {
  setup_connects inputs n (w : C) r n' w' :
    run inputs n setup w = (r, n', w') ->
    r <> Panic /\ connected w' = (connected w || is_ok r) /\
    subscribed w' = subscribed w /\ handed w' = handed w /\ pending w' = pending w;
  teardown_disconnects inputs n (w : C) r n' w' :
    run inputs n teardown w = (r, n', w') ->
    r <> Panic /\ connected w' = false /\ subscribed w' = subscribed w /\ handed w' = handed w;
  subscribe_ok inputs n (w : C) : exists n' w',
    run inputs n subscribe w = (Ok tt, n', w') /\ subscribed w' = true /\
    connected w' = connected w /\ net w' = net w /\ handed w' = handed w /\ pending w' = pending w;
  publish_disconnected inputs n (w : C) p :
    connected w = false -> exists e n', run inputs n (publish p) w = (Err e, n', w);
  publish_connected inputs n (w : C) p :
    connected w = true -> utf8_valid (as_bytes p) = true ->
    exists call k n' w', run inputs n (publish p) w = (lib_err Signaling (net_io (inputs k)), n', w') /\
      connected w' = true /\ subscribed w' = subscribed w /\
      handed w' = handed w /\ pending w' = pending w /\
      net w' = net w ++ [call] /\ carries_to (C := C) call p /\ exists e, relays (C := C) call e;
  run_task_ok inputs n (w : C) i : subscribed w = true ->
    exists n' w', run inputs n (run_task i) w = (Ok tt, n', w') /\ subscribed w' = true /\
      connected w' = connected w /\ net w' = net w /\
      handed w' = handed w ++ option_list (pending w !! i) /\ pending w' = delete i (pending w);
}.

(** ** Traffic over a channel *)

Section traffic.
Context {C Event : Type} `{SignalingChannel C Event}.

(** Publish one payload after the other, whatever each attempt returns. *)
Fixpoint publish_all (ps : list string) : prog C NetInput (list (Result unit)) :=
  match ps with
  | [] => mret []
  | p :: r => x ← attempt (publish p); xs ← publish_all r; mret (x :: xs)
  end.

(** What happens on the side of a subscriber: an event, or a task that runs. *)
Fixpoint receive_all (schedule : list (Event + nat)) : prog C NetInput unit :=
  match schedule with
  | [] => mret tt
  | inl e :: r => on_event e;; receive_all r
  | inr i :: r => run_task i;; receive_all r
  end.

Definition events (schedule : list (Event + nat)) : list Event :=
  omap (fun x => match x with inl e => Some e | inr _ => None end) schedule.

(** What one side publishes is what the other side hands over: in the same order, if
    the channel is ordered. *)
Definition carries : Prop :=
  forall inputs inputs' n n' (a b : C) ps,
  subscribed b = true -> pending b = [] -> (forall k, net_runtime (inputs' k) = true) ->
  Forall (fun p => utf8_valid (as_bytes p) = true) ps ->
  (connected a = true ->
   exists rs n1 a' calls, run inputs n (publish_all ps) a = (Ok rs, n1, a') /\
     length rs = length ps /\ net a' = net a ++ calls /\ length calls = length ps /\
     forall schedule, Forall2 relays calls (events schedule) ->
       exists n2 b', run inputs' n' (receive_all schedule) b = (Ok tt, n2, b') /\
         (pending b' = [] -> Permutation (handed b') (handed b ++ ps)) /\
         (ordered = true -> handed b' = handed b ++ ps)) /\
  (connected a = false -> forall p, exists e n1, run inputs n (publish p) a = (Err e, n1, a)).

(** The life of a channel: [setup] connects unless it fails, [teardown] always
    disconnects, and a subscription survives both. *)
Definition connects : Prop :=
  forall inputs n (w : C),
  (forall r n' w', run inputs n setup w = (r, n', w') ->
     r <> Panic /\ connected w' = (connected w || is_ok r) /\ subscribed w' = subscribed w) /\
  (forall r n' w', run inputs n teardown w = (r, n', w') ->
     r <> Panic /\ connected w' = false /\ subscribed w' = subscribed w) /\
  (exists n' w', run inputs n subscribe w = (Ok tt, n', w') /\ subscribed w' = true /\
     connected w' = connected w).

Context `{!SignalingChannelLaws C Event}.

(** A connected channel makes one call for each payload, and each call carries it. *)
Lemma run_publish_all inputs n (w : C) ps :
  connected w = true -> Forall (fun p => utf8_valid (as_bytes p) = true) ps ->
  exists rs n' w' calls, run inputs n (publish_all ps) w = (Ok rs, n', w') /\
    length rs = length ps /\ net w' = net w ++ calls /\ Forall2 (carries_to (C := C)) calls ps /\
    Forall (fun call => exists e, relays (C := C) call e) calls /\
    connected w' = true /\ subscribed w' = subscribed w /\ handed w' = handed w /\ pending w' = pending w.
Proof.
  intros Hc Hps. revert n w Hc. induction Hps as [|p ps Hp _ IH]; intros n w Hc; cbn [publish_all].
  - exists [], n, w, []. split_and!; [done..|by rewrite app_nil_r|constructor|constructor|done|done|done|done].
  - destruct (publish_connected inputs n w p Hc Hp)
      as (call & k & n1 & w1 & Hr & Hc1 & Hs1 & Hh1 & Hp1 & Hn1 & Hcall & He).
    destruct (IH n1 w1 Hc1) as (rs & n2 & w2 & calls & Hr2 & Hl & Hn2 & Hcalls & Hes & Hc2 & Hs2 & Hh2 & Hp2).
    exists (lib_err Signaling (net_io (inputs k)) :: rs), n2, w2, (call :: calls). split_and!.
    + rewrite run_bind, run_attempt, Hr.
      assert (lib_err Signaling (net_io (inputs k)) <> (Panic : Result unit)) as Hnp
        by (by destruct (net_io (inputs k))).
      destruct (lib_err _ _); [| |done]; by rewrite run_bind, Hr2.
    + cbn. by rewrite Hl.
    + by rewrite Hn2, Hn1, <- (assoc_L app).
    + by constructor.
    + by constructor.
    + done.
    + congruence.
    + congruence.
    + congruence.
Qed.

Lemma option_list_delete {A} (l : list A) i : Permutation (option_list (l !! i) ++ delete i l) l.
Proof.
  revert i. induction l as [|x l IH]; intros [|i]; [done..|]. cbn.
  rewrite <- Permutation_middle. by apply Permutation_skip, IH.
Qed.

(** The payloads that arrived are handed over or wait for their tasks. *)
Lemma run_receive_all inputs n (w : C) schedule calls ps :
  (forall k, net_runtime (inputs k) = true) -> subscribed w = true ->
  Forall2 relays calls (events schedule) -> Forall2 (carries_to (C := C)) calls ps ->
  exists n' w', run inputs n (receive_all schedule) w = (Ok tt, n', w') /\
    Permutation (handed w' ++ pending w') (handed w ++ pending w ++ ps) /\
    (ordered = true -> pending w = [] -> pending w' = [] /\ handed w' = handed w ++ ps).
Proof.
  intros Hrt. revert n w calls ps. induction schedule as [|[e|i] schedule IH]; intros n w calls ps Hs Hre Hps.
  - cbn in Hre. inversion Hre; subst. inversion Hps; subst. exists n, w.
    split; [done|]. split; [by rewrite app_nil_r|]. intros _ Hp. by rewrite app_nil_r.
  - cbn in Hre. inversion Hre as [|call ? calls' ? Hc Hre']; subst. inversion Hps as [|? p ? ps' Hp Hps']; subst.
    destruct (Hp e inputs n w Hc Hs (Hrt n)) as (n1 & w1 & Hr & Hs1 & _ & _ & Ht).
    destruct (IH n1 w1 calls' ps' Hs1 Hre' Hps') as (n2 & w2 & Hr2 & Hperm & Hord). exists n2, w2.
    cbn [receive_all]. split; [by rewrite run_bind, Hr|]. destruct ordered.
    + destruct Ht as [Hh Hpd]. split.
      * rewrite Hperm, Hh, Hpd. rewrite <- !(assoc_L app). apply Permutation_app_head. cbn.
        by apply Permutation_middle.
      * intros _ Hp0. destruct Hord as [E1 E2]; [done|by rewrite Hpd|]. split; [done|].
        by rewrite E2, Hh, <- (assoc_L app).
    + destruct Ht as [Hh Hpd]. split; [|done]. by rewrite Hperm, Hh, Hpd, <- !(assoc_L app).
  - cbn [events omap list_omap] in Hre.
    destruct (run_task_ok inputs n w i Hs) as (n1 & w1 & Hr & Hs1 & _ & _ & Hh & Hpd).
    destruct (IH n1 w1 calls ps Hs1 Hre Hps) as (n2 & w2 & Hr2 & Hperm & Hord). exists n2, w2.
    cbn [receive_all]. split; [by rewrite run_bind, Hr|]. split.
    + rewrite Hperm, Hh, Hpd. rewrite <- !(assoc_L app). apply Permutation_app_head.
      rewrite (assoc_L app). apply Permutation_app_tail, option_list_delete.
    + intros Ho Hp0. rewrite Hp0 in Hh, Hpd. cbn in Hh, Hpd. rewrite app_nil_r in Hh.
      destruct Hord as [E1 E2]; [done..|]. by rewrite E2, Hh.
Qed.

(** Every channel that keeps the interface's promises carries frames. *)
Lemma laws_carry : carries.
Proof.
  intros inputs inputs' n n' a b ps Hs Hpd Hrt Hps. split; [|intros Hc p; by apply publish_disconnected].
  intros Hc. destruct (run_publish_all inputs n a ps Hc Hps) as (rs & n1 & a' & calls & Hr & Hl & Hn & Hcalls & _).
  exists rs, n1, a', calls. split_and!; [done..|by eapply Forall2_length|].
  intros schedule Hes. destruct (run_receive_all inputs' n' b schedule calls ps) as (n2 & b' & Hrb & Hp & Ho);
    [done..|]. exists n2, b'. split_and!; [done| |].
  - intros Hb'. by rewrite Hb', Hpd, app_nil_r in Hp.
  - intros Hord. by apply Ho.
Qed.

Lemma laws_connect : connects.
Proof.
  intros inputs n w. split_and!.
  - intros r n' w' Hr. by destruct (setup_connects _ _ _ _ _ _ Hr) as (? & ? & ? & _).
  - intros r n' w' Hr. by destruct (teardown_disconnects _ _ _ _ _ _ Hr) as (? & ? & ? & _).
  - destruct (subscribe_ok inputs n w) as (n' & w' & ? & ? & ? & _). by exists n', w'.
Qed.

End traffic.

#[global] Arguments carries : clear implicits.
#[global] Arguments carries C Event {_}.
#[global] Arguments connects : clear implicits.
#[global] Arguments connects C Event {_}.
