(* ===== verification/Mqtt.v ===== *)
(** * The MQTT channel ([signaling/mqtt/mod.rs]) *)
From S2P Require Import Prelude RustStr Errors Tasks Channel.
Local Open Scope string_scope.
Local Open Scope list_scope.

(** [MqttChannel]: whether [client] and [handler] are there; the calls of the client, the
    payloads given to the handler, and those of the tasks that have not run yet. *)
Record MqttChannel : Type := mkMqttChannel {
  server : string;
  topic : string;
  client : bool;
  handler : bool;
  mqtt_net : list NetCall;
  mqtt_handed : list string;
  mqtt_pending : list string;
}.

(** [MqttChannel::new] *)
Definition new (server topic : string) : MqttChannel := mkMqttChannel server topic false false [] [] [].

Definition with_client (x : bool) (w : MqttChannel) : MqttChannel :=
  mkMqttChannel (server w) (topic w) x (handler w) (mqtt_net w) (mqtt_handed w)
    (mqtt_pending w).
Definition with_handler (x : bool) (w : MqttChannel) : MqttChannel :=
  mkMqttChannel (server w) (topic w) (client w) x (mqtt_net w) (mqtt_handed w)
    (mqtt_pending w).
Definition with_call (c : NetCall) (w : MqttChannel) : MqttChannel :=
  mkMqttChannel (server w) (topic w) (client w) (handler w) (mqtt_net w ++ [c]) (mqtt_handed w)
    (mqtt_pending w).
Definition with_handed (l : list string) (w : MqttChannel) : MqttChannel :=
  mkMqttChannel (server w) (topic w) (client w) (handler w) (mqtt_net w) l (mqtt_pending w).
Definition with_pending (l : list string) (w : MqttChannel) : MqttChannel :=
  mkMqttChannel (server w) (topic w) (client w) (handler w) (mqtt_net w) (mqtt_handed w) l.

(** A message of the subscription. *)
Record MqttMessage : Type := mkMqttMessage {
  message_topic : string;
  message_payload : bytes;
}.

Abbreviation MqttLayer := (prog MqttChannel NetInput).

(** A call of the client, with its errors as signaling errors. *)
Definition mqtt_call (c : MqttChannel -> NetCall) : MqttLayer unit :=
  r ← atom (fun i w => (with_call (c w) w, lib_err Signaling (net_io i)));
  lift r.

Definition mqtt_setup : MqttLayer unit :=
  mqtt_call (fun w => MqttConnect (server w));;
  mqtt_call (fun w => MqttSubscribe (topic w));;
  writes (with_client true).

Definition mqtt_teardown : MqttLayer unit :=
  taken ← atom (fun _ w => (with_client false w, client w));
  if (taken : bool) then mqtt_call (fun _ => MqttDisconnect) else mret tt.

Definition mqtt_publish (payload : string) : MqttLayer unit :=
  c ← reads client;
  if negb c then lift (Err NoConnection)
  else mqtt_call (fun w => MqttPublish (topic w) (as_bytes payload)).

Definition mqtt_subscribe : MqttLayer unit := writes (with_handler true).

(** The closure given to the client's [subscribe]: each message is left to a task of its
    own; outside a runtime it is dropped. *)
Definition on_message (m : MqttMessage) : MqttLayer unit :=
  runtime ← asks net_runtime;
  if (runtime : bool)
  then writes (fun w => with_pending (mqtt_pending w ++ [from_utf8_lossy (message_payload m)]) w)
  else mret tt.

(** One of these tasks, which run in any order. *)
Definition deliver (i : nat) : MqttLayer unit :=
  writes (fun w =>
    let w' := with_pending (delete i (mqtt_pending w)) w in
    if handler w then with_handed (mqtt_handed w ++ option_list (mqtt_pending w !! i)) w' else w').

#[export] Instance mqtt_channel : SignalingChannel MqttChannel MqttMessage := {|
  channel_type := "mqtt";
  setup := mqtt_setup;
  teardown := mqtt_teardown;
  publish := mqtt_publish;
  subscribe := mqtt_subscribe;
  on_event := on_message;
  run_task := deliver;
  connected := client;
  subscribed := handler;
  net := mqtt_net;
  handed := mqtt_handed;
  pending := mqtt_pending;
  ordered := false;
  relays c e :=
    match c with MqttPublish t p => message_topic e = t /\ message_payload e = p | _ => False end;
|}.

Lemma run_mqtt_call inputs n c w :
  run inputs n (mqtt_call c) w = (lib_err Signaling (net_io (inputs n)), S n, with_call (c w) w).
Proof. done. Qed.

#[export] Instance mqtt_channel_laws : SignalingChannelLaws MqttChannel MqttMessage.
Proof.
  split; cbn [setup teardown publish subscribe on_event run_task connected subscribed net handed pending
    mqtt_channel].
  - intros inputs n w r n' w'. unfold mqtt_setup. rewrite run_bind, run_mqtt_call.
    destruct (net_io (inputs n)) as [[]|e]; cbn [lib_err].
    + rewrite run_bind, run_mqtt_call. destruct (net_io _) as [[]|e]; cbn.
      * intros [= <- _ <-]. split_and!; try done. cbn. by rewrite orb_true_r.
      * intros [= <- _ <-]. split_and!; try done. cbn. by rewrite orb_false_r.
    + intros [= <- _ <-]. split_and!; try done. cbn. by rewrite orb_false_r.
  - intros inputs n w r n' w'. cbn. destruct (client w); cbn.
    + destruct (net_io _) as [[]|e]; intros [= <- _ <-]; by split_and!.
    + intros [= <- _ <-]. by split_and!.
  - intros inputs n w. eexists _, _. by split_and!.
  - intros inputs n w p Hc. cbn. rewrite Hc. cbn. eauto.
  - intros inputs n w p Hc Hp. unfold mqtt_publish.
    eexists _, (S n), _, _. split; [cbn; rewrite Hc; reflexivity|].
    split_and!; [done..| |by exists (mkMqttMessage (topic w) (as_bytes p))].
    intros e inputs' m w1 [_ Hpl] Hs Hrt.
    eexists _, (with_pending (mqtt_pending w1 ++ [p]) w1). split; [|by split_and!].
    cbn. rewrite Hrt. cbn. by rewrite Hpl, from_utf8_lossy_valid.
  - intros inputs n w i Hs. eexists _, _. split; [reflexivity|]. cbn. rewrite Hs. by split_and!.
Qed.
