(* ===== verification/NtfyChannel.v ===== *)
(** * The ntfy channel ([signaling/ntfy/mod.rs])

    The channel over the URLs, credentials and server events of [Ntfy.v]; and what both
    channels promise. *)
From S2P Require Import Prelude RustStr Errors Json CryptoLib CryptoModel Regex Encryption Ntfy Tasks Channel.
From S2P Require Mqtt SessionUri.

#[export] Existing Instance Mqtt.mqtt_channel.
#[export] Existing Instance Mqtt.mqtt_channel_laws.
Local Open Scope string_scope.
Local Open Scope list_scope.

(** [NtfyChannel]: [shutdown_tx] is the number of the task that it stops, [stopping] the
    tasks that were told to stop, by a message or by the loss of the sender. *)
Record NtfyChannel : Type := mkNtfyChannel {
  topic : string;
  connection_info : NtfyConnectionInfo;
  handler : bool;
  shutdown_tx : option nat;
  http_client : bool;
  tasks : nat;
  stopping : list nat;
  ntfy_net : list NetCall;
  ntfy_handed : list string;
}.

Definition with_handler (x : bool) (w : NtfyChannel) : NtfyChannel :=
  mkNtfyChannel (topic w) (connection_info w) x (shutdown_tx w) (http_client w) (tasks w) (stopping w)
    (ntfy_net w) (ntfy_handed w).
Definition with_http_client (x : bool) (w : NtfyChannel) : NtfyChannel :=
  mkNtfyChannel (topic w) (connection_info w) (handler w) (shutdown_tx w) x (tasks w) (stopping w)
    (ntfy_net w) (ntfy_handed w).
Definition with_call (c : NetCall) (w : NtfyChannel) : NtfyChannel :=
  mkNtfyChannel (topic w) (connection_info w) (handler w) (shutdown_tx w) (http_client w) (tasks w)
    (stopping w) (ntfy_net w ++ [c]) (ntfy_handed w).
Definition with_handed (l : list string) (w : NtfyChannel) : NtfyChannel :=
  mkNtfyChannel (topic w) (connection_info w) (handler w) (shutdown_tx w) (http_client w) (tasks w)
    (stopping w) (ntfy_net w) l.

(** The sender leaves the channel, and its task stops. *)
Definition without_shutdown_tx (w : NtfyChannel) : NtfyChannel :=
  mkNtfyChannel (topic w) (connection_info w) (handler w) None (http_client w) (tasks w)
    (stopping w ++ option_list (shutdown_tx w)) (ntfy_net w) (ntfy_handed w).

(** A new task, and its sender in place of the old one. *)
Definition spawn_task (w : NtfyChannel) : NtfyChannel :=
  mkNtfyChannel (topic w) (connection_info w) (handler w) (Some (tasks w)) (http_client w) (S (tasks w))
    (stopping w ++ option_list (shutdown_tx w)) (ntfy_net w) (ntfy_handed w).

Section ntfy_channel.
Context `{CryptoLib} `{RegexLib}.

Abbreviation NtfyLayer := (prog NtfyChannel NetInput).

(** [NtfyChannel::new] *)
Definition new (topic url : string) : Result NtfyChannel :=
  info ← parse_ntfy_url url;
  Ok (mkNtfyChannel topic info false None false 0 [] [] []).

(** The value of the [Authorization] header. *)
Definition auth (w : NtfyChannel) : option string := authorization <$> credentials (connection_info w).

(** A fallible call whose error becomes a signaling error. *)
Definition fallible : NtfyLayer unit := r ← asks (fun i => lib_err Signaling (net_io i)); lift r.

Definition ntfy_call (c : NtfyChannel -> NetCall) : NtfyLayer unit :=
  r ← atom (fun i w => (with_call (c w) w, lib_err Signaling (net_io i)));
  lift r.

(** [setup]: the request, its header, the connection, the task, the server's
    confirmation. *)
Definition ntfy_setup : NtfyLayer unit :=
  fallible;;
  credentials ← reads auth;
  match credentials with Some _ => fallible | None => mret tt end;;
  ntfy_call (fun w => WsConnect (ws_url (connection_info w) (topic w)) (auth w));;
  writes spawn_task;;
  await;;
  ready ← asks net_ready;
  match ready with
  | Confirmed => mret tt
  | NotWithin10s => lift (Err (Signaling "ntfy server did not confirm open within 10s"))
  | SenderDropped => lift (Err (Signaling "ntfy ready sender dropped"))
  end;;
  writes (with_http_client true).

Definition ntfy_teardown : NtfyLayer unit :=
  writes without_shutdown_tx;;
  writes (with_http_client false).

Definition ntfy_publish (payload : string) : NtfyLayer unit :=
  client ← reads http_client;
  if negb client then lift (Err (Signaling "ntfy client not initialized"))
  else ntfy_call (fun w =>
    HttpPost (publish_url (connection_info w) (topic w)) (auth w) "application/json" payload).

Definition ntfy_subscribe : NtfyLayer unit := writes (with_handler true).

(** One turn of a task on a text frame, with what [serde_json] reads and the outcome of
    the request for its attachment. *)
Definition on_text (e : LibResult Value * LibResult string) : NtfyLayer unit :=
  match e with
  | (inl data, attachment) =>
      writes (fun w => with_handed
        (delivered (on_ws_text data attachment (handler w) (mkWsTask true (ntfy_handed w)))) w)
  | (inr _, _) => mret tt
  end.

(** What the server makes of a published body: a message with the body, or one whose
    attachment is the body. *)
Definition announces (body : string) (e : LibResult Value * LibResult string) : Prop :=
  exists data text, e.1 = inl data /\ value_get "event" data = Some (Str "message") /\
    value_get "message" data = Some (Str text) /\
    match attachment_url data with Some _ => e.2 = inl body | None => text = body end.

(** A message with this text. *)
Definition announcement (body : string) : Value := object [("event", Str "message"); ("message", Str body)].

#[export] Instance ntfy_channel : SignalingChannel NtfyChannel (LibResult Value * LibResult string) := {|
  channel_type := "ntfy";
  setup := ntfy_setup;
  teardown := ntfy_teardown;
  publish := ntfy_publish;
  subscribe := ntfy_subscribe;
  on_event := on_text;
  run_task := fun _ => mret tt;
  connected := http_client;
  subscribed := handler;
  net := ntfy_net;
  handed := ntfy_handed;
  pending := fun _ => [];
  ordered := true;
  relays c e := match c with HttpPost _ _ _ body => announces body e | _ => False end;
|}.

(** A message that announces a body is handed over with that body. *)
Lemma on_ws_text_announced body data attachment w :
  announces body (inl data, attachment) ->
  on_ws_text data attachment true w = mkWsTask (ready_pending w) (delivered w ++ [body]).
Proof.
  intros (d & text & [= <-] & Hev & Hm & Ha). unfold on_ws_text. rewrite Hev, Hm. cbn in *.
  destruct (attachment_url data); [by rewrite Ha|by subst].
Qed.

Lemma run_fallible inputs n w :
  run inputs n fallible w = (lib_err Signaling (net_io (inputs n)), S n, w).
Proof. done. Qed.

Lemma run_ntfy_call inputs n c w :
  run inputs n (ntfy_call c) w = (lib_err Signaling (net_io (inputs n)), S n, with_call (c w) w).
Proof. done. Qed.

(** What a failed step of [setup] leaves. *)
Definition same_connection (w w' : NtfyChannel) : Prop :=
  http_client w' = http_client w /\ handler w' = handler w /\ ntfy_handed w' = ntfy_handed w.

Lemma run_ntfy_setup inputs n w r n' w' :
  run inputs n ntfy_setup w = (r, n', w') ->
  r <> Panic /\ http_client w' = (http_client w || is_ok r) /\ handler w' = handler w /\
  ntfy_handed w' = ntfy_handed w.
Proof.
  unfold ntfy_setup. rewrite run_bind, run_fallible.
  destruct (net_io (inputs n)) as [[]|e]; cbn [lib_err];
    [|intros [= <- _ <-]; split_and!; [done|by rewrite orb_false_r|done..]].
  rewrite run_bind. cbn [run reads atom]. rewrite run_bind.
  assert (exists x m, run inputs (S (S n)) (match auth w with Some _ => fallible | None => mret tt end) w
            = (x, m, w) /\ x <> Panic) as (x & m & -> & Hx).
  { destruct (auth w); [rewrite run_fallible; eexists _, _; split; [done|]; by destruct (net_io _)|].
    by eexists _, _. }
  destruct x as [[]|e|]; [|intros [= <- _ <-]; split_and!; [done|by rewrite orb_false_r|done..]|done].
  rewrite run_bind, run_ntfy_call.
  destruct (net_io (inputs m)) as [[]|e]; cbn [lib_err];
    [|intros [= <- _ <-]; split_and!; [done|cbn; by rewrite orb_false_r|done..]].
  cbn. destruct (net_ready _); cbn; intros [= <- _ <-];
    (split_and!; [done|cbn; by rewrite ?orb_false_r, ?orb_true_r|done..]).
Qed.

#[export] Instance ntfy_channel_laws : SignalingChannelLaws NtfyChannel (LibResult Value * LibResult string).
Proof.
  split; cbn [setup teardown publish subscribe on_event run_task connected subscribed net handed pending
    ntfy_channel].
  - intros inputs n w r n' w' Hr. destruct (run_ntfy_setup _ _ _ _ _ _ Hr) as (? & ? & ? & ?). by split_and!.
  - intros inputs n w r n' w' [= <- _ <-]. by split_and!.
  - intros inputs n w. eexists _, _. by split_and!.
  - intros inputs n w p Hc. cbn. rewrite Hc. cbn. eauto.
  - intros inputs n w p Hc _. unfold ntfy_publish.
    eexists _, (S n), _, _. split; [cbn; rewrite Hc; reflexivity|].
    split_and!; [done..| |exists (inl (announcement p), inl p); by exists (announcement p), p].
    intros [d attachment] inputs' m w1 He Hs _.
    cbn in He, Hs. pose proof He as (data & text & Hd & _). cbn in Hd. subst d.
    eexists _, (with_handed (ntfy_handed w1 ++ [p]) w1). split; [|by split_and!].
    cbn. rewrite Hs, (on_ws_text_announced p) by done. done.
  - intros inputs n w i Hs. exists n, w. split_and!; [done..| |done]. cbn. by rewrite app_nil_r.
Qed.

End ntfy_channel.

(** ** Properties *)

(** C30. Both channels carry frames unchanged: a publisher that is connected makes exactly
    one call for each payload, in order, whatever the outcomes; and a subscriber to whom
    the network brings the event of each call hands exactly these texts to its handler,
    once its tasks have run: in this order on ntfy (also when the server turns a body
    into an attachment), in any order on MQTT, where each message has a task of its
    own. A publisher that is not connected makes no call and fails. [setup] connects
    unless it fails, [teardown] always disconnects, none of them panics, and a
    subscription survives both. *)
Theorem channels_carry_frames `{CryptoLib, RegexLib} :
  carries Mqtt.MqttChannel Mqtt.MqttMessage /\ connects Mqtt.MqttChannel Mqtt.MqttMessage /\
  carries NtfyChannel (LibResult Value * LibResult string) /\
  connects NtfyChannel (LibResult Value * LibResult string).
Proof. split_and!; first [apply laws_carry|apply laws_connect]. Qed.

(** ** Witnesses *)

Definition good_net : NetInput := mkNetInput (inl tt) Confirmed true.

Definition model_mqtt : Mqtt.MqttChannel := Mqtt.with_client true (Mqtt.new "broker" "topic").

Import CryptoModel SessionUri.UriModel.

Definition model_schedule : list (Mqtt.MqttMessage + nat) :=
  [inl (Mqtt.mkMqttMessage "topic" (as_bytes "hx")); inl (Mqtt.mkMqttMessage "topic" (as_bytes "xy"));
   inr 1; inr 0].

Lemma channels_carry_frames_witness :
  exists n2 b', run (fun _ => good_net) 0 (receive_all model_schedule)
    (Mqtt.with_handler true (Mqtt.new "broker" "topic")) = (Ok tt, n2, b') /\
    Mqtt.mqtt_handed b' = ["xy"; "hx"] /\ Permutation (Mqtt.mqtt_handed b') ["hx"; "xy"].
Proof.
  destruct channels_carry_frames as [Hcarry _].
  destruct (Hcarry (fun _ => good_net) (fun _ => good_net) 0 0 model_mqtt
    (Mqtt.with_handler true (Mqtt.new "broker" "topic")) ["hx"; "xy"])
    as [Hc _]; [reflexivity|reflexivity|reflexivity|by repeat constructor|].
  destruct (Hc eq_refl) as (rs & n1 & a' & calls & Hr & _ & Hn & _ & Hes).
  assert (net a' = [MqttPublish "topic" (as_bytes "hx"); MqttPublish "topic" (as_bytes "xy")]) as Hnet.
  { replace a' with (run (fun _ => good_net) 0 (publish_all ["hx"; "xy"]) model_mqtt).2 by (by rewrite Hr).
    reflexivity. }
  rewrite Hnet in Hn. cbn in Hn. rewrite <- Hn in Hes.
  destruct (Hes model_schedule) as (n2 & b' & Hb & Hp & _).
  - constructor; [split; reflexivity|]. constructor; [split; reflexivity|constructor].
  - exists n2, b'. split; [exact Hb|].
    assert (b' = (run (fun _ => good_net) 0 (receive_all model_schedule)
      (Mqtt.with_handler true (Mqtt.new "broker" "topic"))).2) as E by (by rewrite Hb).
    split; [rewrite E; reflexivity|]. apply Hp. rewrite E. reflexivity.
Defined.
