(* ===== verification/SignalingLayer.v ===== *)
(** * The signaling layer ([signaling/layer/mod.rs])

    The handshake between host and client, over a channel that anyone can write
    to. [Inner] is the state behind the [Arc<SignalingInner>]; every async
    function is a program of [Tasks.v] over it, one atom per lock region, so
    that the receive callbacks, the resend task, the deadline task and the public
    methods interleave as they do on the runtime. Timers have no clock: a timer
    that is set can fire at any later moment. *)
From S2P Require Import Prelude RustStr Errors Json Wire CryptoLib CryptoModel Encryption.
From S2P Require Import Message TextModel Tasks.
Local Open Scope string_scope.
Local Open Scope list_scope.

(** ** State *)

Inductive SignalState : Type :=
| Standby | Connecting | Ready | Handshake | HandshakePartial | Encrypted | Error.

#[export] Instance SignalState_eq_dec : EqDecision SignalState.
Proof. solve_decision. Defined.

Record SignalingProperties : Type := mkSignalingProperties {
  is_host : bool;
  prop_h : string;
  handshake_key : option HandshakeKey;
  prop_encryption_key : EncryptionKey;
  prop_decryption_key : DecryptionKey;
  capabilities : PeerCapabilities;
}.

(** The two tasks the layer spawns. *)
Inductive TaskKind : Type :=
| Resend (p : WirePrefix) (r : WireRecipient) (m : SignalingMessage)
| Deadline.

(** The mutable part of [SignalingInner], with what it did to its surroundings:
    the events sent to the subscribers ([state_tx], [message_tx]) and the frames
    handed to the channel ([published]), oldest first; the payloads the channel
    delivered ([received]), and those of them that it delivered while no key was
    recorded ([early]); the tasks spawned and not started yet, those aborted,
    and the next task's name. The handles in [handshake_task] and [deadline_task]
    are task names. *)
Record Inner : Type := mkInner {
  state : SignalState;
  relying_key : option EncryptionKey;
  peer_capabilities : option PeerCapabilities;
  handshake_task : option nat;
  deadline_task : option nat;
  state_tx : list SignalState;
  message_tx : list Value;
  published : list string;
  received : list string;
  early : list string;
  spawned : list (nat * TaskKind);
  aborted : list nat;
  next_task : nat;
}.

Definition with_state (x : SignalState) (w : Inner) : Inner :=
  mkInner x (relying_key w) (peer_capabilities w) (handshake_task w) (deadline_task w)
    (state_tx w) (message_tx w) (published w) (received w) (early w) (spawned w)
    (aborted w) (next_task w).
Definition with_relying_key (x : option EncryptionKey) (w : Inner) : Inner :=
  mkInner (state w) x (peer_capabilities w) (handshake_task w) (deadline_task w)
    (state_tx w) (message_tx w) (published w) (received w) (early w) (spawned w)
    (aborted w) (next_task w).
Definition with_peer_capabilities (x : option PeerCapabilities) (w : Inner) : Inner :=
  mkInner (state w) (relying_key w) x (handshake_task w) (deadline_task w) (state_tx w)
    (message_tx w) (published w) (received w) (early w) (spawned w) (aborted w)
    (next_task w).
Definition with_handshake_task (x : option nat) (w : Inner) : Inner :=
  mkInner (state w) (relying_key w) (peer_capabilities w) x (deadline_task w)
    (state_tx w) (message_tx w) (published w) (received w) (early w) (spawned w)
    (aborted w) (next_task w).
Definition with_deadline_task (x : option nat) (w : Inner) : Inner :=
  mkInner (state w) (relying_key w) (peer_capabilities w) (handshake_task w) x
    (state_tx w) (message_tx w) (published w) (received w) (early w) (spawned w)
    (aborted w) (next_task w).
Definition with_state_tx (x : list SignalState) (w : Inner) : Inner :=
  mkInner (state w) (relying_key w) (peer_capabilities w) (handshake_task w)
    (deadline_task w) x (message_tx w) (published w) (received w) (early w) (spawned w)
    (aborted w) (next_task w).
Definition with_message_tx (x : list Value) (w : Inner) : Inner :=
  mkInner (state w) (relying_key w) (peer_capabilities w) (handshake_task w)
    (deadline_task w) (state_tx w) x (published w) (received w) (early w) (spawned w)
    (aborted w) (next_task w).
Definition with_published (x : list string) (w : Inner) : Inner :=
  mkInner (state w) (relying_key w) (peer_capabilities w) (handshake_task w)
    (deadline_task w) (state_tx w) (message_tx w) x (received w) (early w) (spawned w)
    (aborted w) (next_task w).
Definition with_received (x : list string) (w : Inner) : Inner :=
  mkInner (state w) (relying_key w) (peer_capabilities w) (handshake_task w)
    (deadline_task w) (state_tx w) (message_tx w) (published w) x (early w) (spawned w)
    (aborted w) (next_task w).
Definition with_early (x : list string) (w : Inner) : Inner :=
  mkInner (state w) (relying_key w) (peer_capabilities w) (handshake_task w)
    (deadline_task w) (state_tx w) (message_tx w) (published w) (received w) x
    (spawned w) (aborted w) (next_task w).
Definition with_spawned (x : list (nat * TaskKind)) (w : Inner) : Inner :=
  mkInner (state w) (relying_key w) (peer_capabilities w) (handshake_task w)
    (deadline_task w) (state_tx w) (message_tx w) (published w) (received w) (early w) x
    (aborted w) (next_task w).
Definition with_aborted (x : list nat) (w : Inner) : Inner :=
  mkInner (state w) (relying_key w) (peer_capabilities w) (handshake_task w)
    (deadline_task w) (state_tx w) (message_tx w) (published w) (received w) (early w)
    (spawned w) x (next_task w).
Definition with_next_task (x : nat) (w : Inner) : Inner :=
  mkInner (state w) (relying_key w) (peer_capabilities w) (handshake_task w)
    (deadline_task w) (state_tx w) (message_tx w) (published w) (received w) (early w)
    (spawned w) (aborted w) x.

(** [SignalingLayer::new] *)
Definition new_inner : Inner := mkInner Standby None None None None [] [] [] [] [] [] [] 0.

(** What the environment decides at an atom: 12 random bytes, the clock, and the
    outcome of a call of the channel. *)
Record Input : Type := mkInput {
  in_random : bytes;
  in_now : Z;
  in_io : Result unit;
}.

Abbreviation Layer := (prog Inner Input).

Section layer.
Context `{CryptoLib} `{SignalingCodec}.
Context (properties : SignalingProperties).

(** ** Tasks *)

(** [if let Some(task) = slot.lock().take() { task.abort() }] *)
Definition take_handshake_task (w : Inner) : Inner :=
  match handshake_task w with
  | Some n => with_aborted (n :: aborted w) (with_handshake_task None w)
  | None => w
  end.
Definition take_deadline_task (w : Inner) : Inner :=
  match deadline_task w with
  | Some n => with_aborted (n :: aborted w) (with_deadline_task None w)
  | None => w
  end.

Definition stop_repeating : Layer unit := writes take_handshake_task.

Definition stop_handshake_tasks : Layer unit :=
  stop_repeating;; writes take_deadline_task.

(** [tokio::spawn]: the handle of the new task. *)
Definition spawn_task (kind : TaskKind) : Layer nat :=
  atom (fun _ w =>
    (with_next_task (S (next_task w)) (with_spawned (spawned w ++ [(next_task w, kind)]) w),
     next_task w)).

(** [set_state] *)
Definition set_state (new_state : SignalState) : Layer unit :=
  writes (with_state new_state);;
  match new_state with Encrypted | Error => stop_handshake_tasks | _ => mret tt end;;
  writes (fun w => with_state_tx (state_tx w ++ [new_state]) w).

Definition can_encrypt : Layer bool := reads (fun w => bool_decide (is_Some (relying_key w))).

Definition remote_recipient : WireRecipient := if is_host properties then Client else Host.

Definition current_timestamp : Layer Z := asks in_now.

Definition pubkey_message : Layer SignalingMessage :=
  now ← current_timestamp;
  mret (Pubkey (mkPubkeyPayload (serialized (prop_encryption_key properties))) now).

Definition capabilities_message : Layer SignalingMessage :=
  now ← current_timestamp; mret (Capabilities (capabilities properties) now).

Definition start_handshake_deadline : Layer unit :=
  started ← reads (fun w => bool_decide (is_Some (deadline_task w)));
  if (started : bool) then mret tt
  else
    task ← spawn_task Deadline;
    writes (with_deadline_task (Some task)).

(** ** Sending *)

(** [channel.lock().await.publish(&frame).await] *)
Definition publish (frame : string) : Layer unit :=
  await;;
  r ← atom (fun i w => (with_published (published w ++ [frame]) w, in_io i));
  await;;
  lift r.

Definition send_message (p : WirePrefix) (r : WireRecipient) (message : SignalingMessage)
    : Layer unit :=
  plaintext ← lift (lib_err Other (signaling_to_string message));
  c ← match p with
      | Wire.Handshake =>
          key ← lift (ok_or (handshake_key properties) (Signaling "handshake key is required"));
          iv ← asks in_random;
          lift (handshake_encrypt key iv plaintext)
      | Wire.Encrypted =>
          res ← atom (fun i w =>
            (w, match relying_key w with
                | None => Err (Signaling "relying party public key not found")
                | Some k => peer_encrypt (prop_decryption_key properties) (in_random i) plaintext k
                end));
          lift res
      end;
  publish (compose_frame p r c).

Definition send_repeating (p : WirePrefix) (r : WireRecipient) (message : SignalingMessage)
    : Layer unit :=
  stop_repeating;;
  send_message p r message;;
  task ← spawn_task (Resend p r message);
  writes (with_handshake_task (Some task)).

(** The bodies of the spawned tasks: the first suspension is the wait for the
    first poll. The resend task waits for the first tick, which is immediate, then
    for one tick per round. *)
Definition deadline_body : Layer unit :=
  await;;
  await;;
  s ← reads state;
  if decide (s = Encrypted) then mret tt else set_state Error.

Definition resend_round (p : WirePrefix) (r : WireRecipient) (m : SignalingMessage) : Layer unit :=
  await;;
  attempt (send_message p r m);;
  mret tt.

Definition task_thread (n : nat) (kind : TaskKind) : Thread Inner Input :=
  match kind with
  | Resend p r m => mkThread (await;; await) (Some (resend_round p r m)) (Some n)
  | Deadline => mkThread deadline_body None (Some n)
  end.

(** ** Receiving *)

(** [store_relying_key]: whether the key was stored. *)
Definition store_relying_key (key : EncryptionKey) : Layer bool :=
  atom (fun _ w =>
    match relying_key w with
    | Some _ => (w, false)
    | None => (with_relying_key (Some key) w, true)
    end).

Definition store_peer_capabilities (c : PeerCapabilities) : Layer unit :=
  writes (fun w =>
    match peer_capabilities w with Some _ => w | None => with_peer_capabilities (Some c) w end).

(** The plaintext of a frame. *)
Definition open_frame (frame : WireFrame) : Layer string :=
  match prefix frame with
  | Wire.Handshake =>
      key ← lift (ok_or (handshake_key properties) (Signaling "handshake key is required"));
      lift (handshake_decrypt key (ciphertext frame))
  | Wire.Encrypted =>
      r ← reads (fun w =>
        peer_decrypt (prop_decryption_key properties) (ciphertext frame) (relying_key w));
      lift r
  end.

(** The arms of the match of [handle_receive]. *)
Definition receive_flash : Layer unit :=
  set_state Handshake;;
  start_handshake_deadline;;
  m ← pubkey_message;
  send_repeating Wire.Handshake Client m.

Definition receive_host_pubkey (payload : PubkeyPayload) : Layer unit :=
  received_key ← lift (parse_encryption_key (pk_public_key payload));
  valid ← lift (validate_public_key_hash received_key (prop_h properties));
  if negb valid then set_state Error
  else
    stored ← store_relying_key received_key;
    if negb stored then mret tt
    else
      set_state HandshakePartial;;
      m ← pubkey_message;
      send_repeating Wire.Encrypted Host m.

Definition receive_client_pubkey (frame : WireFrame) (payload : PubkeyPayload) : Layer unit :=
  received_key ← lift (parse_encryption_key (pk_public_key payload));
  sender ← lift (from_ciphertext (ciphertext frame));
  if negb (bool_decide (public_key sender = public_key received_key)) then mret tt
  else
    stored ← store_relying_key received_key;
    if negb stored then mret tt
    else
      set_state HandshakePartial;;
      m ← capabilities_message;
      send_repeating Wire.Encrypted Client m.

Definition send_own_capabilities : Layer unit :=
  m ← capabilities_message; send_message Wire.Encrypted Host m.

Definition receive_capabilities (payload : PeerCapabilities) : Layer unit :=
  store_peer_capabilities payload;;
  set_state Encrypted;;
  if is_host properties then mret tt else send_own_capabilities.

Definition handle_message (frame : WireFrame) (message : SignalingMessage) : Layer unit :=
  s ← reads state;
  match prefix frame, message, s, is_host properties with
  | Wire.Handshake, Flash _ _, Ready, true => receive_flash
  | Wire.Handshake, Pubkey payload _, Handshake, false => receive_host_pubkey payload
  | Wire.Encrypted, Pubkey payload _, Handshake, true => receive_client_pubkey frame payload
  | Wire.Encrypted, Capabilities payload _, HandshakePartial, _ => receive_capabilities payload
  | Wire.Encrypted, Capabilities _ _, Encrypted, false => send_own_capabilities
  | Wire.Encrypted, Data payload _, Encrypted, _ =>
      writes (fun w => with_message_tx (message_tx w ++ [payload]) w)
  | _, _, _, _ => mret tt
  end.

Definition handle_receive (payload : string) : Layer unit :=
  frame ← lift (parse_frame payload);
  if negb (is_recipient frame (is_host properties)) then mret tt
  else
    plaintext ← open_frame frame;
    message ← lift (lib_err Other (signaling_from_str plaintext));
    if negb (is_ok (message_validate message)) then mret tt
    else handle_message frame message.

(** ** The public methods *)

(** A call of the channel whose outcome the environment decides. *)
Definition channel_call : Layer unit := await;; r ← asks in_io; await;; lift r.

Definition setup : Layer unit :=
  set_state Connecting;;
  channel_call;;
  channel_call;;
  encrypted ← can_encrypt;
  if (encrypted : bool) then set_state Encrypted
  else if is_host properties then set_state Ready
  else
    set_state Ready;;
    set_state Handshake;;
    start_handshake_deadline;;
    now ← current_timestamp;
    send_repeating Wire.Handshake Host (Flash (Object []) now).

Definition teardown : Layer unit := stop_handshake_tasks;; channel_call.

Definition send (message : Value) : Layer unit :=
  encrypted ← can_encrypt;
  if negb encrypted
  then lift (Err (Signaling "cannot encrypt message before keys are exchanged"))
  else
    now ← current_timestamp;
    send_message Wire.Encrypted remote_recipient (Data message now).

(** ** The running layer *)

Inductive Call : Type := Setup | Teardown | Send (message : Value) | Receive (payload : string).

Definition entry (call : Call) : Layer unit :=
  match call with
  | Setup => setup
  | Teardown => teardown
  | Send message => send message
  | Receive payload => handle_receive payload
  end.

(** The channel delivers a payload: only the record of what arrived changes. *)
Definition deliver (payload : string) (w : Inner) : Inner :=
  with_received (received w ++ [payload])
    (match relying_key w with
     | None => with_early (early w ++ [payload]) w
     | Some _ => w
     end).

Definition arrive (call : Call) (w : Inner) : Inner :=
  match call with Receive payload => deliver payload w | _ => w end.

Definition is_aborted (w : Inner) (n : nat) : bool := bool_decide (n ∈ aborted w).

Definition take_spawned (w : Inner) : option (Inner * Thread Inner Input) :=
  match spawned w with
  | [] => None
  | (n, kind) :: r => Some (with_spawned r w, task_thread n kind)
  end.

Definition layer_step : event Input Call -> Config Inner Input -> option (Config Inner Input) :=
  step is_aborted take_spawned entry arrive.

Definition layer_steps : list (event Input Call) -> Config Inner Input -> option (Config Inner Input) :=
  steps is_aborted take_spawned entry arrive.

(** All that can happen to a new layer. *)
Definition initial : Config Inner Input := mkConfig new_inner [].

Definition layer_reachable : Config Inner Input -> Config Inner Input -> Prop :=
  reachable is_aborted take_spawned entry arrive.

End layer.

(** ** What the layer guarantees under every interleaving *)

Section invariant.
Context `{CryptoLib} `{SignalingCodec}.
Context (properties : SignalingProperties).

(** The states in which the layer uses the peer's key. *)
Definition keyed (s : SignalState) : bool :=
  match s with HandshakePartial | Encrypted => true | _ => false end.

(** A frame's plaintext in a state: the peer's key, once recorded, is checked. *)
Definition decrypts (w : Inner) (frame : WireFrame) (text : string) : Prop :=
  match prefix frame with
  | Wire.Handshake => exists key,
      handshake_key properties = Some key /\ handshake_decrypt key (ciphertext frame) = Ok text
  | Wire.Encrypted =>
      peer_decrypt (prop_decryption_key properties) (ciphertext frame) (relying_key w) = Ok text
  end.

(** A payload's plaintext. A peer frame was opened with the recorded key; one that
    was opened before a key was recorded had arrived before that. *)
Definition opens (w : Inner) (payload : string) (frame : WireFrame) (text : string) : Prop :=
  match prefix frame with
  | Wire.Handshake => exists key,
      handshake_key properties = Some key /\ handshake_decrypt key (ciphertext frame) = Ok text
  | Wire.Encrypted => exists peer,
      match peer with None => payload ∈ early w | Some k => relying_key w = Some k end /\
      peer_decrypt (prop_decryption_key properties) (ciphertext frame) peer = Ok text
  end.

(** The channel delivered the payload, and it is a valid message for our role. *)
Definition accepts (w : Inner) (payload : string) (frame : WireFrame) (m : SignalingMessage) : Prop :=
  payload ∈ received w /\ parse_frame payload = Ok frame /\
  is_recipient frame (is_host properties) = true /\
  (exists text, opens w payload frame text /\ signaling_from_str text = inl m) /\
  is_ok (message_validate m) = true.

(** A frame announced the key: to the client, under the handshake key and with
    the hash of the connection URL; to the host, from that very key. *)
Definition announced (w : Inner) (k : EncryptionKey) : Prop :=
  exists payload frame pk t, accepts w payload frame (Pubkey pk t) /\
    parse_encryption_key (pk_public_key pk) = Ok k /\
    if is_host properties
    then prefix frame = Wire.Encrypted /\
         exists sender, from_ciphertext (ciphertext frame) = Ok sender /\
                        public_key sender = public_key k
    else prefix frame = Wire.Handshake /\ hash_public_key k = prop_h properties.

Definition advertised (w : Inner) (c : PeerCapabilities) : Prop :=
  exists payload frame t, accepts w payload frame (Capabilities c t) /\ prefix frame = Wire.Encrypted.

(** A key is recorded when data is delivered, though perhaps not yet when the
    frame that carried the data was opened. *)
Definition sent_to_us (w : Inner) (v : Value) : Prop :=
  is_Some (relying_key w) /\
  exists payload frame t, accepts w payload frame (Data v t) /\ prefix frame = Wire.Encrypted.

(** Under the handshake key, only an empty flash and our own public key. *)
Definition clear_message (m : SignalingMessage) : Prop :=
  match m with
  | Flash v _ => v = Object []
  | Pubkey p _ => pk_public_key p = serialized (prop_encryption_key properties)
  | _ => False
  end.

Definition outgoing_ok (p : WirePrefix) (r : WireRecipient) (m : SignalingMessage) : Prop :=
  r = remote_recipient properties /\ (p = Wire.Handshake -> clear_message m).

(** A published frame is for the other role and encrypts a message: one of the
    handshake's under the handshake key, any other under the recorded key. *)
Definition frame_ok (w : Inner) (frame : string) : Prop :=
  exists p m text random c, outgoing_ok p (remote_recipient properties) m /\
    signaling_to_string m = inl text /\
    frame = compose_frame p (remote_recipient properties) c /\
    match p with
    | Wire.Handshake => exists key,
        handshake_key properties = Some key /\ handshake_encrypt key random text = Ok c
    | Wire.Encrypted => exists k,
        relying_key w = Some k /\
        peer_encrypt (prop_decryption_key properties) random text k = Ok c
    end.

Definition task_ok (kind : TaskKind) : Prop :=
  match kind with Resend p r m => outgoing_ok p r m | Deadline => True end.

Record layer_inv (w : Inner) : Prop := {
  inv_state : keyed (state w) = true -> is_Some (relying_key w);
  inv_state_tx : forall s, s ∈ state_tx w -> keyed s = true -> is_Some (relying_key w);
  inv_key : forall k, relying_key w = Some k -> announced w k;
  inv_capabilities : forall c, peer_capabilities w = Some c -> advertised w c;
  inv_messages : forall v, v ∈ message_tx w -> sent_to_us w v;
  inv_early : forall p, p ∈ early w -> p ∈ received w;
  inv_published : forall f, f ∈ published w -> frame_ok w f;
  inv_spawned : forall t, t ∈ spawned w -> task_ok t.2;
}.

(** What a task may do to the state others rely on. *)
Record guarantee (w w' : Inner) : Prop := {
  g_key : forall k, relying_key w = Some k -> relying_key w' = Some k;
  g_capabilities : forall c, peer_capabilities w = Some c -> peer_capabilities w' = Some c;
  g_state_tx : state_tx w `prefix_of` state_tx w';
  g_messages : message_tx w `prefix_of` message_tx w';
  g_published : published w `prefix_of` published w';
  g_received : received w `prefix_of` received w';
  g_early : early w `prefix_of` early w';
  g_early_closed : is_Some (relying_key w) -> early w' = early w;
}.

#[export] Instance guarantee_preorder : PreOrder guarantee.
Proof.
  split.
  - intros w. by split.
  - intros w1 w2 w3 [K1 ? ? ? ? ? ? E1] [K2 ? ? ? ? ? ? E2]. split; eauto; try by etrans.
    intros Hk. rewrite E2, E1; [done..|]. destruct Hk as [k Hk]. exists k. by apply K1.
Qed.

End invariant.

Section safety.
Context `{CryptoLaws} `{SignalingCodec}.
Context (properties : SignalingProperties).
Implicit Types (w : Inner).

Abbreviation Inv := (layer_inv properties).
Abbreviation lsafe := (safe Inv guarantee).

Lemma received_mono w w' x : guarantee w w' -> x ∈ received w -> x ∈ received w'.
Proof. intros [_ _ _ _ _ [l ->] _ _] Hx. apply elem_of_app. by left. Qed.

Lemma has_key_mono w w' : guarantee w w' -> is_Some (relying_key w) -> is_Some (relying_key w').
Proof. intros HG [k Hk]. exists k. by apply (g_key _ _ HG). Qed.

Lemma early_mono w w' x : guarantee w w' -> x ∈ early w -> x ∈ early w'.
Proof. intros [_ _ _ _ _ _ [l ->] _] Hx. apply elem_of_app. by left. Qed.

Lemma opens_mono w w' payload frame text :
  guarantee w w' -> opens properties w payload frame text -> opens properties w' payload frame text.
Proof.
  intros HG. unfold opens. destruct (prefix frame); [done|].
  intros (peer & Hp & Hd). exists peer. split; [|done].
  destruct peer; [by apply (g_key _ _ HG)|by eapply early_mono].
Qed.

Lemma accepts_mono w w' payload frame m :
  guarantee w w' -> accepts properties w payload frame m -> accepts properties w' payload frame m.
Proof.
  intros HG (Hr & Hp & Hi & (text & Ho & Hs) & Hv).
  split_and!; [by eapply received_mono|done|done| |done]. exists text. split; [|done].
  by eapply opens_mono.
Qed.

Lemma announced_mono w w' k : guarantee w w' -> announced properties w k -> announced properties w' k.
Proof.
  intros HG (p & f & pk & t & Ha & Hk). exists p, f, pk, t. split; [|done].
  by eapply accepts_mono.
Qed.

Lemma advertised_mono w w' c : guarantee w w' -> advertised properties w c -> advertised properties w' c.
Proof.
  intros HG (p & f & t & Ha & Hk). exists p, f, t. split; [|done]. by eapply accepts_mono.
Qed.

Lemma sent_to_us_mono w w' v : guarantee w w' -> sent_to_us properties w v -> sent_to_us properties w' v.
Proof.
  intros HG (Hs & p & f & t & Ha & Hk). split; [by eapply has_key_mono|].
  exists p, f, t. split; [|done]. by eapply accepts_mono.
Qed.

Lemma frame_ok_mono w w' f : guarantee w w' -> frame_ok properties w f -> frame_ok properties w' f.
Proof.
  intros HG (p & m & text & rd & c & Ho & Hm & Hf & Hp). exists p, m, text, rd, c.
  split_and!; [done..|]. destruct p; [done|]. destruct Hp as (k & Hk & He).
  exists k. split; [|done]. by apply (g_key _ _ HG).
Qed.

#[local] Hint Resolve received_mono has_key_mono accepts_mono announced_mono advertised_mono
  sent_to_us_mono frame_ok_mono : openlv.

(** A change of some of the fields stays within the guarantee. *)
Ltac within := split; cbn; first [done | by apply prefix_app_r | by rewrite_premise]
with rewrite_premise := match goal with E : _ = _ |- _ => rewrite E end.

(** A change keeps the invariant when it stays within the guarantee and the new
    parts of the state satisfy it. *)
Lemma inv_step w w' :
  Inv w -> guarantee w w' ->
  (keyed (state w') = true -> is_Some (relying_key w')) ->
  (forall s, s ∈ state_tx w' -> s ∈ state_tx w \/ (keyed s = true -> is_Some (relying_key w'))) ->
  (forall k, relying_key w' = Some k -> relying_key w = Some k \/ announced properties w' k) ->
  (forall c, peer_capabilities w' = Some c ->
     peer_capabilities w = Some c \/ advertised properties w' c) ->
  (forall v, v ∈ message_tx w' -> v ∈ message_tx w \/ sent_to_us properties w' v) ->
  (forall p, p ∈ early w' -> p ∈ early w \/ p ∈ received w') ->
  (forall f, f ∈ published w' -> f ∈ published w \/ frame_ok properties w' f) ->
  (forall t, t ∈ spawned w' -> t ∈ spawned w \/ task_ok properties t.2) ->
  Inv w'.
Proof.
  intros HI HG Hs Htx Hk Hc Hm He Hp Ht. destruct HI. split.
  - auto.
  - intros s Hin. destruct (Htx s Hin); eauto with openlv.
  - intros k Hk'. destruct (Hk k Hk'); eauto with openlv.
  - intros c Hc'. destruct (Hc c Hc'); eauto with openlv.
  - intros v Hv. destruct (Hm v Hv); eauto with openlv.
  - intros p Hin. destruct (He p Hin); eauto with openlv.
  - intros f Hf. destruct (Hp f Hf); eauto with openlv.
  - intros t Hin. destruct (Ht t Hin); eauto with openlv.
Qed.

(** Changes of the task slots. *)
Lemma inv_slots w w' :
  Inv w ->
  (state w', relying_key w', peer_capabilities w', state_tx w', message_tx w', published w',
   received w', early w', spawned w')
  = (state w, relying_key w, peer_capabilities w, state_tx w, message_tx w, published w,
     received w, early w, spawned w) ->
  Inv w' /\ guarantee w w'.
Proof.
  intros HI [= Es Ek Ec Et Em Ep Er Ee Esp].
  assert (guarantee w w') as HG by (split; by rewrite ?Ek, ?Ec, ?Et, ?Em, ?Ep, ?Er, ?Ee).
  split; [|done]. eapply inv_step; [exact HI|exact HG|..]; intros *;
    rewrite ?Es, ?Ek, ?Ec, ?Et, ?Em, ?Ep, ?Er, ?Ee, ?Esp; auto. by apply (inv_state _ _ HI).
Qed.

Lemma safe_slots (f : Inner -> Inner) w :
  (forall w', (state (f w'), relying_key (f w'), peer_capabilities (f w'), state_tx (f w'),
               message_tx (f w'), published (f w'), received (f w'), early (f w'), spawned (f w'))
              = (state w', relying_key w', peer_capabilities w', state_tx w', message_tx w',
                 published w', received w', early w', spawned w')) ->
  lsafe (writes f : Layer unit) w.
Proof. intros Hf. apply safe_writes. intros w' _ HI. by apply inv_slots. Qed.

Lemma safe_stop_repeating w : lsafe stop_repeating w.
Proof.
  apply safe_slots. intros w'. unfold take_handshake_task. by destruct (handshake_task w').
Qed.

Lemma safe_stop_handshake_tasks w : lsafe stop_handshake_tasks w.
Proof.
  apply safe_seq; [apply _|apply safe_stop_repeating|intros _]. apply safe_slots. intros w'.
  unfold take_deadline_task. by destruct (deadline_task w').
Qed.

Lemma safe_spawn kind w : task_ok properties kind -> lsafe (spawn_task kind) w.
Proof.
  intros Hk i w' HG HI. cbn.
  assert (guarantee w' (with_next_task (S (next_task w'))
           (with_spawned (spawned w' ++ [(next_task w', kind)]) w'))) as HG' by (by split).
  split; [|done]. eapply inv_step; [exact HI|exact HG'|..]; cbn; auto.
  - apply (inv_state _ _ HI).
  - intros t [Ht| ->%list_elem_of_singleton]%elem_of_app; auto.
Qed.

Lemma safe_set_state s w :
  (keyed s = true -> is_Some (relying_key w)) -> lsafe (set_state s) w.
Proof.
  intros Hs. unfold set_state. apply safe_seq; [apply _| |intros _]; cycle 1.
  { apply safe_seq; [apply _| |intros _].
    - destruct s; try done; apply safe_stop_handshake_tasks.
    - apply safe_writes. intros w' HG HI.
      assert (guarantee w' (with_state_tx (state_tx w' ++ [s]) w')) as HG'
        by within.
      split; [|done]. eapply inv_step; [exact HI|exact HG'|..]; cbn; auto.
      + apply (inv_state _ _ HI).
      + intros s' [Hin| ->%list_elem_of_singleton]%elem_of_app; eauto with openlv. }
  apply safe_writes. intros w' HG HI.
  assert (guarantee w' (with_state s w')) as HG' by (by split).
  split; [|done]. eapply inv_step; [exact HI|exact HG'|..]; cbn; eauto with openlv.
Qed.

Lemma safe_start_deadline w : lsafe start_handshake_deadline w.
Proof.
  unfold start_handshake_deadline. apply safe_seq; [apply _|by apply safe_reads; apply _|].
  intros [|]; [done|].
  apply safe_seq; [apply _|by apply safe_spawn|]. intros n. by apply safe_slots.
Qed.

Lemma safe_publish frame w : frame_ok properties w frame -> lsafe (publish frame) w.
Proof.
  intros Hf. unfold publish. apply safe_seq; [apply _|done|intros _].
  apply safe_seq; [apply _| |intros r; apply safe_seq; [apply _|done|by intros _; destruct r]].
  intros i w' HG HI. cbn.
  assert (guarantee w' (with_published (published w' ++ [frame]) w')) as HG'
    by within.
  split; [|done]. eapply inv_step; [exact HI|exact HG'|..]; cbn; auto.
  - apply (inv_state _ _ HI).
  - intros f [Hin| ->%list_elem_of_singleton]%elem_of_app; [auto|right].
    eapply frame_ok_mono; [|exact Hf]. by etrans.
Qed.

(** Messages that may be sent are sent encrypted. *)
Lemma safe_send_message p r m w :
  outgoing_ok properties p r m -> lsafe (send_message properties p r m) w.
Proof.
  intros Ho. assert (Hr := proj1 Ho). subst r. unfold send_message.
  apply safe_lift. intros text Htext.
  destruct (signaling_to_string m) as [text'|] eqn:Hm; [|done]. injection Htext as ->.
  destruct p.
  - change (lsafe ((lift (ok_or (handshake_key properties) (Signaling "handshake key is required"))
      ≫= (fun key => asks in_random ≫= fun iv => lift (handshake_encrypt key iv text)))
      ≫= (fun c => publish (compose_frame Wire.Handshake (remote_recipient properties) c))) w).
    destruct (handshake_key properties) as [key|] eqn:Hkey; [|exact I].
    intros i w' HG HI. split; [done|]. split; [done|]. cbn -[compose_frame publish].
    destruct (handshake_encrypt key (in_random i) text) as [c| |] eqn:Hc; [|exact I..].
    apply safe_publish. exists Wire.Handshake, m, text, (in_random i), c. split_and!; eauto.
  - intros i w' HG HI. split; [done|]. split; [done|]. cbn -[compose_frame publish].
    destruct (relying_key w') as [k|] eqn:Hk; [|exact I].
    destruct (peer_encrypt _ _ _ _) as [c| |] eqn:Hc; [|exact I..].
    apply safe_publish. exists Wire.Encrypted, m, text, (in_random i), c. split_and!; eauto.
Qed.

Lemma safe_send_repeating p r m w :
  outgoing_ok properties p r m -> lsafe (send_repeating properties p r m) w.
Proof.
  intros Ho. unfold send_repeating. apply safe_seq; [apply _|apply safe_stop_repeating|intros _].
  apply safe_seq; [apply _|by apply safe_send_message|intros _].
  apply safe_seq; [apply _|by apply safe_spawn|]. intros n. by apply safe_slots.
Qed.

(** Storing a key: afterwards a key is recorded, whichever task stored it. *)
Lemma safe_store_relying_key k (q : bool -> Layer unit) w :
  announced properties w k ->
  (forall b w', is_Some (relying_key w') -> lsafe (q b) w') ->
  lsafe (store_relying_key k ≫= q) w.
Proof.
  intros Ha Hq. apply safe_atom_bind; intros i w' HG HI.
  destruct (relying_key w') as [k'|] eqn:Hk; cbn.
  - split_and!; [done..|]. apply Hq. by rewrite Hk.
  - assert (guarantee w' (with_relying_key (Some k) w')) as HG'
      by within.
    split_and!; [|done|by apply Hq]. eapply inv_step; [exact HI|exact HG'|..]; cbn; auto.
    intros k' [= <-]. right. eapply announced_mono; [|exact Ha]. by etrans.
Qed.

Lemma safe_store_peer_capabilities c w :
  advertised properties w c -> lsafe (store_peer_capabilities c) w.
Proof.
  intros Ha. apply safe_writes. intros w' HG HI.
  destruct (peer_capabilities w') as [c'|] eqn:Hc; [done|].
  assert (guarantee w' (with_peer_capabilities (Some c) w')) as HG'
    by within.
  split; [|done]. eapply inv_step; [exact HI|exact HG'|..]; cbn; auto.
  - apply (inv_state _ _ HI).
  - intros c' [= <-]. right. eapply advertised_mono; [|exact Ha]. by etrans.
Qed.

Lemma safe_pubkey_message (q : SignalingMessage -> Layer unit) w :
  (forall m, clear_message properties m -> lsafe (q m) w) -> lsafe (pubkey_message properties ≫= q) w.
Proof.
  intros Hq i w' HG HI. cbn. split_and!; [done..|]. eapply safe_stable; [apply _|exact HG|].
  apply Hq. done.
Qed.

Lemma remote_recipient_host : is_host properties = true -> remote_recipient properties = Client.
Proof. intros Hh. unfold remote_recipient. by rewrite Hh. Qed.

Lemma remote_recipient_client : is_host properties = false -> remote_recipient properties = Host.
Proof. intros Hh. unfold remote_recipient. by rewrite Hh. Qed.

Lemma safe_send_own_capabilities w :
  is_host properties = false -> lsafe (send_own_capabilities properties) w.
Proof.
  intros Hh. unfold send_own_capabilities. apply safe_seq; [apply _| |intros m].
  - apply safe_seq; [apply _|by apply safe_asks; apply _|done].
  - apply safe_send_message. split; [by rewrite remote_recipient_client|done].
Qed.

(** The announcement of a key: the new state, then the answer until it is heard. *)
Lemma safe_partial (msg : Layer SignalingMessage) r w :
  is_Some (relying_key w) -> r = remote_recipient properties -> (forall w', lsafe msg w') ->
  lsafe (set_state HandshakePartial;; m ← msg; send_repeating properties Wire.Encrypted r m) w.
Proof.
  intros Hk Hr Hm. apply safe_seq; [apply _|by apply safe_set_state|intros _].
  apply safe_seq; [apply _|apply Hm|]. intros m. by apply safe_send_repeating.
Qed.

Lemma safe_receive_flash w : is_host properties = true -> lsafe (receive_flash properties) w.
Proof.
  intros Hh. unfold receive_flash. apply safe_seq; [apply _|by apply safe_set_state|intros _].
  apply safe_seq; [apply _|apply safe_start_deadline|intros _].
  apply safe_pubkey_message. intros m Hm. apply safe_send_repeating.
  split; [by rewrite remote_recipient_host|done].
Qed.

Lemma safe_receive_host_pubkey payload frame pk t w :
  is_host properties = false -> prefix frame = Wire.Handshake ->
  accepts properties w payload frame (Pubkey pk t) ->
  lsafe (receive_host_pubkey properties pk) w.
Proof.
  intros Hh Hp Ha. unfold receive_host_pubkey. apply safe_lift. intros k Hk.
  apply safe_lift. intros valid [= <-].
  destruct (String.eqb_spec (hash_public_key k) (prop_h properties)); cbn [negb];
    [|by apply safe_set_state].
  apply safe_store_relying_key.
  - exists payload, frame, pk, t. split_and!; [done..|]. by rewrite Hh.
  - intros [] w' Hs; cbn [negb]; [|done].
    apply safe_partial; [done|by rewrite remote_recipient_client|].
    intros w''. apply safe_seq; [apply _|by apply safe_asks; apply _|done].
Qed.

Lemma safe_receive_client_pubkey payload frame pk t w :
  is_host properties = true -> prefix frame = Wire.Encrypted ->
  accepts properties w payload frame (Pubkey pk t) ->
  lsafe (receive_client_pubkey properties frame pk) w.
Proof.
  intros Hh Hp Ha. unfold receive_client_pubkey. apply safe_lift. intros k Hk.
  apply safe_lift. intros sender Hs.
  case_bool_decide as Heq; cbn [negb]; [|done].
  apply safe_store_relying_key.
  - exists payload, frame, pk, t. split_and!; [done..|]. rewrite Hh. eauto.
  - intros [] w' Hk'; cbn [negb]; [|done].
    apply safe_partial; [done|by rewrite remote_recipient_host|].
    intros w''. apply safe_seq; [apply _|by apply safe_asks; apply _|done].
Qed.

Lemma safe_receive_capabilities payload frame c t w :
  prefix frame = Wire.Encrypted -> is_Some (relying_key w) ->
  accepts properties w payload frame (Capabilities c t) ->
  lsafe (receive_capabilities properties c) w.
Proof.
  intros Hp Hk Ha. unfold receive_capabilities. apply safe_seq; [apply _| |intros _].
  - apply safe_store_peer_capabilities. by exists payload, frame, t.
  - apply safe_seq; [apply _|by apply safe_set_state|intros _].
    destruct (is_host properties) eqn:Hh; [done|]. by apply safe_send_own_capabilities.
Qed.

Lemma safe_deliver payload frame v t w :
  prefix frame = Wire.Encrypted -> is_Some (relying_key w) -> accepts properties w payload frame (Data v t) ->
  lsafe (writes (fun w => with_message_tx (message_tx w ++ [v]) w) : Layer unit) w.
Proof.
  intros Hp Hk Ha. apply safe_writes. intros w' HG HI.
  assert (guarantee w' (with_message_tx (message_tx w' ++ [v]) w')) as HG'
    by within.
  split; [|done]. eapply inv_step; [exact HI|exact HG'|..]; cbn; auto.
  - apply (inv_state _ _ HI).
  - intros v' [Hin| ->%list_elem_of_singleton]%elem_of_app; [auto|right].
    eapply (sent_to_us_mono w); [by etrans|]. split; [done|]. by exists payload, frame, t.
Qed.

Lemma safe_handle_message payload frame m w :
  accepts properties w payload frame m -> lsafe (handle_message properties frame m) w.
Proof.
  intros Ha0. unfold handle_message. apply safe_read_bind; [apply _|]. intros w' HG HI.
  assert (accepts properties w' payload frame m) as Ha by (by eapply accepts_mono). clear Ha0.
  destruct (prefix frame) eqn:Hp, m as [v t|pk t|c t|v t], (state w') eqn:Hs,
    (is_host properties) eqn:Hh; try done;
    first [ by apply safe_receive_flash
          | by eapply safe_receive_host_pubkey
          | by eapply safe_receive_client_pubkey
          | by apply safe_send_own_capabilities
          | (eapply safe_deliver || eapply safe_receive_capabilities); [done| |done];
            apply (inv_state _ _ HI); by rewrite Hs ].
Qed.

(** What a payload that was delivered can count on afterwards. *)
Definition arrived (payload : string) w : Prop :=
  payload ∈ received w /\ (relying_key w = None -> payload ∈ early w).

Lemma arrived_mono payload w w' : guarantee w w' -> arrived payload w -> arrived payload w'.
Proof.
  intros HG [Hr He]. split; [by eapply received_mono|]. intros Hn.
  destruct (relying_key w) as [k|] eqn:Hk; [|by eapply early_mono; [|apply He]].
  apply (g_key _ _ HG) in Hk. congruence.
Qed.

Lemma deliver_arrived payload w : arrived payload (deliver payload w).
Proof.
  unfold deliver, arrived. destruct (relying_key w) eqn:Hk; cbn; rewrite ?Hk;
    (split; [|intros Hn]); try done; apply elem_of_app; right; by apply list_elem_of_singleton.
Qed.

(** Opening: a frame of the channel is opened as the state at that moment says. *)
Lemma safe_open_frame payload frame w :
  arrived payload w ->
  wp Inv guarantee (open_frame properties frame)
    (fun r w' => match r with Ok text => opens properties w' payload frame text | _ => True end) w.
Proof.
  intros Ha. unfold open_frame, opens. destruct (prefix frame) eqn:Hp.
  - destruct (handshake_key properties) as [key|] eqn:Hkey; cbn; [|done].
    destruct (handshake_decrypt _ _) eqn:Hd; try done. eauto.
  - intros i w' HG HI. split; [done|]. split; [done|]. cbn.
    destruct (peer_decrypt _ _ _) eqn:Hd; try done. exists (relying_key w'). split; [|done].
    apply (arrived_mono _ _ _ HG) in Ha as [_ He]. destruct (relying_key w'); auto.
Qed.

Lemma safe_handle_receive payload w :
  arrived payload w -> lsafe (handle_receive properties payload) w.
Proof.
  intros Hr. unfold handle_receive. apply safe_lift. intros frame Hf.
  destruct (is_recipient _ _) eqn:Hi; cbn [negb]; [|done].
  apply (safe_bind _ _ _ _ (fun text w' =>
    opens properties w' payload frame text /\ payload ∈ received w')).
  - eapply wp_mono; cycle 1.
    { apply (wp_frame _ _ _ (fun w => payload ∈ received w)
        (fun r w' => match r with Ok text => opens properties w' payload frame text | _ => True end)).
      - by intros ? ?; eauto with openlv.
      - apply Hr.
      - by apply safe_open_frame. }
    intros [] w' [? ?]; auto.
  - intros text w' [Ho Hr']. apply safe_lift. intros m Hm.
    destruct (is_ok (message_validate m)) eqn:Hv; cbn [negb]; [|done].
    apply (safe_handle_message payload). split_and!; try done. exists text. split; [done|].
    destruct (signaling_from_str text); [|done]. by injection Hm as ->.
Qed.

Lemma safe_channel_call w : lsafe channel_call w.
Proof.
  unfold channel_call. apply safe_seq; [apply _|done|intros _].
  apply safe_seq; [apply _|by apply safe_asks; apply _|intros r].
  apply safe_seq; [apply _|done|intros _]. destruct r; exact I.
Qed.

Lemma safe_setup w : lsafe (setup properties) w.
Proof.
  unfold setup. apply safe_seq; [apply _|by apply safe_set_state|intros _].
  do 2 (apply safe_seq; [apply _|apply safe_channel_call|intros _]).
  apply safe_read_bind; [apply _|]. intros w' HG HI. case_bool_decide as Hk; [by apply safe_set_state|].
  destruct (is_host properties) eqn:Hh; [by apply safe_set_state|].
  do 2 (apply safe_seq; [apply _|by apply safe_set_state|intros _]).
  apply safe_seq; [apply _|apply safe_start_deadline|intros _].
  apply safe_seq; [apply _|by apply safe_asks; apply _|intros now].
  apply safe_send_repeating. split; [by rewrite remote_recipient_client|done].
Qed.

Lemma safe_teardown w : lsafe teardown w.
Proof.
  unfold teardown. apply safe_seq; [apply _|apply safe_stop_handshake_tasks|intros _].
  apply safe_channel_call.
Qed.

Lemma safe_send v w : lsafe (send properties v) w.
Proof.
  unfold send. apply safe_seq; [apply _|by apply safe_reads; apply _|]. intros [|]; cbn [negb]; [|done].
  apply safe_seq; [apply _|by apply safe_asks; apply _|]. intros now. by apply safe_send_message.
Qed.

Lemma safe_task n kind w : task_ok properties kind -> safe_thread Inv guarantee w (task_thread properties n kind).
Proof.
  intros Ht. destruct kind as [p r m|]; (split; cbn [task_thread code again]; [|done || idtac]).
  - exact I.
  - unfold resend_round. apply safe_seq; [apply _|done|intros _].
    apply safe_seq; [apply _| |intros _; exact I].
    by apply safe_attempt, safe_send_message.
  - unfold deadline_body. do 2 (apply safe_seq; [apply _|done|intros _]).
    apply safe_seq; [apply _|by apply safe_reads; apply _|]. intros s.
    case_decide; [exact I|by apply safe_set_state].
Qed.

Lemma take_spawned_safe w w' t :
  Inv w -> take_spawned properties w = Some (w', t) ->
  Inv w' /\ guarantee w w' /\ safe_thread Inv guarantee w' t.
Proof.
  intros HI. unfold take_spawned. destruct (spawned w) as [|[n kind] l] eqn:Hs; [done|].
  intros [= <- <-]. assert (guarantee w (with_spawned l w)) as HG by (by split).
  split_and!; [|done|].
  - eapply inv_step; [exact HI|exact HG|..]; cbn; auto.
    + apply (inv_state _ _ HI).
    + intros t' Ht. left. rewrite Hs. by apply list_elem_of_further.
  - apply safe_task. apply (inv_spawned _ _ HI (n, kind)). rewrite Hs. apply list_elem_of_here.
Qed.

Lemma entry_safe call w :
  Inv w -> Inv (arrive call w) /\ guarantee w (arrive call w) /\
           lsafe (entry properties call) (arrive call w).
Proof.
  intros HI. destruct call as [| |v|payload]; cbn [arrive entry].
  - split_and!; [done..|apply safe_setup].
  - split_and!; [done..|apply safe_teardown].
  - split_and!; [done..|apply safe_send].
  - assert (guarantee w (deliver payload w)) as HG
      by (unfold deliver; destruct (relying_key w) eqn:Hk; split; cbn; rewrite ?Hk;
          first [done | by apply prefix_app_r | by intros [? [=]]]).
    split_and!; [|done|apply safe_handle_receive, deliver_arrived].
    eapply inv_step; [exact HI|exact HG|..]; unfold deliver; destruct (relying_key w) eqn:Hk; cbn; auto;
      try apply (inv_state _ _ HI); try by (intros k; rewrite Hk; auto).
    intros p [Hin|Hin]%elem_of_app; [by left|right]. apply elem_of_app. by right.
Qed.

Lemma initial_inv : Inv new_inner.
Proof. split; cbn; try done; intros ? ?%not_elem_of_nil; done. Qed.

(** Every configuration the layer reaches satisfies the invariant, and what it
    reaches from there stays within the guarantee. *)
Lemma layer_sound c c' :
  layer_reachable properties initial c -> layer_reachable properties c c' ->
  Inv (world c) /\ Inv (world c') /\ guarantee (world c) (world c').
Proof.
  intros Hc Hc'.
  assert (safe_config Inv guarantee c) as Hs.
  { eapply reachable_sound; [apply _|apply take_spawned_safe|apply entry_safe| |exact Hc].
    split; [apply initial_inv|constructor]. }
  assert (safe_config Inv guarantee c' /\ guarantee (world c) (world c')) as [Hs' HG].
  { eapply reachable_sound; [apply _|apply take_spawned_safe|apply entry_safe|exact Hs|exact Hc']. }
  split_and!; [apply Hs|apply Hs'|exact HG].
Qed.

End safety.
