(* ===== verification/SignalingSafety.v ===== *)
(** * Safety of the signaling layer under every interleaving

    What holds in every configuration a layer can reach, whoever writes to its
    channel and however its tasks interleave; and two executions that show which
    stronger statements do not hold. *)
From S2P Require Import Prelude RustStr Errors Json Wire CryptoLib CryptoModel Encryption.
From S2P Require Import Message TextModel Tasks SignalingLayer.
Local Open Scope string_scope.
Local Open Scope list_scope.

(** ** Lemmas *)

Section safety_lemmas.
Context `{CryptoLaws} `{SignalingCodec}.
Context (properties : SignalingProperties).

Lemma reachable_inv c :
  layer_reachable properties initial c -> layer_inv properties (world c).
Proof. intros Hc. by destruct (layer_sound properties c c Hc (reachable_refl _ _ _ _ _)). Qed.

Lemma advertised_valid w c : advertised properties w c -> capabilities_validate c = Ok tt.
Proof.
  intros (payload & frame & t & (_ & _ & _ & _ & Hv) & _). cbn in Hv.
  destruct (capabilities_validate c) as [[]| |]; done.
Qed.

Lemma sent_to_us_object w v : sent_to_us properties w v -> is_object v = true.
Proof.
  intros (_ & payload & frame & t & (_ & _ & _ & _ & Hv) & _). cbn in Hv. by destruct (is_object v).
Qed.

(** A peer frame opened with the recorded key names that key as its sender. *)
Lemma peer_decrypt_sender d c k text :
  peer_decrypt d c (Some k) = Ok text ->
  exists payload, from_base64 c = Ok payload /\ take PUBLIC_KEY_BYTES payload = public_key k.
Proof.
  intros Hd. apply peer_decrypt_inv in Hd as (s & n & ct & key & Hb & Hs & _ & Hk & _).
  exists (s ++ n ++ ct). split; [done|]. rewrite take_app_exact by done. symmetry. auto.
Qed.

End safety_lemmas.

(** ** Properties *)

(** C6. The peer's key is written once and is the right one: however the tasks
    interleave and whatever the channel delivers, a key the layer has recorded is
    never replaced; on the client it has the hash of the connection URL; on the
    host it is the key of the sender of the frame that announced it. *)
Theorem relying_key_pinned `{CryptoLaws, SignalingCodec} properties c c' k :
  layer_reachable properties initial c -> layer_reachable properties c c' ->
  relying_key (world c) = Some k ->
  relying_key (world c') = Some k /\
  (is_host properties = false -> hash_public_key k = prop_h properties) /\
  (is_host properties = true -> exists payload frame sender,
     payload ∈ received (world c) /\ parse_frame payload = Ok frame /\
     from_ciphertext (ciphertext frame) = Ok sender /\ public_key sender = public_key k).
Proof.
  intros Hc Hc' Hk. destruct (layer_sound properties c c' Hc Hc') as (HI & _ & HG).
  split; [by apply (g_key _ _ HG)|].
  destruct (inv_key _ _ HI k Hk) as (payload & frame & pk & t & Ha & _ & Hr).
  destruct Ha as (Hin & Hp & _). split; intros Hh; rewrite Hh in Hr; [by destruct Hr|].
  destruct Hr as (_ & sender & ? & ?). by exists payload, frame, sender.
Qed.

(** The layer never claims to be encrypted without a peer key: in every
    reachable configuration, if the state is [HandshakePartial] or [Encrypted], or
    one of them was announced to the subscribers at any time, a key is recorded. *)
Theorem encrypted_has_key `{CryptoLaws, SignalingCodec} properties c s :
  layer_reachable properties initial c ->
  s = state (world c) \/ s ∈ state_tx (world c) ->
  s = HandshakePartial \/ s = Encrypted ->
  exists k, relying_key (world c) = Some k.
Proof.
  intros Hc Hs Hk. apply reachable_inv in Hc as HI.
  assert (keyed s = true) as Hks by (by destruct Hk as [->| ->]).
  destruct Hs as [->|Hs]; [by apply (inv_state _ _ HI)|by apply (inv_state_tx _ _ HI s)].
Qed.

(** C7. Nothing leaves in the clear: every frame the layer ever handed to the
    channel is addressed to the other role and encrypts one message. Under the
    handshake key, which the channel's other users may hold, this is only the
    empty flash or our own public key; every other message, application data and
    capabilities included, is encrypted for the recorded peer key, which on the
    client has the hash of the connection URL. *)
Theorem published_frames_confidential `{CryptoLaws, SignalingCodec} properties c f :
  layer_reachable properties initial c -> f ∈ published (world c) ->
  exists p m text random ct,
    signaling_to_string m = inl text /\
    f = compose_frame p (remote_recipient properties) ct /\
    ((p = Wire.Handshake /\ clear_message properties m /\
      exists key, handshake_key properties = Some key /\
                  handshake_encrypt key random text = Ok ct)
     \/ (p = Wire.Encrypted /\ exists k, relying_key (world c) = Some k /\
         peer_encrypt (prop_decryption_key properties) random text k = Ok ct /\
         (is_host properties = false -> hash_public_key k = prop_h properties))).
Proof.
  intros Hc Hf. apply reachable_inv in Hc as HI.
  destruct (inv_published _ _ HI f Hf) as (p & m & text & rd & ct & [_ Ho] & Hm & -> & Hp).
  exists p, m, text, rd, ct. split_and!; [done..|]. destruct p.
  - left. auto.
  - right. destruct Hp as (k & Hk & He). split; [done|]. exists k. split_and!; [done..|].
    intros Hh. destruct (inv_key _ _ HI k Hk) as (? & ? & ? & ? & _ & _ & Hr).
    rewrite Hh in Hr. by destruct Hr.
Qed.

(** C8. What is delivered was sent to us, by the peer from the moment its key is
    recorded: let [c'] be any configuration reached through [c]. Every value given to
    the subscribers in [c'] is an object, and was carried by a [Data] message in a peer
    frame that the channel delivered for our role. A key is recorded; if one was
    recorded in [c] already, then a frame that the channel had not delivered by [c]
    decrypted under our key with the recorded key, and names that key as its sender.
    Only a frame that was delivered before can have been opened with whatever sender
    it names. *)
Theorem delivered_data_decrypted `{CryptoLaws, SignalingCodec} properties c c' v :
  layer_reachable properties initial c -> layer_reachable properties c c' ->
  v ∈ message_tx (world c') ->
  is_object v = true /\
  exists k payload frame text t,
    relying_key (world c') = Some k /\
    payload ∈ received (world c') /\ parse_frame payload = Ok frame /\
    prefix frame = Wire.Encrypted /\ is_recipient frame (is_host properties) = true /\
    signaling_from_str text = inl (Data v t) /\
    ((peer_decrypt (prop_decryption_key properties) (ciphertext frame) (Some k) = Ok text /\
      exists raw, from_base64 (ciphertext frame) = Ok raw /\
                  take PUBLIC_KEY_BYTES raw = public_key k)
     \/ (peer_decrypt (prop_decryption_key properties) (ciphertext frame) None = Ok text /\
         (is_Some (relying_key (world c)) -> payload ∈ received (world c)))).
Proof.
  intros Hc Hc' Hv. destruct (layer_sound properties c c' Hc Hc') as (HI0 & HI & HG).
  assert (Hs := inv_messages _ _ HI v Hv). split; [by eapply sent_to_us_object|].
  destruct Hs as ([k Hk] & payload & frame & t & (Hin & Hp & Hi & (text & Ho & Hm) & _) & Hpre).
  exists k, payload, frame, text, t. split_and!; [done..|]. unfold opens in Ho. rewrite Hpre in Ho.
  destruct Ho as ([k'|] & Hpeer & Hd).
  - left. rewrite Hk in Hpeer. injection Hpeer as <-. split; [done|].
    by apply peer_decrypt_sender in Hd.
  - right. split; [done|]. intros Hs. apply (inv_early _ _ HI0).
    by rewrite <- (g_early_closed _ _ HG Hs).
Qed.

(** The peer's capabilities are validated and written once: what the layer
    records came in a peer frame, satisfies every bound of
    [PeerCapabilities::validate], and is never replaced. *)
Theorem peer_capabilities_pinned `{CryptoLaws, SignalingCodec} properties c c' caps :
  layer_reachable properties initial c -> layer_reachable properties c c' ->
  peer_capabilities (world c) = Some caps ->
  peer_capabilities (world c') = Some caps /\ capabilities_validate caps = Ok tt /\
  exists payload frame, payload ∈ received (world c) /\ parse_frame payload = Ok frame /\
    prefix frame = Wire.Encrypted.
Proof.
  intros Hc Hc' Hk. destruct (layer_sound properties c c' Hc Hc') as (HI & _ & HG).
  assert (Ha := inv_capabilities _ _ HI caps Hk).
  split_and!; [by apply (g_capabilities _ _ HG)|by eapply advertised_valid|].
  destruct Ha as (payload & frame & t & (Hin & Hp & _) & Hpre). by exists payload, frame.
Qed.

(** ** A concrete pair of layers *)

Module LayerModel.
Import CryptoModel TextModel.

Definition model_capabilities (s : string) : PeerCapabilities :=
  mkPeerCapabilities ["wrtc"] (Some (mkPeerInfo s s None)).

Definition model_handshake_key : option HandshakeKey :=
  match from_hex "000102030405060708090a0b0c0d0e0f" with Ok k => Some k | _ => None end.

Definition model_host : SignalingProperties :=
  mkSignalingProperties true (hash_public_key (witness_encryption_key witness_alice))
    model_handshake_key (witness_encryption_key witness_alice)
    (witness_decryption_key witness_alice) (model_capabilities "host").

Definition model_client : SignalingProperties :=
  mkSignalingProperties false (hash_public_key (witness_encryption_key witness_alice))
    model_handshake_key (witness_encryption_key witness_bob)
    (witness_decryption_key witness_bob) (model_capabilities "client").

Definition model_input : Input := mkInput witness_iv 1700000000000 (Ok tt).

(** A call to the host or the client that runs to its end without interference. *)
Definition host_call (call : Call) (c : Config Inner Input) : Config Inner Input :=
  invoke is_aborted (take_spawned model_host) (entry model_host) arrive model_input call c.
Definition client_call (call : Call) (c : Config Inner Input) : Config Inner Input :=
  invoke is_aborted (take_spawned model_client) (entry model_client) arrive model_input call c.

Definition last_frame (c : Config Inner Input) : string := default "" (last (published (world c))).

Lemma host_reachable call c :
  layer_reachable model_host initial c -> layer_reachable model_host initial (host_call call c).
Proof. apply invoke_reachable. Qed.

Lemma client_reachable call c :
  layer_reachable model_client initial c -> layer_reachable model_client initial (client_call call c).
Proof. apply invoke_reachable. Qed.

(** The honest handshake, frame by frame. *)
Definition client0 := client_call Setup initial.
Definition host0 := host_call Setup initial.
Definition host1 := host_call (Receive (last_frame client0)) host0.
Definition client1 := client_call (Receive (last_frame host1)) client0.
Definition host2 := host_call (Receive (last_frame client1)) host1.
Definition client2 := client_call (Receive (last_frame host2)) client1.
Definition host3 := host_call (Receive (last_frame client2)) host2.
Definition model_data : Value := Object [("d", Null)].
Definition client3 := client_call (Send model_data) client2.
Definition host4 := host_call (Receive (last_frame client3)) host3.

Lemma initial_reachable properties : layer_reachable properties initial initial.
Proof. apply reachable_refl. Qed.

Lemma client3_reachable : layer_reachable model_client initial client3.
Proof. do 4 apply client_reachable. apply initial_reachable. Qed.

Lemma host4_reachable : layer_reachable model_host initial host4.
Proof. do 5 apply host_reachable. apply initial_reachable. Qed.

Lemma client1_reachable : layer_reachable model_client initial client1.
Proof. do 2 apply client_reachable. apply initial_reachable. Qed.

Lemma client1_client3 : layer_reachable model_client client1 client3.
Proof. do 2 apply invoke_reachable. apply reachable_refl. Qed.

End LayerModel.

(** ** Two races *)

Module Races.
Import CryptoModel TextModel LayerModel.

(** The client answers the host's key. Its publish call has handed the frame to
    the channel and has not returned yet when the host's capabilities arrive. *)
Definition client_play (fuel i : nat) (c : Config Inner Input) : Config Inner Input :=
  play is_aborted (take_spawned model_client) (entry model_client) arrive fuel i model_input c.
Definition client_perform (e : event Input Call) (c : Config Inner Input) : Config Inner Input :=
  perform is_aborted (take_spawned model_client) (entry model_client) arrive e c.

Definition overtaken1 : Config Inner Input :=
  client_play 9 0 (client_perform (Enter (Receive (last_frame host1))) client0).
Definition overtaken2 : Config Inner Input :=
  client_call (Receive (last_frame (host_call (Receive (last_frame overtaken1)) host1))) overtaken1.
Definition overtaken3 : Config Inner Input := client_play 20 0 overtaken2.

(** The host has opened a frame of a stranger, and has not looked at its own state
    yet, when the honest client completes the handshake. *)
Definition mallory : bytes := replicate 32 Byte.x03.
Definition forged : Value := Object [("f", Null)].
Definition forged_frame : string :=
  match signaling_to_string (Data forged 0) with
  | inl text =>
      match peer_encrypt (witness_decryption_key mallory) witness_iv text
              (witness_encryption_key witness_alice) with
      | Ok c => compose_frame Wire.Encrypted Host c
      | _ => ""
      end
  | inr _ => ""
  end.

Definition host_play (fuel i : nat) (c : Config Inner Input) : Config Inner Input :=
  play is_aborted (take_spawned model_host) (entry model_host) arrive fuel i model_input c.
Definition host_perform (e : event Input Call) (c : Config Inner Input) : Config Inner Input :=
  perform is_aborted (take_spawned model_host) (entry model_host) arrive e c.

Definition forged1 : Config Inner Input :=
  host_play 1 0 (host_perform (Enter (Receive forged_frame)) host1).
Definition forged2 : Config Inner Input :=
  host_call (Receive (last_frame client2)) (host_call (Receive (last_frame client1)) forged1).
Definition forged3 : Config Inner Input := host_play 20 0 forged2.

Lemma overtaken3_reachable : layer_reachable model_client initial overtaken3.
Proof.
  apply play_reachable, invoke_reachable, play_reachable, perform_reachable.
  do 1 apply client_reachable. apply initial_reachable.
Qed.

Lemma forged3_reachable : layer_reachable model_host initial forged3.
Proof.
  apply play_reachable, invoke_reachable, invoke_reachable, play_reachable, perform_reachable.
  do 2 apply host_reachable. apply initial_reachable.
Qed.

End Races.

Section races.
Import CryptoModel TextModel LayerModel Races.

(** A resend task can outlive the handshake, because [send_repeating] stores the
    handle of its task after its publish call returned: there is an execution of a
    client in which the host's answer overtakes that call, after which the layer
    has announced [Encrypted] and holds a resend task that nothing aborted: the
    client goes on publishing its key every two seconds. *)
Theorem resend_task_leak :
  exists c n m,
    layer_reachable model_client initial c /\
    state (world c) = Encrypted /\ Encrypted ∈ state_tx (world c) /\
    handshake_task (world c) = Some n /\ (n ∉ aborted (world c)) /\
    ((n, Resend Wire.Encrypted Host m) ∈ spawned (world c)).
Proof.
  exists overtaken3, 2,
    (Pubkey (mkPubkeyPayload (serialized (prop_encryption_key model_client))) 1700000000000).
  split; [apply overtaken3_reachable|].
  split; [vm_compute; reflexivity|].
  split; [apply (bool_decide_unpack _); vm_compute; exact I|].
  split; [vm_compute; reflexivity|].
  split; [apply (bool_decide_unpack _); vm_compute; exact I|].
  assert (spawned (world overtaken3) !! 2 = Some (2, Resend Wire.Encrypted Host
    (Pubkey (mkPubkeyPayload (serialized (prop_encryption_key model_client))) 1700000000000)))
    as Hs by (vm_compute; reflexivity).
  by eapply list_elem_of_lookup_2.
Qed.

(** The check of the sender and the check of the state are not one step
    ([handle_receive] decrypts with the key recorded at that time, and reads the
    state afterwards): there is an execution of a host in which a frame of a
    stranger, opened before a key was recorded, is delivered as data after the
    handshake with the honest client has completed. The same frame is refused when
    it is opened afterwards. *)
Theorem forged_data_race :
  exists c k frame sender,
    layer_reachable model_host initial c /\
    state (world c) = Encrypted /\ relying_key (world c) = Some k /\
    message_tx (world c) = [forged] /\ forged_frame ∈ received (world c) /\
    parse_frame forged_frame = Ok frame /\
    from_ciphertext (ciphertext frame) = Ok sender /\ public_key sender <> public_key k /\
    peer_decrypt (prop_decryption_key model_host) (ciphertext frame) (Some k)
      = Err (Encryption "sender key does not match the peer key").
Proof.
  exists forged3, (witness_encryption_key witness_bob),
    (mkWireFrame Wire.Encrypted Host (substring 2 (String.length forged_frame - 2) forged_frame)),
    (witness_encryption_key mallory).
  split; [apply forged3_reachable|].
  split_and!; first [vm_compute; reflexivity | idtac].
  - apply (bool_decide_unpack _); vm_compute; exact I.
  - intros E. apply (f_equal head) in E. discriminate E.
Qed.

End races.

(** ** Witnesses *)

Import CryptoModel TextModel LayerModel.

Lemma relying_key_pinned_witness :
  relying_key (world client3) = Some (witness_encryption_key witness_alice) /\
  hash_public_key (witness_encryption_key witness_alice) = prop_h model_client.
Proof.
  destruct (relying_key_pinned model_client client1 client3 (witness_encryption_key witness_alice)
    client1_reachable client1_client3) as (H1 & H2 & _); [vm_compute; reflexivity|].
  split; [exact H1|exact (H2 eq_refl)].
Defined.

Lemma encrypted_has_key_witness : exists k, relying_key (world client1) = Some k.
Proof.
  apply (encrypted_has_key model_client client1 HandshakePartial client1_reachable).
  - left. vm_compute. reflexivity.
  - left. reflexivity.
Defined.

Lemma published_frames_confidential_witness :
  exists p m text random ct, signaling_to_string m = inl text /\
    last_frame client3 = compose_frame p Host ct /\
    (p = Wire.Handshake /\ clear_message model_client m \/
     exists k, relying_key (world client3) = Some k /\
       peer_encrypt (prop_decryption_key model_client) random text k = Ok ct).
Proof.
  assert (last_frame client3 ∈ published (world client3)) as Hin
    by (apply (bool_decide_unpack _); vm_compute; exact I).
  destruct (published_frames_confidential model_client client3 (last_frame client3)
    client3_reachable Hin) as (p & m & text & rd & ct & Hm & Hf & Hp).
  exists p, m, text, rd, ct. split; [exact Hm|]. split; [exact Hf|].
  destruct Hp as [(Hp & Hc & _)|(_ & k & Hk & He & _)]; [left; auto|right; exists k; auto].
Defined.

Lemma host3_reachable : layer_reachable model_host initial host3.
Proof. do 4 apply host_reachable. apply initial_reachable. Qed.

Lemma host3_host4 : layer_reachable model_host host3 host4.
Proof. apply invoke_reachable, reachable_refl. Qed.

(** The host had recorded the client's key before the frame with the data arrived. *)
Lemma delivered_data_decrypted_witness : is_object model_data = true /\
  exists payload frame text,
    payload ∈ received (world host4) /\ parse_frame payload = Ok frame /\
    (peer_decrypt (prop_decryption_key model_host) (ciphertext frame)
       (Some (witness_encryption_key witness_bob)) = Ok text \/
     payload ∈ received (world host3)).
Proof.
  assert (model_data ∈ message_tx (world host4)) as Hin.
  { assert (message_tx (world host4) = [model_data]) as Hm by (vm_compute; reflexivity).
    rewrite Hm. apply list_elem_of_here. }
  destruct (delivered_data_decrypted model_host host3 host4 model_data host3_reachable host3_host4 Hin)
    as (Ho & k & payload & frame & text & t & Hk & Hr & Hp & _ & _ & _ & Hd).
  assert (relying_key (world host4) = Some (witness_encryption_key witness_bob)) as Hk'
    by (vm_compute; reflexivity).
  assert (is_Some (relying_key (world host3))) as Hs
    by (exists (witness_encryption_key witness_bob); vm_compute; reflexivity).
  rewrite Hk in Hk'. injection Hk' as Hk'. rewrite <- Hk'.
  split; [exact Ho|]. exists payload, frame, text. split; [exact Hr|]. split; [exact Hp|].
  destruct Hd as [[Hd _]|[_ Hd]]; [left; exact Hd|right; exact (Hd Hs)].
Defined.

Lemma peer_capabilities_pinned_witness :
  peer_capabilities (world client3) = Some (model_capabilities "host") /\
  capabilities_validate (model_capabilities "host") = Ok tt.
Proof.
  destruct (peer_capabilities_pinned model_client client3 client3 (model_capabilities "host")
    client3_reachable (reachable_refl _ _ _ _ _)) as (H1 & H2 & _); [vm_compute; reflexivity|].
  split; [exact H1|exact H2].
Defined.
