(* ===== verification/SignalingRun.v ===== *)
(** * The signaling layer, one call at a time

    What each call of the layer does when nothing interferes with it: the state it
    leaves, the frame it publishes, the tasks it starts and stops. *)
From S2P Require Import Prelude RustStr Errors Json Wire CryptoLib CryptoModel Encryption.
From S2P Require Import Message TextModel Tasks SignalingLayer SignalingSafety.
Local Open Scope string_scope.
Local Open Scope list_scope.

(** ** The effect of each operation *)

(** Both task slots emptied, their tasks aborted. *)
Definition stopped (w : Inner) : Inner := take_deadline_task (take_handshake_task w).

Definition announce (s : SignalState) (w : Inner) : Inner := with_state_tx (state_tx w ++ [s]) w.

Definition after_set_state (s : SignalState) (w : Inner) : Inner :=
  announce s (match s with Encrypted | Error => stopped (with_state s w) | _ => with_state s w end).

Definition after_publish (f : string) (w : Inner) : Inner := with_published (published w ++ [f]) w.

Definition after_spawn (kind : TaskKind) (w : Inner) : Inner :=
  with_next_task (S (next_task w)) (with_spawned (spawned w ++ [(next_task w, kind)]) w).

Definition after_deadline (w : Inner) : Inner :=
  match deadline_task w with
  | Some _ => w
  | None => with_deadline_task (Some (next_task w)) (after_spawn Deadline w)
  end.

Definition after_send_repeating (p : WirePrefix) (r : WireRecipient) (m : SignalingMessage)
    (f : string) (w : Inner) : Inner :=
  let w' := after_publish f (take_handshake_task w) in
  with_handshake_task (Some (next_task w')) (after_spawn (Resend p r m) w').

(** What the rest of the layer and the peer see of a state. *)
Definition view (w : Inner) :=
  (state w, relying_key w, peer_capabilities w, message_tx w, published w).

(** The task behind [handshake_task]. *)
Definition repeated (w : Inner) : option TaskKind :=
  n ← handshake_task w; snd <$> find (fun x => Nat.eqb x.1 n) (reverse (spawned w)).

Lemma repeated_after_send_repeating p r m f w :
  repeated (after_send_repeating p r m f w) = Some (Resend p r m).
Proof. unfold repeated. cbn -[reverse]. rewrite reverse_snoc. cbn -[reverse]. by rewrite Nat.eqb_refl. Qed.

Lemma repeated_encrypted w : repeated (after_set_state Encrypted w) = None.
Proof.
  unfold repeated, after_set_state, announce, stopped, take_deadline_task, take_handshake_task. cbn -[reverse].
  destruct (handshake_task w) eqn:Hh, (deadline_task w) eqn:Hd; cbn -[reverse]; rewrite ?Hh, ?Hd; cbn -[reverse];
    by rewrite ?Hh.
Qed.

Section run.
Context `{CryptoLaws} `{SignalingCodecLaws}.
Context (properties : SignalingProperties) (inputs : nat -> Input).
Implicit Types (w : Inner) (n : nat).

(** The number of atoms of [set_state] and of [start_handshake_deadline]. *)
Definition set_state_atoms (s : SignalState) : nat := match s with Encrypted | Error => 4 | _ => 2 end.
Definition deadline_atoms (w : Inner) : nat := match deadline_task w with Some _ => 1 | None => 3 end.

Lemma run_set_state n s w :
  run inputs n (set_state s) w = (Ok tt, set_state_atoms s + n, after_set_state s w).
Proof. by destruct s. Qed.

Lemma run_set_state_bind {A} n s (q : unit -> Layer A) w :
  run inputs n (set_state s ≫= q) w = run inputs (set_state_atoms s + n) (q tt) (after_set_state s w).
Proof. rewrite run_bind. by rewrite run_set_state. Qed.

Lemma run_start_deadline_bind {A} n (q : unit -> Layer A) w :
  run inputs n (start_handshake_deadline ≫= q) w
  = run inputs (deadline_atoms w + n) (q tt) (after_deadline w).
Proof.
  unfold after_deadline, deadline_atoms, start_handshake_deadline.
  destruct (deadline_task w) eqn:Hd; cbn; by rewrite Hd.
Qed.

Lemma run_reads_bind {A B} n (f : Inner -> A) (q : A -> Layer B) w :
  run inputs n (reads f ≫= q) w = run inputs (S n) (q (f w)) w.
Proof. done. Qed.

Lemma run_asks_bind {A B} n (f : Input -> A) (q : A -> Layer B) w :
  run inputs n (asks f ≫= q) w = run inputs (S n) (q (f (inputs n))) w.
Proof. done. Qed.

Lemma run_publish n f w :
  run inputs n (publish f) w = (in_io (inputs n), S n, after_publish f w).
Proof. cbn. by destruct (in_io (inputs n)). Qed.

(** The ciphertext of a message under the handshake key, and for the peer. *)
Definition seals (p : WirePrefix) (w : Inner) (m : SignalingMessage) (random : bytes) (c : string)
    : Prop :=
  exists text, signaling_to_string m = inl text /\
    match p with
    | Wire.Handshake => exists key,
        handshake_key properties = Some key /\ handshake_encrypt key random text = Ok c
    | Wire.Encrypted => exists k,
        relying_key w = Some k /\
        peer_encrypt (prop_decryption_key properties) random text k = Ok c
    end.

Lemma run_send_message n p r m w c :
  seals p w m (in_random (inputs n)) c ->
  run inputs n (send_message properties p r m) w
  = (in_io (inputs (S n)), S (S n), after_publish (compose_frame p r c) w).
Proof.
  intros (text & Hm & Hp). unfold send_message. rewrite Hm.
  change (lift (lib_err Other (inl text)) ≫= ?q) with (q text).
  destruct p.
  - destruct Hp as (key & Hk & He). rewrite Hk. cbn -[compose_frame publish]. rewrite He.
    cbn -[compose_frame]. by destruct (in_io (inputs (S n))).
  - destruct Hp as (k & Hk & He). cbn -[compose_frame publish]. rewrite Hk, He.
    cbn -[compose_frame]. by destruct (in_io (inputs (S n))).
Qed.

Lemma run_send_repeating n p r m w c :
  seals p w m (in_random (inputs (S n))) c -> in_io (inputs (S (S n))) = Ok tt ->
  exists n', run inputs n (send_repeating properties p r m) w
    = (Ok tt, n', after_send_repeating p r m (compose_frame p r c) w).
Proof.
  intros Hs Hio. unfold send_repeating. eexists.
  change (run inputs n (stop_repeating ≫= ?q) w) with (run inputs (S n) (q tt) (take_handshake_task w)).
  cbn beta.
  assert (seals p (take_handshake_task w) m (in_random (inputs (S n))) c) as Hs'.
  { destruct Hs as (text & Hm & Hp). exists text. split; [done|]. destruct p; [done|].
    unfold take_handshake_task. by destruct (handshake_task w). }
  rewrite run_bind, (run_send_message _ _ _ _ _ _ Hs'), Hio. reflexivity.
Qed.

(** The steps of [handle_receive] before its match leave the state alone. *)
Lemma run_handle_receive n payload frame text m w :
  parse_frame payload = Ok frame -> is_recipient frame (is_host properties) = true ->
  decrypts properties w frame text ->
  signaling_from_str text = inl m -> is_ok (message_validate m) = true ->
  exists n', run inputs n (handle_receive properties payload) w
    = run inputs n' (handle_message properties frame m) w.
Proof.
  intros Hp Hi Hd Hm Hv. unfold handle_receive. rewrite Hp.
  change (lift (Ok frame) ≫= ?q) with (q frame). cbn beta. rewrite Hi. cbn [negb].
  assert (exists n', run inputs n (open_frame properties frame) w = (Ok text, n', w)) as [n' Hn].
  { unfold open_frame. unfold decrypts in Hd. destruct (prefix frame).
    - destruct Hd as (key & Hk & Ht). exists n. rewrite Hk. cbn. by rewrite Ht.
    - exists (S n). cbn. by rewrite Hd. }
  exists n'. rewrite run_bind, Hn, Hm. change (lift (lib_err Other (inl m)) ≫= ?q) with (q m).
  cbn beta. by rewrite Hv.
Qed.

End run.

(** ** What changes the layer *)

(** The messages that the layer acts on, by its role and state. *)
Definition awaited (host : bool) (p : WirePrefix) (m : SignalingMessage) (s : SignalState) : bool :=
  match p, m, s, host with
  | Wire.Handshake, Flash _ _, Ready, true => true
  | Wire.Handshake, Pubkey _ _, Handshake, false => true
  | Wire.Encrypted, Pubkey _ _, Handshake, true => true
  | Wire.Encrypted, Capabilities _ _, HandshakePartial, _ => true
  | Wire.Encrypted, Capabilities _ _, Encrypted, false => true
  | Wire.Encrypted, Data _ _, Encrypted, _ => true
  | _, _, _, _ => false
  end.

Lemma run_bind_lift {W I A B} inputs n (r : Result A) (q : A -> prog W I B) w res :
  run inputs n (lift r ≫= q) w = res ->
  (exists a, r = Ok a /\ run inputs n (q a) w = res) \/ res.2 = w.
Proof. destruct r as [a|e|]; cbn; intros <-; eauto. Qed.

Lemma stopped_slots w :
  handshake_task (stopped w) = None /\ deadline_task (stopped w) = None /\
  (forall n, handshake_task w = Some n \/ deadline_task w = Some n -> n ∈ aborted (stopped w)).
Proof.
  unfold stopped, take_deadline_task, take_handshake_task.
  destruct (handshake_task w) as [a|] eqn:Ha, (deadline_task w) as [b|] eqn:Hb; cbn;
    rewrite ?Ha, ?Hb; cbn; rewrite ?Ha, ?Hb; (split; [done|split; [done|]]);
    intros k [Hk|Hk]; try discriminate Hk; injection Hk as <-;
    repeat first [apply list_elem_of_here|apply list_elem_of_further].
Qed.

Lemma stopped_rest w :
  state (stopped w) = state w /\ relying_key (stopped w) = relying_key w /\
  peer_capabilities (stopped w) = peer_capabilities w /\ state_tx (stopped w) = state_tx w /\
  message_tx (stopped w) = message_tx w /\ published (stopped w) = published w /\
  received (stopped w) = received w /\ spawned (stopped w) = spawned w.
Proof.
  unfold stopped, take_deadline_task, take_handshake_task.
  destruct (handshake_task w); cbn; destruct (deadline_task w); by split_and!.
Qed.

(** A payload that changes the layer is the message it waits for. *)
Lemma payload_effect `{CryptoLib, SignalingCodec} properties inputs n payload w r n' w' :
  run inputs n (handle_receive properties payload) w = (r, n', w') ->
  w' = w \/ exists frame text m,
    parse_frame payload = Ok frame /\ is_recipient frame (is_host properties) = true /\
    match prefix frame with
    | Wire.Handshake => exists key, handshake_key properties = Some key /\
        handshake_decrypt key (ciphertext frame) = Ok text
    | Wire.Encrypted =>
        peer_decrypt (prop_decryption_key properties) (ciphertext frame) (relying_key w) = Ok text
    end /\
    signaling_from_str text = inl m /\ is_ok (message_validate m) = true /\
    awaited (is_host properties) (prefix frame) m (state w) = true.
Proof.
  intros Hrun. unfold handle_receive in Hrun.
  apply run_bind_lift in Hrun as [(frame & Hp & Hrun)|Hn]; [|by left].
  destruct (is_recipient frame (is_host properties)) eqn:Hi; cbn [negb] in Hrun;
    [|injection Hrun as _ _ ->; by left].
  rewrite run_bind in Hrun.
  destruct (run inputs n (open_frame properties frame) w) as [[ro no] wo] eqn:Ho.
  assert (wo = w /\ forall text, ro = Ok text ->
    match prefix frame with
    | Wire.Handshake => exists key, handshake_key properties = Some key /\
        handshake_decrypt key (ciphertext frame) = Ok text
    | Wire.Encrypted =>
        peer_decrypt (prop_decryption_key properties) (ciphertext frame) (relying_key w) = Ok text
    end) as [-> Hopen].
  { unfold open_frame in Ho. destruct (prefix frame).
    - destruct (handshake_key properties) as [key|]; cbn in Ho; [|by injection Ho as <- _ <-].
      injection Ho as Hr _ <-. split; [done|]. intros text Ht. exists key. by rewrite Hr.
    - cbn in Ho. injection Ho as Hr _ <-. split; [done|]. intros text Ht. by rewrite Hr. }
  destruct ro as [text|e|]; [|by injection Hrun as _ _ ->; left..].
  apply run_bind_lift in Hrun as [(m & Hm & Hrun)|Hn]; [|by left].
  destruct (is_ok (message_validate m)) eqn:Hv; cbn [negb] in Hrun; [|by injection Hrun as _ _ ->; left].
  destruct (awaited (is_host properties) (prefix frame) m (state w)) eqn:Ha.
  - right. exists frame, text, m. split_and!; [done..|by apply Hopen| |done|done].
    destruct (signaling_from_str text); [|done]. by injection Hm as ->.
  - left. unfold handle_message in Hrun. cbn in Hrun. unfold awaited in Ha.
    destruct (prefix frame), m, (state w), (is_host properties); try done; by injection Hrun as _ _ ->.
Qed.

(** ** Properties *)

(** C38. Only the next message of the handshake changes the layer: a delivered payload
    that is no frame, is for the other role, does not decrypt, does not parse, is
    invalid, or is not the message that the layer's role and state wait for, leaves
    the whole layer as it was, whatever error the call returns. *)
Theorem unexpected_payload_inert `{CryptoLib, SignalingCodec} properties inputs n payload w r n' w' :
  run inputs n (handle_receive properties payload) w = (r, n', w') -> w' <> w ->
  exists frame text m,
    parse_frame payload = Ok frame /\ is_recipient frame (is_host properties) = true /\
    match prefix frame with
    | Wire.Handshake => exists key, handshake_key properties = Some key /\
        handshake_decrypt key (ciphertext frame) = Ok text
    | Wire.Encrypted =>
        peer_decrypt (prop_decryption_key properties) (ciphertext frame) (relying_key w) = Ok text
    end /\
    signaling_from_str text = inl m /\ is_ok (message_validate m) = true /\
    awaited (is_host properties) (prefix frame) m (state w) = true.
Proof. intros Hrun Hw. by destruct (payload_effect _ _ _ _ _ _ _ _ Hrun). Qed.

(** The end of a handshake stops its tasks: undisturbed, [set_state] with
    [Encrypted] or [Error] enters and announces that state, empties both task
    slots and aborts the tasks that were in them; keys and capabilities stay. *)
Theorem terminal_state_stops_tasks inputs n w s :
  s = Encrypted \/ s = Error ->
  exists n' w', run inputs n (set_state s) w = (Ok tt, n', w') /\
    state w' = s /\ state_tx w' = state_tx w ++ [s] /\
    handshake_task w' = None /\ deadline_task w' = None /\
    (forall k, handshake_task w = Some k \/ deadline_task w = Some k -> k ∈ aborted w') /\
    relying_key w' = relying_key w /\ peer_capabilities w' = peer_capabilities w.
Proof.
  intros Hs. exists (set_state_atoms s + n), (after_set_state s w).
  destruct (stopped_slots (with_state s w)) as (H1 & H2 & H3).
  destruct (stopped_rest (with_state s w)) as (R1 & R2 & R3 & R4 & _).
  split; [apply run_set_state|].
  assert (after_set_state s w = announce s (stopped (with_state s w))) as ->
    by (by destruct Hs as [->| ->]).
  unfold announce. generalize dependent (stopped (with_state s w)). intros w' ???????.
  cbn in *. split_and!; congruence || done.
Qed.

(** The handshake deadline: when it fires undisturbed, an encrypted layer is left
    alone, and any other layer enters [Error], announces it, and stops its tasks. *)
Theorem deadline_spec inputs n w :
  exists n' w', run inputs n deadline_body w = (Ok tt, n', w') /\
    (state w = Encrypted -> w' = w) /\
    (state w <> Encrypted ->
       state w' = Error /\ state_tx w' = state_tx w ++ [Error] /\
       handshake_task w' = None /\ deadline_task w' = None).
Proof.
  destruct (decide (state w = Encrypted)) as [Hs|Hs].
  - exists (S n), w. cbn. by rewrite Hs.
  - exists (4 + S n), (after_set_state Error w). split.
    + transitivity (run inputs (S n) (set_state Error) w); [|apply run_set_state].
      unfold deadline_body. cbn. by rewrite decide_False.
    + destruct (stopped_slots (with_state Error w)) as (H1 & H2 & _).
      destruct (stopped_rest (with_state Error w)) as (R1 & _ & _ & R4 & _).
      split; [done|]. intros _. unfold after_set_state, announce.
      generalize dependent (stopped (with_state Error w)). intros w' ????.
      cbn in *. split_and!; congruence.
Qed.

(** ** Witnesses *)

Import CryptoModel TextModel LayerModel.

Definition model_inputs (n : nat) : Input := model_input.

Lemma unexpected_payload_inert_witness :
  exists frame, parse_frame (last_frame client0) = Ok frame /\
    is_recipient frame true = true.
Proof.
  destruct (run model_inputs 0 (handle_receive model_host (last_frame client0)) (world host0))
    as [[r n'] w'] eqn:E.
  destruct (unexpected_payload_inert model_host model_inputs 0 (last_frame client0) (world host0)
    r n' w' E) as (frame & _ & _ & Hp & Hi & _).
  - intros Hw. assert (state w' = Handshake) as Hs.
    { transitivity (state (run model_inputs 0 (handle_receive model_host (last_frame client0))
        (world host0)).2); [by rewrite E|vm_compute; reflexivity]. }
    rewrite Hw in Hs. vm_compute in Hs. discriminate Hs.
  - exists frame. split; [exact Hp|exact Hi].
Defined.

Lemma terminal_state_stops_tasks_witness :
  handshake_task (world client1) = Some 2 /\
  exists n' w', run model_inputs 0 (set_state Encrypted) (world client1) = (Ok tt, n', w') /\
    2 ∈ aborted w'.
Proof.
  split; [vm_compute; reflexivity|].
  destruct (terminal_state_stops_tasks model_inputs 0 (world client1) Encrypted (or_introl eq_refl))
    as (n' & w' & Hr & _ & _ & _ & _ & Ha & _).
  exists n', w'. split; [exact Hr|]. apply Ha. left. vm_compute. reflexivity.
Defined.
