(* ===== verification/Announce.v ===== *)
(** * What the signaling layer announces ([signaling/layer/mod.rs])

    Every change of the layer's state is sent to the subscribers, once: what a call
    leaves in [state_tx] when nothing interferes with it. *)
From S2P Require Import Prelude RustStr Errors Json Wire CryptoLib Encryption Message Tasks SignalingLayer SignalingRun.
Local Open Scope string_scope.
Local Open Scope list_scope.

(** The state and what was announced are as before. *)
Definition quiet (w w' : Inner) : Prop := state w' = state w /\ state_tx w' = state_tx w.

#[export] Instance quiet_preorder : PreOrder quiet.
Proof. split; [done|]. intros w1 w2 w3 [H1 H2] [H3 H4]. split; by etrans. Qed.

(** Nothing happened to the state, or one new state was announced. *)
Definition announces_once (w w' : Inner) : Prop := quiet w w' \/ state_tx w' = state_tx w ++ [state w'].

Section quiet.
Context `{CryptoLib} `{SignalingCodec} (properties : SignalingProperties).

Lemma quiet_publish f : every quiet (publish f).
Proof.
  unfold publish. apply every_bind; [exact Logic.I|intros _]. apply every_bind; [by apply every_atom|intros r].
  apply every_bind; [exact Logic.I|intros _]. apply every_lift.
Qed.

Lemma quiet_send_message p r m : every quiet (send_message properties p r m).
Proof.
  unfold send_message. apply every_bind; [apply every_lift|intros text].
  apply every_bind; [|intros c; apply quiet_publish]. destruct p.
  - apply every_bind; [apply every_lift|intros key]. apply every_bind; [apply every_asks, _|intros iv; apply every_lift].
  - apply every_bind; [by apply every_atom|intros res; apply every_lift].
Qed.

Lemma quiet_send_repeating p r m : every quiet (send_repeating properties p r m).
Proof.
  unfold send_repeating. apply every_bind.
  { apply every_writes. intros w. unfold take_handshake_task. by destruct (handshake_task w). }
  intros _. apply every_bind; [apply quiet_send_message|intros _].
  apply every_bind; [by apply every_atom|intros task]. by apply every_writes.
Qed.

Lemma quiet_deadline : every quiet start_handshake_deadline.
Proof.
  unfold start_handshake_deadline. apply every_bind; [apply every_reads, _|intros [|]]; [exact Logic.I|].
  apply every_bind; [by apply every_atom|intros task; by apply every_writes].
Qed.

Lemma quiet_pubkey : every quiet (pubkey_message properties).
Proof. apply every_bind; [apply every_asks, _|intros now; exact Logic.I]. Qed.

Lemma quiet_capabilities : every quiet (capabilities_message properties).
Proof. apply every_bind; [apply every_asks, _|intros now; exact Logic.I]. Qed.

Lemma quiet_own_capabilities : every quiet (send_own_capabilities properties).
Proof. apply every_bind; [apply quiet_capabilities|intros m; apply quiet_send_message]. Qed.

Lemma quiet_store_key k : every quiet (store_relying_key k).
Proof. apply every_atom. intros _ w. by destruct (relying_key w). Qed.

Lemma quiet_store_capabilities c : every quiet (store_peer_capabilities c).
Proof. apply every_writes. intros w. by destruct (peer_capabilities w). Qed.

Lemma quiet_open frame : every quiet (open_frame properties frame).
Proof.
  unfold open_frame. destruct (prefix frame).
  - apply every_bind; [apply every_lift|intros key; apply every_lift].
  - apply every_bind; [apply every_reads, _|intros r; apply every_lift].
Qed.

(** ** Sequences *)

Lemma announced_after_set_state s w : state (after_set_state s w) = s /\ state_tx (after_set_state s w) = state_tx w ++ [s].
Proof.
  unfold after_set_state, announce. destruct (stopped_rest (with_state s w)) as (R1 & _ & _ & R4 & _).
  destruct s; cbn in *; (split; congruence).
Qed.

(** A new state, then what is quiet. *)
Lemma announces_set_state {A} inputs n s (q : unit -> Layer A) w :
  every quiet (q tt) -> announces_once w (run inputs n (set_state s ≫= q) w).2.
Proof.
  intros Hq. rewrite run_set_state_bind. destruct (announced_after_set_state s w) as [Hs Ht].
  destruct (every_run quiet inputs (set_state_atoms s + n) (q tt) (after_set_state s w) Hq) as [H1 H2].
  right. rewrite H2, Ht, H1, Hs. done.
Qed.

(** What is quiet, then what announces once. *)
Lemma announces_quiet {A B} inputs n (p : Layer A) (q : A -> Layer B) w :
  every quiet p -> (forall a m w1, announces_once w1 (run inputs m (q a) w1).2) ->
  announces_once w (run inputs n (p ≫= q) w).2.
Proof.
  intros Hp Hq. rewrite run_bind. assert (Hr := every_run quiet inputs n p w Hp).
  destruct (run inputs n p w) as [[[a|e|] n1] w1]; cbn [snd] in *; [|by left..].
  destruct Hr as [H1 H2]. destruct (Hq a n1 w1) as [[H3 H4]|H3]; [left|right].
  - split; congruence.
  - by rewrite H3, H2.
Qed.

Lemma announces_every {A} inputs n (p : Layer A) w : every quiet p -> announces_once w (run inputs n p w).2.
Proof. intros Hp. left. by apply (every_run quiet). Qed.

Lemma announces_set_state_last inputs n s w : announces_once w (run inputs n (set_state s) w).2.
Proof. rewrite run_set_state. right. destruct (announced_after_set_state s w) as [Hs Ht]. cbn [snd]. by rewrite Ht, Hs. Qed.

Lemma announces_capabilities inputs n c w :
  announces_once w (run inputs n (receive_capabilities properties c) w).2.
Proof.
  apply announces_quiet; [apply quiet_store_capabilities|intros _ k w1]. apply announces_set_state.
  destruct (is_host properties); [exact Logic.I|apply quiet_own_capabilities].
Qed.

Lemma handle_message_announces inputs n frame m w :
  announces_once w (run inputs n (handle_message properties frame m) w).2.
Proof.
  unfold handle_message. apply announces_quiet; [apply every_reads, _|]. intros s k w1.
  assert (announces_once w1 (run inputs k (mret tt : Layer unit) w1).2) as Hret by (by left).
  destruct (prefix frame), m as [v t|pk t|c t|v t]; try exact Hret; destruct s; try exact Hret;
    destruct (is_host properties); try exact Hret.
  - apply announces_set_state, every_bind; [apply quiet_deadline|intros _].
    apply every_bind; [apply quiet_pubkey|intros m; apply quiet_send_repeating].
  - (* the host's key *)
    apply announces_quiet; [apply every_lift|intros key k1 w2].
    apply announces_quiet; [apply every_lift|intros [|] k2 w3]; cbn [negb]; [|apply announces_set_state_last].
    apply announces_quiet; [apply quiet_store_key|intros [|] k3 w4]; cbn [negb]; [|by left].
    apply announces_set_state, every_bind; [apply quiet_pubkey|intros m; apply quiet_send_repeating].
  - (* the client's key *)
    apply announces_quiet; [apply every_lift|intros key k1 w2].
    apply announces_quiet; [apply every_lift|intros sender k2 w3].
    destruct (negb (bool_decide _)); [by left|].
    apply announces_quiet; [apply quiet_store_key|intros [|] k3 w4]; cbn [negb]; [|by left].
    apply announces_set_state, every_bind; [apply quiet_capabilities|intros m; apply quiet_send_repeating].
  - apply announces_capabilities.
  - apply announces_capabilities.
  - apply announces_every, quiet_own_capabilities.
Qed.

(** Receiving announces at most once, and what it announces is its new state. *)
Lemma handle_receive_announces inputs n payload w :
  announces_once w (run inputs n (handle_receive properties payload) w).2.
Proof.
  unfold handle_receive. apply announces_quiet; [apply every_lift|intros frame k w1].
  destruct (negb (is_recipient _ _)); [by left|].
  apply announces_quiet; [apply quiet_open|intros text k1 w2].
  apply announces_quiet; [apply every_lift|intros m k2 w3].
  destruct (negb (is_ok _)); [by left|]. apply handle_message_announces.
Qed.

(** An undisturbed setup whose channel works, on a layer without a key. *)
Lemma setup_announces inputs n w :
  (forall k, in_io (inputs k) = Ok tt) -> relying_key w = None ->
  state_tx (run inputs n (setup properties) w).2
  = state_tx w ++ [Connecting; Ready] ++ (if is_host properties then [] else [Handshake]).
Proof.
  intros Hio Hk. unfold setup. rewrite run_set_state_bind.
  assert (relying_key (after_set_state Connecting w) = None) as Hk1 by done.
  destruct (announced_after_set_state Connecting w) as [_ T1].
  set (w1 := after_set_state Connecting w) in *. clearbody w1.
  assert (forall A m (q : unit -> Layer A) w2,
    run inputs m (channel_call ≫= q) w2 = run inputs (S m) (q tt) w2) as Hcall
    by (intros A m q w2; cbn; by rewrite Hio).
  rewrite !Hcall. unfold can_encrypt. rewrite run_reads_bind.
  rewrite bool_decide_false by (rewrite Hk1; by intros []). destruct (is_host properties).
  - rewrite run_set_state. cbn [snd]. destruct (announced_after_set_state Ready w1) as [_ ->]. by rewrite T1, <- (assoc_L app).
  - rewrite run_set_state_bind. destruct (announced_after_set_state Ready w1) as [_ T2].
    set (w2 := after_set_state Ready w1) in *. clearbody w2. rewrite run_set_state_bind.
    destruct (announced_after_set_state Handshake w2) as [_ T3].
    set (w3 := after_set_state Handshake w2) in *. clearbody w3.
    assert (every quiet (start_handshake_deadline;;
      now ← current_timestamp;
      send_repeating properties Wire.Handshake Host (Flash (Object []) now))) as Hq.
    { apply every_bind; [apply quiet_deadline|intros _].
      apply every_bind; [apply every_asks, _|intros now; apply quiet_send_repeating]. }
    destruct (every_run quiet inputs (set_state_atoms Handshake + (set_state_atoms Ready + S (S (S (set_state_atoms Connecting + n)))))
      _ w3 Hq) as [_ ->].
    by rewrite T3, T2, T1, <- !(assoc_L app).
Qed.

End quiet.

(** A call that changed the state has announced it. *)
Lemma announced_change w w' : announces_once w w' -> state w' <> state w -> state_tx w' = state_tx w ++ [state w'].
Proof. by intros [[Hs _]|Ht]. Qed.
