(* ===== verification/Handshake.v ===== *)
(** * The handshake of an honest host and an honest client

    The two layers of [SignalingLayer.v] connected by a channel: each stage of the
    handshake as a lemma on both ends' states, and their composition. *)
From S2P Require Import Prelude RustStr Errors Json Wire CryptoLib CryptoModel Encryption.
From S2P Require Import Message TextModel Tasks SignalingLayer SignalingSafety SignalingRun Announce.
Local Open Scope string_scope.
Local Open Scope list_scope.

(** ** Honest properties *)

Section honest.
Context `{CryptoLib} `{SignalingCodec}.

(** The times that the clocks of the two ends show, a subset of the [u64] range. *)
Context (clock_ok : Z -> Prop).

(** Random bytes of the right length, and a channel that accepts frames. *)
Definition inputs_ok (inputs : nat -> Input) : Prop :=
  forall n, length (in_random (inputs n)) = 12 /\ clock_ok (in_now (inputs n)) /\
    in_io (inputs n) = Ok tt.

(** One end: its key pair belongs together, its handshake key and its capabilities
    are valid, and the other end's public key contributes to the shared secret. *)
Record honest (self other : SignalingProperties) : Prop := {
  honest_keys : key_pair_wf (mkKeyPair (prop_encryption_key self) (prop_decryption_key self));
  honest_handshake_key : exists key, handshake_key self = Some key /\ handshake_key_wf key;
  honest_capabilities : capabilities_validate (capabilities self) = Ok tt;
  honest_contributory :
    was_contributory (x25519_diffie_hellman (secret_key (prop_decryption_key self))
                        (dk_public_key (prop_decryption_key other))) = true;
}.

(** The messages of the handshake itself. *)
Definition handshake_message (self : SignalingProperties) (m : SignalingMessage) : Prop :=
  match m with
  | Flash v t => v = Object [] /\ clock_ok t
  | Pubkey p t => pk_public_key p = serialized (prop_encryption_key self) /\ clock_ok t
  | Capabilities c t => c = capabilities self /\ clock_ok t
  | Data _ _ => False
  end.

(** A message whose text the ciphers can take. *)
Definition encryptable (m : SignalingMessage) : Prop :=
  message_safe m = true /\
  forall text, signaling_to_string m = inl text -> (str_len text <= aes_gcm_max)%Z.

(** A host and a client made from one connection URL. *)
Record honest_pair (host client : SignalingProperties) : Prop := {
  pair_host : is_host host = true;
  pair_client : is_host client = false;
  pair_honest_host : honest host client;
  pair_honest_client : honest client host;
  pair_handshake_key : handshake_key host = handshake_key client;
  pair_hash : prop_h client = hash_public_key (prop_encryption_key host);
  pair_sizes : forall self m, self = host \/ self = client -> handshake_message self m ->
                 encryptable m;
}.

(** The frame carries a message from one end to the other. *)
Definition carries (self other : SignalingProperties) (p : WirePrefix) (m : SignalingMessage)
    (f : string) : Prop :=
  exists text random c,
    signaling_to_string m = inl text /\ length random = 12 /\
    f = compose_frame p (remote_recipient self) c /\
    match p with
    | Wire.Handshake => exists key,
        handshake_key self = Some key /\ handshake_encrypt key random text = Ok c
    | Wire.Encrypted =>
        peer_encrypt (prop_decryption_key self) random text (prop_encryption_key other) = Ok c
    end.

(** The frame carries a message of the handshake. *)
Definition conveys (self other : SignalingProperties) (p : WirePrefix) (m : SignalingMessage)
    (f : string) : Prop := handshake_message self m /\ carries self other p m f.

End honest.

Section stages.
Context `{CryptoLaws} `{SignalingCodecLaws}.
Implicit Types (self other host client : SignalingProperties) (w : Inner).

Lemma honest_dk self other : honest self other -> decryption_key_wf (prop_decryption_key self).
Proof. intros Hh. by destruct (honest_keys _ _ Hh). Qed.

Lemma honest_public_key self other : honest self other ->
  public_key (prop_encryption_key self) = dk_public_key (prop_decryption_key self).
Proof. intros Hh. by destruct (honest_keys _ _ Hh) as (_ & ? & _). Qed.

Lemma honest_parse_key self other : honest self other ->
  parse_encryption_key (serialized (prop_encryption_key self)) = Ok (prop_encryption_key self).
Proof.
  intros Hh. destruct (honest_keys _ _ Hh) as (Hd & Hp & Hs). cbn in *.
  unfold parse_encryption_key, encryption_key_from_base64. rewrite Hs, from_to_base64.
  cbn [mbind res_bind]. rewrite Hp, dk_public_key_length by done. cbn.
  destruct (prop_encryption_key self). cbn in *. by rewrite <- Hp, Hs.
Qed.

Lemma honest_serialized self other : honest self other ->
  serialized (prop_encryption_key self) <> "".
Proof.
  intros Hh. destruct (honest_keys _ _ Hh) as (Hd & Hp & Hs). cbn in *. rewrite Hs.
  apply base64_encode_nonempty. intros E. apply dk_public_key_length in Hd.
  rewrite <- Hp, E in Hd. done.
Qed.

(** Sending: the frame that a send publishes carries its message. *)
Lemma seal_ok self other p m random w :
  honest self other -> honest other self -> encryptable m -> length random = 12 ->
  (p = Wire.Encrypted -> relying_key w = Some (prop_encryption_key other)) ->
  exists c, seals self p w m random c /\
    carries self other p m (compose_frame p (remote_recipient self) c).
Proof.
  intros Hh Ho [_ Hm] Hr Hk. destruct (signaling_to_string_ok m) as [text Ht]. specialize (Hm _ Ht).
  destruct p.
  - destruct (honest_handshake_key _ _ Hh) as (key & Hkey & Hwf).
    destruct (handshake_encrypt_ok key random text Hwf Hr Hm) as [c Hc]. exists c.
    split; [exists text; eauto|exists text, random, c; split_and!; eauto].
  - destruct (peer_encrypt_ok (prop_decryption_key self) random text (prop_encryption_key other))
      as [c Hc]; [done..| | |].
    + unfold encryption_key_wf. rewrite (honest_public_key other self Ho).
      by apply dk_public_key_length, (honest_dk other self).
    + rewrite (honest_public_key other self Ho). by apply honest_contributory.
    + exists c. split; [exists text; split; eauto|exists text, random, c; split_and!; eauto].
Qed.

Lemma sealed_ascii self other p random text c :
  match p with
  | Wire.Handshake => exists key,
      handshake_key self = Some key /\ handshake_encrypt key random text = Ok c
  | Wire.Encrypted =>
      peer_encrypt (prop_decryption_key self) random text (prop_encryption_key other) = Ok c
  end -> str_forall is_ascii c = true.
Proof.
  destruct p.
  - intros (key & _ & Hc). unfold handshake_encrypt in Hc. inv_res. apply base64_encode_ascii.
  - intros (key & ct & _ & _ & ->)%peer_encrypt_inv. apply base64_encode_ascii.
Qed.

(** Receiving: the other end opens a frame that carries a message, and reaches its
    match with that message. *)
Lemma receive_ok self other p m f inputs n w :
  honest self other -> honest other self -> encryptable m ->
  is_host self = negb (is_host other) -> handshake_key self = handshake_key other ->
  is_ok (message_validate m) = true -> carries self other p m f ->
  (p = Wire.Encrypted -> relying_key w = None \/ relying_key w = Some (prop_encryption_key self)) ->
  exists n' frame, run inputs n (handle_receive other f) w
      = run inputs n' (handle_message other frame m) w /\
    prefix frame = p /\
    (p = Wire.Encrypted -> exists s, from_ciphertext (ciphertext frame) = Ok s /\
       public_key s = public_key (prop_encryption_key self)).
Proof.
  intros Hh Ho [Hsafe Hlen] Hrole Hhk Hv (text & random & c & Ht & Hr & -> & Hp) Hk.
  assert (Hu := signaling_to_string_utf8 m text Ht). specialize (Hlen _ Ht).
  set (frame := mkWireFrame p (remote_recipient self) c).
  destruct (run_handle_receive other inputs n (compose_frame p (remote_recipient self) c)
    frame text m w) as [n' Hn].
  - apply parse_compose_frame, ascii_utf8_valid. by eapply sealed_ascii.
  - unfold frame, is_recipient, remote_recipient, for_role. cbn. rewrite Hrole.
    by destruct (is_host other).
  - unfold decrypts. cbn. destruct p.
    + destruct Hp as (key & Hkey & He). exists key. split; [by rewrite <- Hhk|].
      destruct (honest_handshake_key _ _ Hh) as (key' & Hkey' & Hwf).
      rewrite Hkey in Hkey'. injection Hkey' as <-. by apply (handshake_decrypt_encrypt key random).
    + apply (peer_decrypt_encrypt (prop_decryption_key self) (prop_decryption_key other) random
        text c (prop_encryption_key other)); try done;
        eauto using honest_dk, honest_public_key.
      intros k Hkk. destruct (Hk eq_refl) as [Hn|Hs]; [congruence|].
      rewrite Hs in Hkk. injection Hkk as <-. by eapply honest_public_key.
  - by apply signaling_from_to_string.
  - done.
  - exists n', frame. split_and!; [done..|]. intros ->. cbn.
    eexists. split; [exact (from_ciphertext_encrypt _ _ _ _ _ (honest_dk self other Hh) Hp)|]. cbn. symmetry. by eapply honest_public_key.
Qed.

End stages.

(** ** What the effects leave *)

Lemma view_set_state s w :
  view (after_set_state s w)
  = (s, relying_key w, peer_capabilities w, message_tx w, published w).
Proof.
  unfold view, after_set_state, announce.
  destruct (stopped_rest (with_state s w)) as (R1 & R2 & R3 & _ & R5 & R6 & _).
  destruct s; cbn in *; congruence.
Qed.

Lemma view_deadline w : view (after_deadline w) = view w.
Proof. unfold view, after_deadline. by destruct (deadline_task w). Qed.

Lemma view_send_repeating p r m f w :
  view (after_send_repeating p r m f w)
  = (state w, relying_key w, peer_capabilities w, message_tx w, published w ++ [f]).
Proof. unfold view, after_send_repeating, take_handshake_task. by destruct (handshake_task w). Qed.

(** Replace the state that an effect leaves by a variable with its view. *)
Ltac step_view lem :=
  let V := fresh "V" in
  assert (V := lem);
  match type of V with
  | view ?a = view ?b =>
      let w := fresh "w" in set (w := a) in *; clearbody w; unfold view in V; injection V as ? ? ? ? ?
  | view ?a = _ =>
      let w := fresh "w" in set (w := a) in *; clearbody w; unfold view in V; injection V as ? ? ? ? ?
  end.

(** ** The stages *)

Section pair.
Context `{CryptoLaws} `{SignalingCodecLaws}.
Context (clock_ok : Z -> Prop).
Context (host client : SignalingProperties) (Hpair : honest_pair clock_ok host client).
Context (inputs : nat -> Input) (Hinputs : inputs_ok clock_ok inputs).
Implicit Types (w : Inner).

Let Hh := pair_honest_host _ _ _ Hpair.
Let Hc := pair_honest_client _ _ _ Hpair.

Lemma run_channel_call_bind {A} n (q : unit -> Layer A) w :
  run inputs n (channel_call ≫= q) w = run inputs (S n) (q tt) w.
Proof. cbn. by rewrite (proj2 (proj2 (Hinputs n))). Qed.

Lemma host_remote : remote_recipient host = Client.
Proof. unfold remote_recipient. by rewrite (pair_host _ _ _ Hpair). Qed.

Lemma client_remote : remote_recipient client = Host.
Proof. unfold remote_recipient. by rewrite (pair_client _ _ _ Hpair). Qed.

Lemma handshake_message_ok self m :
  self = host \/ self = client -> handshake_message clock_ok self m ->
  encryptable m /\ is_ok (message_validate m) = true.
Proof.
  intros Hs Hm. split; [by apply (pair_sizes _ _ _ Hpair self)|].
  assert (exists other, honest self other) as [other Ho] by (destruct Hs as [->| ->]; eauto).
  destruct m as [v t|pk t|c t|v t]; cbn in Hm |- *;
    [destruct Hm as [-> _]; done|destruct Hm as [Hm _]..|done].
  - rewrite Hm. destruct (String.eqb_spec (serialized (prop_encryption_key self)) ""); [|done].
    by apply (honest_serialized self other) in Ho.
  - subst. by rewrite (honest_capabilities _ _ Ho).
Qed.

(** Sending a message of the handshake repeatedly, from either end. *)
Lemma send_repeating_stage self other p m n w :
  (self = host /\ other = client) \/ (self = client /\ other = host) ->
  encryptable m ->
  (p = Wire.Encrypted -> relying_key w = Some (prop_encryption_key other)) ->
  exists n' w' f, run inputs n (send_repeating self p (remote_recipient self) m) w = (Ok tt, n', w') /\
    view w' = (state w, relying_key w, peer_capabilities w, message_tx w, published w ++ [f]) /\
    repeated w' = Some (Resend p (remote_recipient self) m) /\ carries self other p m f.
Proof.
  intros Hso Hm Hk.
  destruct (seal_ok self other p m (in_random (inputs (S n))) w) as (c & Hs & Hcar);
    [by destruct Hso as [[-> ->]|[-> ->]]..|done|apply Hinputs|done|].
  destruct (run_send_repeating self inputs n p (remote_recipient self) m w c Hs) as [n' Hn];
    [apply Hinputs|].
  exists n', (after_send_repeating p (remote_recipient self) m
    (compose_frame p (remote_recipient self) c) w), (compose_frame p (remote_recipient self) c).
  split_and!; [done|apply view_send_repeating|apply repeated_after_send_repeating|done].
Qed.

Lemma send_message_stage self other p m n w :
  (self = host /\ other = client) \/ (self = client /\ other = host) ->
  encryptable m ->
  (p = Wire.Encrypted -> relying_key w = Some (prop_encryption_key other)) ->
  exists n' w' f, run inputs n (send_message self p (remote_recipient self) m) w = (Ok tt, n', w') /\
    view w' = (state w, relying_key w, peer_capabilities w, message_tx w, published w ++ [f]) /\
    repeated w' = repeated w /\ carries self other p m f.
Proof.
  intros Hso Hm Hk.
  destruct (seal_ok self other p m (in_random (inputs n)) w) as (c & Hs & Hcar);
    [by destruct Hso as [[-> ->]|[-> ->]]..|done|apply Hinputs|done|].
  exists (S (S n)), (after_publish (compose_frame p (remote_recipient self) c) w),
    (compose_frame p (remote_recipient self) c).
  split_and!; [|done|done|done]. rewrite (run_send_message self inputs n p _ m w c Hs).
  by rewrite (proj2 (proj2 (Hinputs (S n)))).
Qed.

(** The client's setup publishes a flash. *)
Lemma client_setup_stage n w :
  relying_key w = None ->
  exists n' w' f t, run inputs n (setup client) w = (Ok tt, n', w') /\
    view w' = (Handshake, None, peer_capabilities w, message_tx w, published w ++ [f]) /\
    repeated w' = Some (Resend Wire.Handshake Host (Flash (Object []) t)) /\
    conveys clock_ok client host Wire.Handshake (Flash (Object []) t) f.
Proof.
  intros Hk. unfold setup. rewrite run_set_state_bind, !run_channel_call_bind.
  unfold can_encrypt. rewrite run_reads_bind.
  step_view (view_set_state Connecting w).
  rewrite bool_decide_false by (intros [k Hk']; congruence). rewrite (pair_client _ _ _ Hpair).
  rewrite run_set_state_bind. step_view (view_set_state Ready w0).
  rewrite run_set_state_bind. step_view (view_set_state Handshake w1).
  rewrite run_start_deadline_bind. step_view (view_deadline w2).
  unfold current_timestamp. rewrite run_asks_bind. rewrite <- client_remote.
  set (now := in_now _).
  assert (clock_ok now) as Hnow by apply Hinputs.
  edestruct (send_repeating_stage client host Wire.Handshake (Flash (Object []) now))
    as (n' & w' & f & Hr & Hv & Hrep & Hcar); [by right|by apply (handshake_message_ok client); auto|done|].
  exists n', w', f, now. split_and!; [exact Hr| |exact Hrep|first [done|by split]]. rewrite Hv. congruence.
Qed.

Lemma host_setup_stage n w :
  relying_key w = None ->
  exists n' w', run inputs n (setup host) w = (Ok tt, n', w') /\
    view w' = (Ready, None, peer_capabilities w, message_tx w, published w) /\
    repeated w' = repeated w.
Proof.
  intros Hk. unfold setup. rewrite run_set_state_bind, !run_channel_call_bind.
  unfold can_encrypt. rewrite run_reads_bind.
  assert (R : repeated (after_set_state Connecting w) = repeated w) by done.
  step_view (view_set_state Connecting w).
  rewrite bool_decide_false by (intros [k Hk']; congruence). rewrite (pair_host _ _ _ Hpair).
  eexists _, _. split; [apply run_set_state|]. split; [rewrite view_set_state; congruence|exact R].
Qed.

Lemma run_pubkey_bind {A} self n (q : SignalingMessage -> Layer A) w :
  run inputs n (pubkey_message self ≫= q) w
  = run inputs (S n) (q (Pubkey (mkPubkeyPayload (serialized (prop_encryption_key self)))
                           (in_now (inputs n)))) w.
Proof. done. Qed.

Lemma run_capabilities_bind {A} self n (q : SignalingMessage -> Layer A) w :
  run inputs n (capabilities_message self ≫= q) w
  = run inputs (S n) (q (Capabilities (capabilities self) (in_now (inputs n)))) w.
Proof. done. Qed.

(** Delivery of a frame of the handshake to the other end. *)
Lemma deliver_stage self other p m f n w :
  (self = host /\ other = client) \/ (self = client /\ other = host) ->
  conveys clock_ok self other p m f ->
  (p = Wire.Encrypted -> relying_key w = None \/ relying_key w = Some (prop_encryption_key self)) ->
  exists n' frame, run inputs n (handle_receive other f) w
      = run inputs n' (handle_message other frame m) w /\
    prefix frame = p /\
    (p = Wire.Encrypted -> exists s, from_ciphertext (ciphertext frame) = Ok s /\
       public_key s = public_key (prop_encryption_key self)).
Proof.
  intros Hso [Hm Hcar] Hk.
  assert (self = host \/ self = client) as Hs by (destruct Hso as [[-> _]|[-> _]]; auto).
  destruct (handshake_message_ok self m Hs Hm) as [He Hv].
  apply (receive_ok self other p m f inputs n w); try done; try (by destruct Hso as [[-> ->]|[-> ->]]).
  - destruct Hso as [[-> ->]|[-> ->]]; by rewrite (pair_host _ _ _ Hpair), (pair_client _ _ _ Hpair).
  - destruct Hso as [[-> ->]|[-> ->]]; by rewrite (pair_handshake_key _ _ _ Hpair).
Qed.

Lemma host_flash_stage n w f t :
  state w = Ready -> conveys clock_ok client host Wire.Handshake (Flash (Object []) t) f ->
  exists n' w' f' t', run inputs n (handle_receive host f) w = (Ok tt, n', w') /\
    view w' = (Handshake, relying_key w, peer_capabilities w, message_tx w, published w ++ [f']) /\
    repeated w' = Some (Resend Wire.Handshake Client
      (Pubkey (mkPubkeyPayload (serialized (prop_encryption_key host))) t')) /\
    conveys clock_ok host client Wire.Handshake
      (Pubkey (mkPubkeyPayload (serialized (prop_encryption_key host))) t') f'.
Proof.
  intros Hs Hcar. edestruct (deliver_stage client host) as (n1 & frame & -> & Hp & _);
    [auto|exact Hcar|done|].
  unfold handle_message. rewrite run_reads_bind, Hp, Hs, (pair_host _ _ _ Hpair).
  unfold receive_flash. rewrite run_set_state_bind. step_view (view_set_state Handshake w).
  rewrite run_start_deadline_bind. step_view (view_deadline w0).
  rewrite run_pubkey_bind, <- host_remote. set (now := in_now _).
  assert (clock_ok now) as Hnow by apply Hinputs.
  edestruct (send_repeating_stage host client Wire.Handshake
      (Pubkey (mkPubkeyPayload (serialized (prop_encryption_key host))) now))
    as (n' & w' & f' & Hr & Hv & Hrep & Hcar'); [by left|by apply (handshake_message_ok host); auto|done|].
  exists n', w', f', now. split_and!; [exact Hr| |exact Hrep|first [done|by split]]. rewrite Hv. congruence.
Qed.

Lemma client_pubkey_stage n w f t :
  state w = Handshake -> relying_key w = None ->
  conveys clock_ok host client Wire.Handshake
    (Pubkey (mkPubkeyPayload (serialized (prop_encryption_key host))) t) f ->
  exists n' w' f' t', run inputs n (handle_receive client f) w = (Ok tt, n', w') /\
    view w' = (HandshakePartial, Some (prop_encryption_key host), peer_capabilities w,
               message_tx w, published w ++ [f']) /\
    repeated w' = Some (Resend Wire.Encrypted Host
      (Pubkey (mkPubkeyPayload (serialized (prop_encryption_key client))) t')) /\
    conveys clock_ok client host Wire.Encrypted
      (Pubkey (mkPubkeyPayload (serialized (prop_encryption_key client))) t') f'.
Proof.
  intros Hs Hk Hcar. edestruct (deliver_stage host client) as (n1 & frame & -> & Hp & _);
    [auto|exact Hcar|done|].
  unfold handle_message. rewrite run_reads_bind, Hp, Hs, (pair_client _ _ _ Hpair).
  unfold receive_host_pubkey. cbn [pk_public_key]. rewrite (honest_parse_key _ _ Hh), run_lift_Ok.
  unfold validate_public_key_hash. rewrite run_lift_Ok, (pair_hash _ _ _ Hpair), String.eqb_refl.
  cbn [negb]. rewrite run_bind. unfold store_relying_key. cbn [run atom]. rewrite Hk. cbn [run negb].
  set (w0 := with_relying_key _ w).
  assert (view w0 = (state w, Some (prop_encryption_key host), peer_capabilities w, message_tx w,
    published w)) as V0 by done. clearbody w0. injection V0 as ? ? ? ? ?.
  rewrite run_set_state_bind. step_view (view_set_state HandshakePartial w0).
  rewrite run_pubkey_bind, <- client_remote. set (now := in_now _).
  assert (clock_ok now) as Hnow by apply Hinputs.
  edestruct (fun k => send_repeating_stage client host Wire.Encrypted
      (Pubkey (mkPubkeyPayload (serialized (prop_encryption_key client))) now) k w1)
    as (n' & w' & f' & Hr & Hv & Hrep & Hcar');
    [by right|by apply (handshake_message_ok client); auto|intros _; congruence|].
  exists n', w', f', now. split_and!; [exact Hr| |exact Hrep|first [done|by split]]. rewrite Hv. congruence.
Qed.

Lemma host_pubkey_stage n w f t :
  state w = Handshake -> relying_key w = None ->
  conveys clock_ok client host Wire.Encrypted
    (Pubkey (mkPubkeyPayload (serialized (prop_encryption_key client))) t) f ->
  exists n' w' f' t', run inputs n (handle_receive host f) w = (Ok tt, n', w') /\
    view w' = (HandshakePartial, Some (prop_encryption_key client), peer_capabilities w,
               message_tx w, published w ++ [f']) /\
    repeated w' = Some (Resend Wire.Encrypted Client (Capabilities (capabilities host) t')) /\
    conveys clock_ok host client Wire.Encrypted (Capabilities (capabilities host) t') f'.
Proof.
  intros Hs Hk Hcar. edestruct (deliver_stage client host) as (n1 & frame & -> & Hp & Hsender);
    [auto|exact Hcar|auto|].
  destruct (Hsender eq_refl) as (s & Hs1 & Hs2).
  unfold handle_message. rewrite run_reads_bind, Hp, Hs, (pair_host _ _ _ Hpair).
  unfold receive_client_pubkey. cbn [pk_public_key]. rewrite (honest_parse_key _ _ Hc), run_lift_Ok.
  rewrite Hs1, run_lift_Ok, Hs2, bool_decide_true by done.
  cbn [negb]. rewrite run_bind. unfold store_relying_key. cbn [run atom]. rewrite Hk. cbn [run negb].
  set (w0 := with_relying_key _ w).
  assert (view w0 = (state w, Some (prop_encryption_key client), peer_capabilities w, message_tx w,
    published w)) as V0 by done. clearbody w0. injection V0 as ? ? ? ? ?.
  rewrite run_set_state_bind. step_view (view_set_state HandshakePartial w0).
  rewrite run_capabilities_bind, <- host_remote. set (now := in_now _).
  assert (clock_ok now) as Hnow by apply Hinputs.
  edestruct (fun k => send_repeating_stage host client Wire.Encrypted
      (Capabilities (capabilities host) now) k w1)
    as (n' & w' & f' & Hr & Hv & Hrep & Hcar');
    [by left|by apply (handshake_message_ok host); auto|intros _; congruence|].
  exists n', w', f', now. split_and!; [exact Hr| |exact Hrep|first [done|by split]]. rewrite Hv. congruence.
Qed.

(** The capabilities recorded after an announcement. *)
Definition recorded (w : Inner) (c : PeerCapabilities) : PeerCapabilities :=
  default c (peer_capabilities w).

Lemma store_capabilities_run {A} n c (q : unit -> Layer A) w :
  exists w', run inputs n (store_peer_capabilities c ≫= q) w = run inputs (S n) (q tt) w' /\
    view w' = (state w, relying_key w, Some (recorded w c), message_tx w, published w).
Proof.
  unfold recorded, view. cbn.
  destruct (peer_capabilities w) eqn:E; eexists; (split; [done|]); cbn; by rewrite ?E.
Qed.

Lemma own_capabilities_stage n w :
  relying_key w = Some (prop_encryption_key host) ->
  exists n' w' f t, run inputs n (send_own_capabilities client) w = (Ok tt, n', w') /\
    view w' = (state w, relying_key w, peer_capabilities w, message_tx w, published w ++ [f]) /\
    repeated w' = repeated w /\
    conveys clock_ok client host Wire.Encrypted (Capabilities (capabilities client) t) f.
Proof.
  intros Hk. unfold send_own_capabilities. rewrite run_capabilities_bind, <- client_remote.
  set (now := in_now _).
  assert (clock_ok now) as Hnow by apply Hinputs.
  edestruct (send_message_stage client host Wire.Encrypted (Capabilities (capabilities client) now))
    as (n' & w' & f & Hr & Hv & Hrep & Hcar);
    [by right|by apply (handshake_message_ok client); auto|intros _; exact Hk|].
  exists n', w', f, now. split_and!; [exact Hr|exact Hv|exact Hrep|first [done|by split]].
Qed.

Lemma client_capabilities_stage n w f t :
  state w = HandshakePartial -> relying_key w = Some (prop_encryption_key host) ->
  conveys clock_ok host client Wire.Encrypted (Capabilities (capabilities host) t) f ->
  exists n' w' f' t', run inputs n (handle_receive client f) w = (Ok tt, n', w') /\
    view w' = (Encrypted, relying_key w, Some (recorded w (capabilities host)), message_tx w,
               published w ++ [f']) /\
    repeated w' = None /\
    conveys clock_ok client host Wire.Encrypted (Capabilities (capabilities client) t') f'.
Proof.
  intros Hs Hk Hcar. edestruct (deliver_stage host client) as (n1 & frame & -> & Hp & _);
    [auto|exact Hcar|auto|].
  unfold handle_message. rewrite run_reads_bind, Hp, Hs. unfold receive_capabilities.
  destruct (store_capabilities_run (S n1) (capabilities host)
    (fun _ => set_state Encrypted;;
       if is_host client then mret tt else send_own_capabilities client) w) as (w0 & -> & V0).
  injection V0 as ? ? ? ? ?. rewrite run_set_state_bind, (pair_client _ _ _ Hpair).
  assert (R := repeated_encrypted w0). step_view (view_set_state Encrypted w0).
  edestruct (fun k => own_capabilities_stage k w1) as (n' & w' & f' & t' & Hr & Hv & Hrep & Hcar'); [congruence|].
  exists n', w', f', t'. split_and!; [exact Hr| |congruence|first [done|by split]]. rewrite Hv. congruence.
Qed.

(** A retry of the host's capabilities makes an encrypted client answer again. *)
Lemma client_retry_stage n w f t :
  state w = Encrypted -> relying_key w = Some (prop_encryption_key host) ->
  conveys clock_ok host client Wire.Encrypted (Capabilities (capabilities host) t) f ->
  exists n' w' f' t', run inputs n (handle_receive client f) w = (Ok tt, n', w') /\
    view w' = (Encrypted, relying_key w, peer_capabilities w, message_tx w, published w ++ [f']) /\
    repeated w' = repeated w /\
    conveys clock_ok client host Wire.Encrypted (Capabilities (capabilities client) t') f'.
Proof.
  intros Hs Hk Hcar. edestruct (deliver_stage host client) as (n1 & frame & -> & Hp & _);
    [auto|exact Hcar|auto|].
  unfold handle_message. rewrite run_reads_bind, Hp, Hs, (pair_client _ _ _ Hpair).
  destruct (own_capabilities_stage (S n1) w Hk) as (n' & w' & f' & t' & Hr & Hv & Hrep & Hcar').
  exists n', w', f', t'. split_and!; [exact Hr| |exact Hrep|first [done|by split]]. rewrite Hv. congruence.
Qed.

Lemma host_capabilities_stage n w f t :
  state w = HandshakePartial -> relying_key w = Some (prop_encryption_key client) ->
  conveys clock_ok client host Wire.Encrypted (Capabilities (capabilities client) t) f ->
  exists n' w', run inputs n (handle_receive host f) w = (Ok tt, n', w') /\
    view w' = (Encrypted, relying_key w, Some (recorded w (capabilities client)), message_tx w,
               published w) /\
    repeated w' = None.
Proof.
  intros Hs Hk Hcar. edestruct (deliver_stage client host) as (n1 & frame & -> & Hp & _);
    [auto|exact Hcar|auto|].
  unfold handle_message. rewrite run_reads_bind, Hp, Hs. unfold receive_capabilities.
  destruct (store_capabilities_run (S n1) (capabilities client)
    (fun _ => set_state Encrypted;;
       if is_host host then mret tt else send_own_capabilities host) w) as (w0 & -> & V0).
  injection V0 as ? ? ? ? ?. rewrite run_set_state_bind, (pair_host _ _ _ Hpair).
  eexists _, _. split; [done|]. split; [rewrite view_set_state; congruence|apply repeated_encrypted].
Qed.

End pair.

(** ** The composed run *)

Definition last_published (w : Inner) : string := default "" (last (published w)).

Section exchange.
Context `{CryptoLib} `{SignalingCodec}.
Context (host client : SignalingProperties) (host_inputs client_inputs : nat -> Input).

(** A call that must succeed, from an atom counter and a state. *)
Definition party_call (inputs : nat -> Input) (p : Layer unit) (s : nat * Inner)
    : option (nat * Inner) :=
  match run inputs s.1 p s.2 with (Ok _, n', w') => Some (n', w') | _ => None end.

Definition host_receives (f : string) := party_call host_inputs (handle_receive host f).
Definition client_receives (f : string) := party_call client_inputs (handle_receive client f).

(** Every frame is delivered to the other end. *)
Definition deliveries (h0 c0 : nat * Inner) : option ((nat * Inner) * (nat * Inner)) :=
  h1 ← host_receives (last_published c0.2) h0;
  c1 ← client_receives (last_published h1.2) c0;
  h2 ← host_receives (last_published c1.2) h1;
  c2 ← client_receives (last_published h2.2) c1;
  h3 ← host_receives (last_published c2.2) h2;
  Some (h3, c2).

(** Both ends set up; then every frame is delivered. *)
Definition handshake : option (Inner * Inner) :=
  c0 ← party_call client_inputs (setup client) (0, new_inner);
  h0 ← party_call host_inputs (setup host) (0, new_inner);
  '(h, c) ← deliveries h0 c0;
  Some (h.2, c.2).

End exchange.

Lemma last_published_app l f w : published w = l ++ [f] -> last_published w = f.
Proof. intros Hp. unfold last_published. by rewrite Hp, last_snoc. Qed.

Lemma party_call_ok inputs p n w n' w' :
  run inputs n p w = (Ok tt, n', w') -> party_call inputs p (n, w) = Some (n', w').
Proof. unfold party_call. cbn [fst snd]. by intros ->. Qed.

(** A delivery that changed the state has announced the new one. *)
Lemma received_change `{CryptoLib, SignalingCodec} properties inputs n f w r n' w' :
  run inputs n (handle_receive properties f) w = (r, n', w') -> state w' <> state w ->
  state_tx w' = state_tx w ++ [state w'].
Proof.
  intros R. apply announced_change. assert (Ha := handle_receive_announces properties inputs n f w).
  by rewrite R in Ha.
Qed.

(** What a completed handshake leaves. *)
Definition secured_pair `{CryptoLib} (host client : SignalingProperties) (hw cw : Inner) : Prop :=
    state hw = Encrypted /\ state cw = Encrypted /\
    relying_key hw = Some (prop_encryption_key client) /\
    relying_key cw = Some (prop_encryption_key host) /\
    peer_capabilities hw = Some (capabilities client) /\
    peer_capabilities cw = Some (capabilities host) /\
    message_tx hw = [] /\ message_tx cw = [].

(** The stages after both setups, composed. *)
Lemma honest_deliveries `{CryptoLaws, SignalingCodecLaws} clock_ok host client host_inputs client_inputs nh nc h0 c0 f t :
  honest_pair clock_ok host client -> inputs_ok clock_ok host_inputs -> inputs_ok clock_ok client_inputs ->
  view h0 = (Ready, None, None, [], []) -> view c0 = (Handshake, None, None, [], [f]) ->
  conveys clock_ok client host Wire.Handshake (Flash (Object []) t) f ->
  exists h c, deliveries host client host_inputs client_inputs (nh, h0) (nc, c0) = Some (h, c) /\
    secured_pair host client h.2 c.2 /\
    state_tx h.2 = state_tx h0 ++ [Handshake; HandshakePartial; Encrypted] /\
    state_tx c.2 = state_tx c0 ++ [HandshakePartial; Encrypted].
Proof.
  intros Hp Hih Hic [= S2 K2 P2 M2 F2] [= S1 K1 P1 M1 F1] C1. unfold deliveries, host_receives, client_receives.
  cbn [fst snd]. rewrite (last_published_app [] _ _ F1).
  destruct (host_flash_stage clock_ok host client Hp host_inputs Hih nh h0 f t S2 C1)
    as (nh1 & h1 & f2 & t2 & R3 & [= S3 K3 P3 M3 F3] & _ & C2).
  rewrite (party_call_ok _ _ _ _ _ _ R3). csimpl. rewrite (last_published_app _ _ _ F3).
  destruct (client_pubkey_stage clock_ok host client Hp client_inputs Hic nc c0 f2 t2 S1 K1 C2)
    as (nc1 & c1 & f3 & t3 & R4 & [= S4 K4 P4 M4 F4] & _ & C3).
  rewrite (party_call_ok _ _ _ _ _ _ R4). csimpl. rewrite (last_published_app _ _ _ F4).
  rewrite K2 in K3.
  destruct (host_pubkey_stage clock_ok host client Hp host_inputs Hih nh1 h1 f3 t3 S3 K3 C3)
    as (nh2 & h2 & f4 & t4 & R5 & [= S5 K5 P5 M5 F5] & _ & C4).
  rewrite (party_call_ok _ _ _ _ _ _ R5). csimpl. rewrite (last_published_app _ _ _ F5).
  destruct (client_capabilities_stage clock_ok host client Hp client_inputs Hic nc1 c1 f4 t4 S4 K4 C4)
    as (nc2 & c2 & f5 & t5 & R6 & [= S6 K6 P6 M6 F6] & _ & C5).
  rewrite (party_call_ok _ _ _ _ _ _ R6). csimpl. rewrite (last_published_app _ _ _ F6).
  destruct (host_capabilities_stage clock_ok host client Hp host_inputs nh2 h2 f5 t5 S5 K5 C5)
    as (nh3 & h3 & R7 & [= S7 K7 P7 M7 F7] & _).
  rewrite (party_call_ok _ _ _ _ _ _ R7). csimpl. exists (nh3, h3), (nc2, c2).
  unfold recorded in *. rewrite P4, P1 in P6. rewrite P5, P3, P2 in P7.
  apply received_change in R3; [|congruence]. apply received_change in R4; [|congruence].
  apply received_change in R5; [|congruence]. apply received_change in R6; [|congruence].
  apply received_change in R7; [|congruence].
  unfold secured_pair. cbn [snd]. split_and!; try (congruence || done).
  - by rewrite R7, R5, R3, S7, S5, S3, <- !(assoc_L app).
  - by rewrite R6, R4, S6, S4, <- !(assoc_L app).
Qed.

(** The whole handshake. *)
Lemma honest_handshake `{CryptoLaws, SignalingCodecLaws} clock_ok host client host_inputs client_inputs :
  honest_pair clock_ok host client -> inputs_ok clock_ok host_inputs -> inputs_ok clock_ok client_inputs ->
  exists hw cw, handshake host client host_inputs client_inputs = Some (hw, cw) /\
    state hw = Encrypted /\ state cw = Encrypted /\
    relying_key hw = Some (prop_encryption_key client) /\
    relying_key cw = Some (prop_encryption_key host) /\
    peer_capabilities hw = Some (capabilities client) /\
    peer_capabilities cw = Some (capabilities host) /\
    message_tx hw = [] /\ message_tx cw = [].
Proof.
  intros Hp Hih Hic. unfold handshake.
  destruct (client_setup_stage clock_ok host client Hp client_inputs Hic 0 new_inner eq_refl)
    as (nc0 & c0 & f1 & t1 & R1 & V1 & _ & C1).
  rewrite (party_call_ok _ _ _ _ _ _ R1). csimpl.
  destruct (host_setup_stage clock_ok host client Hp host_inputs Hih 0 new_inner eq_refl)
    as (nh0 & h0 & R2 & V2 & _).
  rewrite (party_call_ok _ _ _ _ _ _ R2). csimpl.
  destruct (honest_deliveries clock_ok host client host_inputs client_inputs nh0 nc0 h0 c0 f1 t1 Hp Hih Hic V2 V1 C1)
    as (h & c & -> & Hs & _).
  by exists h.2, c.2.
Qed.

(** ** Properties *)

(** C9. The handshake succeeds: for every host and client made from one connection
    URL, with any random bytes and clocks, when the channel delivers each frame,
    both ends reach [Encrypted], each has recorded exactly the other's key and the
    other's capabilities, and nothing has been delivered as data. *)
Theorem handshake_completes `{CryptoLaws, SignalingCodecLaws} clock_ok host client host_inputs client_inputs :
  honest_pair clock_ok host client -> inputs_ok clock_ok host_inputs -> inputs_ok clock_ok client_inputs ->
  exists hw cw, handshake host client host_inputs client_inputs = Some (hw, cw) /\
    state hw = Encrypted /\ state cw = Encrypted /\
    relying_key hw = Some (prop_encryption_key client) /\
    relying_key cw = Some (prop_encryption_key host) /\
    peer_capabilities hw = Some (capabilities client) /\
    peer_capabilities cw = Some (capabilities host) /\
    message_tx hw = [] /\ message_tx cw = [].
Proof. apply honest_handshake. Qed.

(** A lost last packet is recovered: when the client is already [Encrypted] and
    the host still waits in [HandshakePartial], any repetition of the host's
    capabilities makes the client answer again, and that answer completes the
    host; the client's own state stays as it was. *)
Theorem lost_answer_recovered `{CryptoLaws, SignalingCodecLaws} clock_ok host client inputs n m f t hw cw :
  honest_pair clock_ok host client -> inputs_ok clock_ok inputs ->
  state cw = Encrypted -> relying_key cw = Some (prop_encryption_key host) ->
  state hw = HandshakePartial -> relying_key hw = Some (prop_encryption_key client) ->
  conveys clock_ok host client Wire.Encrypted (Capabilities (capabilities host) t) f ->
  exists n' cw' m' hw',
    run inputs n (handle_receive client f) cw = (Ok tt, n', cw') /\
    state cw' = Encrypted /\ relying_key cw' = relying_key cw /\
    peer_capabilities cw' = peer_capabilities cw /\
    run inputs m (handle_receive host (last_published cw')) hw = (Ok tt, m', hw') /\
    state hw' = Encrypted /\ is_Some (peer_capabilities hw').
Proof.
  intros Hp Hi Hcs Hck Hhs Hhk Hcar.
  destruct (client_retry_stage clock_ok host client Hp inputs Hi n cw f t Hcs Hck Hcar)
    as (n' & cw' & f' & t' & R & [= S K P M F] & _ & C).
  destruct (host_capabilities_stage clock_ok host client Hp inputs m hw f' t' Hhs Hhk C)
    as (m' & hw' & R' & [= S' K' P' M' F'] & _).
  exists n', cw', m', hw'. rewrite (last_published_app _ _ _ F). split_and!; try done.
Qed.

(** What one [Encrypted] end sends, the other delivers. *)
Lemma data_crosses `{CryptoLaws, SignalingCodecLaws} clock_ok host client inputs n v self other sw :
  honest_pair clock_ok host client -> inputs_ok clock_ok inputs ->
  (self = host /\ other = client) \/ (self = client /\ other = host) ->
  is_object v = true -> (forall t, clock_ok t -> encryptable (Data v t)) ->
  relying_key sw = Some (prop_encryption_key other) ->
  exists n' sw' f, run inputs n (send self v) sw = (Ok tt, n', sw') /\
    view sw' = (state sw, relying_key sw, peer_capabilities sw, message_tx sw, published sw ++ [f]) /\
    forall inputs' m rw, state rw = Encrypted -> relying_key rw = Some (prop_encryption_key self) ->
      exists m', run inputs' m (handle_receive other f) rw
        = (Ok tt, m', with_message_tx (message_tx rw ++ [v]) rw).
Proof.
  intros Hp Hi Hso Hv He Hsk.
  assert (is_host self = negb (is_host other) /\ handshake_key self = handshake_key other) as [Hr Hh].
  { destruct Hso as [[-> ->]|[-> ->]];
      by rewrite (pair_host _ _ _ Hp), (pair_client _ _ _ Hp), (pair_handshake_key _ _ _ Hp). }
  assert (honest self other /\ honest other self) as [Hho Hoh].
  { destruct Hp. destruct Hso as [[-> ->]|[-> ->]]; auto. }
  unfold send, can_encrypt. rewrite run_reads_bind, bool_decide_true by (by rewrite Hsk).
  cbn [negb]. unfold current_timestamp. rewrite run_asks_bind. set (now := in_now _).
  assert (clock_ok now) as Hnow by apply Hi.
  destruct (send_message_stage clock_ok host client Hp inputs Hi self other Wire.Encrypted (Data v now)
    (S (S n)) sw) as (n' & sw' & f & R & V & _ & C); [done|by apply He|done|].
  exists n', sw', f. split_and!; [exact R|exact V|]. intros inputs' m rw Hrs Hrk.
  destruct (receive_ok self other Wire.Encrypted (Data v now) f inputs' m rw)
    as (m1 & frame & R' & Hpre & _); try done;
    [by apply He|cbn; by rewrite Hv|auto|].
  exists (S (S m1)). rewrite R'. unfold handle_message. rewrite run_reads_bind, Hpre, Hrs.
  by destruct (is_host other).
Qed.

(** C23. Application data round trips: between two ends that are [Encrypted] with each
    other's keys, what one end sends is published as one frame, and the other end
    delivers exactly that value to its subscribers when it receives the frame. *)
Theorem data_round_trip `{CryptoLaws, SignalingCodecLaws} clock_ok host client inputs n m v sw rw (from_host : bool) :
  let self := if from_host then host else client in
  let other := if from_host then client else host in
  honest_pair clock_ok host client -> inputs_ok clock_ok inputs ->
  is_object v = true -> (forall t, clock_ok t -> encryptable (Data v t)) ->
  relying_key sw = Some (prop_encryption_key other) ->
  state rw = Encrypted -> relying_key rw = Some (prop_encryption_key self) ->
  exists n' sw' f m' rw',
    run inputs n (send self v) sw = (Ok tt, n', sw') /\ published sw' = published sw ++ [f] /\
    run inputs m (handle_receive other f) rw = (Ok tt, m', rw') /\
    message_tx rw' = message_tx rw ++ [v] /\ state rw' = Encrypted.
Proof.
  cbn zeta. intros Hp Hi Hv He Hsk Hrs Hrk.
  set (self := if from_host then host else client) in *.
  set (other := if from_host then client else host) in *.
  assert ((self = host /\ other = client) \/ (self = client /\ other = host)) as Hso
    by (subst self other; destruct from_host; auto).
  destruct (data_crosses clock_ok host client inputs n v self other sw Hp Hi Hso Hv He Hsk)
    as (n' & sw' & f & R & [= _ _ _ _ F] & Hrecv).
  destruct (Hrecv inputs m rw Hrs Hrk) as [m' R'].
  by exists n', sw', f, m', (with_message_tx (message_tx rw ++ [v]) rw).
Qed.

(** The client refuses a key that does not match the connection URL: whoever sends
    it and even under the right handshake key, a public key with another hash puts
    the waiting client in [Error], with no key recorded, nothing published, and
    the handshake tasks stopped. *)
Theorem client_rejects_wrong_key `{CryptoLaws, SignalingCodecLaws} properties inputs n payload frame key text pk t k w :
  is_host properties = false -> state w = Handshake ->
  parse_frame payload = Ok frame -> recipient frame = Client -> prefix frame = Wire.Handshake ->
  handshake_key properties = Some key -> handshake_decrypt key (ciphertext frame) = Ok text ->
  signaling_from_str text = inl (Pubkey (mkPubkeyPayload pk) t) -> pk <> "" ->
  parse_encryption_key pk = Ok k -> hash_public_key k <> prop_h properties ->
  exists n' w', run inputs n (handle_receive properties payload) w = (Ok tt, n', w') /\
    state w' = Error /\ relying_key w' = relying_key w /\ published w' = published w /\
    handshake_task w' = None /\ deadline_task w' = None.
Proof.
  intros Hh Hs Hp Hr Hpre Hkey Hd Hm Hpk Hk Hne.
  destruct (run_handle_receive properties inputs n payload frame text
    (Pubkey (mkPubkeyPayload pk) t) w) as [n1 ->]; try done.
  - unfold is_recipient. rewrite Hr, Hh. done.
  - unfold decrypts. rewrite Hpre. eauto.
  - cbn. by destruct (String.eqb_spec pk "").
  - unfold handle_message. rewrite run_reads_bind, Hpre, Hs, Hh.
    unfold receive_host_pubkey. cbn [pk_public_key]. rewrite Hk, run_lift_Ok.
    unfold validate_public_key_hash. rewrite run_lift_Ok.
    destruct (String.eqb_spec (hash_public_key k) (prop_h properties)); [done|]. cbn [negb].
    eexists _, _. split; [apply run_set_state|].
    destruct (stopped_slots (with_state Error w)) as (H1' & H2' & _).
    destruct (stopped_rest (with_state Error w)) as (R1 & R2 & _ & _ & _ & R6 & _).
    unfold after_set_state, announce. cbn in *. split_and!; congruence.
Qed.

(** ** Witnesses *)

Import CryptoModel TextModel LayerModel.

Definition model_clock (t : Z) : Prop := t = 1700000000000%Z.

Lemma model_inputs_ok : inputs_ok model_clock model_inputs.
Proof. intros n. by split_and!. Qed.

Lemma model_encryptable self m :
  self = model_host \/ self = model_client -> handshake_message model_clock self m -> encryptable m.
Proof.
  intros Hs Hm. split.
  - destruct m as [v t|pk t|c t|v t]; [destruct Hm as [-> _]; vm_compute|..|destruct Hm]; reflexivity.
  - intros text [= <-].
    destruct m as [v t|[pk] t|c t|v t]; [| | |destruct Hm];
      destruct Hm as [Hv Ht]; cbn [pk_public_key] in Hv; rewrite Hv, Ht; clear Hv Ht;
      destruct Hs as [->| ->]; vm_compute; discriminate.
Qed.

Lemma model_key_wf : exists key, model_handshake_key = Some key /\ handshake_key_wf key.
Proof.
  unfold model_handshake_key. destruct (from_hex _) as [k|e|] eqn:E.
  - exists k. split; [done|]. by eapply from_hex_wf.
  - vm_compute in E. discriminate E.
  - vm_compute in E. discriminate E.
Qed.

Lemma model_honest :
  honest model_host model_client /\ honest model_client model_host.
Proof.
  split; (split; [|exact model_key_wf|vm_compute; reflexivity|vm_compute; reflexivity]);
    unfold key_pair_wf, decryption_key_wf; split_and!; vm_compute; reflexivity.
Qed.

Lemma model_pair : honest_pair model_clock model_host model_client.
Proof.
  destruct model_honest as [Hh Hc].
  split; [reflexivity|reflexivity|exact Hh|exact Hc|reflexivity|reflexivity|exact model_encryptable].
Qed.

Lemma handshake_completes_witness :
  exists hw cw, handshake model_host model_client model_inputs model_inputs = Some (hw, cw) /\
    state hw = Encrypted /\ state cw = Encrypted.
Proof.
  destruct (handshake_completes model_clock model_host model_client model_inputs model_inputs
    model_pair model_inputs_ok model_inputs_ok) as (hw & cw & Hr & Hh & Hc & _).
  exists hw, cw. auto.
Defined.

(** The host's capabilities, as the host published them. *)
Lemma model_capabilities_frame :
  conveys model_clock model_host model_client Wire.Encrypted
    (Capabilities (capabilities model_host) 1700000000000) (last_frame host2).
Proof.
  split; [done|].
  eexists _, witness_iv, _. split; [reflexivity|]. split; [reflexivity|].
  split; [|]; vm_compute; reflexivity.
Qed.

Lemma lost_answer_recovered_witness :
  exists m' cw' hw',
    run model_inputs 0 (handle_receive model_host (last_published cw')) (world host2)
      = (Ok tt, m', hw') /\ state hw' = Encrypted.
Proof.
  destruct (lost_answer_recovered model_clock model_host model_client model_inputs 0 0
    (last_frame host2) 1700000000000 (world host2) (world client2) model_pair model_inputs_ok)
    as (n' & cw' & m' & hw' & _ & _ & _ & _ & Hr & Hs & _);
    [vm_compute; reflexivity..|apply model_capabilities_frame|].
  exists m', cw', hw'. split; [exact Hr|exact Hs].
Defined.

Lemma data_round_trip_witness :
  exists sw' f m' rw',
    published sw' = published (world client2) ++ [f] /\
    run model_inputs 0 (handle_receive model_host f) (world host3) = (Ok tt, m', rw') /\
    message_tx rw' = [model_data].
Proof.
  destruct (data_round_trip model_clock model_host model_client model_inputs 0 0 model_data
    (world client2) (world host3) false model_pair model_inputs_ok)
    as (n' & sw' & f & m' & rw' & _ & Hf & Hr & Hm & _).
  - reflexivity.
  - intros t ->. split; [reflexivity|]. intros text [= <-]. vm_compute. discriminate.
  - vm_compute. reflexivity.
  - vm_compute. reflexivity.
  - vm_compute. reflexivity.
  - exists sw', f, m', rw'. split; [exact Hf|]. split; [exact Hr|]. rewrite Hm.
    vm_compute. reflexivity.
Defined.

(** A host with another key, on the channel of this client. *)
Definition other_host : SignalingProperties :=
  mkSignalingProperties true (hash_public_key (witness_encryption_key witness_bob))
    model_handshake_key (witness_encryption_key witness_bob)
    (witness_decryption_key witness_bob) (model_capabilities "other").

Definition other_pubkey : SignalingMessage :=
  Pubkey (mkPubkeyPayload (serialized (witness_encryption_key witness_bob))) 0.

Definition other_frame : string :=
  match model_handshake_key, signaling_to_string other_pubkey with
  | Some key, inl text =>
      match handshake_encrypt key witness_iv text with
      | Ok c => compose_frame Wire.Handshake Client c
      | _ => ""
      end
  | _, _ => ""
  end.

Definition other_wire_frame : WireFrame :=
  mkWireFrame Wire.Handshake Client (substring 2 (String.length other_frame - 2) other_frame).

Definition other_text : string :=
  match signaling_to_string other_pubkey with inl text => text | inr _ => "" end.

Lemma client_rejects_wrong_key_witness :
  exists n' w', run model_inputs 0 (handle_receive model_client other_frame) (world client0)
    = (Ok tt, n', w') /\ state w' = Error.
Proof.
  destruct model_handshake_key as [key|] eqn:Hkey; [|vm_compute in Hkey; discriminate Hkey].
  destruct (client_rejects_wrong_key model_client model_inputs 0 other_frame other_wire_frame key
    other_text (serialized (witness_encryption_key witness_bob)) 0
    (witness_encryption_key witness_bob) (world client0))
    as (n' & w' & Hr & Hs & _).
  1, 2, 3, 4, 5: vm_compute; reflexivity.
  - exact Hkey.
  - vm_compute in Hkey. injection Hkey as <-. vm_compute. reflexivity.
  - vm_compute. reflexivity.
  - vm_compute. discriminate.
  - vm_compute. reflexivity.
  - vm_compute. discriminate.
  - exists n', w'. split; [exact Hr|exact Hs].
Defined.
