(* ===== verification/Rendezvous.v ===== *)
(** * The handshake over an unreliable network

    The host's and the client's layer and everything they ever published: the network
    delivers any of it, to either end, in any order, any number of times or never, next
    to payloads of strangers; the two resend tasks fire at any time. [stage] is the
    abstract course of the handshake that the two ends refine. *)
From S2P Require Import Prelude RustStr Errors Json Wire CryptoLib CryptoModel Encryption.
From S2P Require Import Message TextModel Tasks SignalingLayer SignalingSafety SignalingRun Handshake.
Local Open Scope string_scope.
Local Open Scope list_scope.
Local Open Scope nat_scope.

(** ** The network *)

(** Both ends of the handshake. *)
Record Pair : Type := mkPair {
  host_end : Inner;
  client_end : Inner;
}.

(** What the network has seen: the two ends share one topic. *)
Definition air (s : Pair) : list string := published (host_end s) ++ published (client_end s).

Section network.
Context `{CryptoLib} `{SignalingCodec}.
Context (clock_ok : Z -> Prop) (host client : SignalingProperties).

(** One end's reaction to a payload. *)
Definition hear (self : SignalingProperties) (inputs : nat -> Input) (f : string) (w : Inner) : Inner :=
  (run inputs 0 (handle_receive self f) w).2.

(** One round of the resend task, if there is one. *)
Definition tick (self : SignalingProperties) (inputs : nat -> Input) (w : Inner) : Inner :=
  match repeated w with
  | Some (Resend p r m) => (run inputs 0 (resend_round self p r m) w).2
  | _ => w
  end.

(** A stranger's payload: this end cannot open it, whatever peer key it knows. *)
Definition unreadable (self : SignalingProperties) (f : string) : Prop :=
  forall frame text known, parse_frame f = Ok frame ->
  match prefix frame with
  | Wire.Handshake => forall key, handshake_key self = Some key ->
      handshake_decrypt key (ciphertext frame) <> Ok text
  | Wire.Encrypted => peer_decrypt (prop_decryption_key self) (ciphertext frame) known <> Ok text
  end.

Inductive network_step : Pair -> Pair -> Prop :=
| host_hears s inputs f : inputs_ok clock_ok inputs -> f ∈ air s \/ unreadable host f ->
    network_step s (mkPair (hear host inputs f (host_end s)) (client_end s))
| client_hears s inputs f : inputs_ok clock_ok inputs -> f ∈ air s \/ unreadable client f ->
    network_step s (mkPair (host_end s) (hear client inputs f (client_end s)))
| host_ticks s inputs : inputs_ok clock_ok inputs ->
    network_step s (mkPair (tick host inputs (host_end s)) (client_end s))
| client_ticks s inputs : inputs_ok clock_ok inputs ->
    network_step s (mkPair (host_end s) (tick client inputs (client_end s))).

(** Both ends have been set up. *)
Definition met (s : Pair) : Prop :=
  exists host_inputs client_inputs,
    inputs_ok clock_ok host_inputs /\ inputs_ok clock_ok client_inputs /\
    s = mkPair (run host_inputs 0 (setup host) new_inner).2 (run client_inputs 0 (setup client) new_inner).2.

Definition network_reachable (s : Pair) : Prop := exists s0, met s0 /\ rtc network_step s0 s.

(** A round in which nothing is lost: the host's resend task fires and its last frame
    arrives; then the same for the client. *)
Definition hear_last (self : SignalingProperties) (inputs : nat -> Input) (from w : Inner) : Inner :=
  match last (published from) with Some f => hear self inputs f w | None => w end.

Definition round (inputs : nat -> nat -> Input) (s : Pair) : Pair :=
  let h := tick host (inputs 0) (host_end s) in
  let c := tick client (inputs 2) (hear_last client (inputs 1) h (client_end s)) in
  mkPair (hear_last host (inputs 3) c h) c.

End network.

(** ** The abstract handshake *)

(** The states of the two ends at each stage: one frame of the handshake more has
    arrived. *)
Definition host_state (k : nat) : SignalState :=
  match k with 0 => Ready | 1 | 2 => Handshake | 3 | 4 => HandshakePartial | _ => Encrypted end.
Definition client_state (k : nat) : SignalState :=
  match k with 0 | 1 => Handshake | 2 | 3 => HandshakePartial | _ => Encrypted end.

(** What the two ends know at stage [k]. *)
Record agreed (host client : SignalingProperties) (k : nat) (s : Pair) : Prop := {
  agreed_states : state (host_end s) = host_state k /\ state (client_end s) = client_state k;
  agreed_host_key : relying_key (host_end s) = if 3 <=? k then Some (prop_encryption_key client) else None;
  agreed_client_key : relying_key (client_end s) = if 2 <=? k then Some (prop_encryption_key host) else None;
  agreed_host_peer : peer_capabilities (host_end s) = if 5 <=? k then Some (capabilities client) else None;
  agreed_client_peer : peer_capabilities (client_end s) = if 4 <=? k then Some (capabilities host) else None;
  agreed_data : message_tx (host_end s) = [] /\ message_tx (client_end s) = [];
}.

(** The abstract handshake: it stays where it is, or goes on by one stage. *)
Inductive stage_step : nat -> nat -> Prop :=
| stay k : stage_step k k
| go_on k : k < 5 -> stage_step k (S k).

(** ** The frames of the handshake *)

Section frames.
Context `{CryptoLib} `{SignalingCodec}.
Context (clock_ok : Z -> Prop) (host client : SignalingProperties).

(** The [k]-th message of the handshake, which takes it from stage [k] to the next. *)
Definition says (k : nat) (p : WirePrefix) (m : SignalingMessage) : Prop :=
  match k, p, m with
  | 0, Wire.Handshake, Flash v t => v = Object [] /\ clock_ok t
  | 1, Wire.Handshake, Pubkey pk t => pk = mkPubkeyPayload (serialized (prop_encryption_key host)) /\ clock_ok t
  | 2, Wire.Encrypted, Pubkey pk t => pk = mkPubkeyPayload (serialized (prop_encryption_key client)) /\ clock_ok t
  | 3, Wire.Encrypted, Capabilities c t => c = capabilities host /\ clock_ok t
  | 4, Wire.Encrypted, Capabilities c t => c = capabilities client /\ clock_ok t
  | _, _, _ => False
  end.

Definition speaker (k : nat) : SignalingProperties := if Nat.even k then client else host.
Definition listener (k : nat) : SignalingProperties := if Nat.even k then host else client.

Definition frame_of (k : nat) (f : string) : Prop :=
  exists p m, says k p m /\ conveys clock_ok (speaker k) (listener k) p m f.

(** The frames of one end by stage [k]. *)
Definition frames_by (even : bool) (k : nat) (l : list string) : Prop :=
  Forall (fun f => exists j, j <= k /\ Nat.even j = even /\ frame_of j f) l.

(** The resend task repeats the message of stage [j]. *)
Definition repeats (j : nat) (w : Inner) : Prop :=
  exists p m, repeated w = Some (Resend p (remote_recipient (speaker j)) m) /\ says j p m.

(** What else is true of the host and of the client at stage [k]. *)
Record host_at (k : nat) (w : Inner) : Prop := {
  h_state : state w = host_state k;
  h_key : relying_key w = if 3 <=? k then Some (prop_encryption_key client) else None;
  h_peer : peer_capabilities w = if 5 <=? k then Some (capabilities client) else None;
  h_data : message_tx w = [];
  h_frames : frames_by false k (published w);
  h_task : match k with 1 | 2 => repeats 1 w | 3 | 4 => repeats 3 w | _ => repeated w = None end;
}.

Record client_at (k : nat) (w : Inner) : Prop := {
  c_state : state w = client_state k;
  c_key : relying_key w = if 2 <=? k then Some (prop_encryption_key host) else None;
  c_peer : peer_capabilities w = if 4 <=? k then Some (capabilities host) else None;
  c_data : message_tx w = [];
  c_frames : frames_by true k (published w);
  c_task : match k with 0 | 1 => repeats 0 w | 2 | 3 => repeats 2 w | _ => repeated w = None end;
}.

Definition pair_at (k : nat) (s : Pair) : Prop :=
  k <= 5 /\ host_at k (host_end s) /\ client_at k (client_end s).

Lemma pair_agreed k s : pair_at k s -> agreed host client k s.
Proof. intros (_ & Hw & Cw). destruct Hw, Cw. by split. Qed.

Lemma frames_by_le b k k' l : k <= k' -> frames_by b k l -> frames_by b k' l.
Proof.
  intros Hk Hl. eapply Forall_impl; [exact Hl|]. intros f (j & Hj & Hb & Hf). exists j.
  split_and!; [lia|done..].
Qed.

Lemma frames_by_snoc b k l j f :
  frames_by b k l -> j <= k -> Nat.even j = b -> frame_of j f -> frames_by b k (l ++ [f]).
Proof. intros Hl Hj Hb Hf. apply Forall_app. split; [done|]. repeat constructor. by exists j. Qed.

(** An end does not change when only the other one goes on. *)
Lemma host_waits k w : k = 1 \/ k = 3 -> host_at k w -> host_at (S k) w.
Proof.
  intros Hk [H1 H2 H3 H4 H5 H6]. split; [..|eapply frames_by_le; [|exact H5]; lia|];
    destruct Hk as [->| ->]; done.
Qed.

Lemma client_waits k w : k = 0 \/ k = 2 \/ k = 4 -> client_at k w -> client_at (S k) w.
Proof.
  intros Hk [H1 H2 H3 H4 H5 H6]. split; [..|eapply frames_by_le; [|exact H5]; lia|];
    destruct Hk as [->|[->| ->]]; done.
Qed.

End frames.

(** ** One payload, one round *)

Section ends.
Context `{CryptoLaws} `{SignalingCodecLaws}.
Context (clock_ok : Z -> Prop) (host client : SignalingProperties).
Context (pair : honest_pair clock_ok host client).
Context (inputs : nat -> Input) (good : inputs_ok clock_ok inputs).
Implicit Types (w : Inner) (k j : nat) (f : string).

Local Abbreviation frame_of := (frame_of clock_ok host client).
Local Abbreviation host_at := (host_at clock_ok host client).
Local Abbreviation client_at := (client_at clock_ok host client).
Local Abbreviation speaker := (speaker host client).
Local Abbreviation listener := (listener host client).

Lemma speaker_listener j :
  (speaker j = host /\ listener j = client) \/ (speaker j = client /\ listener j = host).
Proof. unfold Rendezvous.speaker, Rendezvous.listener. destruct (Nat.even j); auto. Qed.

(** What is not awaited changes nothing. *)
Lemma hear_unawaited j p m f w :
  says clock_ok host client j p m -> conveys clock_ok (speaker j) (listener j) p m f ->
  (p = Wire.Encrypted ->
     relying_key w = None \/ relying_key w = Some (prop_encryption_key (speaker j))) ->
  awaited (is_host (listener j)) p m (state w) = false ->
  hear (listener j) inputs f w = w.
Proof.
  intros _ Hc Hk Ha.
  destruct (deliver_stage clock_ok host client pair inputs (speaker j) (listener j) p m f 0 w)
    as (n & frame & Hr & Hp & _); [apply speaker_listener|done..|].
  unfold hear. rewrite Hr. unfold handle_message. rewrite run_reads_bind, Hp. unfold awaited in Ha.
  by destruct p, m, (state w), (is_host (listener j)).
Qed.

Lemma hear_own self other p m f w : carries self other p m f -> hear self inputs f w = w.
Proof.
  intros (text & random & c & _ & _ & -> & Hp). unfold hear, handle_receive.
  rewrite parse_compose_frame by (apply ascii_utf8_valid; by eapply sealed_ascii).
  rewrite run_lift_Ok. unfold is_recipient, remote_recipient, for_role. cbn. by destruct (is_host self).
Qed.

Lemma hear_unreadable self f w : unreadable self f -> hear self inputs f w = w.
Proof.
  intros Hf. unfold hear. destruct (run inputs 0 (handle_receive self f) w) as [[r n] w'] eqn:Hr. cbn.
  apply payload_effect in Hr as [->|(frame & text & m & Hp & _ & Ht & _)]; [done|].
  specialize (Hf frame text (relying_key w) Hp). destruct (prefix frame); [|done].
  destruct Ht as (key & Hk & Hd). by destruct (Hf key Hk).
Qed.

(** An end that goes on: it publishes the frame of stage [j] and repeats its message, or
    it repeats nothing any more. *)
Lemma frames_by_next b k j l p m f :
  frames_by clock_ok host client b k l -> j <= S k -> Nat.even j = b ->
  says clock_ok host client j p m -> conveys clock_ok (speaker j) (listener j) p m f ->
  frames_by clock_ok host client b (S k) (l ++ [f]).
Proof.
  intros Hl Hj Hb Hm Hc. apply (frames_by_snoc clock_ok host client b (S k) l j); [|done|done|by exists p, m].
  eapply frames_by_le; [|exact Hl]. lia.
Qed.

Lemma repeats_intro j w p r m :
  repeated w = Some (Resend p r m) -> r = (if Nat.even j then Host else Client) ->
  says clock_ok host client j p m -> repeats clock_ok host client j w.
Proof.
  intros Hr -> Hm. exists p, m. split; [|done]. rewrite Hr. do 2 f_equal.
  unfold Rendezvous.speaker, remote_recipient.
  destruct (Nat.even j); by rewrite ?(pair_host _ _ _ pair), ?(pair_client _ _ _ pair).
Qed.

Local Ltac next_frame j Hfr Hm Hc :=
  eapply (frames_by_next _ _ j); [exact Hfr| |reflexivity|exact Hm|exact Hc]; lia.

(** The host and a frame of the client. *)
Lemma host_hears_at k j f w :
  k <= 5 -> j <= k -> Nat.even j = true -> frame_of j f -> host_at k w ->
  let w' := hear host inputs f w in
  (j < k /\ w' = w) \/ (j = k /\ host_at (S k) w' /\ k < 5).
Proof.
  intros Hk5 Hj He (p & m & Hm & Hc) [Hs Hkey Hpeer Hdata Hfr Htask]. cbn zeta.
  assert (listener j = host /\ speaker j = client) as [El Es]
    by (unfold Rendezvous.listener, Rendezvous.speaker; by rewrite He).
  destruct (decide (j = k)) as [->|Hne].
  - right. rewrite Es, El in Hc.
    assert (k = 0 \/ k = 2 \/ k = 4) as Hk 
        by (clear - He Hk5; do 6 (destruct k as [|k]; [first [discriminate He|by auto]|]); lia).
    destruct Hk as [->|[->| ->]]; destruct p, m as [v t|pk t|c t|v t]; try done; destruct Hm as [-> Ht];
      cbn in Hs, Hkey, Hpeer.
    + destruct (host_flash_stage clock_ok host client pair inputs good 0 w f t Hs Hc)
        as (n & w' & f' & t' & Hr & [= V1 V2 V3 V4 V5] & Hrep & Hc'). unfold hear. rewrite Hr. cbn [snd].
      assert (says clock_ok host client 1 Wire.Handshake
        (Pubkey (mkPubkeyPayload (serialized (prop_encryption_key host))) t')) as Hm' by (split; [done|apply Hc']).
      split_and!; [done| |lia]. split; cbn; rewrite ?V1, ?V2, ?V3, ?V4, ?V5; try done;
        [next_frame 1 Hfr Hm' Hc'|by eapply repeats_intro].
    + destruct (host_pubkey_stage clock_ok host client pair inputs good 0 w f t Hs Hkey Hc)
        as (n & w' & f' & t' & Hr & [= V1 V2 V3 V4 V5] & Hrep & Hc'). unfold hear. rewrite Hr. cbn [snd].
      assert (says clock_ok host client 3 Wire.Encrypted (Capabilities (capabilities host) t')) as Hm'
        by (split; [done|apply Hc']).
      split_and!; [done| |lia]. split; cbn; rewrite ?V1, ?V2, ?V3, ?V4, ?V5; try done;
        [next_frame 3 Hfr Hm' Hc'|by eapply repeats_intro].
    + destruct (host_capabilities_stage clock_ok host client pair inputs 0 w f t Hs Hkey Hc)
        as (n & w' & Hr & [= V1 V2 V3 V4 V5] & Hrep). unfold hear. rewrite Hr. cbn [snd].
      split_and!; [done| |lia]. split; cbn; rewrite ?V1, ?V2, ?V3, ?V4, ?V5; try done.
      * unfold recorded. by rewrite Hpeer.
      * eapply frames_by_le; [|exact Hfr]. lia.
  - left. split; [lia|]. rewrite <- El. apply (hear_unawaited j p m); [done|done| |].
    + intros ->. rewrite Hkey, Es. destruct (3 <=? k); auto.
    + rewrite El, (pair_host _ _ _ pair), Hs. unfold awaited.
      destruct k as [|[|[|[|[|[|k]]]]]], j as [|[|[|[|[|j]]]]], p, m; try done; lia.
Qed.

(** An encrypted client answers the host's capabilities again. *)
Lemma client_answers_at k p m f w :
  k <= 5 -> 3 < k -> says clock_ok host client 3 p m -> conveys clock_ok (speaker 3) (listener 3) p m f ->
  client_at k w ->
  let w' := hear client inputs f w in
  ((3 < k /\ client_at k w') \/ (3 = k /\ client_at (S k) w' /\ k < 5)) /\
  (3 = 3 -> exists f', last (published w') = Some f' /\ frame_of 4 f').
Proof.
  intros Hk5 Hk Hm Hc [Hs Hkey Hpeer Hdata Hfr Htask]. cbn zeta.
  destruct p, m as [v t|pk t|c t|v t]; try done; destruct Hm as [-> Ht].
  assert (client_state k = Encrypted /\ (2 <=? k) = true /\
    match k with 0 | 1 => repeats clock_ok host client 0 w | 2 | 3 => repeats clock_ok host client 2 w
    | _ => repeated w = None end = (repeated w = None)) as (E1 & E2 & E3)
    by (clear - Hk Hk5; do 4 (destruct k as [|k]; [lia|]); done).
  rewrite E1 in Hs. rewrite E2 in Hkey. rewrite E3 in Htask.
  destruct (client_retry_stage clock_ok host client pair inputs good 0 w f t Hs Hkey Hc)
    as (n & w' & f' & t' & Hr & [= V1 V2 V3 V4 V5] & Hrep & Hc'). unfold hear. rewrite Hr. cbn [snd].
  assert (frame_of 4 f') as Hf' by (eexists _, _; split; [|exact Hc']; split; [done|apply Hc']).
  split; [left|intros _; exists f'; split; [by rewrite V5, last_snoc|done]]. split; [done|].
  split; rewrite ?V1, ?V2, ?V3, ?V4, ?V5, ?E1, ?E2; try done.
  - by apply (frames_by_snoc clock_ok host client true k _ 4).
  - do 4 (destruct k as [|k]; [lia|]). by rewrite Hrep.
Qed.

(** The client and a frame of the host. *)
Lemma client_hears_at k j f w :
  k <= 5 -> j <= k -> Nat.even j = false -> frame_of j f -> client_at k w ->
  let w' := hear client inputs f w in
  ((j < k /\ client_at k w') \/ (j = k /\ client_at (S k) w' /\ k < 5)) /\
  (j = 3 -> exists f', last (published w') = Some f' /\ frame_of 4 f').
Proof.
  intros Hk5 Hj He (p & m & Hm & Hc) HC. assert (HC' := HC). destruct HC' as [Hs Hkey Hpeer Hdata Hfr Htask].
  cbn zeta.
  assert (listener j = client /\ speaker j = host) as [El Es]
    by (unfold Rendezvous.listener, Rendezvous.speaker; by rewrite He).
  destruct (decide (j = k)) as [->|Hne].
  - rewrite Es, El in Hc.
    assert (k = 1 \/ k = 3) as Hk
      by (clear - He Hk5 Hm; do 6 (destruct k as [|k]; [first [discriminate He|by auto|by destruct p, m]|]); lia).
    destruct Hk as [->| ->]; destruct p, m as [v t|pk t|c t|v t]; try done; destruct Hm as [-> Ht];
      cbn in Hs, Hkey, Hpeer.
    + destruct (client_pubkey_stage clock_ok host client pair inputs good 0 w f t Hs Hkey Hc)
        as (n & w' & f' & t' & Hr & [= V1 V2 V3 V4 V5] & Hrep & Hc'). unfold hear. rewrite Hr. cbn [snd].
      assert (says clock_ok host client 2 Wire.Encrypted
        (Pubkey (mkPubkeyPayload (serialized (prop_encryption_key client))) t')) as Hm' by (split; [done|apply Hc']).
      split; [right|done]. split_and!; [done| |lia]. split; cbn; rewrite ?V1, ?V2, ?V3, ?V4, ?V5; try done;
        [next_frame 2 Hfr Hm' Hc'|by eapply repeats_intro].
    + destruct (client_capabilities_stage clock_ok host client pair inputs good 0 w f t Hs Hkey Hc)
        as (n & w' & f' & t' & Hr & [= V1 V2 V3 V4 V5] & Hrep & Hc'). unfold hear. rewrite Hr. cbn [snd].
      assert (says clock_ok host client 4 Wire.Encrypted (Capabilities (capabilities client) t')) as Hm'
        by (split; [done|apply Hc']).
      split; [right|intros _; exists f'; split; [by rewrite V5, last_snoc|by eexists _, _]].
      split_and!; [done| |lia]. split; cbn; rewrite ?V1, ?V2, ?V3, ?V4, ?V5; try done.
      * unfold recorded. by rewrite Hpeer.
      * next_frame 4 Hfr Hm' Hc'.
  - assert (j < k) as Hlt by lia. destruct (decide (j = 3)) as [->|Hj3].
    + by apply (client_answers_at k p m).
    + split; [left|done]. split; [done|].
      enough (hear client inputs f w = w) as -> by exact HC. rewrite <- El.
      apply (hear_unawaited j p m); [done|done| |].
      * intros ->. rewrite Hkey, Es. destruct (2 <=? k); auto.
      * rewrite El, (pair_client _ _ _ pair), Hs. unfold awaited.
        destruct k as [|[|[|[|[|[|k]]]]]], j as [|[|[|[|[|j]]]]], p, m; try done; lia.
Qed.

(** A resend task publishes its message once more. *)
Lemma tick_repeats j w :
  repeats clock_ok host client j w ->
  (2 <= j -> relying_key w = Some (prop_encryption_key (listener j))) ->
  exists f, let w' := tick (speaker j) inputs w in
    view w' = (state w, relying_key w, peer_capabilities w, message_tx w, published w ++ [f]) /\
    repeated w' = repeated w /\ frame_of j f.
Proof.
  intros (p & m & Hrep & Hm) Hk.
  assert (handshake_message clock_ok (speaker j) m) as Hhm.
  { unfold Rendezvous.speaker. destruct j as [|[|[|[|[|j]]]]], p, m; try done; by destruct Hm as [-> ?]. }
  destruct (speaker_listener j) as [Hso|Hso];
    (destruct (send_message_stage clock_ok host client pair inputs good (speaker j) (listener j) p m 0 w)
      as (n & w' & f & Hr & Hv & Hre & Hc); [by auto|apply (handshake_message_ok clock_ok host client pair
        (speaker j)); [destruct Hso as [-> _]; auto|done]|
      intros ->; apply Hk; destruct j as [|[|j]]; [by destruct m..|lia]|]);
    (exists f; cbn zeta; unfold tick; rewrite Hrep; unfold resend_round;
     change (run inputs 0 (await;; ?q) w) with (run inputs 0 q w);
     rewrite run_bind, run_attempt, Hr; split_and!; [exact Hv|cbn; congruence|by exists p, m; split]).
Qed.

Lemma tick_idle self w : repeated w = None -> tick self inputs w = w.
Proof. intros Hr. unfold tick. by rewrite Hr. Qed.

Lemma host_ticks_at k w :
  host_at k w ->
  let w' := tick host inputs w in
  host_at k w' /\
  match k with
  | 1 | 2 => exists f, last (published w') = Some f /\ frame_of 1 f
  | 3 | 4 => exists f, last (published w') = Some f /\ frame_of 3 f
  | _ => w' = w
  end.
Proof.
  intros HH. assert (HH' := HH). destruct HH' as [Hs Hkey Hpeer Hdata Hfr Htask]. cbn zeta.
  assert (forall j, (j = 1 /\ (k = 1 \/ k = 2)) \/ (j = 3 /\ (k = 3 \/ k = 4)) -> repeats clock_ok host client j w ->
    host_at k (tick host inputs w) /\
    exists f, last (published (tick host inputs w)) = Some f /\ frame_of j f) as Hrep.
  { intros j Hjk Hj. destruct (tick_repeats j w Hj) as (f & [= V1 V2 V3 V4 V5] & Hre & Hf).
    { intros Hj2. rewrite Hkey. destruct Hjk as [[-> _]|[-> [-> | ->]]]; [lia|done..]. }
    assert (speaker j = host) as Es by (destruct Hjk as [[-> _]|[-> _]]; done). rewrite Es in *.
    split; [|exists f; by rewrite V5, last_snoc].
    split; rewrite ?V1, ?V2, ?V3, ?V4, ?V5; try done.
    - apply (frames_by_snoc clock_ok host client false k _ j); try done;
        destruct Hjk as [[-> ?]|[-> ?]]; [lia|lia|done|done].
    - unfold repeats in *. rewrite Hre. exact Htask. }
  destruct k as [|[|[|[|[|k]]]]]; cbn in Htask;
    try (rewrite (tick_idle host w Htask); done); apply Hrep; auto.
Qed.

Lemma client_ticks_at k w :
  client_at k w ->
  let w' := tick client inputs w in
  client_at k w' /\
  match k with
  | 0 | 1 => exists f, last (published w') = Some f /\ frame_of 0 f
  | 2 | 3 => exists f, last (published w') = Some f /\ frame_of 2 f
  | _ => w' = w
  end.
Proof.
  intros HC. assert (HC' := HC). destruct HC' as [Hs Hkey Hpeer Hdata Hfr Htask]. cbn zeta.
  assert (forall j, (j = 0 /\ (k = 0 \/ k = 1)) \/ (j = 2 /\ (k = 2 \/ k = 3)) -> repeats clock_ok host client j w ->
    client_at k (tick client inputs w) /\
    exists f, last (published (tick client inputs w)) = Some f /\ frame_of j f) as Hrep.
  { intros j Hjk Hj. destruct (tick_repeats j w Hj) as (f & [= V1 V2 V3 V4 V5] & Hre & Hf).
    { intros Hj2. rewrite Hkey. destruct Hjk as [[-> _]|[-> [-> | ->]]]; [lia|done..]. }
    assert (speaker j = client) as Es by (destruct Hjk as [[-> _]|[-> _]]; done). rewrite Es in *.
    split; [|exists f; by rewrite V5, last_snoc].
    split; rewrite ?V1, ?V2, ?V3, ?V4, ?V5; try done.
    - apply (frames_by_snoc clock_ok host client true k _ j); try done;
        destruct Hjk as [[-> ?]|[-> ?]]; [lia|lia|done|done].
    - unfold repeats in *. rewrite Hre. exact Htask. }
  destruct k as [|[|[|[|k]]]]; cbn in Htask;
    try (rewrite (tick_idle client w Htask); done); apply Hrep; auto.
Qed.

End ends.

(** ** The simulation *)

Section simulation.
Context `{CryptoLaws} `{SignalingCodecLaws}.
Context (clock_ok : Z -> Prop) (host client : SignalingProperties).
Context (pair : honest_pair clock_ok host client).
Implicit Types (s : Pair) (k : nat).

Local Abbreviation pair_at := (pair_at clock_ok host client).
Local Abbreviation network_step := (network_step clock_ok host client).
Local Abbreviation frame_of := (frame_of clock_ok host client).

Lemma met_at s : met clock_ok host client s -> pair_at 0 s.
Proof.
  intros (hi & ci & Hhi & Hci & ->).
  destruct (host_setup_stage clock_ok host client pair hi Hhi 0 new_inner eq_refl)
    as (n & hw & Hr & [= V1 V2 V3 V4 V5] & Hrep). rewrite Hr. cbn [snd].
  destruct (client_setup_stage clock_ok host client pair ci Hci 0 new_inner eq_refl)
    as (m & cw & f & t & Hr' & [= V1' V2' V3' V4' V5'] & Hrep' & Hc). rewrite Hr'. cbn [snd].
  assert (says clock_ok host client 0 Wire.Handshake (Flash (Object []) t)) as Hm by (split; [done|apply Hc]).
  split; [lia|]. split; split; cbn; rewrite ?V1, ?V2, ?V3, ?V4, ?V5, ?V1', ?V2', ?V3', ?V4', ?V5'; try done.
  - constructor.
  - repeat constructor. exists 0. split_and!; [done..|by eexists _, _].
  - by eapply (repeats_intro clock_ok host client pair).
Qed.

(** A frame in the air is one of the frames so far. *)
Lemma air_frame k s f : pair_at k s -> f ∈ air s -> exists j, j <= k /\ frame_of j f.
Proof.
  intros (_ & [_ _ _ _ Hh _] & [_ _ _ _ Hc _]) [Hf|Hf]%elem_of_app;
    [eapply Forall_forall in Hh as (j & ? & _ & ?); [|exact Hf]|
     eapply Forall_forall in Hc as (j & ? & _ & ?); [|exact Hf]]; by exists j.
Qed.

Lemma host_hears_next k s inputs f :
  pair_at k s -> inputs_ok clock_ok inputs -> f ∈ air s \/ unreadable host f ->
  exists k', stage_step k k' /\ pair_at k' (mkPair (hear host inputs f (host_end s)) (client_end s)).
Proof.
  intros HP Hi Hf. assert (HP' := HP). destruct HP' as (Hk & HH & HC).
  assert (hear host inputs f (host_end s) = host_end s ->
    exists k', stage_step k k' /\ pair_at k' (mkPair (hear host inputs f (host_end s)) (client_end s))) as Hsame.
  { intros ->. exists k. split; [constructor|by destruct s]. }
  destruct Hf as [Hf|Hf]; [|by apply Hsame, hear_unreadable].
  destruct (air_frame k s f HP Hf) as (j & Hj & Hjf). destruct (Nat.even j) eqn:He.
  - destruct (host_hears_at clock_ok host client pair inputs Hi k j f (host_end s) Hk Hj He Hjf HH)
      as [[_ Heq]|(-> & HH' & Hlt)]; [by apply Hsame|].
    exists (S k). split; [by constructor|]. split; [lia|]. split; [done|]. apply client_waits; [|done].
    clear - He Hlt. do 5 (destruct k as [|k]; [first [discriminate He|by auto]|]). lia.
  - apply Hsame. destruct Hjf as (p & m & _ & _ & Hc). unfold speaker in Hc. rewrite He in Hc.
    by eapply hear_own.
Qed.

Lemma client_hears_next k s inputs f :
  pair_at k s -> inputs_ok clock_ok inputs -> f ∈ air s \/ unreadable client f ->
  exists k', stage_step k k' /\ pair_at k' (mkPair (host_end s) (hear client inputs f (client_end s))).
Proof.
  intros HP Hi Hf. assert (HP' := HP). destruct HP' as (Hk & HH & HC).
  assert (hear client inputs f (client_end s) = client_end s ->
    exists k', stage_step k k' /\ pair_at k' (mkPair (host_end s) (hear client inputs f (client_end s)))) as Hsame.
  { intros ->. exists k. split; [constructor|by destruct s]. }
  destruct Hf as [Hf|Hf]; [|by apply Hsame, hear_unreadable].
  destruct (air_frame k s f HP Hf) as (j & Hj & Hjf). destruct (Nat.even j) eqn:He.
  - apply Hsame. destruct Hjf as (p & m & _ & _ & Hc). unfold speaker in Hc. rewrite He in Hc.
    by eapply hear_own.
  - destruct (client_hears_at clock_ok host client pair inputs Hi k j f (client_end s) Hk Hj He Hjf HC)
      as [[[_ HC']|(-> & HC' & Hlt)] _]; [exists k; split; [constructor|by split_and!]|].
    exists (S k). split; [by constructor|]. split; [lia|]. split; [|done]. apply host_waits; [|done].
    clear - He Hlt. do 5 (destruct k as [|k]; [first [discriminate He|by auto]|]). lia.
Qed.

(** Every step of the network is a step of the abstract handshake. *)
Lemma network_step_at k s s' :
  pair_at k s -> network_step s s' -> exists k', stage_step k k' /\ pair_at k' s'.
Proof.
  intros HP Hs. inversion Hs as [? i f Hi Hf|? i f Hi Hf|? i Hi|? i Hi]; subst.
  - by apply host_hears_next.
  - by apply client_hears_next.
  - destruct HP as (Hk & HH & HC). exists k. split; [constructor|]. split_and!; [done| |done].
    by apply (host_ticks_at clock_ok host client pair i Hi).
  - destruct HP as (Hk & HH & HC). exists k. split; [constructor|]. split_and!; [done..|].
    by apply (client_ticks_at clock_ok host client pair i Hi).
Qed.

Lemma network_steps_at k s s' :
  pair_at k s -> rtc network_step s s' -> exists k', k <= k' /\ pair_at k' s'.
Proof.
  intros HP Hs. revert k HP. induction Hs as [s|s1 s2 s3 Hs _ IH]; intros k HP; [by exists k|].
  destruct (network_step_at k s1 s2 HP Hs) as (k' & Hk & HP').
  destruct (IH k' HP') as (k'' & Hk' & HP''). exists k''. split; [|done]. destruct Hk; lia.
Qed.

Lemma network_reachable_at s : network_reachable clock_ok host client s -> exists k, pair_at k s.
Proof.
  intros (s0 & Hm & Hs). destruct (network_steps_at 0 s0 s (met_at s0 Hm) Hs) as (k & _ & HP). by exists k.
Qed.

(** ** Rounds *)

(** Where a round leads. *)
Definition after_round (k : nat) : nat := match k with 0 => 1 | 1 | 2 => 3 | _ => 5 end.

(** The client's half: it hears the host's last frame. *)
Lemma client_half k h c inputs :
  inputs_ok clock_ok inputs -> pair_at k (mkPair h c) ->
  match k with
  | 1 | 2 => exists f, last (published h) = Some f /\ frame_of 1 f
  | 3 | 4 => exists f, last (published h) = Some f /\ frame_of 3 f
  | _ => True
  end ->
  let c' := hear_last client inputs h c in
  match k with
  | 0 => pair_at 0 (mkPair h c')
  | 1 | 2 => pair_at 2 (mkPair h c')
  | 3 | 4 => pair_at 4 (mkPair h c') /\ exists f, last (published c') = Some f /\ frame_of 4 f
  | _ => pair_at 5 (mkPair h c')
  end.
Proof.
  intros Hi (Hk & HH & HC) Hlast. cbn zeta. cbn [host_end client_end] in *. unfold hear_last.
  assert (forall j f, j <= k -> Nat.even j = false -> frame_of j f ->
    ((j < k /\ client_at clock_ok host client k (hear client inputs f c)) \/
     (j = k /\ client_at clock_ok host client (S k) (hear client inputs f c) /\ k < 5)) /\
    (j = 3 -> exists f', last (published (hear client inputs f c)) = Some f' /\ frame_of 4 f')) as Hear.
  { intros j f Hj He Hf. by apply (client_hears_at clock_ok host client pair inputs Hi). }
  assert (k = 0 \/ k = 1 \/ k = 2 \/ k = 3 \/ k = 4 \/ k = 5) as Hcases by lia.
  destruct Hcases as [->|[->|[->|[->|[->| ->]]]]].
  - destruct (last (published h)) as [f|] eqn:Hl; [|by split_and!].
    assert (Hfr := h_frames _ _ _ _ _ HH). eapply Forall_forall in Hfr as (j & Hj & He & _);
      [|by apply last_Some_elem_of].
    by assert (j = 0) as -> by lia.
  - destruct Hlast as (f & -> & Hf). destruct (Hear 1 f) as [[[? _]|(_ & HC' & _)] _]; [done..|lia|].
    split_and!; [cbn; lia| |done]. by apply (host_waits clock_ok host client 1); [left|].
  - destruct Hlast as (f & -> & Hf). destruct (Hear 1 f) as [[[_ HC']|(? & _)] _]; [lia|done|done| |lia].
    by split_and!.
  - destruct Hlast as (f & -> & Hf). destruct (Hear 3 f) as [[[? _]|(_ & HC' & _)] Hf']; [done..|lia|].
    split; [|by apply Hf']. split_and!; [cbn; lia| |done]. by apply (host_waits clock_ok host client 3); [right|].
  - destruct Hlast as (f & -> & Hf). destruct (Hear 3 f) as [[[_ HC']|(? & _)] Hf']; [lia|done|done| |lia].
    split; [by split_and!|by apply Hf'].
  - destruct (last (published h)) as [f|] eqn:Hl; [|by split_and!].
    assert (Hfr := h_frames _ _ _ _ _ HH). eapply Forall_forall in Hfr as (j & Hj & He & Hf);
      [|by apply last_Some_elem_of].
    destruct (Hear j f Hj He Hf) as [[[_ HC']|(-> & _ & ?)] _]; [by split_and!|lia].
Qed.

(** The host's half: it hears the client's last frame. *)
Lemma host_half k h c inputs :
  inputs_ok clock_ok inputs -> pair_at k (mkPair h c) -> k = 0 \/ k = 2 \/ k = 4 \/ k = 5 ->
  match k with
  | 0 | 2 | 4 => exists f, last (published c) = Some f /\ frame_of k f
  | _ => True
  end ->
  pair_at (match k with 0 => 1 | 2 => 3 | _ => 5 end) (mkPair (hear_last host inputs c h) c).
Proof.
  intros Hi (Hk & HH & HC) Hcases Hlast. cbn [host_end client_end] in *. unfold hear_last.
  assert (forall j f, j <= k -> Nat.even j = true -> frame_of j f ->
    (j < k /\ hear host inputs f h = h) \/ (j = k /\ host_at clock_ok host client (S k) (hear host inputs f h) /\ k < 5))
    as Hear.
  { intros j f Hj He Hf. by apply (host_hears_at clock_ok host client pair inputs Hi). }
  destruct Hcases as [->|[->|[->| ->]]].
  1-3: destruct Hlast as (f & -> & Hf);
    match type of Hf with frame_of ?j _ =>
      destruct (Hear j f) as [[? _]|(_ & HH' & _)]; [done..|lia|] end;
    split_and!; [cbn; lia|done|apply (client_waits clock_ok host client); auto].
  destruct (last (published c)) as [f|] eqn:Hl; [|by split_and!].
  assert (Hfr := c_frames _ _ _ _ _ HC). eapply Forall_forall in Hfr as (j & Hj & He & Hf);
    [|by apply last_Some_elem_of].
  destruct (Hear j f Hj He Hf) as [[_ ->]|(-> & _ & ?)]; [by split_and!|lia].
Qed.

Lemma round_at k s inputs :
  (forall i, inputs_ok clock_ok (inputs i)) -> pair_at k s ->
  pair_at (after_round k) (round host client inputs s).
Proof.
  intros Hi (Hk & HH & HC). unfold round.
  destruct (host_ticks_at clock_ok host client pair (inputs 0) (Hi 0) k (host_end s) HH) as [HH1 Hl1].
  set (h := tick host (inputs 0) (host_end s)) in *.
  assert (Hhalf := client_half k h (client_end s) (inputs 1) (Hi 1) (conj Hk (conj HH1 HC))).
  specialize (Hhalf ltac:(by destruct k as [|[|[|[|[|k]]]]])).
  cbn zeta in Hhalf. set (c1 := hear_last client (inputs 1) h (client_end s)) in *.
  set (k1 := match k with 0 => 0 | 1 | 2 => 2 | 3 | 4 => 4 | _ => 5 end).
  assert (pair_at k1 (mkPair h c1) /\ (k1 = 4 -> exists f, last (published c1) = Some f /\ frame_of 4 f))
    as [(Hk1 & HH2 & HC2) Hl2].
  { subst k1. destruct k as [|[|[|[|[|k]]]]]; try (by split; [apply Hhalf|intros; first [done|apply Hhalf]]). }
  cbn [host_end client_end] in HH2, HC2.
  destruct (client_ticks_at clock_ok host client pair (inputs 2) (Hi 2) k1 c1 HC2) as [HC3 Hl3].
  set (c := tick client (inputs 2) c1) in *.
  replace (after_round k) with (match k1 with 0 => 1 | 2 => 3 | _ => 5 end)
    by (subst k1; by destruct k as [|[|[|[|[|k]]]]]).
  apply (host_half k1); [apply Hi|by split_and!|subst k1; clear; destruct k as [|[|[|[|[|k]]]]]; auto|].
  clearbody k1. destruct k1 as [|[|[|[|[|k1]]]]]; try done. rewrite Hl3. by apply Hl2.
Qed.

(** Three rounds lead from every stage to the last one. *)
Lemma three_rounds k s inputs1 inputs2 inputs3 :
  (forall i, inputs_ok clock_ok (inputs1 i)) -> (forall i, inputs_ok clock_ok (inputs2 i)) ->
  (forall i, inputs_ok clock_ok (inputs3 i)) -> pair_at k s ->
  agreed host client 5
    (round host client inputs3 (round host client inputs2 (round host client inputs1 s))).
Proof.
  intros Hi1 Hi2 Hi3 HP. eapply pair_agreed.
  assert (after_round (after_round (after_round k)) = 5) as <-
    by (by destruct k as [|[|[|[|[|k]]]]]).
  by apply round_at, round_at, round_at.
Qed.

End simulation.

(** ** A publication that fails *)

Section stall.
Context `{CryptoLaws} `{SignalingCodecLaws}.
Context (clock_ok : Z -> Prop) (host client : SignalingProperties).
Context (pair : honest_pair clock_ok host client).
Implicit Types (w : Inner).

(** The channel refuses every publication; the rest is as in [inputs_ok]. *)
Definition channel_down (e : OpenLvError) (inputs : nat -> Input) : Prop :=
  forall n, length (in_random (inputs n)) = 12 /\ clock_ok (in_now (inputs n)) /\
    in_io (inputs n) = Err e.

Lemma repeated_stopped w : repeated (take_handshake_task w) = None.
Proof.
  unfold take_handshake_task. destruct (handshake_task w) eqn:Hh; [done|].
  unfold repeated. by rewrite Hh.
Qed.

(** A repeated message whose first publication fails is not repeated. *)
Lemma run_send_repeating_fails inputs e self other p m n w :
  honest self other -> honest other self -> encryptable m -> channel_down e inputs ->
  (p = Wire.Encrypted -> relying_key w = Some (prop_encryption_key other)) ->
  exists n' w', run inputs n (send_repeating self p (remote_recipient self) m) w = (Err e, n', w') /\
    state w' = state w /\ relying_key w' = relying_key w /\ repeated w' = None.
Proof.
  intros Hh Ho Hm Hd Hk.
  destruct (seal_ok self other p m (in_random (inputs (S n))) (take_handshake_task w)) as (c & Hs & _);
    [done..|apply Hd|intros Hp; unfold take_handshake_task; destruct (handshake_task w); by apply Hk|].
  unfold send_repeating.
  change (run inputs n (stop_repeating ≫= ?q) w) with (run inputs (S n) (q tt) (take_handshake_task w)).
  cbn beta. rewrite run_bind, (run_send_message _ _ _ _ _ _ _ _ Hs), (proj2 (proj2 (Hd (S (S n))))).
  eexists _, _. split; [done|]. split_and!; [..|apply repeated_stopped];
    unfold take_handshake_task; by destruct (handshake_task w).
Qed.

Lemma host_flash_fails inputs e w f t :
  channel_down e inputs -> state w = Ready ->
  conveys clock_ok client host Wire.Handshake (Flash (Object []) t) f ->
  let w' := hear host inputs f w in
  state w' = Handshake /\ relying_key w' = relying_key w /\ repeated w' = None.
Proof.
  intros Hd Hs Hc. cbn zeta.
  destruct (deliver_stage clock_ok host client pair inputs client host Wire.Handshake (Flash (Object []) t) f 0 w)
    as (n & frame & Hr & Hp & _); [by right|done..|].
  unfold hear. rewrite Hr. unfold handle_message. rewrite run_reads_bind, Hp, Hs, (pair_host _ _ _ pair).
  unfold receive_flash. rewrite run_set_state_bind, run_start_deadline_bind, run_pubkey_bind.
  set (now := in_now _). assert (clock_ok now) as Hnow by apply Hd.
  set (w1 := after_deadline _). rewrite <- (host_remote clock_ok host client pair).
  match goal with |- context [run inputs ?k (send_repeating host Wire.Handshake _ ?m) w1] =>
    destruct (run_send_repeating_fails inputs e host client Wire.Handshake m k w1)
      as (n' & w' & Hr' & Hst & Hk & Hrep); try done end.
  - apply (pair_honest_host _ _ _ pair).
  - apply (pair_honest_client _ _ _ pair).
  - by apply (handshake_message_ok clock_ok host client pair host); [left|].
  - rewrite Hr'. cbn [snd]. rewrite Hst, Hk. subst w1. unfold after_deadline.
    by destruct (deadline_task _).
Qed.

End stall.

(** ** Properties *)

(** C13. The pair refines an abstract handshake of five messages, whatever the network
    does: after any deliveries of anything that either end ever published, to either
    end, in any order, repeated or never, next to payloads of strangers, and after any
    rounds of the resend tasks, the pair is at a stage [k]: the two ends are in the states
    of that stage, have recorded exactly the keys and the capabilities of each other
    that belong to it, and have delivered no data; and each further step of the
    network stays at the stage or goes on to the next one. In particular no delivery
    leads back, to [Error], or past a message. *)
Theorem network_refines_handshake `{CryptoLaws, SignalingCodecLaws} clock_ok host client s :
  honest_pair clock_ok host client -> network_reachable clock_ok host client s ->
  exists k, k <= 5 /\ agreed host client k s /\
    forall s', network_step clock_ok host client s s' ->
      exists k', stage_step k k' /\ agreed host client k' s'.
Proof.
  intros Hp (k & HP)%network_reachable_at; [|done]. exists k. split; [apply HP|].
  split; [by eapply pair_agreed|]. intros s' Hs.
  destruct (network_step_at clock_ok host client Hp k s s' HP Hs) as (k' & Hk & HP').
  exists k'. split; [done|]. by eapply pair_agreed.
Qed.

(** C11. The handshake heals: whatever the network lost, repeated or reordered so far, three
    rounds in which the last frame of each end arrives after its resend task has fired
    complete it: both ends are [Encrypted], each with the other's key and
    capabilities. From the first message on, nothing that happened before has to be
    undone, and no more rounds are needed. *)
Theorem rounds_complete_handshake `{CryptoLaws, SignalingCodecLaws} clock_ok host client s inputs1 inputs2 inputs3 :
  honest_pair clock_ok host client -> network_reachable clock_ok host client s ->
  (forall i, inputs_ok clock_ok (inputs1 i)) -> (forall i, inputs_ok clock_ok (inputs2 i)) ->
  (forall i, inputs_ok clock_ok (inputs3 i)) ->
  agreed host client 5
    (round host client inputs3 (round host client inputs2 (round host client inputs1 s))).
Proof.
  intros Hp (k & HP)%network_reachable_at Hi1 Hi2 Hi3; [|done]. by eapply three_rounds.
Qed.

(** C14. One refused publication stops the handshake: when the channel refuses the host's
    first answer to the client's flash, the host is in [Handshake] without a resend task;
    so it stays there, however often the client repeats its flash and however well the
    channel works again. Only the deadline ends it. *)
Theorem refused_publication_stalls `{CryptoLaws, SignalingCodecLaws} clock_ok host client e inputs w f t :
  honest_pair clock_ok host client -> state w = Ready ->
  conveys clock_ok client host Wire.Handshake (Flash (Object []) t) f ->
  channel_down clock_ok e inputs ->
  let w' := hear host inputs f w in
  state w' = Handshake /\ repeated w' = None /\
  forall inputs', tick host inputs' w' = w' /\
    forall f' t', conveys clock_ok client host Wire.Handshake (Flash (Object []) t') f' ->
      hear host inputs' f' w' = w'.
Proof.
  intros Hp Hs Hc Hd. cbn zeta.
  destruct (host_flash_fails clock_ok host client Hp inputs e w f t Hd Hs Hc) as (Hs' & _ & Hrep).
  split_and!; [done..|]. intros inputs'. split; [by apply tick_idle|]. intros f' t' Hc'.
  apply (hear_unawaited clock_ok host client Hp inputs' 0 Wire.Handshake (Flash (Object []) t'));
    [by split; [|apply Hc']|done|done|].
  cbn. by rewrite Hs'.
Qed.

(** ** Witnesses *)

Import CryptoModel TextModel LayerModel.

Definition model_rounds (i : nat) : nat -> Input := model_inputs.

(** Both ends set up; the client's flash was heard, and the answer to it was lost. *)
Definition model_met : Pair :=
  mkPair (run model_inputs 0 (setup model_host) new_inner).2 (run model_inputs 0 (setup model_client) new_inner).2.
Definition model_lost : Pair :=
  mkPair (hear model_host model_inputs (last_published (client_end model_met)) (host_end model_met))
    (client_end model_met).

Lemma model_lost_reachable : network_reachable model_clock model_host model_client model_lost.
Proof.
  exists model_met. split; [by exists model_inputs, model_inputs; split_and!; [apply model_inputs_ok..|]|].
  apply rtc_once. apply (host_hears _ _ _ model_met); [apply model_inputs_ok|]. left.
  apply elem_of_app. right. vm_compute. apply list_elem_of_here.
Qed.

Lemma network_refines_handshake_witness :
  exists k, k <= 5 /\ agreed model_host model_client k model_lost.
Proof.
  destruct (network_refines_handshake model_clock model_host model_client model_lost model_pair
    model_lost_reachable) as (k & Hk & Ha & _).
  exists k. split; [exact Hk|exact Ha].
Defined.

Lemma rounds_complete_handshake_witness :
  let s := round model_host model_client model_rounds
    (round model_host model_client model_rounds (round model_host model_client model_rounds model_lost)) in
  state (host_end s) = Encrypted /\ state (client_end s) = Encrypted.
Proof.
  apply (agreed_states _ _ _ _ (rounds_complete_handshake model_clock model_host model_client model_lost
    model_rounds model_rounds model_rounds model_pair model_lost_reachable
    (fun _ => model_inputs_ok) (fun _ => model_inputs_ok) (fun _ => model_inputs_ok))).
Defined.

(** The same inputs, and a channel that is down. *)
Definition down_inputs (n : nat) : Input :=
  mkInput (in_random (model_inputs n)) (in_now (model_inputs n)) (Err NoConnection).

Lemma down_inputs_ok : channel_down model_clock NoConnection down_inputs.
Proof. intros n. destruct (model_inputs_ok n) as (? & ? & _). by split_and!. Qed.

Lemma model_flash :
  conveys model_clock model_client model_host Wire.Handshake (Flash (Object []) 1700000000000)
    (last_published (client_end model_met)).
Proof.
  split; [by split|]. eexists _, witness_iv, _. split; [reflexivity|]. split; [reflexivity|].
  split; [vm_compute; reflexivity|]. eexists. split; [reflexivity|]. vm_compute. reflexivity.
Qed.

Lemma refused_publication_stalls_witness :
  let w' := hear model_host down_inputs (last_published (client_end model_met)) (host_end model_met) in
  state w' = Handshake /\ hear model_host model_inputs (last_published (client_end model_met)) w' = w'.
Proof.
  destruct (refused_publication_stalls model_clock model_host model_client NoConnection down_inputs
    (host_end model_met) (last_published (client_end model_met)) 1700000000000 model_pair)
    as (Hs & _ & Hrest).
  - vm_compute. reflexivity.
  - exact model_flash.
  - exact down_inputs_ok.
  - split; [exact Hs|]. exact (proj2 (Hrest model_inputs) _ _ model_flash).
Defined.
