(* ===== verification/Link.v ===== *)
(** * The handshake over a signaling channel

    Each layer with a channel of its own ([Channel.v]): what a layer publishes goes out
    over its channel; the network brings events to either channel; a channel hands
    payloads to the layer, each of which is handled by a task of its own, in any order.
    This composition refines the network of [Rendezvous.v], for every channel that
    keeps the promises of its class. *)
From S2P Require Import Prelude RustStr Errors Json Wire CryptoLib CryptoModel Encryption.
From S2P Require Import Message TextModel Tasks Channel Mqtt NtfyChannel Regex SessionUri.
From S2P Require Import SignalingLayer SignalingSafety SignalingRun Handshake Rendezvous.
Local Open Scope string_scope.
Local Open Scope list_scope.
Local Open Scope nat_scope.

(** ** Layers publish more and more *)

Section grows.
Context `{CryptoLib} `{SignalingCodec}.

Definition publishes (w w' : Inner) : Prop := published w `prefix_of` published w'.

#[export] Instance publishes_preorder : PreOrder publishes.
Proof. split; [by intros w; unfold publishes|intros w1 w2 w3; unfold publishes; by etrans]. Qed.

Lemma quiet (f : Inner -> Inner) :
  (forall w, published (f w) = published w) -> every publishes (writes f : Layer unit).
Proof. intros Hf. apply every_writes. intros w. unfold publishes. by rewrite Hf. Qed.

Lemma take_handshake_quiet w : published (take_handshake_task w) = published w.
Proof. unfold take_handshake_task. by destruct (handshake_task w). Qed.

Lemma take_deadline_quiet w : published (take_deadline_task w) = published w.
Proof. unfold take_deadline_task. by destruct (deadline_task w). Qed.

(** Go through the atoms of a layer's program. *)
Ltac every_layer :=
  repeat match goal with
  | |- every _ (_ ≫= _) => apply every_bind; [|intros ?]
  | |- every _ (writes _) => apply quiet; intros ?; auto using take_handshake_quiet, take_deadline_quiet
  | |- every _ (reads _) => apply (every_reads publishes)
  | |- every _ (asks _) => apply (every_asks publishes)
  | |- every _ (lift _) => exact Logic.I
  | |- every _ (mret _) => exact Logic.I
  | |- every _ await => exact Logic.I
  | |- every _ (attempt _) => apply every_attempt
  | |- every _ (if ?b then _ else _) => destruct b
  | |- every _ (match ?x with _ => _ end) => destruct x
  end.

Lemma set_state_publishes s : every publishes (set_state s).
Proof. unfold set_state, stop_handshake_tasks, stop_repeating. by every_layer. Qed.

Lemma spawn_publishes kind : every publishes (spawn_task kind).
Proof. apply every_atom. intros i w. unfold publishes. done. Qed.

Lemma send_message_publishes self p r m : every publishes (send_message self p r m).
Proof.
  unfold send_message, publish. every_layer; apply every_atom; intros i w; unfold publishes; [done|].
  cbn. by apply prefix_app_r.
Qed.

Lemma send_repeating_publishes self p r m : every publishes (send_repeating self p r m).
Proof.
  unfold send_repeating, stop_repeating. every_layer; auto using spawn_publishes, send_message_publishes.
Qed.

#[local] Hint Resolve set_state_publishes spawn_publishes send_message_publishes send_repeating_publishes : openlv.

Lemma deadline_publishes : every publishes start_handshake_deadline.
Proof. unfold start_handshake_deadline. every_layer; auto with openlv. Qed.

Lemma handle_message_publishes self frame m : every publishes (handle_message self frame m).
Proof.
  unfold handle_message, receive_flash, receive_host_pubkey, receive_client_pubkey, receive_capabilities,
    send_own_capabilities, store_relying_key, store_peer_capabilities, pubkey_message, capabilities_message,
    current_timestamp.
  every_layer; auto using deadline_publishes with openlv; try (by case_match);
    apply every_atom; intros i w; unfold publishes; by destruct (relying_key w).
Qed.

Lemma handle_receive_publishes self payload : every publishes (handle_receive self payload).
Proof.
  unfold handle_receive, open_frame. every_layer. apply handle_message_publishes.
Qed.

Lemma hear_publishes self inputs f w : published w `prefix_of` published (hear self inputs f w).
Proof. apply (every_run publishes), handle_receive_publishes. Qed.

Lemma tick_publishes self inputs w : published w `prefix_of` published (tick self inputs w).
Proof.
  unfold tick. destruct (repeated w) as [[p r m|]|]; [|done..].
  apply (every_run publishes). unfold resend_round. every_layer. apply send_message_publishes.
Qed.

End grows.

(** ** Ends, and what happens to them *)

Section link.
Context `{CryptoLib} `{SignalingCodec}.
Context {C Event : Type} `{!SignalingChannel C Event}.
Context (clock_ok : Z -> Prop) (host client : SignalingProperties).

(** A layer, its channel, and the payloads that the channel handed over and whose tasks
    have not run yet. *)
Record End : Type := mkEnd {
  layer : Inner;
  chan : C;
  inbox : list string;
}.

(** Both ends, and the publications that the server has seen. *)
Record Link : Type := mkLink {
  host_side : End;
  client_side : End;
  wire : list NetCall;
}.

(** Every call of the network library succeeds, and there is a runtime. *)
Definition network_ok (inputs : nat -> NetInput) : Prop :=
  forall n, net_io (inputs n) = inl tt /\ net_runtime (inputs n) = true.

(** The channel carries out the publications of a layer that goes on to [w']; the calls
    it makes for them. *)
Definition transmit (inputs : nat -> NetInput) (w' : Inner) (x : End) : End * list NetCall :=
  let c' := (run inputs 0 (publish_all (drop (length (published (layer x))) (published w'))) (chan x)).2 in
  (mkEnd w' c' (inbox x), drop (length (net (chan x))) (net c')).

(** The channel goes on to [c'] and hands over what is new. *)
Definition hands (c' : C) (x : End) : End :=
  mkEnd (layer x) c' (inbox x ++ drop (length (handed (chan x))) (handed c')).

Definition without (i : nat) (x : End) : End := mkEnd (layer x) (chan x) (delete i (inbox x)).

(** The steps of one end: its channel is brought the event of a call on the wire, or
    runs one of its tasks; its layer handles a payload that was handed over, or one of
    a stranger, or its resend task fires. *)
Inductive end_step (self : SignalingProperties) (calls : list NetCall) : End -> End * list NetCall -> Prop :=
| end_event x inputs call e : network_ok inputs -> call ∈ calls -> relays call e ->
    end_step self calls x (hands (run inputs 0 (on_event e) (chan x)).2 x, [])
| end_task x inputs i : network_ok inputs ->
    end_step self calls x (hands (run inputs 0 (run_task i) (chan x)).2 x, [])
| end_handles x inputs cinputs i f : inputs_ok clock_ok inputs -> network_ok cinputs ->
    inbox x !! i = Some f ->
    end_step self calls x (transmit cinputs (hear self inputs f (layer x)) (without i x))
| end_stranger x inputs cinputs f : inputs_ok clock_ok inputs -> network_ok cinputs -> unreadable self f ->
    end_step self calls x (transmit cinputs (hear self inputs f (layer x)) x)
| end_ticks x inputs cinputs : inputs_ok clock_ok inputs -> network_ok cinputs ->
    end_step self calls x (transmit cinputs (tick self inputs (layer x)) x).

Inductive link_step : Link -> Link -> Prop :=
| host_side_step s x calls : end_step host (wire s) (host_side s) (x, calls) ->
    link_step s (mkLink x (client_side s) (wire s ++ calls))
| client_side_step s x calls : end_step client (wire s) (client_side s) (x, calls) ->
    link_step s (mkLink (host_side s) x (wire s ++ calls)).

(** A channel after its setup and its subscription. *)
Definition opened (c : C) : Prop :=
  exists inputs n c0 n', pending c0 = [] /\
    run inputs n (Channel.setup;; Channel.subscribe) c0 = (Ok tt, n', c).

(** The setup of one end, on an open channel. *)
Definition start (self : SignalingProperties) (inputs : nat -> Input) (cinputs : nat -> NetInput) (c : C)
    : End * list NetCall :=
  transmit cinputs (run inputs 0 (SignalingLayer.setup self) new_inner).2 (mkEnd new_inner c []).

Definition linked (s : Link) : Prop :=
  exists host_inputs client_inputs cinputs hc cc,
    inputs_ok clock_ok host_inputs /\ inputs_ok clock_ok client_inputs /\ network_ok cinputs /\
    opened hc /\ opened cc /\
    let '(x, host_calls) := start host host_inputs cinputs hc in
    let '(y, client_calls) := start client client_inputs cinputs cc in
    s = mkLink x y (host_calls ++ client_calls).

Definition link_reachable (s : Link) : Prop := exists s0, linked s0 /\ rtc link_step s0 s.

(** What [Rendezvous.v] sees of it. *)
Definition ends (s : Link) : Pair := mkPair (layer (host_side s)) (layer (client_side s)).

End link.

#[global] Arguments End : clear implicits.
#[global] Arguments Link : clear implicits.

(** ** The refinement *)

Section refinement.
Context `{CryptoLaws} `{SignalingCodecLaws}.
Context {C Event : Type} `{!SignalingChannel C Event} `{!SignalingChannelLaws C Event}.
Context (clock_ok : Z -> Prop) (host client : SignalingProperties).
Context (pair : honest_pair clock_ok host client).
Implicit Types (x : End C) (s : Link C).

(** A frame of the handshake is text that a channel can carry. *)
Lemma carries_utf8 self other p m f :
  Handshake.carries self other p m f -> utf8_valid (as_bytes f) = true.
Proof.
  intros (text & random & c & _ & _ & -> & Hp). apply sealed_ascii in Hp. apply ascii_utf8_valid.
  by destruct p, (remote_recipient self).
Qed.

(** What holds of one end, where [frames] are the frames in the air. *)
Record end_ok (frames : list string) (x : End C) : Prop := {
  end_connected : connected (chan x) = true;
  end_subscribed : subscribed (chan x) = true;
  end_pending : Forall (fun p => p ∈ frames) (pending (chan x));
  end_inbox : Forall (fun p => p ∈ frames) (inbox x);
}.

(** Each publication on the wire brings a frame. *)
Definition wire_ok (frames : list string) (calls : list NetCall) : Prop :=
  Forall (fun call => exists p, p ∈ frames /\ carries_to (C := C) call p /\ exists e, relays (C := C) call e) calls.

Lemma end_ok_mono frames frames' x :
  (forall f, f ∈ frames -> f ∈ frames') -> end_ok frames x -> end_ok frames' x.
Proof. intros Hf [? ? ? ?]. split; [done|done|..]; eapply Forall_impl; eauto. Qed.

Lemma wire_ok_mono frames frames' calls :
  (forall f, f ∈ frames -> f ∈ frames') -> wire_ok frames calls -> wire_ok frames' calls.
Proof. intros Hf Hc. eapply Forall_impl; [exact Hc|]. intros call (p & Hp & ?). exists p. auto. Qed.

(** The frame is on the wire. *)
Definition on_wire (calls : list NetCall) (f : string) : Prop :=
  exists call, call ∈ calls /\ carries_to (C := C) call f /\ exists e, relays (C := C) call e.

Lemma on_wire_app calls calls' f : on_wire calls f \/ on_wire calls' f -> on_wire (calls ++ calls') f.
Proof. intros [(call & Hc & ?)|(call & Hc & ?)]; exists call; (split; [apply elem_of_app; auto|done]). Qed.

(** Transmission: the new frames are on the wire. *)
Lemma transmit_ok cinputs w' x frames :
  published (layer x) `prefix_of` published w' ->
  Forall (fun f => utf8_valid (as_bytes f) = true) (published w') ->
  (forall f, f ∈ published w' -> f ∈ frames) -> end_ok frames x ->
  let '(x', calls) := transmit cinputs w' x in
  layer x' = w' /\ end_ok frames x' /\ wire_ok frames calls /\
  (forall f, f ∈ published w' -> f ∈ published (layer x) \/ on_wire calls f).
Proof.
  intros [l Hl] Hu Hin [Hc Hs Hp Hi]. unfold transmit. rewrite Hl, drop_app_length.
  destruct (run_publish_all cinputs 0 (chan x) l Hc) as (rs & n & c' & calls & Hr & _ & Hn & Hcalls & Hes & Hc' & Hs' & Hh' & Hp').
  { rewrite Hl in Hu. by apply Forall_app in Hu as [_ Hu]. }
  rewrite Hr. cbn [snd layer inbox chan]. rewrite Hn, drop_app_length. split_and!; [done..|split; cbn [chan inbox]| |].
  - done.
  - by rewrite Hs'.
  - by rewrite Hp'.
  - done.
  - unfold wire_ok. apply Forall_forall. intros call Hcall. apply list_elem_of_lookup in Hcall as [k Hk].
    destruct (Forall2_lookup_l _ _ _ _ _ Hcalls Hk) as (p & Hkp & Hcp). exists p.
    split_and!; [|done|by eapply Forall_lookup_1 in Hes].
    apply Hin. rewrite Hl. apply elem_of_app. right. by eapply list_elem_of_lookup_2.
  - intros f [Hf|Hf]%elem_of_app; [by left|right]. apply list_elem_of_lookup in Hf as [k Hk].
    destruct (Forall2_lookup_r _ _ _ _ _ Hcalls Hk) as (call & Hkc & Hcf). exists call.
    split_and!; [by eapply list_elem_of_lookup_2|done|by eapply Forall_lookup_1 in Hes].
Qed.

Lemma opened_ok (c : C) : opened c -> end_ok [] (mkEnd new_inner c []) /\ pending c = [].
Proof.
  intros (inputs & n & c0 & n' & Hp0 & Hr). rewrite run_bind in Hr.
  destruct (run inputs n Channel.setup c0) as [[r1 n1] c1] eqn:Hr1.
  destruct (setup_connects _ _ _ _ _ _ Hr1) as (_ & Hc1 & _ & _ & Hp1).
  destruct r1 as [[]|e|]; [|done..].
  destruct (subscribe_ok inputs n1 c1) as (n2 & c2 & Hr2 & Hs2 & Hc2 & _ & _ & Hp2).
  rewrite Hr2 in Hr. injection Hr as _ <-. assert (pending c2 = []) as Hp by congruence.
  split; [|done]. split; cbn; [by rewrite Hc2, Hc1, orb_true_r|done|by rewrite Hp; constructor|constructor].
Qed.

(** A channel hands over payloads that are in the air. *)
Lemma hands_ok (c' : C) x frames :
  connected c' = true -> subscribed c' = true -> Forall (fun p => p ∈ frames) (pending c') ->
  (exists l, handed c' = handed (chan x) ++ l /\ Forall (fun p => p ∈ frames) l) ->
  end_ok frames x -> end_ok frames (hands c' x).
Proof.
  intros Hc Hs Hp (l & Hl & Hin) [_ _ _ Hi]. split; [done..|]. unfold hands. cbn. rewrite Hl, drop_app_length.
  by apply Forall_app.
Qed.

(** What a step of one end does to its layer: nothing, or a step of [Rendezvous.v]. *)
Inductive layer_moves (self : SignalingProperties) (frames : list string) (w : Inner) : Inner -> Prop :=
| moves_hear inputs f : inputs_ok clock_ok inputs -> f ∈ frames \/ unreadable self f ->
    layer_moves self frames w (hear self inputs f w)
| moves_tick inputs : inputs_ok clock_ok inputs -> layer_moves self frames w (tick self inputs w).

Lemma layer_moves_publishes self frames w w' :
  layer_moves self frames w w' -> published w `prefix_of` published w'.
Proof. intros [i f _ _|i _]; [apply hear_publishes|apply tick_publishes]. Qed.

Lemma end_step_ok self calls x x' new frames :
  end_ok frames x -> wire_ok frames calls -> end_step clock_ok self calls x (x', new) ->
  (layer x' = layer x /\ new = [] /\ end_ok frames x') \/
  (layer_moves self frames (layer x) (layer x') /\
   forall frames', (forall f, f ∈ frames -> f ∈ frames') -> (forall f, f ∈ published (layer x') -> f ∈ frames') ->
     Forall (fun f => utf8_valid (as_bytes f) = true) (published (layer x')) ->
     end_ok frames' x' /\ wire_ok frames' new /\
     forall f, f ∈ published (layer x') -> f ∈ published (layer x) \/ on_wire new f).
Proof.
  intros Hx Hw Hs.
  assert (forall y cinputs w' frames', transmit cinputs w' y = (x', new) -> layer y = layer x ->
    published (layer x) `prefix_of` published w' -> end_ok frames' y ->
    (forall f, f ∈ published w' -> f ∈ frames') ->
    Forall (fun f => utf8_valid (as_bytes f) = true) (published w') ->
    end_ok frames' x' /\ wire_ok frames' new /\
    forall f, f ∈ published w' -> f ∈ published (layer x) \/ on_wire new f) as Htr.
  { intros y cinputs w' frames' Ht Hy Hpre Hyo Hin Hu.
    assert (Hok := transmit_ok cinputs w' y frames'). rewrite Ht, Hy in Hok.
    destruct (Hok Hpre Hu Hin Hyo) as (? & ? & ? & ?); by split_and!. }
  inversion Hs as [? i call e Hn Hcall He|? i k Hn|? i ci k f Hi Hn Hf|? i ci f Hi Hn Hf|? i ci Hi Hn]; subst.
  - left. split; [done|]. split; [done|]. destruct Hx as [Hc Hsub Hp Hin].
    unfold wire_ok in Hw. rewrite Forall_forall in Hw. destruct (Hw call Hcall) as (p & Hpf & Hcar & _).
    destruct (Hcar e i 0 (chan x) He Hsub (proj2 (Hn 0))) as (n' & c' & Hr & Hs' & Hc' & Hnet & Ht).
    rewrite Hr. cbn [snd]. apply hands_ok; [congruence|done| | |done]; destruct Channel.ordered.
    + by rewrite (proj2 Ht).
    + rewrite (proj2 Ht). by apply Forall_app_2; [|repeat constructor].
    + exists [p]. split; [apply Ht|by repeat constructor].
    + exists []. split; [by rewrite app_nil_r, (proj1 Ht)|constructor].
  - left. split; [done|]. split; [done|]. destruct Hx as [Hc Hsub Hp Hin].
    destruct (run_task_ok i 0 (chan x) k Hsub) as (n' & c' & Hr & Hs' & Hc' & Hnet & Hh & Hpd).
    rewrite Hr. cbn [snd]. apply hands_ok; [congruence|done| | |done].
    + rewrite Hpd. by apply Forall_delete.
    + eexists. split; [exact Hh|]. destruct (pending (chan x) !! k) eqn:Hk; [|constructor].
      cbn. repeat constructor. by eapply Forall_lookup_1 in Hp.
  - right. cbn [layer]. split.
    { constructor; [done|]. left. by eapply (Forall_lookup_1 _ _ _ _ (end_inbox _ _ Hx)). }
    intros frames' Hf1 Hf2 Hu. apply (Htr (without k x) ci (hear self i f (layer x)) frames'); try done; [apply hear_publishes|].
    destruct (end_ok_mono frames frames' x Hf1 Hx). split; [done..|]. cbn. by apply Forall_delete.
  - right. cbn [layer]. split; [constructor; [done|by right]|].
    intros frames' Hf1 Hf2 Hu. apply (Htr x ci (hear self i f (layer x)) frames'); try done; [apply hear_publishes|exact (end_ok_mono frames frames' x Hf1 Hx)].
  - right. cbn [layer]. split; [by constructor|].
    intros frames' Hf1 Hf2 Hu. apply (Htr x ci (tick self i (layer x)) frames'); try done; [apply tick_publishes|exact (end_ok_mono frames frames' x Hf1 Hx)].
Qed.

(** The invariant of the composition. *)
Record link_inv (s : Link C) : Prop := {
  li_network : network_reachable clock_ok host client (ends s);
  li_host : end_ok (air (ends s)) (host_side s);
  li_client : end_ok (air (ends s)) (client_side s);
  li_wire : wire_ok (air (ends s)) (wire s);
  li_sent : forall f, f ∈ air (ends s) -> on_wire (wire s) f;
}.

Lemma air_utf8 p f :
  network_reachable clock_ok host client p -> f ∈ air p -> utf8_valid (as_bytes f) = true.
Proof.
  intros (k & HP)%network_reachable_at Hf; [|done].
  destruct (air_frame clock_ok host client k p f HP Hf) as (j & _ & q & m & _ & _ & Hc). by eapply carries_utf8.
Qed.

Lemma network_reachable_step p p' :
  network_reachable clock_ok host client p -> network_step clock_ok host client p p' ->
  network_reachable clock_ok host client p'.
Proof. intros (p0 & Hm & Hp) Hs. exists p0. split; [done|]. by eapply rtc_r. Qed.

Lemma link_step_refines s s' :
  link_inv s -> link_step clock_ok host client s s' ->
  link_inv s' /\ (ends s' = ends s \/ network_step clock_ok host client (ends s) (ends s')).
Proof.
  intros [Hn Hh Hc Hw Hsent] Hs. inversion Hs as [? x calls Hx|? x calls Hx]; subst.
  - destruct (end_step_ok host (wire s) (host_side s) x calls _ Hh Hw Hx) as [(Hl & -> & Hx')|(Hm & Hx')].
    + assert (ends (mkLink x (client_side s) (wire s ++ [])) = ends s) as He
        by (unfold ends; cbn; by rewrite Hl).
      split; [|by left]. rewrite app_nil_r in *. by split; rewrite ?He.
    + set (s' := mkLink x (client_side s) (wire s ++ calls)).
      assert (network_step clock_ok host client (ends s) (ends s')) as Hstep.
      { unfold ends. cbn. destruct Hm; [by apply (host_hears _ _ _ (ends s))|by apply (host_ticks _ _ _ (ends s))]. }
      assert (Hn' := network_reachable_step _ _ Hn Hstep). split; [|by right].
      assert (forall f, f ∈ air (ends s) -> f ∈ air (ends s')) as Hair.
      { apply layer_moves_publishes in Hm as [l Hl]. intros f [Hf|Hf]%elem_of_app; apply elem_of_app; [left|by right].
        cbn. rewrite Hl. apply elem_of_app. by left. }
      destruct (Hx' (air (ends s'))) as (Hx1 & Hx2 & Hx3); [done|intros f Hf; apply elem_of_app; by left| |].
      { apply Forall_forall. intros f Hf. apply (air_utf8 (ends s')); [done|]. apply elem_of_app. by left. }
      split; [done|done|by eapply end_ok_mono|apply Forall_app; split; [by eapply wire_ok_mono|done]|].
      intros f [Hf|Hf]%elem_of_app; apply on_wire_app.
      * destruct (Hx3 f Hf); [left|by right]. apply Hsent, elem_of_app. by left.
      * left. apply Hsent, elem_of_app. by right.
  - destruct (end_step_ok client (wire s) (client_side s) x calls _ Hc Hw Hx) as [(Hl & -> & Hx')|(Hm & Hx')].
    + assert (ends (mkLink (host_side s) x (wire s ++ [])) = ends s) as He
        by (unfold ends; cbn; by rewrite Hl).
      split; [|by left]. rewrite app_nil_r in *. by split; rewrite ?He.
    + set (s' := mkLink (host_side s) x (wire s ++ calls)).
      assert (network_step clock_ok host client (ends s) (ends s')) as Hstep.
      { unfold ends. cbn. destruct Hm; [by apply (client_hears _ _ _ (ends s))|by apply (client_ticks _ _ _ (ends s))]. }
      assert (Hn' := network_reachable_step _ _ Hn Hstep). split; [|by right].
      assert (forall f, f ∈ air (ends s) -> f ∈ air (ends s')) as Hair.
      { apply layer_moves_publishes in Hm as [l Hl]. intros f [Hf|Hf]%elem_of_app; apply elem_of_app; [by left|right].
        cbn. rewrite Hl. apply elem_of_app. by left. }
      destruct (Hx' (air (ends s'))) as (Hx1 & Hx2 & Hx3); [done|intros f Hf; apply elem_of_app; by right| |].
      { apply Forall_forall. intros f Hf. apply (air_utf8 (ends s')); [done|]. apply elem_of_app. by right. }
      split; [done|by eapply end_ok_mono|done|apply Forall_app; split; [by eapply wire_ok_mono|done]|].
      intros f [Hf|Hf]%elem_of_app; apply on_wire_app.
      * left. apply Hsent, elem_of_app. by left.
      * destruct (Hx3 f Hf); [left|by right]. apply Hsent, elem_of_app. by right.
Qed.

(** The setup of one end puts its frames on the wire. *)
Lemma start_ok self inputs ni c (frames : list string) :
  opened c ->
  (forall f, f ∈ published (run inputs 0 (SignalingLayer.setup self) new_inner).2 ->
     f ∈ frames /\ utf8_valid (as_bytes f) = true) ->
  let '(x, calls) := start self inputs ni c in
  layer x = (run inputs 0 (SignalingLayer.setup self) new_inner).2 /\ end_ok frames x /\
  wire_ok frames calls /\ forall f, f ∈ published (layer x) -> on_wire calls f.
Proof.
  intros [Hc _]%opened_ok Hin. unfold start.
  set (w := (run inputs 0 (SignalingLayer.setup self) new_inner).2) in *.
  assert (Htr := transmit_ok ni w (mkEnd new_inner c []) frames).
  destruct (transmit ni w (mkEnd new_inner c [])) as [x calls].
  destruct Htr as (Hl & Hx & Hw & Hf); [apply prefix_nil| |intros f Hf; by apply Hin| |].
  - apply Forall_forall. intros f Hf. by apply Hin.
  - eapply end_ok_mono; [|exact Hc]. by intros f ?%not_elem_of_nil.
  - split_and!; [done..|]. intros f Hff. rewrite Hl in Hff. destruct (Hf f Hff) as [Hn|]; [|done].
    by apply not_elem_of_nil in Hn.
Qed.

Lemma linked_inv s : linked clock_ok host client s -> link_inv s /\ met clock_ok host client (ends s).
Proof.
  intros (hi & ci & ni & hc & cc & Hhi & Hci & Hni & Hho & Hco & Hs).
  set (hw := (run hi 0 (SignalingLayer.setup host) new_inner).2) in *.
  set (cw := (run ci 0 (SignalingLayer.setup client) new_inner).2) in *.
  assert (met clock_ok host client (mkPair hw cw)) as Hm by (by exists hi, ci).
  assert (network_reachable clock_ok host client (mkPair hw cw)) as Hn by (by exists (mkPair hw cw)).
  assert (Hx := start_ok host hi ni hc (air (mkPair hw cw)) Hho). fold hw in Hx.
  assert (Hy := start_ok client ci ni cc (air (mkPair hw cw)) Hco). fold cw in Hy.
  destruct (start host hi ni hc) as [x hcalls], (start client ci ni cc) as [y ccalls]. subst s.
  destruct Hx as (Hx1 & Hx2 & Hx3 & Hx4).
  { intros f Hf. assert (f ∈ air (mkPair hw cw)) as Hf' by (apply elem_of_app; by left).
    split; [done|]. by eapply air_utf8. }
  destruct Hy as (Hy1 & Hy2 & Hy3 & Hy4).
  { intros f Hf. assert (f ∈ air (mkPair hw cw)) as Hf' by (apply elem_of_app; by right).
    split; [done|]. by eapply air_utf8. }
  assert (ends (mkLink x y (hcalls ++ ccalls)) = mkPair hw cw) as He by (unfold ends; cbn; congruence).
  split; [|by rewrite He]. split; rewrite ?He; try done; [by apply Forall_app|].
  intros f [Hf|Hf]%elem_of_app; apply on_wire_app; [left; apply Hx4; by rewrite Hx1|right; apply Hy4; by rewrite Hy1].
Qed.

Lemma link_steps_inv s s' :
  link_inv s -> rtc (link_step clock_ok host client) s s' -> link_inv s'.
Proof. intros Hi Hs. induction Hs as [s|s1 s2 s3 H12 _ IH]; [done|]. apply IH. by eapply link_step_refines. Qed.

Lemma link_reachable_inv s : link_reachable clock_ok host client s -> link_inv s.
Proof. intros (s0 & [Hi _]%linked_inv & Hs). by eapply link_steps_inv. Qed.

(** ** Deliveries *)

Definition fine (n : nat) : NetInput := mkNetInput (inl tt) Confirmed true.

Lemma fine_ok : network_ok fine.
Proof. done. Qed.

(** A channel can be brought a frame on the wire, and hand it over. *)
Lemma end_receives self calls x frames f :
  end_ok frames x -> on_wire calls f ->
  exists x', layer x' = layer x /\ last (inbox x') = Some f /\
    rtc (fun y z => end_step clock_ok self calls y (z, [])) x x'.
Proof.
  intros [Hc Hs Hp Hi] (call & Hcall & Hcar & e & He).
  destruct (Hcar e fine 0 (chan x) He Hs eq_refl) as (n' & c' & Hr & Hs' & Hc' & Hnet & Ht).
  assert (end_step clock_ok self calls x (hands c' x, [])) as Hstep.
  { replace c' with (run fine 0 (on_event e) (chan x)).2 by (by rewrite Hr).
    by apply (end_event _ _ _ _ fine call e). }
  destruct Channel.ordered; destruct Ht as [Hh Hpd].
  - exists (hands c' x). split_and!; [done| |by apply rtc_once].
    unfold hands. cbn. by rewrite Hh, drop_app_length, last_snoc.
  - destruct (run_task_ok fine 0 c' (length (pending (chan x))) Hs') as (n2 & c2 & Hr2 & _ & _ & _ & Hh2 & _).
    exists (hands c2 (hands c' x)). split_and!; [done| |].
    + unfold hands. cbn. rewrite Hh2, Hh, Hpd, drop_ge, app_nil_r by done.
      rewrite list_lookup_middle by done. rewrite drop_app_length. apply last_snoc.
    + eapply rtc_l; [exact Hstep|]. apply rtc_once.
      replace c2 with (run fine 0 (run_task (length (pending (chan x)))) (chan (hands c' x))).2 by (cbn; by rewrite Hr2).
      by apply end_task.
Qed.

Lemma host_receives_steps s x' :
  rtc (fun y z => end_step clock_ok host (wire s) y (z, [])) (host_side s) x' ->
  rtc (link_step clock_ok host client) s (mkLink x' (client_side s) (wire s)).
Proof.
  intros Hs. assert (forall y, rtc (fun y z => end_step clock_ok host (wire s) y (z, [])) y x' ->
    rtc (link_step clock_ok host client) (mkLink y (client_side s) (wire s)) (mkLink x' (client_side s) (wire s)))
    as Hall; [|destruct s; by apply Hall].
  intros y Hy. induction Hy as [y|y z x' Hyz _ IH]; [done|]. eapply rtc_l; [|by apply IH].
  assert (Hst := host_side_step clock_ok host client (mkLink y (client_side s) (wire s)) z [] Hyz).
  cbn in Hst. by rewrite app_nil_r in Hst.
Qed.

Lemma client_receives_steps s x' :
  rtc (fun y z => end_step clock_ok client (wire s) y (z, [])) (client_side s) x' ->
  rtc (link_step clock_ok host client) s (mkLink (host_side s) x' (wire s)).
Proof.
  intros Hs. assert (forall y, rtc (fun y z => end_step clock_ok client (wire s) y (z, [])) y x' ->
    rtc (link_step clock_ok host client) (mkLink (host_side s) y (wire s)) (mkLink (host_side s) x' (wire s)))
    as Hall; [|destruct s; by apply Hall].
  intros y Hy. induction Hy as [y|y z x' Hyz _ IH]; [done|]. eapply rtc_l; [|by apply IH].
  assert (Hst := client_side_step clock_ok host client (mkLink (host_side s) y (wire s)) z [] Hyz).
  cbn in Hst. by rewrite app_nil_r in Hst.
Qed.

Lemma host_can_hear s inputs f :
  link_inv s -> inputs_ok clock_ok inputs -> f ∈ air (ends s) ->
  exists s', rtc (link_step clock_ok host client) s s' /\
    ends s' = mkPair (hear host inputs f (host_end (ends s))) (client_end (ends s)).
Proof.
  intros Hi Hin Hf.
  destruct (end_receives host (wire s) (host_side s) _ f (li_host _ Hi) (li_sent _ Hi f Hf)) as (x' & Hl & Hlast & Hx).
  rewrite last_lookup in Hlast.
  eexists. split; [eapply rtc_r; [by apply host_receives_steps|]|].
  - apply (host_side_step _ _ _ (mkLink x' (client_side s) (wire s))). rewrite <- surjective_pairing.
    by apply (end_handles _ _ _ x' inputs fine (pred (length (inbox x'))) f).
  - unfold ends. cbn. by rewrite Hl.
Qed.

Lemma client_can_hear s inputs f :
  link_inv s -> inputs_ok clock_ok inputs -> f ∈ air (ends s) ->
  exists s', rtc (link_step clock_ok host client) s s' /\
    ends s' = mkPair (host_end (ends s)) (hear client inputs f (client_end (ends s))).
Proof.
  intros Hi Hin Hf.
  destruct (end_receives client (wire s) (client_side s) _ f (li_client _ Hi) (li_sent _ Hi f Hf)) as (x' & Hl & Hlast & Hx).
  rewrite last_lookup in Hlast.
  eexists. split; [eapply rtc_r; [by apply client_receives_steps|]|].
  - apply (client_side_step _ _ _ (mkLink (host_side s) x' (wire s))). rewrite <- surjective_pairing.
    by apply (end_handles _ _ _ x' inputs fine (pred (length (inbox x'))) f).
  - unfold ends. cbn. by rewrite Hl.
Qed.

(** A round of [Rendezvous.v] over the channel. *)
Lemma can_round s inputs :
  link_inv s -> (forall i, inputs_ok clock_ok (inputs i)) ->
  exists s', rtc (link_step clock_ok host client) s s' /\ ends s' = round host client inputs (ends s).
Proof.
  intros Hi Hin.
  set (s1 := mkLink (transmit fine (tick host (inputs 0) (layer (host_side s))) (host_side s)).1 (client_side s)
    (wire s ++ (transmit fine (tick host (inputs 0) (layer (host_side s))) (host_side s)).2)).
  assert (link_step clock_ok host client s s1) as Hs1.
  { apply host_side_step. rewrite <- surjective_pairing. by apply end_ticks. }
  assert (link_inv s1) as Hi1 by (by eapply link_step_refines).
  assert (exists s2, rtc (link_step clock_ok host client) s1 s2 /\
    ends s2 = mkPair (host_end (ends s1)) (hear_last client (inputs 1) (host_end (ends s1)) (client_end (ends s1))))
    as (s2 & Hs2 & He2).
  { unfold hear_last. destruct (last (published (host_end (ends s1)))) as [f|] eqn:Hl; [|by exists s1].
    apply client_can_hear; [done..|]. apply elem_of_app. left. by apply last_Some_elem_of. }
  assert (link_inv s2) as Hi2 by (by eapply link_steps_inv).
  set (s3 := mkLink (host_side s2) (transmit fine (tick client (inputs 2) (layer (client_side s2))) (client_side s2)).1
    (wire s2 ++ (transmit fine (tick client (inputs 2) (layer (client_side s2))) (client_side s2)).2)).
  assert (link_step clock_ok host client s2 s3) as Hs3.
  { apply client_side_step. rewrite <- surjective_pairing. by apply end_ticks. }
  assert (link_inv s3) as Hi3 by (by eapply link_step_refines).
  assert (exists s4, rtc (link_step clock_ok host client) s3 s4 /\
    ends s4 = mkPair (hear_last host (inputs 3) (client_end (ends s3)) (host_end (ends s3))) (client_end (ends s3)))
    as (s4 & Hs4 & He4).
  { unfold hear_last. destruct (last (published (client_end (ends s3)))) as [f|] eqn:Hl; [|by exists s3].
    apply host_can_hear; [done..|]. apply elem_of_app. right. by apply last_Some_elem_of. }
  exists s4. split.
  - eapply rtc_l; [exact Hs1|]. etrans; [exact Hs2|]. by eapply rtc_l.
  - rewrite He4. unfold round. injection He2 as E1 E2. cbn in E1, E2 |- *. by rewrite E1, E2.
Qed.

End refinement.

(** ** Properties *)

(** C12. A channel implements the network: for every channel that keeps the promises of
    its class (MQTT and ntfy do), whatever the server brings when, to which end and how
    often, whatever strangers send, in whatever order the channel's tasks and the
    layers' tasks run, each step of the composition is one step of the network of
    [Rendezvous.v] between the two layers, or none, and so an execution of the
    composition is one of the network. *)
Theorem channel_refines_network
    `{CryptoLaws, SignalingCodecLaws, SignalingChannelLaws C Event} clock_ok host client (s : Link C) :
  honest_pair clock_ok host client -> link_reachable clock_ok host client s ->
  network_reachable clock_ok host client (ends s) /\
  forall s', link_step clock_ok host client s s' ->
    ends s' = ends s \/ network_step clock_ok host client (ends s) (ends s').
Proof.
  intros Hp Hs. assert (Hi := link_reachable_inv clock_ok host client Hp s Hs).
  split; [apply Hi|]. intros s' Hs'. by eapply link_step_refines.
Qed.

(** C10. The handshake never gets stuck on a channel: from every state that the two ends
    reach over a channel that keeps its promises, whatever was lost, repeated or
    reordered before, the resend tasks and the channel can still complete it: there is
    an execution, whatever random bytes and times it draws, that ends with both ends
    [Encrypted], each with the other's key and capabilities. *)
Theorem channel_handshake_completable
    `{CryptoLaws, SignalingCodecLaws, SignalingChannelLaws C Event} clock_ok host client
    (inputs : nat -> nat -> Input) (s : Link C) :
  honest_pair clock_ok host client -> (forall i, inputs_ok clock_ok (inputs i)) ->
  link_reachable clock_ok host client s ->
  exists s', rtc (link_step clock_ok host client) s s' /\ agreed host client 5 (ends s').
Proof.
  intros Hp Hin Hs. assert (Hi := link_reachable_inv clock_ok host client Hp s Hs).
  destruct (can_round clock_ok host client Hp s inputs Hi Hin) as (s1 & Hs1 & He1).
  assert (Hi1 := link_steps_inv clock_ok host client Hp s s1 Hi Hs1).
  destruct (can_round clock_ok host client Hp s1 inputs Hi1 Hin) as (s2 & Hs2 & He2).
  assert (Hi2 := link_steps_inv clock_ok host client Hp s1 s2 Hi1 Hs2).
  destruct (can_round clock_ok host client Hp s2 inputs Hi2 Hin) as (s3 & Hs3 & He3).
  exists s3. split; [by etrans; [exact Hs1|etrans]|]. rewrite He3, He2, He1.
  destruct (network_reachable_at clock_ok host client Hp (ends s) (li_network _ _ _ _ Hi)) as (k & HP).
  by eapply three_rounds.
Qed.

(** ** Witnesses *)

Import CryptoModel TextModel LayerModel.

(** Two MQTT channels. *)
Definition model_channel : Mqtt.MqttChannel :=
  (run fine 0 (Channel.setup;; Channel.subscribe) (Mqtt.new "mqtt.example" "topic")).2.

Definition model_linked : Link Mqtt.MqttChannel :=
  let '(x, host_calls) := start model_host model_inputs fine model_channel in
  let '(y, client_calls) := start model_client model_inputs fine model_channel in
  mkLink x y (host_calls ++ client_calls).

(** The flash of the client arrived at the host's channel. *)
Definition model_payload : bytes := as_bytes (last_published (layer (client_side model_linked))).
Definition model_link : Link Mqtt.MqttChannel :=
  mkLink (hands (run fine 0 (on_event (Mqtt.mkMqttMessage "topic" model_payload)) (chan (host_side model_linked))).2
      (host_side model_linked))
    (client_side model_linked) (wire model_linked).

Lemma model_channel_opened : opened model_channel.
Proof.
  exists fine, 0, (Mqtt.new "mqtt.example" "topic"). eexists. split; [reflexivity|].
  unfold model_channel. apply injective_projections; [vm_compute; reflexivity|reflexivity].
Qed.

Lemma model_link_reachable : link_reachable model_clock model_host model_client model_link.
Proof.
  exists model_linked. split.
  - exists model_inputs, model_inputs, fine, model_channel, model_channel.
    split_and!; [apply model_inputs_ok..|exact fine_ok|exact model_channel_opened|exact model_channel_opened|].
    unfold model_linked. by do 2 destruct (start _ _ _ _).
  - apply rtc_once. replace model_link with
      (mkLink (host_side model_link) (client_side model_linked) (wire model_linked ++ [])).
    + apply host_side_step.
      apply (end_event _ _ _ _ fine (MqttPublish "topic" model_payload)); [exact fine_ok| |].
      * vm_compute. apply list_elem_of_here.
      * vm_compute. by split.
    + rewrite app_nil_r. reflexivity.
Qed.

Lemma channel_refines_network_witness :
  network_reachable model_clock model_host model_client (ends model_link).
Proof.
  exact (proj1 (channel_refines_network model_clock model_host model_client model_link model_pair
    model_link_reachable)).
Defined.

Lemma channel_handshake_completable_witness :
  exists s, rtc (link_step model_clock model_host model_client) model_link s /\
    agreed model_host model_client 5 (ends s).
Proof.
  exact (channel_handshake_completable model_clock model_host model_client (fun _ => model_inputs) model_link
    model_pair (fun _ => model_inputs_ok) model_link_reachable).
Defined.
