(* ===== verification/SessionMessage.v ===== *)
(** * Session and negotiation messages ([transport/message/mod.rs])

    The messages of the encrypted session, those that set up the transport, and
    the codecs that serde derives for them. *)
From S2P Require Import Prelude RustStr Errors Json Message.
Local Open Scope string_scope.
Local Open Scope list_scope.

Record TransportNegotiationMessage : Type := mkTransportNegotiationMessage {
  message_type : string;
  negotiation_payload : string;
}.

#[export] Instance TransportNegotiationMessage_eq_dec : EqDecision TransportNegotiationMessage.
Proof. solve_decision. Defined.

Inductive SessionMessage : Type :=
| Request (message_id : string) (payload : Value)
| Response (message_id : string) (payload : Value)
| Ack (message_id : string)
| Failed (message_id : string)
| Close
| Unknown.

(** [SessionMessage::reply] *)
Definition reply (message_id : string) (outcome : Result Value) : Res OpenLvError SessionMessage :=
  match outcome with
  | Ok payload => Ok (Response message_id payload)
  | Err _ => Ok (Failed message_id)
  | Panic => Panic
  end.

(** [serde_json]'s text codec and [to_value]/[from_value] on the derived
    [Serialize] and [Deserialize] of both types. *)
Class SessionCodec : Type := {
  session_to_string : SessionMessage -> LibResult string;
  session_from_str : string -> LibResult SessionMessage;
  session_to_value : SessionMessage -> LibResult Value;
  session_from_value : Value -> LibResult SessionMessage;
  negotiation_to_value : TransportNegotiationMessage -> LibResult Value;
  negotiation_from_value : Value -> LibResult TransportNegotiationMessage;
}.

(** The messages that survive a trip through JSON text, as in [Message.json_safe]. *)
Definition session_safe (m : SessionMessage) : bool :=
  match m with
  | Request _ v | Response _ v => json_safe 100 v
  | Ack _ | Failed _ | Close => true
  | Unknown => false
  end.

(** The formats that the attributes ask for: [tag = "type"], the renamed variants
    and fields, both fields of a negotiation message required and strings, other
    fields ignored. An object's keys are in the order of [BTreeMap]. *)
Class SessionCodecLaws `{SessionCodec} : Prop := {
  request_to_value id payload :
    session_to_value (Request id payload)
    = inl (Object [("messageId", Str id); ("payload", payload); ("type", Str "request")]);
  close_to_value : session_to_value Close = inl (Object [("type", Str "close")]);
  session_from_to_value m v :
    session_to_value m = inl v -> m <> Unknown -> session_from_value v = inl m;
  session_to_string_utf8 m s : session_to_string m = inl s -> utf8_valid (as_bytes s) = true;
  session_from_to_string m s :
    session_safe m = true -> session_to_string m = inl s -> session_from_str s = inl m;
  negotiation_to_value_format n :
    negotiation_to_value n
    = inl (Object [("payload", Str (negotiation_payload n)); ("type", Str (message_type n))]);
  negotiation_from_value_iff v n :
    negotiation_from_value v = inl n <->
    exists m, v = Object m /\ map_get "type" m = Some (Str (message_type n)) /\
              map_get "payload" m = Some (Str (negotiation_payload n));
}.

Section laws.
Context `{SessionCodecLaws}.

(** A negotiation message wrapped in a request is not one itself. *)
Lemma wrapped_not_negotiation id v n' n :
  negotiation_to_value n = inl v ->
  negotiation_from_value (Object [("messageId", Str id); ("payload", v); ("type", Str "request")])
    <> inl n'.
Proof.
  intros Hv Hn. apply negotiation_from_value_iff in Hn as (m & [= <-] & _ & Hp).
  cbn in Hp. rewrite negotiation_to_value_format in Hv. injection Hv as <-. discriminate Hp.
Qed.

Lemma negotiation_from_to_value n v :
  negotiation_to_value n = inl v -> negotiation_from_value v = inl n.
Proof.
  rewrite negotiation_to_value_format. intros [= <-]. apply negotiation_from_value_iff.
  eexists. split; [done|]. done.
Qed.

Lemma close_not_negotiation v n :
  session_to_value Close = inl v -> negotiation_from_value v <> inl n.
Proof.
  rewrite close_to_value. intros [= <-] Hn.
  apply negotiation_from_value_iff in Hn as (m & [= <-] & _ & Hp). discriminate Hp.
Qed.

End laws.
