(* ===== verification/Response.v ===== *)
(** * Waiting for a response ([session/response/mod.rs])

    [receive_response] as a loop over what it observes: at each turn the clock, then
    the outcome of [timeout_at(deadline, receiver.recv())]. *)
From S2P Require Import Prelude RustStr Errors Json SessionMessage.
Local Open Scope string_scope.
Local Open Scope list_scope.

(** ** The loop *)

(** [broadcast::error::RecvError] *)
Inductive RecvError : Type := Closed | Lagged (skipped : Z).

(** What [timeout_at] returns. *)
Inductive Outcome : Type :=
| Received (m : SessionMessage)
| ReceiveFailed (e : RecvError)
| Elapsed.

(** One turn: [Instant::now()] at its start, the outcome of the wait, and the clock
    when the wait has ended. Times are milliseconds. *)
Record Turn : Type := mkTurn {
  clock : Z;
  outcome : Outcome;
  clock_after : Z;
}.

Section response.

(** The last instant that the platform's [Instant] represents. *)
Context (instant_max : Z).
Context (message_id : string).

(** [deadline_after]: [checked_add] of a duration to the current time. *)
Definition deadline_after (now milliseconds : Z) : Result Z :=
  if (now + milliseconds <=? instant_max)%Z then Ok (now + milliseconds)%Z
  else Err InvalidRequestTimeout.

Definition timeout_reason (ack_received : bool) : string :=
  if ack_received then "no response after acknowledgement" else "remote peer did not acknowledge".

(** The loop, from its local variables; [None] when it still waits after the given
    turns. *)
Fixpoint receive_loop (response_timeout_ms : Z) (deadline : Z) (ack_received : bool)
    (turns : list Turn) : option (Result Value) :=
  match turns with
  | [] => None
  | t :: rest =>
      if (deadline <=? clock t)%Z then Some (Err (RequestTimeout (timeout_reason ack_received)))
      else
        match outcome t with
        | Received (Ack id) =>
            if String.eqb id message_id then
              if ack_received then receive_loop response_timeout_ms deadline ack_received rest
              else
                match deadline_after (clock_after t) response_timeout_ms with
                | Ok deadline' => receive_loop response_timeout_ms deadline' true rest
                | Err e => Some (Err e)
                | Panic => Some Panic
                end
            else receive_loop response_timeout_ms deadline ack_received rest
        | Received (Response id payload) =>
            if String.eqb id message_id then Some (Ok payload)
            else receive_loop response_timeout_ms deadline ack_received rest
        | Received (Failed id) =>
            if String.eqb id message_id then Some (Err RequestFailed)
            else receive_loop response_timeout_ms deadline ack_received rest
        | Received Close => Some (Err SessionClosed)
        | Received _ => receive_loop response_timeout_ms deadline ack_received rest
        | ReceiveFailed _ => Some (Err ResponseChannelClosed)
        | Elapsed => Some (Err (RequestTimeout (timeout_reason ack_received)))
        end
  end.

(** [receive_response], started at [now]. *)
Definition receive_response (now ack_timeout_ms response_timeout_ms : Z) (turns : list Turn)
    : option (Result Value) :=
  match deadline_after now ack_timeout_ms with
  | Ok deadline => receive_loop response_timeout_ms deadline false turns
  | Err e => Some (Err e)
  | Panic => Some Panic
  end.

(** ** What it means *)

Definition is_ack (t : Turn) : bool :=
  match outcome t with Received (Ack id) => String.eqb id message_id | _ => false end.

(** Outcomes that end the loop. *)
Definition decision (ack_received : bool) (o : Outcome) : option (Result Value) :=
  match o with
  | Received (Response id payload) => if String.eqb id message_id then Some (Ok payload) else None
  | Received (Failed id) => if String.eqb id message_id then Some (Err RequestFailed) else None
  | Received Close => Some (Err SessionClosed)
  | Received _ => None
  | ReceiveFailed _ => Some (Err ResponseChannelClosed)
  | Elapsed => Some (Err (RequestTimeout (timeout_reason ack_received)))
  end.

(** The deadline in force after some turns, by the first acknowledgement among
    them; all other messages leave it alone. *)
Definition deadline_in_force (deadline0 response_timeout_ms : Z) (past : list Turn) : Result Z :=
  match list_find (fun t => is_ack t = true) past with
  | None => Ok deadline0
  | Some (_, t) => deadline_after (clock_after t) response_timeout_ms
  end.

(** The specification, without local variables: the first turn at which something is
    decided, given the turns before it. *)
Fixpoint spec (deadline0 response_timeout_ms : Z) (past turns : list Turn) : option (Result Value) :=
  match deadline_in_force deadline0 response_timeout_ms past with
  | Err e => Some (Err e)
  | Panic => Some Panic
  | Ok deadline =>
      match turns with
      | [] => None
      | t :: rest =>
          let acked := existsb is_ack past in
          if (deadline <=? clock t)%Z then Some (Err (RequestTimeout (timeout_reason acked)))
          else match decision acked (outcome t) with
               | Some r => Some r
               | None => spec deadline0 response_timeout_ms (past ++ [t]) rest
               end
      end
  end.

(** ** Lemmas *)

Lemma deadline_in_force_snoc d0 rt past t :
  deadline_in_force d0 rt (past ++ [t]) =
  if existsb is_ack past then deadline_in_force d0 rt past
  else if is_ack t then deadline_after (clock_after t) rt else Ok d0.
Proof.
  unfold deadline_in_force. induction past as [|x past IH]; cbn.
  - destruct (is_ack t) eqn:Ht; [by rewrite decide_True|by rewrite decide_False by congruence].
  - destruct (is_ack x) eqn:Hx; [by rewrite !decide_True|].
    rewrite !decide_False by congruence. cbn [orb]. revert IH.
    destruct (list_find _ (past ++ [t])) as [[? ?]|], (list_find _ past) as [[? ?]|]; done.
Qed.

Lemma deadline_in_force_none d0 rt past :
  existsb is_ack past = false -> deadline_in_force d0 rt past = Ok d0.
Proof.
  intros Hp. unfold deadline_in_force. induction past as [|x past IH]; cbn in *; [done|].
  apply orb_false_iff in Hp as [Hx Hp]. rewrite decide_False by congruence.
  specialize (IH Hp). by destruct (list_find _ past) as [[? ?]|].
Qed.

Lemma receive_loop_spec d0 rt d past turns :
  deadline_in_force d0 rt past = Ok d ->
  receive_loop rt d (existsb is_ack past) turns = spec d0 rt past turns.
Proof.
  revert d past. induction turns as [|t rest IH]; intros d past Hd; cbn; rewrite Hd; [done|].
  destruct (d <=? clock t)%Z; [done|].
  assert (Hnext : forall d', deadline_in_force d0 rt (past ++ [t]) = Ok d' ->
    receive_loop rt d' (existsb is_ack past || is_ack t) rest = spec d0 rt (past ++ [t]) rest).
  { intros d' Hd'. rewrite <- (IH d' (past ++ [t]) Hd'), existsb_app.
    cbn [existsb]. by rewrite orb_false_r. }
  rewrite deadline_in_force_snoc in Hnext.
  assert (Hsame : is_ack t = false -> receive_loop rt d (existsb is_ack past) rest
    = spec d0 rt (past ++ [t]) rest).
  { intros Ht. rewrite Ht, orb_false_r in Hnext. apply Hnext.
    destruct (existsb is_ack past) eqn:Hp; [done|]. rewrite <- Hd. symmetry.
    by apply deadline_in_force_none. }
  destruct (outcome t) as [m|e|] eqn:Ho; [|done|done].
  assert (Hack : is_ack t = match m with Ack id => String.eqb id message_id | _ => false end)
    by (unfold is_ack; by rewrite Ho).
  rewrite Hack in Hsame, Hnext.
  destruct m as [id p|id p|id|id| |]; cbn [decision];
    [by apply Hsame|destruct (String.eqb id message_id); [done|by apply Hsame]| |
     destruct (String.eqb id message_id); [done|by apply Hsame]|done|by apply Hsame].
  destruct (String.eqb id message_id); [|by apply Hsame].
  rewrite orb_true_r in Hnext. destruct (existsb is_ack past) eqn:Hp; [by apply Hnext|].
  destruct (deadline_after (clock_after t) rt) as [d'|e|] eqn:Hd'; [by apply Hnext| |];
    (destruct rest; cbn [spec]; rewrite deadline_in_force_snoc, Hp, Hack; by rewrite Hd').
Qed.

Lemma spec_response d0 rt past turns payload :
  spec d0 rt past turns = Some (Ok payload) ->
  exists pre t post, turns = pre ++ t :: post /\
    outcome t = Received (Response message_id payload) /\
    Forall (fun x => decision true (outcome x) = None) pre /\
    exists d, deadline_in_force d0 rt (past ++ pre) = Ok d /\ (clock t < d)%Z.
Proof.
  revert past. induction turns as [|t rest IH]; intros past; cbn;
    destruct (deadline_in_force d0 rt past) as [d|e|] eqn:Hd; try done.
  destruct (Z.leb_spec d (clock t)); [done|].
  destruct (decision _ (outcome t)) as [r|] eqn:Hdec.
  - intros [= ->]. exists [], t, rest. rewrite app_nil_r. split_and!; eauto.
    destruct (outcome t) as [[id p|id p|id|id| |]|e|]; cbn in Hdec; try done;
      destruct (String.eqb_spec id message_id); simplify_eq; done.
  - intros Hs. destruct (IH _ Hs) as (pre & t' & post & -> & Ho & Hpre & d' & Hd' & Hlt).
    exists (t :: pre), t', post. split_and!; [done|done| |].
    + constructor; [|done]. by destruct (outcome t).
    + exists d'. by rewrite <- app_assoc in Hd'.
Qed.

(** Without an acknowledgement, a turn that starts at or after the deadline ends
    the wait. *)
Lemma loop_deadline rt d turns :
  Exists (fun t => (d <= clock t)%Z) turns -> existsb is_ack turns = false ->
  exists r, receive_loop rt d false turns = Some r.
Proof.
  induction 1 as [t rest Ht|t rest _ IH]; cbn [existsb]; intros [Ha Hr]%orb_false_iff; cbn.
  - destruct (Z.leb_spec d (clock t)); [eauto|lia].
  - destruct (Z.leb_spec d (clock t)); [eauto|]. specialize (IH Hr). unfold is_ack in Ha.
    destruct (outcome t) as [[id p|id p|id|id| |]|e|]; eauto; try rewrite Ha; eauto;
      destruct (String.eqb id message_id); eauto.
Qed.

Lemma loop_deadline_acked rt d turns :
  Exists (fun t => (d <= clock t)%Z) turns ->
  exists r, receive_loop rt d true turns = Some r.
Proof.
  induction 1 as [t rest Ht|t rest _ IH]; cbn.
  - destruct (Z.leb_spec d (clock t)); [eauto|lia].
  - destruct (Z.leb_spec d (clock t)); [eauto|].
    destruct (outcome t) as [[id p|id p|id|id| |]|e|]; eauto;
      destruct (String.eqb id message_id); eauto.
Qed.

End response.

(** ** Properties *)

(** C27. [receive_response] meets its specification, which has no local variables: the
    deadline in force is the acknowledgement deadline until the first matching
    acknowledgement, and then counts from that acknowledgement; neither other
    messages nor repeated acknowledgements move it; at each turn a passed deadline
    comes first, with the reason of the phase, then the outcome of the wait. *)
Theorem receive_response_spec instant_max id now ack_timeout response_timeout turns :
  receive_response instant_max id now ack_timeout response_timeout turns =
  match deadline_after instant_max now ack_timeout with
  | Ok deadline => spec instant_max id deadline response_timeout [] turns
  | Err e => Some (Err e)
  | Panic => Some Panic
  end.
Proof.
  unfold receive_response. destruct (deadline_after _ _ _) as [d|e|]; [|done..].
  by apply (receive_loop_spec instant_max id d response_timeout d []).
Qed.

(** A value is returned only for our request and in time: it is the payload of a
    response with our message id, no earlier message decided the call, and the
    deadline in force had not passed when the turn began. *)
Theorem response_matches_request instant_max id now ack_timeout response_timeout turns payload :
  receive_response instant_max id now ack_timeout response_timeout turns = Some (Ok payload) ->
  exists pre t post d0 d, turns = pre ++ t :: post /\
    outcome t = Received (Response id payload) /\
    Forall (fun x => decision id true (outcome x) = None) pre /\
    deadline_after instant_max now ack_timeout = Ok d0 /\
    deadline_in_force instant_max id d0 response_timeout pre = Ok d /\ (clock t < d)%Z.
Proof.
  unfold receive_response. destruct (deadline_after _ _ _) as [d0|e|]; [|done..].
  rewrite (receive_loop_spec instant_max id d0 response_timeout d0 []) by done.
  intros (pre & t & post & Ht & Ho & Hpre & d & Hd & Hlt)%spec_response.
  exists pre, t, post, d0, d. by split_and!.
Qed.

(** C28. A busy channel cannot keep the caller waiting: when no acknowledgement has come,
    the call has returned by the first turn that starts after the acknowledgement
    timeout, whatever and however many messages arrive; after the acknowledgement
    the same holds for the response timeout. *)
Theorem flood_cannot_delay instant_max id now ack_timeout response_timeout pre turns :
  (now + ack_timeout <= instant_max)%Z ->
  (Exists (fun t => (now + ack_timeout <= clock t)%Z) turns -> existsb (is_ack id) turns = false ->
     exists r, receive_response instant_max id now ack_timeout response_timeout turns = Some r) /\
  (forall a, existsb (is_ack id) pre = false -> is_ack id a = true ->
     Exists (fun t => (clock_after a + response_timeout <= clock t)%Z) turns ->
     exists r, receive_response instant_max id now ack_timeout response_timeout
                 (pre ++ a :: turns) = Some r).
Proof.
  intros Hmax. unfold receive_response, deadline_after at 1 2.
  replace (now + ack_timeout <=? instant_max)%Z with true by (symmetry; by apply Z.leb_le).
  split; [by apply loop_deadline|]. intros a Hpre Ha Hex. generalize (now + ack_timeout)%Z.
  induction pre as [|t pre IH]; intros d; cbn [app receive_loop].
  - destruct (d <=? clock a)%Z; [eauto|]. unfold is_ack in Ha.
    destruct (outcome a) as [[| |i| | |]| |]; try done. rewrite Ha. unfold deadline_after.
    destruct (_ <=? instant_max)%Z; [|eauto]. by apply loop_deadline_acked.
  - cbn [existsb] in Hpre. apply orb_false_iff in Hpre as [Ht Hpre]. specialize (IH Hpre d).
    destruct (d <=? clock t)%Z; [eauto|]. unfold is_ack in Ht.
    destruct (outcome t) as [[i p|i p|i|i| |]|e|]; eauto; try rewrite Ht; eauto;
      destruct (String.eqb i id); eauto.
Qed.

(** ** Witnesses *)

Definition witness_turns : list Turn :=
  [mkTurn 5 (Received (Ack "other")) 6; mkTurn 6 (Received (Ack "id")) 7;
   mkTurn 8 (Received (Ack "id")) 9; mkTurn 30 (Received (Response "id" (Bool true))) 31].

Lemma response_matches_request_witness :
  receive_response 1000000 "id" 0 10 100 witness_turns = Some (Ok (Bool true)) /\
  exists t post, witness_turns = take 3 witness_turns ++ t :: post.
Proof.
  assert (receive_response 1000000 "id" 0 10 100 witness_turns = Some (Ok (Bool true))) as Hr
    by (vm_compute; reflexivity).
  split; [exact Hr|].
  destruct (response_matches_request 1000000 "id" 0 10 100 witness_turns (Bool true) Hr)
    as (pre & t & post & d0 & d & Ht & Ho & _).
  exists (mkTurn 30 (Received (Response "id" (Bool true))) 31), []. reflexivity.
Defined.

Lemma flood_cannot_delay_witness :
  exists r, receive_response 1000000 "id" 0 10 100
    (replicate 3 (mkTurn 5 (Received (Ack "other")) 6) ++ mkTurn 6 (Received (Ack "id")) 7
       :: [mkTurn 20 (Received Unknown) 20; mkTurn 107 (Received Unknown) 107]) = Some r.
Proof.
  apply (proj2 (flood_cannot_delay 1000000 "id" 0 10 100
    (replicate 3 (mkTurn 5 (Received (Ack "other")) 6))
    [mkTurn 20 (Received Unknown) 20; mkTurn 107 (Received Unknown) 107] ltac:(lia))).
  - reflexivity.
  - reflexivity.
  - apply Exists_cons_tl, Exists_cons_hd. cbn. lia.
Defined.
