(* ===== verification/Control.v ===== *)
(** * Task ownership and shutdown ([session/control/mod.rs])

    [SessionControl]: which tasks, operations and request handlers a session may
    start, and how close ends them. Every method takes its decision under one
    lock, so each is one atomic step. *)
From S2P Require Import Prelude RustStr Errors.
Local Open Scope nat_scope.

Definition MAX_ACTIVE_HANDLERS : nat := 256.

(** A task of the [JoinSet]: running, aborted and not destroyed yet, or finished. *)
Inductive TaskStatus : Type := Running | Aborted | Finished.

#[export] Instance TaskStatus_eq_dec : EqDecision TaskStatus.
Proof. solve_decision. Defined.

(** [ControlState] and the [shutdown] flag, with what the methods have handed out:
    the name of the next task, the permits that exist, and the tasks that
    [wait_for_tasks] has taken over. *)
Record Control : Type := mkControl {
  closed : bool;
  active_handlers : nat;
  tasks : gmap nat TaskStatus;
  shutdown : bool;
  next_task : nat;
  permits : gset nat;
  next_permit : nat;
  awaited : gmap nat TaskStatus;
}.

(** [SessionControl::new] *)
Definition new_control : Control := mkControl false 0 ∅ false 0 ∅ 0 ∅.

(** [try_join_next] until nothing is left to join. *)
Definition reap (m : gmap nat TaskStatus) : gmap nat TaskStatus :=
  filter (fun kv => kv.2 <> Finished) m.

(** [JoinSet::abort_all], [AbortHandle::abort]: a finished task stays finished. *)
Definition abort_status (s : TaskStatus) : TaskStatus :=
  match s with Running => Aborted | _ => s end.

(** [SessionControl::spawn]: the handle is the task's name. *)
Definition spawn (w : Control) : Result nat * Control :=
  if closed w then (Err SessionClosed, w)
  else
    (Ok (next_task w),
     mkControl (closed w) (active_handlers w) (<[next_task w := Running]> (reap (tasks w)))
       (shutdown w) (S (next_task w)) (permits w) (next_permit w) (awaited w)).

(** [SessionControl::close] *)
Definition close (w : Control) : Control :=
  if closed w then w
  else
    mkControl true (active_handlers w) (abort_status <$> tasks w) true (next_task w) (permits w)
      (next_permit w) (awaited w).

(** The [mem::take] of [wait_for_tasks]; it then joins the tasks it took. *)
Definition take_tasks (w : Control) : Control :=
  mkControl (closed w) (active_handlers w) ∅ (shutdown w) (next_task w) (permits w)
    (next_permit w) (tasks w ∪ awaited w).

(** [wait_for_tasks] returns when every task it took has finished. *)
Definition wait_done (w : Control) : bool :=
  bool_decide (map_Forall (fun _ s => s = Finished) (awaited w)).

(** The moment [wait_for_tasks] returns: every task it took has finished. *)
Definition joined (w : Control) : Control :=
  mkControl (closed w) (active_handlers w) (tasks w) (shutdown w) (next_task w) (permits w)
    (next_permit w) ((fun _ => Finished) <$> awaited w).

Lemma joined_wait_done w : wait_done (joined w) = true.
Proof.
  apply bool_decide_eq_true. intros n s. cbn. rewrite lookup_fmap.
  by destruct (awaited w !! n); intros [= <-].
Qed.

Lemma joined_finished n w :
  n ∈ dom (tasks w) -> awaited (joined (take_tasks w)) !! n = Some Finished.
Proof.
  intros [s Hs]%elem_of_dom. cbn. rewrite lookup_fmap, lookup_union, Hs.
  by destruct (awaited w !! n).
Qed.

(** [SessionControl::closed]: a waiter returns once the flag is set. *)
Definition closed_returns (w : Control) : bool := shutdown w.

(** [SessionControl::admit_handler] *)
Definition admit_handler (w : Control) : Result nat * Control :=
  if closed w then (Err SessionClosed, w)
  else if MAX_ACTIVE_HANDLERS <=? active_handlers w then (Err RequestLimitReached, w)
  else
    (Ok (next_permit w),
     mkControl (closed w) (S (active_handlers w)) (tasks w) (shutdown w) (next_task w)
       ({[next_permit w]} ∪ permits w) (S (next_permit w)) (awaited w)).

(** [Drop for HandlerPermit]: the subtraction on [usize] has no value below zero. *)
Definition drop_permit (p : nat) (w : Control) : Res OpenLvError Control :=
  match active_handlers w with
  | O => Panic
  | S n =>
      Ok (mkControl (closed w) n (tasks w) (shutdown w) (next_task w) (permits w ∖ {[p]})
            (next_permit w) (awaited w))
  end.

(** [AbortOnDrop] *)
Definition abort_task (n : nat) (w : Control) : Control :=
  mkControl (closed w) (active_handlers w) (alter abort_status n (tasks w)) (shutdown w)
    (next_task w) (permits w) (next_permit w) (awaited w).

(** A task ends: it returned, or it was aborted and reached a suspension point. *)
Definition finish_task (n : nat) (w : Control) : Control :=
  mkControl (closed w) (active_handlers w) (alter (fun _ => Finished) n (tasks w)) (shutdown w)
    (next_task w) (permits w) (next_permit w) (alter (fun _ => Finished) n (awaited w)).

(** How the task of an operation ends, for the caller of [run_operation]. *)
Inductive OperationEnd (T : Type) : Type :=
| Completed (result : Result T)
| Panicked
| Destroyed.
Arguments Completed {T}.
Arguments Panicked {T}.
Arguments Destroyed {T}.

(** [SessionControl::run_operation]: refused when closed, otherwise the result of the
    operation, its panic, or [SessionClosed] when its task was destroyed. *)
Definition run_operation {T} (w : Control) (task_end : OperationEnd T) : Result T * Control :=
  match spawn w with
  | (Ok n, w') =>
      (match task_end with
       | Completed result => result
       | Panicked => Panic
       | Destroyed => Err SessionClosed
       end, w')
  | (Err e, w') => (Err e, w')
  | (Panic, w') => (Panic, w')
  end.

(** ** Executions *)

(** Any method may be called at any time; a permit is dropped at most once, since
    Rust drops a value once. *)
Inductive control_step : Control -> Control -> Prop :=
| step_spawn w : control_step w (spawn w).2
| step_close w : control_step w (close w)
| step_take w : control_step w (take_tasks w)
| step_admit w : control_step w (admit_handler w).2
| step_drop w w' p : p ∈ permits w -> drop_permit p w = Ok w' -> control_step w w'
| step_abort w n : control_step w (abort_task n w)
| step_finish w n : control_step w (finish_task n w).

Inductive control_reachable (w : Control) : Control -> Prop :=
| control_refl : control_reachable w w
| control_next w' w'' : control_reachable w w' -> control_step w' w'' -> control_reachable w w''.

Record control_inv (w : Control) : Prop := {
  ci_active : active_handlers w = size (permits w);
  ci_limit : active_handlers w <= MAX_ACTIVE_HANDLERS;
  ci_fresh : forall p, p ∈ permits w -> p < next_permit w;
  ci_shutdown : shutdown w = closed w;
  ci_tasks : closed w = true -> map_Forall (fun _ s => s <> Running) (tasks w);
}.

Lemma new_control_inv : control_inv new_control.
Proof.
  split; cbn; [done|unfold MAX_ACTIVE_HANDLERS; lia| |done|done].
  intros p Hp. by apply elem_of_empty in Hp.
Qed.

Lemma spawn_inv w : control_inv w -> control_inv (spawn w).2.
Proof.
  intros [H1 H2 H3 H4 H5]. unfold spawn. destruct (closed w) eqn:Hc; [cbn; split; congruence || auto|].
  by split; cbn; try congruence.
Qed.

Lemma close_inv w : control_inv w -> control_inv (close w).
Proof.
  intros [H1 H2 H3 H4 H5]. unfold close. destruct (closed w) eqn:Hc; [cbn; split; congruence || auto|].
  split; cbn; try done. intros _ n s. rewrite lookup_fmap.
  destruct (tasks w !! n) as [[]|]; intros [= <-]; done.
Qed.

Lemma admit_inv w : control_inv w -> control_inv (admit_handler w).2.
Proof.
  intros [H1 H2 H3 H4 H5]. unfold admit_handler.
  destruct (closed w) eqn:Hc; [cbn; split; congruence || auto|].
  destruct (Nat.leb_spec MAX_ACTIVE_HANDLERS (active_handlers w)); [cbn; split; congruence || auto|].
  split; cbn; try done.
  - rewrite size_union, size_singleton; [by rewrite H1|].
    intros p ->%elem_of_singleton Hp. specialize (H3 _ Hp). lia.
  - intros p [->%elem_of_singleton|Hp]%elem_of_union; [lia|]. specialize (H3 _ Hp). lia.
Qed.

(** Dropping a permit that exists never panics. *)
Lemma drop_permit_ok w p : control_inv w -> p ∈ permits w -> exists w', drop_permit p w = Ok w'.
Proof.
  intros [H1 _ _ _ _] Hp. unfold drop_permit. destruct (active_handlers w); [|eauto].
  symmetry in H1. apply size_empty_inv in H1. set_solver.
Qed.

Lemma drop_permit_inv w w' p :
  control_inv w -> p ∈ permits w -> drop_permit p w = Ok w' -> control_inv w'.
Proof.
  intros [H1 H2 H3 H4 H5] Hp. unfold drop_permit.
  destruct (active_handlers w) as [|n] eqn:Hn; [done|]. intros [= <-]. split; cbn; try done.
  - rewrite size_difference, size_singleton by (by apply singleton_subseteq_l). lia.
  - lia.
  - intros q [Hq _]%elem_of_difference. auto.
Qed.

Lemma alter_not_running (f : TaskStatus -> TaskStatus) n (m : gmap nat TaskStatus) :
  (forall s, s <> Running -> f s <> Running) ->
  map_Forall (fun _ s => s <> Running) m -> map_Forall (fun _ s => s <> Running) (alter f n m).
Proof.
  intros Hf Hm k s. rewrite lookup_alter_Some.
  intros [(<- & s' & Hs & ->)|[_ Hs]]; [|by apply (Hm k)]. apply Hf. by apply (Hm n).
Qed.

Lemma control_step_inv w w' : control_step w w' -> control_inv w -> control_inv w'.
Proof.
  destruct 1; eauto using spawn_inv, close_inv, admit_inv, drop_permit_inv; intros [H1 H2 H3 H4 H5];
    split; cbn; try done; intros Hc; specialize (H5 Hc).
  - apply alter_not_running; [by intros []|done].
  - apply alter_not_running; [done|done].
Qed.

Lemma control_reachable_inv w w' : control_reachable w w' -> control_inv w -> control_inv w'.
Proof. induction 1; [done|]. intros Hi. eapply control_step_inv; eauto. Qed.

(** What closing leaves to happen: nothing is spawned or admitted any more. *)
Lemma closed_step w w' :
  control_step w w' -> closed w = true ->
  closed w' = true /\ next_task w' = next_task w /\ next_permit w' = next_permit w /\
  permits w' ⊆ permits w /\
  (forall n, tasks w' !! n = Some Running \/ awaited w' !! n = Some Running ->
             tasks w !! n = Some Running \/ awaited w !! n = Some Running).
Proof.
  destruct 1 as [w|w|w|w|w w' p Hp Hd|w k|w k]; intros Hc.
  - unfold spawn. rewrite Hc. by split_and!.
  - unfold close. rewrite Hc. by split_and!.
  - split_and!; [done..|]. cbn. intros n [Hn|Hn]; [by rewrite lookup_empty in Hn|].
    apply lookup_union_Some_raw in Hn. tauto.
  - unfold admit_handler. rewrite Hc. by split_and!.
  - unfold drop_permit in Hd. destruct (active_handlers w); [done|]. injection Hd as <-.
    split_and!; try done. cbn. by intros q [Hq _]%elem_of_difference.
  - split_and!; try done. cbn. intros n [Hn|Hn]; [|by right]. left.
    apply lookup_alter_Some in Hn as [(<- & s & Hs & Hr)|[_ Hs]]; [|done]. by destruct s.
  - split_and!; try done. cbn. intros n [Hn|Hn]; apply lookup_alter_Some in Hn;
      destruct Hn as [(<- & s & Hs & Hr)|[_ Hs]]; auto; done.
Qed.

Lemma closed_reachable w w' :
  control_reachable w w' -> closed w = true ->
  closed w' = true /\ next_task w' = next_task w /\ next_permit w' = next_permit w /\
  permits w' ⊆ permits w.
Proof.
  induction 1 as [|w' w'' _ IH Hs]; intros Hc; [done|].
  destruct (IH Hc) as (H1 & H2 & H3 & H4). apply closed_step in Hs as (H5 & H6 & H7 & H8 & _); [|done].
  split_and!; [done|congruence..|by etrans].
Qed.

(** ** Properties *)

(** C24. Request admission is bounded and never underflows: in every reachable state the
    counter is the number of permits that exist, at most 256; admitting fails
    exactly when the session is closed or the bound is reached; and dropping any
    permit succeeds and frees one place. *)
Theorem admission_bounded w :
  control_reachable new_control w ->
  active_handlers w = size (permits w) /\ active_handlers w <= MAX_ACTIVE_HANDLERS /\
  (is_ok (admit_handler w).1 = true <->
     closed w = false /\ active_handlers w < MAX_ACTIVE_HANDLERS) /\
  (forall p, p ∈ permits w -> exists w', drop_permit p w = Ok w' /\
     S (active_handlers w') = active_handlers w).
Proof.
  intros Hr. assert (control_inv w) as Hi by (eapply control_reachable_inv; [done|apply new_control_inv]).
  split; [apply Hi|]. split; [apply Hi|]. split.
  - unfold admit_handler. destruct (closed w).
    + cbn [fst is_ok]. split; [intros Ht; discriminate Ht|]. intros Ht. by destruct Ht.
    + destruct (Nat.leb_spec MAX_ACTIVE_HANDLERS (active_handlers w)) as [Hle|Hlt]; cbn [fst is_ok].
      * split; [intros Ht; discriminate Ht|]. intros Ht. destruct Ht. lia.
      * by split.
  - intros p Hp. destruct (drop_permit_ok w p Hi Hp) as [w' Hw]. exists w'. split; [done|].
    unfold drop_permit in Hw. destruct (active_handlers w); [done|]. by injection Hw as <-.
Qed.

(** Close is final: from the moment a session is closed, in every further execution
    it stays closed, spawns no task and admits no handler, the waiters of [closed]
    return, and no task of the session is left running without having been aborted. *)
Theorem close_is_final w w' :
  control_reachable new_control w -> closed w = true -> control_reachable w w' ->
  closed w' = true /\ closed_returns w' = true /\
  next_task w' = next_task w /\ next_permit w' = next_permit w /\ permits w' ⊆ permits w /\
  (spawn w').1 = Err SessionClosed /\ (admit_handler w').1 = Err SessionClosed /\
  map_Forall (fun _ s => s <> Running) (tasks w').
Proof.
  intros Hr Hc Hr'. destruct (closed_reachable w w' Hr' Hc) as (Hc' & Hn & Hp & Hsub).
  assert (control_inv w') as Hi.
  { eapply control_reachable_inv; [exact Hr'|].
    eapply control_reachable_inv; [exact Hr|apply new_control_inv]. }
  split_and!; try done.
  - unfold closed_returns. by rewrite (ci_shutdown _ Hi).
  - unfold spawn. by rewrite Hc'.
  - unfold admit_handler. by rewrite Hc'.
  - by apply (ci_tasks _ Hi).
Qed.

(** Waiting for the tasks covers all of them: once the tasks of a closed session have
    been taken over by [wait_for_tasks], nothing is left behind in the session and
    nothing is added, so when the wait is over, in any further execution, every
    task the wait took has finished and the session holds none. *)
Theorem wait_covers_all_tasks w w' :
  closed w = true -> control_reachable (take_tasks w) w' -> wait_done w' = true ->
  tasks w' = ∅ /\ next_task w' = next_task w /\
  forall n, n ∈ dom (tasks w) ∪ dom (awaited w) -> awaited w' !! n = Some Finished.
Proof.
  intros Hc Hr Hd.
  assert (tasks w' = ∅ /\ dom (awaited w') = dom (tasks w) ∪ dom (awaited w) /\ closed w' = true /\
          next_task w' = next_task w) as (Ht & Ha & Hc' & Hn).
  { clear Hd. induction Hr as [|w1 w2 _ IH Hs]; [cbn; by rewrite dom_union_L|].
    destruct IH as (Ht & Ha & Hc1 & Hn). rewrite <- Ha, <- Hn.
    destruct Hs as [w1|w1|w1|w1|w1 w2 p Hp Hdrop|w1 k|w1 k].
    - unfold spawn. rewrite Hc1. by split_and!.
    - unfold close. rewrite Hc1. by split_and!.
    - cbn. rewrite Ht. by rewrite (left_id_L ∅ (∪)).
    - unfold admit_handler. rewrite Hc1. by split_and!.
    - unfold drop_permit in Hdrop. destruct (active_handlers w1); [done|]. by injection Hdrop as <-.
    - cbn. rewrite Ht. by rewrite alter_empty.
    - cbn. rewrite Ht, alter_empty, dom_alter_L. by split_and!. }
  split_and!; [done..|]. intros n Hin. rewrite <- Ha in Hin. apply elem_of_dom in Hin as [s Hs].
  unfold wait_done in Hd. apply bool_decide_eq_true in Hd. rewrite Hs. f_equal. by apply (Hd n).
Qed.

(** ** Witnesses *)

Definition witness_control : Control :=
  (admit_handler (spawn (admit_handler (spawn new_control).2).2).2).2.

Lemma witness_control_reachable : control_reachable new_control witness_control.
Proof.
  unfold witness_control. eapply control_next; [|apply step_admit].
  eapply control_next; [|apply step_spawn]. eapply control_next; [|apply step_admit].
  eapply control_next; [|apply step_spawn]. apply control_refl.
Qed.

Lemma admission_bounded_witness :
  active_handlers witness_control = 2 /\ size (permits witness_control) = 2.
Proof.
  destruct (admission_bounded witness_control witness_control_reachable) as (H & _).
  split; [reflexivity|]. rewrite <- H. reflexivity.
Defined.

Lemma close_is_final_witness :
  (spawn (finish_task 0 (close witness_control))).1 = Err SessionClosed.
Proof.
  apply (close_is_final (close witness_control) (finish_task 0 (close witness_control))).
  - eapply control_next; [apply witness_control_reachable|apply step_close].
  - reflexivity.
  - eapply control_next; [apply control_refl|apply step_finish].
Defined.

Lemma wait_covers_all_tasks_witness :
  awaited (finish_task 1 (finish_task 0 (take_tasks (close witness_control)))) !! 1
    = Some Finished.
Proof.
  apply (wait_covers_all_tasks (close witness_control)
    (finish_task 1 (finish_task 0 (take_tasks (close witness_control))))).
  - reflexivity.
  - eapply control_next; [|apply step_finish]. eapply control_next; [|apply step_finish].
    apply control_refl.
  - vm_compute. reflexivity.
  - apply (bool_decide_unpack _). vm_compute. exact I.
Defined.
