(* ===== verification/Ownership.v ===== *)
(** * Who keeps a session alive ([session/mod.rs], [session/control/mod.rs])

    [SessionInner] is shared: the clones of [Session] refer to it, and so does every
    task that the session spawns, until the task returns or is destroyed. It is dropped
    with its last reference. [Owners] counts the references next to the session's
    control; its steps are what the owners can do, in any order
    ([SessionSpec.connect_makes_owners] relates [connected_owners] to [connect]). The runtime is not
    shut down and no task panics. *)
From S2P Require Import Prelude RustStr Errors.
From S2P Require Control.
Local Open Scope nat_scope.

Import Control(Control, Running, Aborted, Finished, tasks, awaited, closed, next_task).

(** ** State *)

(** What a task does. [TransportEvents] is the loop over the [mpsc] channel of the
    transport, [BroadcastLoop] one of the three over broadcast receivers; an operation
    is a method call that [run_operation] runs. *)
Inductive Role : Type := TransportEvents | BroadcastLoop | RemoteRequest | Operation.

(** [roles]: the tasks that exist, each with its reference; [gone]: [SessionInner] was
    dropped. *)
Record Owners : Type := mkOwners {
  handles : nat;
  control : Control;
  roles : gmap nat Role;
  gone : bool;
}.

(** [build_session]: one handle. *)
Definition built : Owners := mkOwners 1 Control.new_control ∅ false.

(** ** Operations *)

(** The last reference drops [SessionInner], whose [Drop] closes the control. *)
Definition release (w : Owners) : Owners :=
  if decide (handles w = 0 /\ roles w = ∅) then mkOwners 0 (Control.close (control w)) ∅ true else w.

(** [Session::clone], and the end of a clone. *)
Definition clone (w : Owners) : Owners := mkOwners (S (handles w)) (control w) (roles w) (gone w).
Definition drop_handle (w : Owners) : Owners :=
  release (mkOwners (pred (handles w)) (control w) (roles w) (gone w)).

(** A task is spawned with a clone of the reference; a refused one is dropped on the
    spot. *)
Definition spawn (role : Role) (w : Owners) : Owners :=
  match Control.spawn (control w) with
  | (Ok n, c) => mkOwners (handles w) c (<[n := role]> (roles w)) (gone w)
  | (_, c) => mkOwners (handles w) c (roles w) (gone w)
  end.

(** [start_event_loops] *)
Definition start_event_loops (w : Owners) : Owners :=
  spawn TransportEvents (spawn BroadcastLoop (spawn BroadcastLoop (spawn BroadcastLoop w))).

(** [Session::close], to its first suspension point; its wait takes the tasks over. *)
Definition close (w : Owners) : Owners :=
  mkOwners (handles w) (Control.close (control w)) (roles w) (gone w).
Definition take_tasks (w : Owners) : Owners :=
  mkOwners (handles w) (Control.take_tasks (control w)) (roles w) (gone w).

(** The caller of an operation goes away: [AbortOnDrop]. *)
Definition abort (n : nat) (w : Owners) : Owners :=
  mkOwners (handles w) (Control.abort_task n (control w)) (roles w) (gone w).

(** A task returns, or is destroyed: its reference goes. *)
Definition finish (n : nat) (w : Owners) : Owners :=
  release (mkOwners (handles w) (Control.finish_task n (control w)) (delete n (roles w)) (gone w)).

(** ** Executions *)

(** The status of a task, of the session or taken over by a [close]. *)
Definition status_in (c : Control) (n : nat) : option Control.TaskStatus := (tasks c ∪ awaited c) !! n.
Definition task_status (n : nat) (w : Owners) : option Control.TaskStatus := status_in (control w) n.

(** The senders of the transport's events are in [SessionInner]: its loop can only
    return once they are gone. The others may return, a broadcast loop when its
    receiver lagged. *)
Definition may_return (role : Role) (w : Owners) : bool :=
  match role with TransportEvents => gone w | _ => true end.

(** Whoever calls a method or spawns a task refers to the session. *)
Inductive owner_step : Owners -> Owners -> Prop :=
| step_clone w : 0 < handles w -> owner_step w (clone w)
| step_drop w : 0 < handles w -> owner_step w (drop_handle w)
| step_spawn w role : 0 < handles w \/ roles w <> ∅ -> owner_step w (spawn role w)
| step_close w : 0 < handles w -> owner_step w (close w)
| step_take w : 0 < handles w -> closed (control w) = true -> owner_step w (take_tasks w)
| step_abort w n : roles w !! n = Some Operation -> owner_step w (abort n w)
| step_return w n role : roles w !! n = Some role -> task_status n w = Some Running ->
    may_return role w = true -> owner_step w (finish n w)
| step_destroy w n : task_status n w = Some Aborted -> owner_step w (finish n w).

Definition owners_reachable : Owners -> Prop := rtc owner_step built.

(** ** The invariant *)

(** A control whose tasks are the keys of [holders] that have not finished. *)
Record control_ok (c : Control) (holders : gmap nat Role) : Prop := {
  ck_names : forall n, next_task c <= n -> status_in c n = None;
  ck_open : closed c = false -> awaited c = ∅;
  ck_closed : closed c = true -> forall n, status_in c n <> Some Running;
  ck_holders : forall n, is_Some (holders !! n) <-> status_in c n = Some Running \/ status_in c n = Some Aborted;
}.

Record owners_inv (w : Owners) : Prop := {
  oi_control : control_ok (control w) (roles w);
  oi_gone : gone w = true <-> handles w = 0 /\ roles w = ∅;
  oi_gone_closed : gone w = true -> closed (control w) = true;
}.

(** Two readings of one status. *)
Ltac statuses := split; intros [?|?]; simplify_eq; auto.

Lemma status_fmap c n :
  closed c = false -> awaited c = ∅ -> status_in (Control.close c) n = Control.abort_status <$> status_in c n.
Proof.
  intros Hc Ha. unfold status_in, Control.close. rewrite Hc. cbn.
  by rewrite Ha, !(right_id_L ∅ (∪)), lookup_fmap.
Qed.

Lemma close_ok c m : control_ok c m -> control_ok (Control.close c) m.
Proof.
  intros [H1 H2 H3 H4]. destruct (closed c) eqn:Hc; [unfold Control.close; rewrite Hc; by split; rewrite ?Hc|].
  assert (next_task (Control.close c) = next_task c /\ closed (Control.close c) = true) as [E1 E2]
    by (unfold Control.close; by rewrite Hc).
  split; [|by rewrite E2|intros _|]; intros n; rewrite status_fmap by auto.
  - rewrite E1. intros Hn. by rewrite H1.
  - by destruct (status_in c n) as [[]|].
  - rewrite H4. destruct (status_in c n) as [[]|]; cbn; statuses.
Qed.

Lemma status_spawn c m n c' :
  control_ok c m -> Control.spawn c = (Ok n, c') ->
  n = next_task c /\ next_task c' = S n /\ closed c = false /\ closed c' = false /\ awaited c' = ∅ /\
  forall k, status_in c' k =
    if decide (k = n) then Some Running else match status_in c k with Some Finished => None | s => s end.
Proof.
  intros [_ H2 _ _] Hs. unfold Control.spawn in Hs. destruct (closed c) eqn:Hc; [done|].
  injection Hs as <- <-. specialize (H2 eq_refl). split_and!; [done..|]. intros k. unfold status_in. cbn.
  rewrite H2, !(right_id_L ∅ (∪)).
  destruct (decide (k = next_task c)) as [->|Hne]; [by rewrite lookup_insert_eq|].
  rewrite lookup_insert_ne by done. unfold Control.reap. rewrite map_lookup_filter.
  destruct (tasks c !! k) as [[]|]; cbn; try done; by case_guard.
Qed.

Lemma spawn_ok c m role n c' :
  control_ok c m -> Control.spawn c = (Ok n, c') -> control_ok c' (<[n := role]> m).
Proof.
  intros Hok Hs. destruct (status_spawn c m n c' Hok Hs) as (-> & Hn & _ & Hc & Ha & Hk).
  destruct Hok as [H1 _ _ H4]. split; [|done|by rewrite Hc|]; intros k; rewrite Hk.
  - rewrite Hn. intros Hle. rewrite decide_False by lia. rewrite H1 by lia. done.
  - destruct (decide (k = next_task c)) as [->|Hne]; [rewrite lookup_insert_eq; split; eauto|].
    rewrite lookup_insert_ne by done. rewrite H4. destruct (status_in c k) as [[]|]; statuses.
Qed.

Lemma take_ok c m : closed c = true -> control_ok c m -> control_ok (Control.take_tasks c) m.
Proof.
  intros Hc [H1 H2 H3 H4].
  assert (forall n, status_in (Control.take_tasks c) n = status_in c n) as Hn
    by (intros n; unfold status_in, Control.take_tasks; cbn; by rewrite (left_id_L ∅ (∪))).
  split; cbn [closed next_task Control.take_tasks]; [..|by rewrite Hc| |]; intros; rewrite Hn; auto.
Qed.

Lemma status_abort c m n k : control_ok c m ->
  status_in (Control.abort_task n c) k =
  if decide (k = n) then Control.abort_status <$> status_in c k else status_in c k.
Proof.
  intros [_ H2 H3 _]. unfold status_in, Control.abort_task in *. cbn.
  destruct (decide (k = n)) as [->|Hne]; [|by rewrite !lookup_union, lookup_alter_ne].
  rewrite !lookup_union, lookup_alter_eq. destruct (tasks c !! n) as [s|] eqn:Ht; cbn.
  - by destruct (awaited c !! n).
  - destruct (closed c).
    + specialize (H3 eq_refl n). rewrite lookup_union, Ht in H3. by destruct (awaited c !! n) as [[]|].
    + rewrite H2 by done. by rewrite lookup_empty.
Qed.

Lemma abort_ok c m n : control_ok c m -> control_ok (Control.abort_task n c) m.
Proof.
  intros Hok. assert (Hk := fun k => status_abort c m n k Hok). destruct Hok as [H1 H2 H3 H4].
  split; cbn [closed next_task awaited Control.abort_task]; [|done|intros Hc|]; intros k; rewrite ?Hk.
  - intros Hn. rewrite H1 by done. by case_decide.
  - specialize (H3 Hc k). case_decide; [|done]. by destruct (status_in c k) as [[]|].
  - rewrite H4. case_decide; [|done]. destruct (status_in c k) as [[]|]; cbn; statuses.
Qed.

Lemma status_finish c n k :
  status_in (Control.finish_task n c) k =
  if decide (k = n) then (fun _ => Finished) <$> status_in c k else status_in c k.
Proof.
  unfold status_in, Control.finish_task. cbn.
  destruct (decide (k = n)) as [->|Hne]; rewrite !lookup_union; [|by rewrite !lookup_alter_ne].
  rewrite !lookup_alter_eq. by destruct (tasks c !! n), (awaited c !! n).
Qed.

Lemma finish_ok c m n : control_ok c m -> control_ok (Control.finish_task n c) (delete n m).
Proof.
  intros [H1 H2 H3 H4]. split; cbn [closed next_task awaited Control.finish_task].
  - intros k Hn. rewrite status_finish, H1 by done. by case_decide.
  - intros Hc. by rewrite H2.
  - intros Hc k. specialize (H3 Hc k). rewrite status_finish. case_decide; [|done]. by destruct (status_in c k) as [[]|].
  - intros k. rewrite status_finish. destruct (decide (k = n)) as [->|Hne]; [|by rewrite lookup_delete_ne].
    rewrite lookup_delete_eq. split; [by intros [? [=]]|]. by destruct (status_in c n) as [[]|]; intros [].
Qed.

Lemma built_inv : owners_inv built.
Proof.
  assert (forall n, status_in Control.new_control n = None) as Hn by done.
  split; [split; try done|by split; [|intros []]|done].
  intros n. cbn [control roles built]. rewrite Hn, lookup_empty. split; [by intros [? [=]]|by intros []].
Qed.

Lemma release_inv w :
  control_ok (control w) (roles w) -> gone w = false -> owners_inv (release w).
Proof.
  intros Hc Hg. unfold release. destruct (decide _) as [[Hh Hr]|Hn].
  - split; cbn; [by rewrite <- Hr; apply close_ok|done|].
    intros _. unfold Control.close. by destruct (closed (control w)) eqn:E.
  - split; [done|..]; rewrite Hg; by split || intros.
Qed.

(** A session that has an owner is not gone. *)
Lemma owned_alive w : owners_inv w -> 0 < handles w \/ roles w <> ∅ -> gone w = false.
Proof.
  intros [_ Hg _] Ho. destruct (gone w); [|done]. destruct (proj1 Hg eq_refl) as [Hh Hr].
  destruct Ho; [lia|done].
Qed.

Lemma owner_step_inv w w' : owners_inv w -> owner_step w w' -> owners_inv w'.
Proof.
  intros Hi Hs. assert (Hc := oi_control w Hi).
  assert (forall n, status_in (control w) n = Some Running \/ status_in (control w) n = Some Aborted -> roles w <> ∅) as Hr.
  { intros n Hn He. apply (ck_holders _ _ Hc) in Hn. rewrite He in Hn. by destruct Hn. }
  destruct Hs as [w Hh|w Hh|w role Ho|w Hh|w Hh Hcl|w n Hn|w n role Hn Hst Hret|w n Hst].
  - assert (Hg := owned_alive w Hi (or_introl Hh)). split; cbn; [done|rewrite Hg; lia|by rewrite Hg].
  - apply release_inv; [done|]. exact (owned_alive w Hi (or_introl Hh)).
  - assert (Hg := owned_alive w Hi Ho). unfold spawn. destruct (Control.spawn (control w)) as [[n|e|] c'] eqn:E.
    + destruct (status_spawn _ _ _ _ Hc E) as (_ & _ & _ & Hc' & _).
      split; cbn; [by apply spawn_ok with (c := control w)|rewrite Hg|by rewrite Hg]. split; [done|]. intros [_ He]. by apply insert_non_empty in He.
    + unfold Control.spawn in E. destruct (closed (control w)); [|done]. injection E as _ <-. by destruct w.
    + unfold Control.spawn in E. by destruct (closed (control w)).
  - assert (Hg := owned_alive w Hi (or_introl Hh)). split; cbn; [by apply close_ok|by apply Hi|by rewrite Hg].
  - split; cbn; [by apply take_ok|by apply Hi|done].
  - split; cbn; [by apply abort_ok|apply Hi..].
  - apply release_inv; cbn; [by apply finish_ok|]. eapply owned_alive; [done|right]. eauto.
  - apply release_inv; cbn; [by apply finish_ok|]. eapply owned_alive; [done|right]. eauto.
Qed.

Lemma owners_reachable_inv w : owners_reachable w -> owners_inv w.
Proof.
  intros Hr. assert (forall v v', rtc owner_step v v' -> owners_inv v -> owners_inv v') as Hall.
  { intros v v' H. induction H as [v|v1 v2 v3 H12 _ IH]; [done|]. intros Hi. apply IH. by eapply owner_step_inv. }
  eapply Hall; [exact Hr|exact built_inv].
Qed.

(** ** Open and closed sessions *)

(** Nothing opens a closed control. *)
Lemma release_closed w : closed (control w) = true -> closed (control (release w)) = true.
Proof. intros Hc. unfold release. case_decide; [|done]. cbn. unfold Control.close. by rewrite Hc. Qed.

Lemma closed_stays w w' : owner_step w w' -> closed (control w) = true -> closed (control w') = true.
Proof.
  intros [] Hc; try done; try (by apply release_closed); cbn; unfold spawn, Control.close, Control.spawn;
    by rewrite Hc.
Qed.

Lemma closed_steps w w' : rtc owner_step w w' -> closed (control w) = true -> closed (control w') = true.
Proof. intros Hs. induction Hs as [w|w1 w2 w3 H12 _ IH]; [done|]. intros Hc. apply IH. by eapply closed_stays. Qed.

(** While the control is open, a task that is not an operation runs: only the callers of
    operations abort. *)
Definition loops_run (w : Owners) : Prop :=
  closed (control w) = false -> forall n role, roles w !! n = Some role -> role <> Operation ->
  task_status n w = Some Running.

Lemma release_open w : closed (control (release w)) = false -> release w = w.
Proof.
  unfold release. case_decide; [|done]. cbn. unfold Control.close. destruct (closed (control w)) eqn:E; cbn; congruence.
Qed.

Lemma owner_step_loops w w' : owners_inv w -> owner_step w w' -> loops_run w -> loops_run w'.
Proof.
  intros Hi Hs Hl. assert (Hok := oi_control w Hi).
  assert (forall v, (closed (control v) = false -> forall n role, roles v !! n = Some role -> role <> Operation ->
    task_status n v = Some Running) -> loops_run (release v)) as Hrel.
  { intros v Hv. unfold loops_run. intros Hc. assert (E := release_open v Hc). rewrite E in Hc |- *. exact (Hv Hc). }
  destruct Hs as [w Hh|w Hh|w role Ho|w Hh|w Hh Hcl|w n Hn|w n role Hn Hst Hret|w n Hst].
  - exact Hl.
  - by apply Hrel.
  - unfold spawn. destruct (Control.spawn (control w)) as [[n|e|] c'] eqn:E.
    + destruct (status_spawn _ _ _ _ Hok E) as (_ & _ & Hc & _ & _ & Hk).
      intros _ k r Hr Hne. unfold task_status. cbn in Hr |- *. rewrite Hk. case_decide as Hd; [done|].
      rewrite lookup_insert_ne in Hr by done. assert (H1 := Hl Hc k r Hr Hne). unfold task_status in H1. by rewrite H1.
    + unfold Control.spawn in E. destruct (closed (control w)) eqn:Hc; [|done]. injection E as _ <-.
      intros Hc'. cbn in Hc'. congruence.
    + unfold Control.spawn in E. by destruct (closed (control w)).
  - intros Hc. cbn in Hc. unfold Control.close in Hc. destruct (closed (control w)) eqn:E; cbn in Hc; congruence.
  - intros Hc. cbn in Hc. congruence.
  - intros Hc k r Hr Hne. unfold task_status. cbn in Hc, Hr |- *. rewrite (status_abort _ _ _ _ Hok).
    case_decide as Hd; [|by apply (Hl Hc k r)]. subst k. congruence.
  - apply Hrel. cbn. intros Hc k r Hr Hne. apply lookup_delete_Some in Hr as [Hkn Hr].
    unfold task_status. cbn. rewrite status_finish, decide_False by done. by apply (Hl Hc k r).
  - apply Hrel. cbn. intros Hc k r Hr Hne. apply lookup_delete_Some in Hr as [Hkn Hr].
    unfold task_status. cbn. rewrite status_finish, decide_False by done. by apply (Hl Hc k r).
Qed.

Lemma reachable_loops_run w : owners_reachable w -> loops_run w.
Proof.
  intros Hr. assert (forall v v', rtc owner_step v v' -> owners_inv v -> loops_run v -> loops_run v') as Hall.
  { intros v v' H. induction H as [v|v1 v2 v3 H12 _ IH]; [done|]. intros Hi Hl.
    apply IH; [by eapply owner_step_inv|by eapply owner_step_loops]. }
  eapply Hall; [exact Hr|exact built_inv|]. intros _ n r Hn. cbn in Hn. by rewrite lookup_empty in Hn.
Qed.

Lemma owners_reachable_trans w w' : owners_reachable w -> rtc owner_step w w' -> owners_reachable w'.
Proof. intros Hr Hs. unfold owners_reachable. transitivity w; [exact Hr|exact Hs]. Qed.

(** The transport's event loop and the open control keep each other. *)
Record connected_at (n : nat) (w : Owners) : Prop := {
  ca_open : closed (control w) = false;
  ca_loop : roles w !! n = Some TransportEvents;
}.

Lemma connected_alive n w : owners_inv w -> connected_at n w -> gone w = false.
Proof.
  intros Hi [_ Hl]. apply (owned_alive w Hi). right. intros He. rewrite He in Hl. by rewrite lookup_empty in Hl.
Qed.

(** Only [close] ends it. *)
Lemma connected_step n w w' :
  owners_inv w -> loops_run w -> connected_at n w -> owner_step w w' ->
  connected_at n w' \/ (0 < handles w /\ w' = close w).
Proof.
  intros Hi Hl Hca Hs. assert (Hg := connected_alive n w Hi Hca). destruct Hca as [Ho Hn].
  assert (Hst := Hl Ho n _ Hn ltac:(done)). assert (Hok := oi_control w Hi).
  assert (forall v, closed (control v) = false -> roles v !! n = Some TransportEvents -> connected_at n (release v)) as Hrel.
  { intros v Hv Hr. unfold release. rewrite decide_False; [done|]. intros [_ He]. rewrite He in Hr.
    by rewrite lookup_empty in Hr. }
  destruct Hs as [w Hh|w Hh|w role Hw|w Hh|w Hh Hcl|w k Hk|w k role Hk Hsk Hret|w k Hsk].
  - by left.
  - left. by apply Hrel.
  - left. unfold spawn. destruct (Control.spawn (control w)) as [[k|e|] c'] eqn:E.
    + destruct (status_spawn _ _ _ _ Hok E) as (-> & _ & _ & Hc' & _). split; [done|]. cbn.
      rewrite lookup_insert_ne; [done|]. intros <-. unfold task_status in Hst.
      by rewrite (ck_names _ _ Hok) in Hst.
    + unfold Control.spawn in E. by rewrite Ho in E.
    + unfold Control.spawn in E. by rewrite Ho in E.
  - by right.
  - congruence.
  - by left.
  - left. apply Hrel; cbn; [done|]. rewrite lookup_delete_ne; [done|]. intros ->.
    rewrite Hn in Hk. injection Hk as <-. cbn in Hret. congruence.
  - left. apply Hrel; cbn; [done|]. rewrite lookup_delete_ne; [done|]. intros ->. congruence.
Qed.

Lemma connected_steps n w w' :
  owners_inv w -> loops_run w -> rtc owner_step w w' -> connected_at n w ->
  closed (control w') = false -> connected_at n w'.
Proof.
  intros Hi Hl Hs. induction Hs as [w|w1 w2 w3 H12 H23 IH]; [done|]. intros Hca Hc.
  destruct (connected_step n w1 w2 Hi Hl Hca H12) as [Hca'|[_ ->]].
  - apply IH; [by eapply owner_step_inv|by eapply owner_step_loops|done..].
  - assert (closed (control (close w1)) = true) as Ht.
    { cbn. unfold Control.close. destruct (closed (control w1)) eqn:E; cbn; congruence. }
    assert (H3 := closed_steps _ _ H23 Ht). congruence.
Qed.

Lemma release_handles w : handles (release w) = handles w.
Proof. unfold release. by case_decide as Hd; [destruct Hd|]. Qed.

Lemma spawn_handles role w : handles (spawn role w) = handles w.
Proof. unfold spawn. by destruct (Control.spawn (control w)) as [[]]. Qed.

(** Nobody makes a handle from nothing. *)
Lemma handleless_step w w' : owner_step w w' -> handles w = 0 -> handles w' = 0.
Proof.
  intros [] Hh; try lia; rewrite ?spawn_handles; try done; unfold finish; by rewrite release_handles.
Qed.

Lemma handleless_steps n w w' :
  owners_inv w -> loops_run w -> rtc owner_step w w' -> connected_at n w -> handles w = 0 -> connected_at n w'.
Proof.
  intros Hi Hl Hs. induction Hs as [w|w1 w2 w3 H12 H23 IH]; [done|]. intros Hca Hh.
  destruct (connected_step n w1 w2 Hi Hl Hca H12) as [Hca'|[Hp _]]; [|lia].
  apply IH; [by eapply owner_step_inv|by eapply owner_step_loops|done|by eapply handleless_step].
Qed.

(** The remaining tasks of a closed session are destroyed one after the other. *)
Lemma released w :
  owners_inv w -> closed (control w) = true -> handles w = 0 ->
  exists w', rtc owner_step w w' /\ gone w' = true.
Proof.
  remember (size (roles w)) as k eqn:Hk. revert w Hk. induction k as [k IH] using lt_wf_ind. intros w Hk Hi Hc Hh.
  assert (Hok := oi_control w Hi).
  destruct (map_choose_or_empty (roles w)) as [(n & role & Hn)|He].
  - assert (task_status n w = Some Aborted) as Hst.
    { destruct (proj1 (ck_holders _ _ Hok n)) as [Hr|Ha]; [by eexists| |done]. by destruct (ck_closed _ _ Hok Hc n). }
    assert (owner_step w (finish n w)) as Hs by by apply step_destroy.
    assert (roles (finish n w) = delete n (roles w)) as Hr.
    { unfold finish, release. case_decide as Hd; [by destruct Hd|done]. }
    destruct (IH (size (roles (finish n w)))) with (w := finish n w) as (w' & Hw' & Hg).
    + rewrite Hr, map_size_delete_Some by (by eexists). assert (size (roles w) <> 0); [|lia].
      apply (map_size_ne_0_lookup_2 _ n). by exists role.
    + done.
    + by eapply owner_step_inv.
    + by eapply closed_stays.
    + by eapply handleless_step.
    + exists w'. split; [by eapply rtc_l|done].
  - exists w. split; [done|]. by apply Hi.
Qed.

(** ** Properties *)

(** C21. A connected session that nobody closes outlives its handles: once [connect] has
    started the loop over the transport's events, that loop runs, and the session is
    not dropped, as long as the control is not closed; when the last handle is gone
    before that, nothing ever closes it: the loop keeps the session, and the session
    keeps the senders that would end the loop. [Drop for SessionInner] never runs. *)
Theorem unclosed_session_outlives_handles n w w' :
  owners_reachable w -> closed (control w) = false -> roles w !! n = Some TransportEvents ->
  rtc owner_step w w' -> closed (control w') = false ->
  task_status n w' = Some Running /\ gone w' = false /\
  (handles w' = 0 -> forall w'', rtc owner_step w' w'' ->
     closed (control w'') = false /\ task_status n w'' = Some Running /\ gone w'' = false).
Proof.
  intros Hr Ho Hn Hs Ho'. assert (Hr' := owners_reachable_trans _ _ Hr Hs).
  assert (connected_at n w') as Hca.
  { apply (connected_steps n w); [by apply owners_reachable_inv|by apply reachable_loops_run|done|by split|done]. }
  assert (forall v, owners_reachable v -> connected_at n v -> task_status n v = Some Running /\ gone v = false) as Hall.
  { intros v Hv Hcv. split; [|by apply (connected_alive n); [apply owners_reachable_inv|]].
    destruct Hcv as [Hov Hnv]. by apply (reachable_loops_run v Hv Hov n _ Hnv). }
  destruct (Hall w' Hr' Hca) as [H1 H2]. split_and!; [done..|]. intros Hh w'' Hs'.
  assert (connected_at n w'') as Hca'.
  { apply (handleless_steps n w'); [by apply owners_reachable_inv|by apply reachable_loops_run|done..]. }
  split; [apply Hca'|]. apply Hall; [|done]. by eapply owners_reachable_trans.
Qed.

(** C22. A closed session lets go of everything: once the control is closed and the handles
    are gone, whatever happens in between, the session can always be dropped by
    destroying its remaining tasks, which are all aborted; and when a session is
    dropped, closed or not, none of its tasks is left, so that its [Drop] has nothing
    to abort. *)
Theorem closed_session_is_released w :
  owners_reachable w ->
  (closed (control w) = true -> handles w = 0 -> forall w', rtc owner_step w w' ->
     exists w'', rtc owner_step w' w'' /\ gone w'' = true) /\
  (gone w = true -> forall n, task_status n w = None \/ task_status n w = Some Finished).
Proof.
  intros Hr. split.
  - intros Hc Hh w' Hs. apply released.
    + apply owners_reachable_inv. by eapply owners_reachable_trans.
    + by eapply closed_steps.
    + clear Hc Hr. induction Hs as [w|w1 w2 w3 H12 _ IH]; [done|]. apply IH. by eapply handleless_step.
  - intros Hg n. assert (Hi := owners_reachable_inv w Hr). destruct (proj1 (oi_gone w Hi) Hg) as [_ He].
    assert (Hn := ck_holders _ _ (oi_control w Hi) n). rewrite He, lookup_empty in Hn. unfold task_status.
    destruct (status_in (control w) n) as [[]|]; [| |auto..]; exfalso; by destruct (proj2 Hn) as [? [=]]; auto.
Qed.

(** ** Witnesses *)

(** [connect] on a new session, and the end of the only handle. *)
Definition connected_owners : Owners := finish 0 (start_event_loops (spawn Operation built)).
Definition forgotten : Owners := drop_handle connected_owners.

Lemma spawn_reachable role w : owners_reachable w -> 0 < handles w -> owners_reachable (spawn role w).
Proof. intros Hr Hh. eapply rtc_r; [exact Hr|]. apply step_spawn. by left. Qed.

Lemma connected_owners_reachable : owners_reachable connected_owners.
Proof.
  eapply (rtc_r _ (start_event_loops (spawn Operation built))).
  - unfold start_event_loops. repeat apply spawn_reachable; vm_compute; try lia. apply rtc_refl.
  - apply step_return with Operation; vm_compute; reflexivity.
Qed.

Lemma unclosed_session_outlives_handles_witness :
  handles forgotten = 0 /\ gone forgotten = false /\
  forall w, rtc owner_step forgotten w -> closed (control w) = false /\ gone w = false.
Proof.
  destruct (unclosed_session_outlives_handles 4 connected_owners forgotten connected_owners_reachable)
    as (_ & Hg & Hrest); [vm_compute; reflexivity..| |vm_compute; reflexivity|].
  - apply rtc_once, step_drop. vm_compute. lia.
  - split; [vm_compute; reflexivity|]. split; [exact Hg|]. intros w Hw.
    destruct (Hrest ltac:(vm_compute; reflexivity) w Hw) as (? & _ & ?). by split.
Defined.

Lemma closed_session_is_released_witness :
  exists w, rtc owner_step (drop_handle (close connected_owners)) w /\ gone w = true.
Proof.
  apply (proj1 (closed_session_is_released (drop_handle (close connected_owners))
    ltac:(apply (rtc_r _ (close connected_owners));
      [apply (rtc_r _ connected_owners); [exact connected_owners_reachable|apply step_close; vm_compute; lia]
      |apply step_drop; vm_compute; lia]))
    ltac:(vm_compute; reflexivity) ltac:(vm_compute; reflexivity) _ (rtc_refl _ _)).
Defined.
