(* ===== verification/Closing.v ===== *)
(** * Closing while callers come and go ([session/mod.rs], [session/control/mod.rs])

    [Session::close] computes its result in a [OnceCell]: one of the callers runs the
    initialiser, the others wait for it. A caller's future may be dropped at any of its
    suspension points; when the initialiser is dropped, the cell is empty again, and the
    next caller starts a new one. The tasks that [wait_for_tasks] had taken are then
    dropped with its [JoinSet]: they are aborted, and nobody waits for them. *)
From S2P Require Import Prelude RustStr Errors.
From S2P Require Control.
Local Open Scope nat_scope.

Import Control(Control, TaskStatus, TaskStatus_eq_dec, Running, Aborted, Finished, tasks, awaited, closed).

(** ** State *)

(** The suspension points of the initialiser: the close message, the tasks, and the two
    teardowns. *)
Inductive Stage : Type := Sending | Joining | TearingDown.

(** [OnceCell]: empty, or a caller runs the initialiser, or set. *)
Inductive Cell : Type := Empty | Initialising (s : Stage) | Initialised.

(** [callers]: the calls of [close] that have not returned; [detached]: the tasks of
    dropped [JoinSet]s. *)
Record Closing : Type := mkClosing {
  control : Control;
  cell : Cell;
  callers : nat;
  detached : gmap nat TaskStatus;
}.

(** [build_session] *)
Definition open_session : Closing := mkClosing Control.new_control Empty 0 ∅.

(** ** Operations *)

(** The first poll of [close]. *)
Definition call (w : Closing) : Closing :=
  mkClosing (Control.close (control w)) (cell w) (S (callers w)) (detached w).

Definition with_cell (c : Cell) (w : Closing) : Closing :=
  mkClosing (control w) c (callers w) (detached w).

(** The message was sent or not; [wait_for_tasks] takes the tasks. *)
Definition join_tasks (w : Closing) : Closing :=
  mkClosing (Control.take_tasks (control w)) (Initialising Joining) (callers w) (detached w).

(** A caller returns, or goes away while another runs the initialiser. *)
Definition leave (w : Closing) : Closing := mkClosing (control w) (cell w) (pred (callers w)) (detached w).

(** The caller that runs the initialiser goes away; with its [JoinSet], if it has one. *)
Definition drop_tasks (c : Control) : Control :=
  Control.mkControl (closed c) (Control.active_handlers c) (tasks c) (Control.shutdown c)
    (Control.next_task c) (Control.permits c) (Control.next_permit c) ∅.
Definition cancel (w : Closing) : Closing :=
  mkClosing (drop_tasks (control w)) Empty (pred (callers w))
    ((Control.abort_status <$> awaited (control w)) ∪ detached w).

(** Whatever else happens to the session's tasks. *)
Definition spawn (w : Closing) : Closing :=
  mkClosing (Control.spawn (control w)).2 (cell w) (callers w) (detached w).
Definition finish (n : nat) (w : Closing) : Closing :=
  mkClosing (Control.finish_task n (control w)) (cell w) (callers w) (alter (fun _ => Finished) n (detached w)).

(** ** Executions *)

(** [cancels]: whether the caller that runs the initialiser may go away. *)
Inductive closing_step (cancels : bool) : Closing -> Closing -> Prop :=
| step_call w : closing_step cancels w (call w)
| step_begin w : 0 < callers w -> cell w = Empty -> closing_step cancels w (with_cell (Initialising Sending) w)
| step_sent w : cell w = Initialising Sending -> closing_step cancels w (join_tasks w)
| step_joined w : cell w = Initialising Joining -> Control.wait_done (control w) = true ->
    closing_step cancels w (with_cell (Initialising TearingDown) w)
| step_torn_down w : cell w = Initialising TearingDown -> closing_step cancels w (with_cell Initialised w)
| step_leave w : 0 < callers w -> (forall s, cell w = Initialising s -> 1 < callers w) ->
    closing_step cancels w (leave w)
| step_cancel w s : cancels = true -> cell w = Initialising s -> closing_step cancels w (cancel w)
| step_spawn w : closing_step cancels w (spawn w)
| step_finish w n : closing_step cancels w (finish n w).

Definition closing_reachable (cancels : bool) : Closing -> Prop := rtc (closing_step cancels) open_session.

(** ** The invariant *)

(** The tasks of the session that exist somewhere. *)
Definition task_in (n : nat) (s : TaskStatus) (w : Closing) : Prop :=
  tasks (control w) !! n = Some s \/ awaited (control w) !! n = Some s \/ detached w !! n = Some s.

(** The initialiser has taken the tasks. *)
Definition taken (c : Cell) : bool :=
  match c with Initialising Joining | Initialising TearingDown | Initialised => true | _ => false end.
(** It has waited for them. *)
Definition waited (c : Cell) : bool :=
  match c with Initialising TearingDown | Initialised => true | _ => false end.

Record closing_inv (cancels : bool) (w : Closing) : Prop := {
  cl_callers : callers w <> 0 -> closed (control w) = true;
  cl_cell : cell w <> Empty -> closed (control w) = true;
  cl_busy : forall s, cell w = Initialising s -> callers w <> 0;
  cl_open : closed (control w) = false -> awaited (control w) = ∅ /\ detached w = ∅;
  cl_running : closed (control w) = true -> forall n, ~ task_in n Running w;
  cl_taken : taken (cell w) = true -> tasks (control w) = ∅;
  cl_waited : waited (cell w) = true -> forall n s, awaited (control w) !! n = Some s -> s = Finished;
  cl_detached : cancels = false -> detached w = ∅;
}.

Lemma open_session_inv cancels : closing_inv cancels open_session.
Proof. by split. Qed.

Lemma finished_lookup (m : gmap nat TaskStatus) n k s :
  alter (fun _ => Finished) n m !! k = Some s -> s = Finished \/ m !! k = Some s.
Proof.
  destruct (decide (k = n)) as [->|Hne]; [|rewrite lookup_alter_ne by done; by right].
  rewrite lookup_alter_eq. destruct (m !! n); cbn; [intros [= <-]; by left|done].
Qed.

Lemma aborted_lookup (m : gmap nat TaskStatus) k : (Control.abort_status <$> m) !! k <> Some Running.
Proof. rewrite lookup_fmap. by destruct (m !! k) as [[]|]. Qed.

Lemma union_lookup (m1 m2 : gmap nat TaskStatus) k s :
  (m1 ∪ m2) !! k = Some s -> m1 !! k = Some s \/ m2 !! k = Some s.
Proof. rewrite lookup_union_Some_raw. by intros [?|[_ ?]]; [left|right]. Qed.

Lemma close_closed c : closed c = true -> Control.close c = c.
Proof. intros Hc. unfold Control.close. by rewrite Hc. Qed.

Lemma spawn_closed c : closed c = true -> (Control.spawn c).2 = c.
Proof. intros Hc. unfold Control.spawn. by rewrite Hc. Qed.

(** In an open session nobody has called [close]. *)
Lemma open_untouched cancels w :
  closing_inv cancels w -> closed (control w) = false ->
  callers w = 0 /\ cell w = Empty /\ awaited (control w) = ∅ /\ detached w = ∅.
Proof.
  intros Hi Hc. assert (Ho := cl_open _ _ Hi Hc). split_and!; [..|apply Ho|apply Ho].
  - destruct (callers w) eqn:E; [done|]. assert (closed (control w) = true); [apply (cl_callers _ _ Hi)|]; congruence.
  - destruct (cell w) eqn:E; [done|..]; (assert (closed (control w) = true); [apply (cl_cell _ _ Hi)|]; congruence).
Qed.

Lemma after_call cancels w : closing_inv cancels w -> closing_inv cancels (call w).
Proof.
  intros Hi. unfold call. destruct (closed (control w)) eqn:Hc.
  - rewrite close_closed by done. destruct Hi as [H1 H2 H3 H4 H5 H6 H7 H8]. by split.
  - destruct (open_untouched _ _ Hi Hc) as (_ & He & Ha & Hd). unfold Control.close. rewrite Hc.
    split; cbn; rewrite ?He, ?Ha, ?Hd; try done. intros _ n [Hn|[Hn|Hn]]; cbn in Hn.
    + by apply aborted_lookup in Hn.
    + by rewrite lookup_empty in Hn.
    + by rewrite lookup_empty in Hn.
Qed.

Lemma after_spawn cancels w : closing_inv cancels w -> closing_inv cancels (spawn w).
Proof.
  intros Hi. unfold spawn. destruct (closed (control w)) eqn:Hc.
  - rewrite spawn_closed by done. destruct Hi as [H1 H2 H3 H4 H5 H6 H7 H8]. by split.
  - destruct (open_untouched _ _ Hi Hc) as (Hn & He & Ha & Hd). unfold Control.spawn. rewrite Hc.
    by split; cbn; rewrite ?Hn, ?He, ?Ha, ?Hd.
Qed.

Lemma after_finish cancels n w : closing_inv cancels w -> closing_inv cancels (finish n w).
Proof.
  intros [H1 H2 H3 H4 H5 H6 H7 H8]. split; cbn; try done.
  - intros Hc. destruct (H4 Hc) as [-> ->]. done.
  - intros Hc k [Hk|[Hk|Hk]]; cbn in Hk; apply finished_lookup in Hk as [?|Hk]; try done; apply (H5 Hc k);
      [by left|by right; left|by right; right].
  - intros Ht. by rewrite H6.
  - intros Hw k s Hk. apply finished_lookup in Hk as [?|Hk]; [done|by eapply H7].
  - intros Hc. by rewrite H8.
Qed.

Lemma after_join cancels w : closing_inv cancels w -> cell w = Initialising Sending -> closing_inv cancels (join_tasks w).
Proof.
  intros [H1 H2 H3 H4 H5 H6 H7 H8] He. assert (closed (control w) = true) as Hc by (apply H2; congruence).
  split; cbn; rewrite ?Hc; try done.
  - intros s _. by eapply H3.
  - intros _ k [Hk|[Hk|Hk]]; cbn in Hk; [by rewrite lookup_empty in Hk| |by apply (H5 Hc k); right; right].
    apply union_lookup in Hk as [Hk|Hk]; apply (H5 Hc k); [by left|by right; left].
Qed.

Lemma after_cancel w s : closing_inv true w -> cell w = Initialising s -> closing_inv true (cancel w).
Proof.
  intros [H1 H2 H3 H4 H5 H6 H7 H8] He. assert (closed (control w) = true) as Hc by (apply H2; congruence).
  split; cbn; rewrite ?Hc; try done.
  intros _ k [Hk|[Hk|Hk]]; cbn in Hk; [by apply (H5 Hc k); left|by rewrite lookup_empty in Hk|].
  apply union_lookup in Hk as [Hk|Hk]; [by apply aborted_lookup in Hk|by apply (H5 Hc k); right; right].
Qed.

Lemma closing_step_inv cancels w w' : closing_inv cancels w -> closing_step cancels w w' -> closing_inv cancels w'.
Proof.
  intros Hi Hs. destruct Hs as [w|w Hn He|w He|w He Hd|w He|w Hn Hb|w s Hcn He|w|w n].
  - by apply after_call.
  - destruct Hi as [H1 H2 H3 H4 H5 H6 H7 H8]. split; cbn; try done; [intros _; apply H1|intros _ _]; lia.
  - by apply after_join.
  - destruct Hi as [H1 H2 H3 H4 H5 H6 H7 H8]. split; cbn; try done.
    + intros _. apply H2. congruence.
    + intros _ _. by eapply H3.
    + intros _. apply H6. by rewrite He.
    + intros _ k s Hk. apply bool_decide_eq_true in Hd. by apply Hd in Hk.
  - destruct Hi as [H1 H2 H3 H4 H5 H6 H7 H8]. split; cbn; try done.
    + intros _. apply H2. congruence.
    + intros _. apply H6. by rewrite He.
    + intros _. apply H7. by rewrite He.
  - destruct Hi as [H1 H2 H3 H4 H5 H6 H7 H8]. split; cbn; try done; [intros _; apply H1; lia|].
    intros s Hs. specialize (Hb s Hs). lia.
  - subst cancels. by eapply after_cancel.
  - by apply after_spawn.
  - by apply after_finish.
Qed.

Lemma closing_reachable_inv cancels w : closing_reachable cancels w -> closing_inv cancels w.
Proof.
  intros Hr. assert (forall v v', rtc (closing_step cancels) v v' -> closing_inv cancels v -> closing_inv cancels v') as Hall.
  { intros v v' H. induction H as [v|v1 v2 v3 H12 _ IH]; [done|]. intros Hi. apply IH. by eapply closing_step_inv. }
  eapply Hall; [exact Hr|apply open_session_inv].
Qed.

(** ** Progress *)

(** The tasks that are not finished, and what the initialiser has left to do. *)
Definition unfinished (w : Closing) : gmap nat TaskStatus :=
  Control.reap (tasks (control w) ∪ awaited (control w)).
Definition stages_left (c : Cell) : nat :=
  match c with
  | Empty => 4 | Initialising Sending => 3 | Initialising Joining => 2 | Initialising TearingDown => 1
  | Initialised => 0
  end.
Definition remaining (w : Closing) : nat := stages_left (cell w) + size (unfinished w).

(** The steps that bring a close nearer to its end. *)
Inductive work : Closing -> Closing -> Prop :=
| work_begin w : 0 < callers w -> cell w = Empty -> work w (with_cell (Initialising Sending) w)
| work_sent w : cell w = Initialising Sending -> work w (join_tasks w)
| work_joined w : cell w = Initialising Joining -> Control.wait_done (control w) = true ->
    work w (with_cell (Initialising TearingDown) w)
| work_torn_down w : cell w = Initialising TearingDown -> work w (with_cell Initialised w)
| work_finish w n : is_Some (unfinished w !! n) -> work w (finish n w).

(** An execution in which no caller gives up, with the number of its steps that were work. *)
Inductive execution : nat -> Closing -> Closing -> Prop :=
| execution_end w : execution 0 w w
| execution_work k w w' w'' : work w w' -> execution k w' w'' -> execution (S k) w w''
| execution_other k w w' w'' : closing_step false w w' -> execution k w' w'' -> execution k w w''.

Lemma work_step cancels w w' : work w w' -> closing_step cancels w w'.
Proof. intros []; by constructor. Qed.

Lemma step_uncancelled cancels w w' : closing_step false w w' -> closing_step cancels w w'.
Proof. intros []; try done; by constructor. Qed.

Lemma unfinished_finish n w : unfinished (finish n w) = delete n (unfinished w).
Proof.
  unfold unfinished, Control.reap. apply map_eq. intros k. apply option_eq. intros s. cbn.
  rewrite map_lookup_filter_Some, lookup_delete_Some, map_lookup_filter_Some, !lookup_union. cbn.
  destruct (decide (n = k)) as [->|Hne].
  - rewrite !lookup_alter_eq. split; [|by intros []].
    destruct (tasks (control w) !! k), (awaited (control w) !! k); cbn; intros [Hs Hf]; by simplify_eq.
  - rewrite !lookup_alter_ne by done. split; [intros [Hs Hf]; by split|by intros [_ [Hs Hf]]].
Qed.

Lemma unfinished_join w : unfinished (join_tasks w) = unfinished w.
Proof. unfold unfinished. cbn. by rewrite (left_id_L ∅ (∪)). Qed.

Lemma work_decreases w w' : work w w' -> remaining w' < remaining w.
Proof.
  unfold remaining. intros [v _ He|v He|v He _|v He|v n [s Hn]]; cbn [cell with_cell join_tasks finish];
    try (rewrite He; cbn; unfold unfinished; cbn; lia).
  - rewrite He, unfinished_join. cbn. lia.
  - rewrite unfinished_finish, map_size_delete_Some by eauto.
    assert (size (unfinished v) <> 0); [|lia]. apply map_size_non_empty_iff. intros E. by rewrite E in Hn.
Qed.

Lemma step_not_increases w w' :
  closed (control w) = true -> closing_step false w w' -> remaining w' <= remaining w.
Proof.
  intros Hc Hs. destruct Hs as [v|v Hn He|v He|v He Hd|v He|v Hn Hb|v s Hf He|v|v n]; try done.
  - unfold remaining, unfinished, call. cbn. rewrite close_closed by done. lia.
  - apply Nat.lt_le_incl, work_decreases. by constructor.
  - apply Nat.lt_le_incl, work_decreases. by constructor.
  - apply Nat.lt_le_incl, work_decreases. by constructor.
  - apply Nat.lt_le_incl, work_decreases. by constructor.
  - unfold remaining, unfinished, spawn. cbn. rewrite spawn_closed by done. lia.
  - unfold remaining. rewrite unfinished_finish. cbn [cell finish].
    destruct (unfinished v !! n) eqn:E; [rewrite map_size_delete_Some by eauto; lia|by rewrite delete_id].
Qed.

Lemma step_closed cancels w w' : closed (control w) = true -> closing_step cancels w w' -> closed (control w') = true.
Proof.
  intros Hc Hs. destruct Hs; cbn; try done.
  - by rewrite close_closed.
  - by rewrite spawn_closed.
Qed.

(** A caller that waits and a cell that is not set: some step is work. *)
Lemma close_has_work cancels w :
  closing_reachable cancels w -> callers w <> 0 -> cell w = Initialised \/ exists w', work w w'.
Proof.
  intros Hi%closing_reachable_inv Hc. destruct (cell w) as [|[]|] eqn:He; [..|by left]; right.
  - eexists. apply work_begin; [lia|done].
  - eexists. by apply work_sent.
  - destruct (Control.wait_done (control w)) eqn:Hd; [eexists; by apply work_joined|].
    unfold Control.wait_done in Hd. apply bool_decide_eq_false, map_not_Forall in Hd as (n & s & Hn & Hs); [|solve_decision].
    exists (finish n w). apply work_finish. exists s. unfold unfinished, Control.reap.
    rewrite (cl_taken _ _ Hi), (left_id_L ∅ (∪)) by (by rewrite He). by apply map_lookup_filter_Some.
  - eexists. by apply work_torn_down.
Qed.

(** ** Properties *)

(** One task, a call of [close] that goes away while it waits for it, and another call
    that runs to its end. *)
Definition spawned : Closing := spawn open_session.
Definition gave_up : Closing := cancel (join_tasks (with_cell (Initialising Sending) (call spawned))).
Definition skipped : Closing :=
  with_cell Initialised (with_cell (Initialising TearingDown)
    (join_tasks (with_cell (Initialising Sending) (call gave_up)))).
(** The same without the first call. *)
Definition waited_for : Closing :=
  with_cell Initialised (with_cell (Initialising TearingDown)
    (finish 0 (join_tasks (with_cell (Initialising Sending) (call spawned))))).

Lemma called_reachable cancels w :
  closing_reachable cancels w -> cell w = Empty ->
  closing_reachable cancels (join_tasks (with_cell (Initialising Sending) (call w))).
Proof.
  intros Hr He. eapply rtc_r; [eapply rtc_r; [eapply rtc_r; [exact Hr|apply step_call]|]|].
  - apply step_begin; [cbn; lia|exact He].
  - by apply step_sent.
Qed.

Lemma ended_reachable cancels w :
  closing_reachable cancels w -> cell w = Initialising Joining -> Control.wait_done (control w) = true ->
  closing_reachable cancels (with_cell Initialised (with_cell (Initialising TearingDown) w)).
Proof.
  intros Hr He Hd. eapply rtc_r; [eapply rtc_r; [exact Hr|by apply step_joined]|]. by apply step_torn_down.
Qed.

Lemma spawned_reachable cancels : closing_reachable cancels spawned.
Proof. apply rtc_once, step_spawn. Qed.

Lemma skipped_reachable : closing_reachable true skipped.
Proof.
  apply ended_reachable; [|reflexivity|vm_compute; reflexivity]. apply called_reachable; [|reflexivity].
  eapply rtc_r; [apply called_reachable; [apply spawned_reachable|reflexivity]|].
  by eapply step_cancel.
Qed.

(** C19. Closing waits for the tasks, unless its caller gives up: when no caller goes away
    while it runs the initialiser, a [close] that returns has waited until every task
    of the session is gone, however many calls there are; when callers may go away,
    the session is still closed and no task runs on past its next suspension point,
    but a later [close] can return while a task that an earlier one was waiting for is
    still there. *)
Theorem close_waits_unless_cancelled :
  (forall w, closing_reachable false w -> cell w = Initialised ->
     closed (control w) = true /\ forall n s, task_in n s w -> s = Finished) /\
  (forall w, closing_reachable true w -> cell w = Initialised ->
     closed (control w) = true /\ forall n, ~ task_in n Running w) /\
  (exists w n, closing_reachable true w /\ cell w = Initialised /\ task_in n Aborted w).
Proof.
  split_and!.
  - intros w Hi%closing_reachable_inv He. split; [apply (cl_cell _ _ Hi); congruence|].
    intros n s [Hn|[Hn|Hn]].
    + rewrite (cl_taken _ _ Hi), lookup_empty in Hn; [done|by rewrite He].
    + apply (cl_waited _ _ Hi) in Hn; [done|by rewrite He].
    + by rewrite (cl_detached _ _ Hi eq_refl), lookup_empty in Hn.
  - intros w Hi%closing_reachable_inv He. assert (closed (control w) = true) as Hc by (apply (cl_cell _ _ Hi); congruence).
    split; [done|]. by apply (cl_running _ _ Hi).
  - exists skipped, 0. split; [apply skipped_reachable|]. split; [reflexivity|]. right; right. vm_compute. reflexivity.
Qed.

(** C20. Closing ends: once a call of [close] has begun, in every execution in which no caller
    gives up while it runs the initialiser - with further calls, callers that leave, tasks
    that end and attempts to spawn in any order - at most [remaining] steps are work (the
    initialiser's next stage, or the end of a task that was not finished), and as long as a
    call still waits and the cell is not set, a step that is work is possible. *)
Theorem close_terminates cancels w k w' :
  closing_reachable cancels w -> callers w <> 0 -> execution k w w' ->
  k <= remaining w /\
  (callers w' <> 0 -> cell w' = Initialised \/ exists w'', work w' w'').
Proof.
  intros Hr Hc Hx. assert (Hcl := cl_callers _ _ (closing_reachable_inv _ _ Hr) Hc). clear Hc.
  induction Hx as [w|k w w1 w2 Hw Hx IH|k w w1 w2 Hs Hx IH].
  - split; [lia|]. intros Hc. by apply (close_has_work cancels).
  - destruct IH as [IH1 IH2].
    + eapply rtc_r; [exact Hr|by apply work_step].
    + eapply (step_closed cancels); [exact Hcl|by apply work_step].
    + split; [|done]. apply work_decreases in Hw. lia.
  - destruct IH as [IH1 IH2].
    + eapply rtc_r; [exact Hr|by apply step_uncancelled].
    + by eapply step_closed.
    + split; [|done]. apply (step_not_increases _ _ Hcl) in Hs. lia.
Qed.

(** ** Witnesses *)

Lemma waited_for_reachable : closing_reachable false waited_for.
Proof.
  apply ended_reachable; [|reflexivity|vm_compute; reflexivity].
  eapply rtc_r; [apply called_reachable; [apply spawned_reachable|reflexivity]|apply step_finish].
Qed.

Lemma close_waits_unless_cancelled_witness :
  Control.awaited (control waited_for) !! 0 = Some Finished /\ forall s, task_in 0 s waited_for -> s = Finished.
Proof.
  split; [vm_compute; reflexivity|]. intros s.
  apply (proj2 (proj1 close_waits_unless_cancelled waited_for waited_for_reachable eq_refl)).
Defined.

Definition one_call : Closing := call spawned.

Lemma close_terminates_witness :
  1 <= remaining one_call /\
  exists w', work (with_cell (Initialising Sending) one_call) w'.
Proof.
  assert (closing_reachable true one_call) as Hr
    by (eapply rtc_r; [apply spawned_reachable|apply step_call]).
  destruct (close_terminates true one_call 1 (with_cell (Initialising Sending) one_call)) as [Hk Hw].
  - exact Hr.
  - discriminate.
  - eapply execution_work; [|apply execution_end]. apply work_begin; [cbn; lia|reflexivity].
  - split; [exact Hk|]. destruct Hw as [Hw|Hw]; [discriminate|discriminate|exact Hw].
Defined.
