(* ===== verification/Transport.v ===== *)
(** * The peer-to-peer transport ([transport/mod.rs], [transport/webrtc.rs])

    [TransportLayer] over a peer connection and a data channel of the WebRTC
    library, whose calls may succeed or fail as the environment decides. [handle]
    holds the lock of the peer connection while it runs, so negotiation messages
    are handled one after the other. *)
From S2P Require Import Prelude RustStr Errors Json SessionMessage Response Tasks.
Local Open Scope string_scope.
Local Open Scope list_scope.

Inductive TransportState : Type := Standby | Connecting | Ready | Connected | Error.

#[export] Instance TransportState_eq_dec : EqDecision TransportState.
Proof. solve_decision. Defined.

(** Session descriptions and ICE candidates of the library, and their JSON. *)
Class WebRtcLib : Type := {
  Sdp : Type;
  Candidate : Type;
  sdp_from_str : string -> LibResult Sdp;
  sdp_to_string : Sdp -> LibResult string;
  candidate_from_str : string -> LibResult Candidate;
}.

Inductive TransportEvent : Type :=
| Negotiation (n : TransportNegotiationMessage)
| Message (raw : string).

Definition DATA_CHANNEL_LABEL : string := "openlv-data".

Section transport.
Context `{WebRtcLib}.

(** The calls on a peer connection that changed it. *)
Inductive PcCall : Type :=
| SetRemote (sdp : Sdp)
| SetLocal (sdp : Sdp)
| AddCandidate (c : Candidate).

(** The layer's state: the peer connection is the list of the calls it took, oldest
    first; a data channel is its name; [state_tx] and [event_tx] hold what was sent
    through them, and [sent] the texts given to the data channel. *)
Record Transport : Type := mkTransport {
  t_state : TransportState;
  t_state_tx : list TransportState;
  peer_connection : option (list PcCall);
  data_channel : option nat;
  pending_candidates : list Candidate;
  unflushed : bool;
  event_tx : list TransportEvent;
  sent : list string;
}.

Definition with_t_state (s : TransportState) (w : Transport) : Transport :=
  mkTransport s (t_state_tx w ++ [s]) (peer_connection w) (data_channel w) (pending_candidates w)
    (unflushed w) (event_tx w) (sent w).
Definition with_pc (pc : option (list PcCall)) (w : Transport) : Transport :=
  mkTransport (t_state w) (t_state_tx w) pc (data_channel w) (pending_candidates w)
    (unflushed w) (event_tx w) (sent w).
Definition with_dc (dc : option nat) (w : Transport) : Transport :=
  mkTransport (t_state w) (t_state_tx w) (peer_connection w) dc (pending_candidates w)
    (unflushed w) (event_tx w) (sent w).
Definition with_pending (cs : list Candidate) (w : Transport) : Transport :=
  mkTransport (t_state w) (t_state_tx w) (peer_connection w) (data_channel w) cs
    (unflushed w) (event_tx w) (sent w).
Definition with_unflushed (b : bool) (w : Transport) : Transport :=
  mkTransport (t_state w) (t_state_tx w) (peer_connection w) (data_channel w)
    (pending_candidates w) b (event_tx w) (sent w).
Definition with_event (e : TransportEvent) (w : Transport) : Transport :=
  mkTransport (t_state w) (t_state_tx w) (peer_connection w) (data_channel w)
    (pending_candidates w) (unflushed w) (event_tx w ++ [e]) (sent w).
Definition with_sent (s : string) (w : Transport) : Transport :=
  mkTransport (t_state w) (t_state_tx w) (peer_connection w) (data_channel w)
    (pending_candidates w) (unflushed w) (event_tx w) (sent w ++ [s]).

(** [TransportLayer::new] *)
Definition new_transport : Transport := mkTransport Standby [] None None [] false [] [].

(** What the library answers: a call's outcome, a description it creates, whether
    there is a runtime. *)
Record TInput : Type := mkTInput {
  t_io : LibResult unit;
  t_sdp : LibResult Sdp;
  t_runtime : bool;
}.

Abbreviation TLayer := (prog Transport TInput).

(** [set_state] *)
Definition set_state (s : TransportState) : TLayer unit := writes (with_t_state s).

(** [...await.map_err(transport_error)?] *)
Definition library_call : TLayer unit :=
  r ← asks (fun i => lib_err Errors.Transport (t_io i)); lift r.

(** A call that changes the peer connection. *)
Definition pc_call (c : PcCall) : TLayer unit :=
  r ← atom (fun i w =>
    match t_io i with
    | inl _ => (with_pc ((fun l => l ++ [c]) <$> peer_connection w) w, Ok tt)
    | inr e => (w, Err (Errors.Transport e))
    end);
  lift r.

(** [create_offer], [create_answer] *)
Definition create_sdp : TLayer Sdp :=
  r ← asks (fun i => lib_err Errors.Transport (t_sdp i)); lift r.

(** [event_tx.send(...)] *)
Definition emit (e : TransportEvent) : TLayer unit := writes (with_event e).

(** [TransportHandler::on_ice_candidate]: the candidate's JSON, if it has one. *)
Definition on_ice_candidate (json : option string) : TLayer unit :=
  match json with
  | Some payload => emit (Negotiation (mkTransportNegotiationMessage "candidate" payload))
  | None => mret tt
  end.

(** [on_connection_state_change] *)
Definition on_connection_state_change (failed_or_closed : bool) : TLayer unit :=
  if failed_or_closed then set_state Error else mret tt.

(** [remote_description] is there once a call to set it has succeeded. *)
Definition has_remote (log : list PcCall) : bool :=
  existsb (fun c => match c with SetRemote _ => true | _ => false end) log.

(** [flush_pending_candidates] *)
Fixpoint add_candidates (cs : list Candidate) : TLayer unit :=
  match cs with
  | [] => mret tt
  | c :: r => pc_call (AddCandidate c);; add_candidates r
  end.

Definition flush_pending_candidates : TLayer unit :=
  cs ← atom (fun _ w => (with_pending [] w, pending_candidates w));
  add_candidates cs.

Definition handle_offer (payload : string) : TLayer unit :=
  offer ← lift (lib_err Other (sdp_from_str payload));
  pc_call (SetRemote offer);;
  flush_pending_candidates;;
  answer ← create_sdp;
  pc_call (SetLocal answer);;
  text ← lift (lib_err Other (sdp_to_string answer));
  emit (Negotiation (mkTransportNegotiationMessage "answer" text)).

Definition handle_answer (payload : string) : TLayer unit :=
  answer ← lift (lib_err Other (sdp_from_str payload));
  pc_call (SetRemote answer);;
  flush_pending_candidates.

Definition handle_candidate (payload : string) : TLayer unit :=
  if String.eqb payload "" then mret tt
  else
    candidate ← lift (lib_err Other (candidate_from_str payload));
    known ← reads (fun w => has_remote (default [] (peer_connection w)));
    if negb known
    then writes (fun w => with_pending (pending_candidates w ++ [candidate]) w)
    else pc_call (AddCandidate candidate).

(** [TransportLayer::handle] *)
Definition handle (message : TransportNegotiationMessage) : TLayer unit :=
  pc ← reads peer_connection;
  match pc with
  | None => lift (Err (Errors.Transport "peer connection not found"))
  | Some _ =>
      if String.eqb (message_type message) "offer" then handle_offer (negotiation_payload message)
      else if String.eqb (message_type message) "answer"
      then handle_answer (negotiation_payload message)
      else if String.eqb (message_type message) "candidate"
      then handle_candidate (negotiation_payload message)
      else mret tt
  end.

(** [TransportLayer::setup]: the codecs, the interceptors, the runtime, the
    connection; on the host the data channel and the offer. *)
Definition setup (is_host : bool) (dc : nat) : TLayer unit :=
  set_state Connecting;;
  library_call;;
  library_call;;
  runtime ← asks t_runtime;
  if negb runtime then lift (Err (Errors.Transport "no async runtime"))
  else
    library_call;;
    log ← (if is_host : bool then
             library_call;;
             writes (with_dc (Some dc));;
             offer ← create_sdp;
             library_call;;
             text ← lift (lib_err Other (sdp_to_string offer));
             emit (Negotiation (mkTransportNegotiationMessage "offer" text));;
             mret [SetLocal offer]
           else mret []);
    writes (with_pc (Some log));;
    set_state Ready.

(** [TransportLayer::teardown], after the wait for the flush: the outcome of closing
    the data channel is ignored. *)
Definition teardown : TLayer unit :=
  writes (with_dc None);;
  pc ← atom (fun _ w => (with_pc None w, peer_connection w));
  match pc with Some _ => library_call | None => mret tt end;;
  set_state Standby.

(** [dc.send_text(...)]: the data channel has the text whether or not the call
    succeeds. *)
Definition send_text (payload : string) : TLayer unit :=
  r ← atom (fun i w => (with_sent payload w, lib_err Errors.Transport (t_io i)));
  lift r.

(** [TransportLayer::send] *)
Definition send (payload : string) : TLayer unit :=
  s ← reads t_state;
  if negb (bool_decide (s = Connected)) then lift (Err (Errors.Transport "transport not connected"))
  else
    dc ← reads data_channel;
    match dc with
    | None => lift (Err (Errors.Transport "data channel not found"))
    | Some _ =>
        send_text payload;;
        writes (with_unflushed true)
    end.

(** The events of a data channel, and the task of [store_and_poll_dc]. *)
Inductive DataChannelEvent : Type :=
| OnOpen
| OnMessage (data : bytes)
| OnBufferedAmountLow
| OnClose
| OtherEvent.

Fixpoint poll_dc (events : list DataChannelEvent) : TLayer unit :=
  match events with
  | [] => mret tt
  | OnOpen :: r => set_state Connected;; poll_dc r
  | OnMessage data :: r =>
      match from_utf8 data with
      | Some text => emit (Message text);; poll_dc r
      | None => poll_dc r
      end
  | OnBufferedAmountLow :: r => writes (with_unflushed false);; poll_dc r
  | OnClose :: _ => writes (with_unflushed false);; set_state Error
  | OtherEvent :: r => poll_dc r
  end.

Definition store_and_poll_dc (dc : nat) (events : list DataChannelEvent) : TLayer unit :=
  writes (with_dc (Some dc));; poll_dc events.

(** [TransportHandler::on_data_channel] *)
Definition on_data_channel (dc : nat) (events : list DataChannelEvent) : TLayer unit :=
  store_and_poll_dc dc events.

(** [TransportLayer::wait_for]: what the state receiver yields, with the layer's
    state at that moment; [None] when it still waits. *)
Fixpoint wait_loop (target : TransportState) (recv : list ((TransportState + RecvError) * TransportState))
    : option (Result unit) :=
  match recv with
  | [] => None
  | (inl s, now) :: r =>
      if decide (s = target) then Some (Ok tt)
      else if decide (now = target) then Some (Ok tt) else wait_loop target r
  | (inr Closed, now) :: _ =>
      if decide (now = target) then Some (Ok tt)
      else Some (Err (Errors.Transport "transport state channel closed"))
  | (inr (Lagged _), now) :: r => if decide (now = target) then Some (Ok tt) else wait_loop target r
  end.

Definition wait_for (target now : TransportState)
    (recv : list ((TransportState + RecvError) * TransportState)) : option (Result unit) :=
  if decide (now = target) then Some (Ok tt) else wait_loop target recv.

(** Negotiation messages handled one after the other, whatever each returns. *)
Fixpoint handle_all (messages : list TransportNegotiationMessage) : TLayer unit :=
  match messages with
  | [] => mret tt
  | m :: r => attempt (handle m);; handle_all r
  end.

(** ** Candidates *)

Definition added_in (log : list PcCall) : list Candidate :=
  omap (fun c => match c with AddCandidate x => Some x | _ => None end) log.

(** The candidates the layer holds: given to the peer connection, then pending. *)
Definition held (w : Transport) : list Candidate :=
  added_in (default [] (peer_connection w)) ++ pending_candidates w.

(** The candidate a message brings. *)
Definition arrives (m : TransportNegotiationMessage) : option Candidate :=
  if String.eqb (message_type m) "candidate" then
    if String.eqb (negotiation_payload m) "" then None
    else match candidate_from_str (negotiation_payload m) with inl c => Some c | inr _ => None end
  else None.

(** With a peer connection: candidates are pending only until there is a remote
    description, and none is given to the connection before. *)
Definition candidates_wf (w : Transport) : Prop :=
  exists log, peer_connection w = Some log /\
    (has_remote log = true -> pending_candidates w = []) /\
    (has_remote log = false -> added_in log = []).

(** What the messages may leave in the hands of the layer: all of them in order, when
    every call succeeds; otherwise some may be missing. *)
Definition accounted (inputs : nat -> TInput) (l l' : list Candidate) : Prop :=
  l' `sublist_of` l /\ ((forall n, t_io (inputs n) = inl tt) -> l' = l).

(** ** Lemmas *)

Lemma accounted_refl inputs l : accounted inputs l l.
Proof. by split. Qed.

Lemma accounted_trans inputs l l' l'' :
  accounted inputs l l' -> accounted inputs l' l'' -> accounted inputs l l''.
Proof. intros [H1 H2] [H3 H4]. split; [by etrans|]. intros Hi. by rewrite H4, H2. Qed.

Lemma accounted_app inputs l l' k : accounted inputs l l' -> accounted inputs (l ++ k) (l' ++ k).
Proof. intros [H1 H2]. split; [by apply sublist_app|]. intros Hi. by rewrite H2. Qed.

Lemma has_remote_app log c : has_remote (log ++ [c]) =
  has_remote log || match c with SetRemote _ => true | _ => false end.
Proof. unfold has_remote. rewrite existsb_app. cbn. by rewrite orb_false_r. Qed.

Lemma added_in_app log c : added_in (log ++ [c]) =
  added_in log ++ match c with AddCandidate x => [x] | _ => [] end.
Proof. unfold added_in. rewrite omap_app. by destruct c. Qed.

(** The effect of a call on the peer connection. *)
Lemma run_pc_call inputs n c w log :
  peer_connection w = Some log ->
  run inputs n (pc_call c) w =
  match t_io (inputs n) with
  | inl _ => (Ok tt, S n, with_pc (Some (log ++ [c])) w)
  | inr e => (Err (Errors.Transport e), S n, w)
  end.
Proof.
  intros Hpc. unfold pc_call. cbn. destruct (t_io (inputs n)) as [[]|e]; cbn; [by rewrite Hpc|done].
Qed.

(** Some candidates given to a connection that has a remote description. *)
Lemma run_add_candidates inputs cs n w log :
  peer_connection w = Some log -> has_remote log = true ->
  exists r n' w' log', run inputs n (add_candidates cs) w = (r, n', w') /\ r <> Panic /\
    peer_connection w' = Some log' /\ has_remote log' = true /\
    pending_candidates w' = pending_candidates w /\
    accounted inputs (added_in log ++ cs) (added_in log').
Proof.
  revert n w log. induction cs as [|c cs IH]; intros n w log Hpc Hr; cbn [add_candidates].
  - exists (Ok tt), n, w, log. split_and!; try done. rewrite app_nil_r. apply accounted_refl.
  - rewrite run_bind, (run_pc_call inputs n _ w log Hpc).
    destruct (t_io (inputs n)) as [[]|e] eqn:Hio.
    + edestruct (IH (S n) (with_pc (Some (log ++ [AddCandidate c])) w) (log ++ [AddCandidate c]))
        as (r & n' & w' & log' & Hrun & Hnp & Hpc' & Hr' & Hp & Ha); [done|by rewrite has_remote_app, Hr|].
      exists r, n', w', log'. split_and!; try done.
      rewrite added_in_app, <- (assoc_L app) in Ha. exact Ha.
    + exists (Err (Errors.Transport e)), (S n), w, log. split_and!; try done. split.
      * apply sublist_inserts_r. done.
      * intros Hi. rewrite Hi in Hio. done.
Qed.

(** Outcomes that keep the account of the candidates. *)
Definition keeps (inputs : nat -> TInput) (l : list Candidate) (res : Result unit * nat * Transport)
    : Prop := res.1.1 <> Panic /\ candidates_wf res.2 /\ accounted inputs l (held res.2).

Lemma keeps_bind inputs n (p : TLayer unit) (q : unit -> TLayer unit) l w :
  keeps inputs l (run inputs n p w) ->
  (forall n' w', candidates_wf w' -> keeps inputs (held w') (run inputs n' (q tt) w')) ->
  keeps inputs l (run inputs n (p ≫= q) w).
Proof.
  intros Hp Hq. rewrite run_bind. destruct (run inputs n p w) as [[[[]|e|] n'] w']; [|done..].
  destruct Hp as (_ & Hwf & Ha). destruct (Hq n' w' Hwf) as (? & Hwf' & Ha'). split_and!; [done..|].
  by eapply accounted_trans.
Qed.

Lemma keeps_same inputs n r w : r <> Panic -> candidates_wf w -> keeps inputs (held w) (r, n, w).
Proof. intros Hr Hw. split_and!; [done..|apply accounted_refl]. Qed.

(** Pending candidates move to the connection, in order. *)
Lemma keeps_flush inputs n w log :
  peer_connection w = Some log -> has_remote log = true ->
  keeps inputs (held w) (run inputs n flush_pending_candidates w).
Proof.
  intros Hpc Hr. unfold flush_pending_candidates. rewrite run_bind. cbn [run atom].
  destruct (run_add_candidates inputs (pending_candidates w) (S n) (with_pending [] w) log)
    as (r & n' & w' & log' & -> & Hnp & Hpc' & Hr' & Hp & Ha); [done..|].
  split_and!; cbn [fst snd]; [done|..].
  - exists log'. split_and!; [done|by intros _; rewrite Hp|congruence].
  - unfold held. rewrite Hpc, Hpc', Hp. cbn. by rewrite app_nil_r.
Qed.

(** Setting a description keeps the candidates; the code after a remote one knows
    that it is there. *)
Lemma keeps_set_description inputs n c (q : unit -> TLayer unit) w :
  match c with AddCandidate _ => False | _ => True end -> candidates_wf w ->
  (forall w' log, peer_connection w' = Some log -> held w' = held w ->
     (match c with SetRemote _ => has_remote log = true | _ => candidates_wf w' end) ->
     keeps inputs (held w') (run inputs (S n) (q tt) w')) ->
  keeps inputs (held w) (run inputs n (pc_call c ≫= q) w).
Proof.
  intros Hc Hwf Hq. assert (Hwf0 := Hwf). destruct Hwf0 as (log & Hpc & H1 & H2).
  rewrite run_bind, (run_pc_call inputs n _ w log Hpc).
  destruct (t_io (inputs n)) as [[]|e]; [|by apply keeps_same].
  set (w' := with_pc _ w).
  assert (held w' = held w) as Hh.
  { unfold held. rewrite Hpc. cbn. rewrite added_in_app. by destruct c; rewrite ?app_nil_r. }
  rewrite <- Hh. apply (Hq w' (log ++ [c])); [done|done|].
  destruct c as [sdp|sdp|x]; [by rewrite has_remote_app, orb_true_r| |done].
  exists (log ++ [SetLocal sdp]). rewrite has_remote_app, added_in_app, orb_false_r, app_nil_r. done.
Qed.

Lemma run_lift_lib {A B} inputs n (r : LibResult A) (q : A -> TLayer B) w :
  run inputs n (lift (lib_err Other r) ≫= q) w =
  match r with inl a => run inputs n (q a) w | inr e => (Err (Other e), n, w) end.
Proof. by destruct r. Qed.

Lemma keeps_answer inputs n w :
  candidates_wf w ->
  keeps inputs (held w) (run inputs n (answer ← create_sdp;
    pc_call (SetLocal answer);;
    text ← lift (lib_err Other (sdp_to_string answer));
    emit (Negotiation (mkTransportNegotiationMessage "answer" text))) w).
Proof.
  intros Hwf. rewrite run_bind.
  assert (run inputs n create_sdp w = (lib_err Errors.Transport (t_sdp (inputs n)), S n, w)) as ->
    by (cbn; by destruct (t_sdp (inputs n))).
  destruct (t_sdp (inputs n)) as [answer|e]; cbn [lib_err]; [|by apply keeps_same].
  apply keeps_set_description; [done|done|]. intros w' log Hpc Hh Hwf'. rewrite run_lift_lib.
  destruct (sdp_to_string answer) as [text|e]; [|by apply keeps_same].
  split_and!; [done|done|apply accounted_refl].
Qed.

Lemma keeps_candidate inputs n payload w :
  candidates_wf w ->
  keeps inputs (held w ++ option_list (arrives (mkTransportNegotiationMessage "candidate" payload)))
    (run inputs n (handle_candidate payload) w).
Proof.
  intros Hwf. unfold arrives, handle_candidate. cbn [message_type negotiation_payload].
  change ("candidate" =? "candidate") with true. cbn iota.
  assert (forall r n', r <> Panic -> keeps inputs (held w ++ []) (r, n', w)) as Hsame
    by (intros; rewrite app_nil_r; by apply keeps_same).
  destruct (payload =? ""); [by apply Hsame|]. rewrite run_lift_lib.
  destruct (candidate_from_str payload) as [c|e]; [|by apply Hsame].
  destruct Hwf as (log & Hpc & H1 & H2). rewrite run_bind. cbn [run reads atom]. rewrite Hpc.
  cbn [default from_option id option_list option_rect]. destruct (has_remote log) eqn:Hr; cbn [negb].
  - rewrite (run_pc_call inputs (S n) (AddCandidate c) w log Hpc). unfold held at 1.
    rewrite Hpc, H1 by done. cbn [default from_option id]. rewrite app_nil_r.
    destruct (t_io (inputs (S n))) as [[]|e] eqn:Hio.
    + split_and!; [done| |].
      * exists (log ++ [AddCandidate c]). rewrite has_remote_app, Hr. cbn. by rewrite H1.
      * unfold held. cbn. rewrite added_in_app, H1, app_nil_r by done. apply accounted_refl.
    + split_and!; [done|exists log; rewrite Hr; by split_and!|]. unfold held. cbn. rewrite Hpc, H1, app_nil_r by done.
      cbn. split.
      * by apply sublist_inserts_r.
      * intros Hi. by rewrite Hi in Hio.
  - split_and!; [done| |].
    + exists log. cbn. rewrite Hr. by split_and!.
    + unfold held. cbn. rewrite Hpc. cbn. rewrite (assoc_L app). apply accounted_refl.
Qed.

(** One negotiation message. *)
Lemma keeps_handle inputs n m w :
  candidates_wf w -> keeps inputs (held w ++ option_list (arrives m)) (run inputs n (handle m) w).
Proof.
  intros Hwf. unfold handle. rewrite run_bind. cbn [run reads atom].
  assert (Hwf0 := Hwf). destruct Hwf0 as (log & Hpc & _). rewrite Hpc.
  assert (forall r n', r <> Panic -> keeps inputs (held w ++ []) (r, n', w)) as Hsame
    by (intros; rewrite app_nil_r; by apply keeps_same).
  destruct m as [ty payload]. cbn [message_type negotiation_payload].
  assert (ty <> "candidate" -> arrives (mkTransportNegotiationMessage ty payload) = None) as Hno.
  { intros Hne. unfold arrives. cbn. by destruct (String.eqb_spec ty "candidate"). }
  destruct (String.eqb_spec ty "offer") as [->|_].
  { rewrite Hno by done. unfold handle_offer. rewrite run_lift_lib.
    destruct (sdp_from_str payload) as [offer|e]; [|by apply Hsame]. cbn [option_list option_rect].
    rewrite app_nil_r. apply keeps_set_description; [done|done|]. intros w' log' Hpc' Hh Hr.
    apply keeps_bind; [by eapply keeps_flush|]. intros n' w''. apply keeps_answer. }
  destruct (String.eqb_spec ty "answer") as [->|_].
  { rewrite Hno by done. unfold handle_answer. rewrite run_lift_lib.
    destruct (sdp_from_str payload) as [answer|e]; [|by apply Hsame]. cbn [option_list option_rect].
    rewrite app_nil_r. apply keeps_set_description; [done|done|]. intros w' log' Hpc' Hh Hr.
    by eapply keeps_flush. }
  destruct (String.eqb_spec ty "candidate") as [->|Hne]; [by apply keeps_candidate|].
  rewrite Hno by done. by apply Hsame.
Qed.

Lemma keeps_handle_all inputs n ms w :
  candidates_wf w -> keeps inputs (held w ++ omap arrives ms) (run inputs n (handle_all ms) w).
Proof.
  revert n w. induction ms as [|m ms IH]; intros n w Hwf.
  - cbn. rewrite app_nil_r. by apply keeps_same.
  - cbn [handle_all]. rewrite run_bind, run_attempt. assert (Hk := keeps_handle inputs n m w Hwf).
    assert (omap arrives (m :: ms) = option_list (arrives m) ++ omap arrives ms) as ->
      by (csimpl; by destruct (arrives m)).
    rewrite (assoc_L app). destruct (run inputs n (handle m) w) as [[[[]|e|] n'] w'];
      destruct Hk as (Hnp & Hwf' & Ha); cbn [fst snd] in *; [| |done];
      destruct (IH n' w' Hwf') as (? & ? & ?); (split_and!; [done..|]);
      (eapply accounted_trans; [by apply accounted_app|done]).
Qed.

End transport.

(** ** Properties *)

(** C29. ICE candidates are neither reordered nor repeated, and none is lost while the
    library accepts them: after any sequence of negotiation messages, whatever each
    call of the library returned, the candidates that the peer connection took
    followed by those still pending are, in their order of arrival, some of the
    candidates that arrived (after those held before), and all of them if every
    call succeeded. They are pending only while there is no remote description. *)
Theorem candidates_in_order `{WebRtcLib} inputs n ms w r n' w' :
  candidates_wf w -> run inputs n (handle_all ms) w = (r, n', w') ->
  candidates_wf w' /\ held w' `sublist_of` (held w ++ omap arrives ms) /\
  ((forall k, t_io (inputs k) = inl tt) -> held w' = held w ++ omap arrives ms).
Proof.
  intros Hwf Hr. destruct (keeps_handle_all inputs n ms w Hwf) as (_ & Hwf' & Hs & Ha).
  rewrite Hr in *. by split_and!.
Qed.

(** One bad candidate spoils the negotiation ([flush_pending_candidates] takes the
    whole list and stops at the first error): when the peer's offer is accepted and
    the first pending candidate is refused, the other pending candidates are gone,
    without having been given to the connection, and no answer is sent. *)
Theorem flush_failure_loses_candidates `{WebRtcLib} inputs n payload offer c rest e w log :
  peer_connection w = Some log -> pending_candidates w = c :: rest ->
  sdp_from_str payload = inl offer ->
  t_io (inputs (S n)) = inl tt -> t_io (inputs (S (S (S n)))) = inr e ->
  exists n' w',
    run inputs n (handle (mkTransportNegotiationMessage "offer" payload)) w
      = (Err (Errors.Transport e), n', w') /\
    pending_candidates w' = [] /\ added_in (default [] (peer_connection w')) = added_in log /\
    event_tx w' = event_tx w.
Proof.
  intros Hpc Hp Ho H1 H2. unfold handle. rewrite run_bind. cbn [run reads atom]. rewrite Hpc.
  cbn [message_type negotiation_payload]. change ("offer" =? "offer") with true. cbn iota.
  unfold handle_offer. rewrite run_lift_lib, Ho, run_bind, (run_pc_call inputs _ _ w log Hpc), H1.
  rewrite run_bind. unfold flush_pending_candidates. rewrite run_bind. cbn [run atom].
  cbn [pending_candidates with_pc]. rewrite Hp. cbn [add_candidates].
  rewrite run_bind.
  rewrite (run_pc_call inputs _ _ _ (log ++ [SetRemote offer])) by done. rewrite H2.
  eexists _, _. split; [done|]. split_and!; [done| |done].
  cbn [with_pending with_pc peer_connection default from_option id].
  by rewrite added_in_app, app_nil_r.
Qed.

(** The session's calls of a host's transport: its setup, or the handling of a message. *)
Definition transport_call `{WebRtcLib} (dc : nat) (message : option TransportNegotiationMessage)
    : prog Transport TInput unit :=
  attempt (match message with None => setup true dc | Some m => handle m end);; mret tt.

Definition transport_steps `{WebRtcLib} (dc : nat) :=
  steps (fun _ _ => false) (fun _ => None) (transport_call dc) (fun _ w => w).

(** An answer can overtake the setup that made its offer: [setup] emits the offer before
    it stores the peer connection, and [handle] refuses a message when there is none. In
    this schedule, in which no call of the library fails, the answer is gone when both
    calls have returned: the transport is [Ready], and its connection has no remote
    description. *)
Theorem early_answer_is_lost `{WebRtcLib} dc offer text answer w :
  peer_connection w = None -> sdp_to_string offer = inl text ->
  exists es w',
    transport_steps dc (Enter None :: es) (mkConfig w []) = Some (mkConfig w' []) /\
    (forall i input, Run i input ∈ es -> input = mkTInput (inl tt) (inl offer) true) /\
    Enter (Some (mkTransportNegotiationMessage "answer" answer)) ∈ es /\
    event_tx w' = event_tx w ++ [Negotiation (mkTransportNegotiationMessage "offer" text)] /\
    t_state w' = Ready /\ peer_connection w' = Some [SetLocal offer].
Proof.
  intros Hpc Ht. set (input := mkTInput (inl tt) (inl offer) true).
  exists (replicate 10 (Run 0 input) ++
    Enter (Some (mkTransportNegotiationMessage "answer" answer)) ::
    replicate 2 (Run 1 input) ++ replicate 3 (Run 0 input)).
  eexists. split; [|split; [|split]].
  - unfold transport_steps, transport_call, setup. cbn. rewrite Ht. cbn. rewrite Hpc. reflexivity.
  - intros i inp Hin. cbn in Hin.
    repeat (apply elem_of_cons in Hin as [Hin|Hin]; [first [by injection Hin|discriminate Hin]|]). by apply not_elem_of_nil in Hin.
  - apply elem_of_app. right. by left.
  - by split_and!.
Qed.

(** The events of a data channel up to its end. *)
Fixpoint until_close (events : list DataChannelEvent) : list DataChannelEvent :=
  match events with
  | [] => []
  | OnClose :: _ => []
  | e :: r => e :: until_close r
  end.

Definition message_text (e : DataChannelEvent) : option string :=
  match e with OnMessage data => from_utf8 data | _ => None end.

(** The data channel's messages reach the session in order: polling emits exactly
    the messages that are valid UTF-8, in their order, up to the closing of the
    channel, after which nothing is emitted and the transport is in [Error]. *)
Theorem poll_dc_spec `{WebRtcLib} inputs n events w :
  exists n' w', run inputs n (poll_dc events) w = (Ok tt, n', w') /\
    event_tx w' = event_tx w ++ (Message <$> omap message_text (until_close events)) /\
    (OnClose ∈ events -> t_state w' = Error /\ unflushed w' = false).
Proof.
  revert n w. induction events as [|e events IH]; intros n w.
  - exists n, w. split_and!; [done|by rewrite app_nil_r|]. by intros ?%not_elem_of_nil.
  - assert (forall w0, event_tx w0 = event_tx w ++ (Message <$> option_list (message_text e)) ->
      e <> OnClose -> forall n0, exists n' w', run inputs n0 (poll_dc events) w0 = (Ok tt, n', w') /\
      event_tx w' = event_tx w ++ (Message <$> omap message_text (until_close (e :: events))) /\
      (OnClose ∈ e :: events -> t_state w' = Error /\ unflushed w' = false)) as Hstep.
    { intros w0 Hw0 Hne n0. destruct (IH n0 w0) as (n' & w' & Hr & He & Hc). exists n', w'.
      split_and!; [done| |].
      - rewrite He, Hw0, <- (assoc_L app), <- fmap_app. do 2 f_equal.
        destruct e as [|data| | |]; try done. cbn [until_close omap list_omap message_text].
        by destruct (from_utf8 data).
      - intros [Heq|Hin]%elem_of_cons; [by rewrite Heq in Hne|auto]. }
    destruct e as [|data| | |]; cbn [poll_dc].
    + apply (Hstep (with_t_state Connected w)); [by rewrite app_nil_r|done].
    + destruct (from_utf8 data) as [text|] eqn:E.
      * apply (Hstep (with_event (Message text) w)); [|done]. cbn. by rewrite E.
      * apply (Hstep w); [|done]. cbn. by rewrite E, app_nil_r.
    + apply (Hstep (with_unflushed false w)); [by rewrite app_nil_r|done].
    + eexists _, _. split; [done|]. cbn. by rewrite app_nil_r.
    + by apply (Hstep w); [rewrite app_nil_r|].
Qed.

(** ** Witnesses *)

Module TransportModel.

#[export] Instance webrtc_lib : WebRtcLib := {|
  Sdp := string;
  Candidate := string;
  sdp_from_str s := inl s;
  sdp_to_string s := inl s;
  candidate_from_str s := inl s;
|}.

Definition good : TInput := mkTInput (inl tt) (inl "sdp") true.

(** The library refuses the fourth call. *)
Definition refusing (n : nat) : TInput :=
  if (n =? 3)%nat then mkTInput (inr "bad") (inl "sdp") true else good.

End TransportModel.

Import TransportModel.

Definition negotiation (ty payload : string) : TransportNegotiationMessage :=
  mkTransportNegotiationMessage ty payload.

Definition witness_transport : Transport := with_pc (Some []) new_transport.

Definition two_pending : Transport :=
  @with_pending webrtc_lib ["a"; "b"] witness_transport.

Lemma candidates_in_order_witness :
  let res := run (fun _ => good) 0 (handle_all
    [negotiation "candidate" "a"; negotiation "candidate" ""; negotiation "candidate" "b";
     negotiation "offer" "o"; negotiation "candidate" "c"]) witness_transport in
  held res.2 = ["a"; "b"; "c"] /\ peer_connection res.2
    = Some [SetRemote "o"; AddCandidate "a"; AddCandidate "b"; SetLocal "sdp"; AddCandidate "c"].
Proof.
  cbn zeta. split; [|vm_compute; reflexivity].
  destruct (run (fun _ => good) 0 (handle_all
    [negotiation "candidate" "a"; negotiation "candidate" ""; negotiation "candidate" "b";
     negotiation "offer" "o"; negotiation "candidate" "c"]) witness_transport) as [[r n'] w'] eqn:E.
  assert (candidates_wf witness_transport) as Hwf by (exists []; split_and!; reflexivity || discriminate).
  destruct (candidates_in_order (fun _ => good) 0 _ witness_transport r n' w' Hwf E) as (_ & _ & Hh).
  cbn [snd]. rewrite Hh; [vm_compute; reflexivity|reflexivity].
Defined.

Lemma early_answer_is_lost_witness :
  exists es w', transport_steps 7 (Enter None :: es) (mkConfig new_transport []) = Some (mkConfig w' []) /\
    peer_connection w' = Some [SetLocal "sdp"].
Proof.
  destruct (@early_answer_is_lost webrtc_lib 7 "sdp" "sdp" "answer" new_transport eq_refl eq_refl)
    as (es & w' & Hs & _ & _ & _ & _ & Hp).
  exists es, w'. split; [exact Hs|exact Hp].
Defined.

Lemma flush_failure_loses_candidates_witness :
  exists n' w', run refusing 0
      (handle (negotiation "offer" "o")) two_pending
    = (Err (Errors.Transport "bad"), n', w') /\ held w' = [].
Proof.
  destruct (@flush_failure_loses_candidates webrtc_lib refusing 0 "o" "o" "a" ["b"]
    "bad" two_pending []) as (n' & w' & Hr & Hp & Ha & _);
    [reflexivity..|].
  exists n', w'. split; [exact Hr|]. unfold held. rewrite Hp, Ha. reflexivity.
Defined.
