(* ===== verification/Session.v ===== *)
(** * The session ([session/mod.rs])

    The session ties the signaling layer, the transport and the session control
    together. [SessionInner] holds the three parts and the session's own state;
    its methods and the bodies of its event loops are programs of [Tasks.v] over
    it, and the calls on the parts are the programs of those parts. *)
From S2P Require Import Prelude RustStr Errors Json Wire CryptoLib CryptoModel Encryption.
From S2P Require Import Message TextModel Tasks SessionMessage Response.
From S2P Require SignalingLayer Control Transport.
Local Open Scope string_scope.
Local Open Scope list_scope.

Import SignalingLayer(Inner, SignalState, SignalingProperties, Input).
Import Control(Control).
Import Transport(Transport, TransportState, TInput, WebRtcLib, TransportEvent).

#[export] Existing Instance SignalingLayer.SignalState_eq_dec.
#[export] Existing Instance Transport.TransportState_eq_dec.

(** ** State *)

Definition DEFAULT_ACK_TIMEOUT_MS : Z := 10000.
Definition DEFAULT_RESPONSE_TIMEOUT_MS : Z := 3600000.

Inductive SessionState : Type := Created | Signaling | Ready | Linking | Connected | Disconnected.

#[export] Instance SessionState_eq_dec : EqDecision SessionState.
Proof. solve_decision. Defined.

Record SessionStateObject : Type := mkSessionStateObject {
  o_status : SessionState;
  o_signaling : option SignalState;
  o_peer_info : option PeerInfo;
  o_error : option string;
}.

(** The tasks that the session starts: its event loops, and one for each admitted
    request, which owns a permit. *)
Inductive SessionTask : Type :=
| SignalStateLoop
| SignalMessageLoop
| TransportStateLoop
| TransportEventLoop
| RemoteRequest (message_id : string) (permit : nat) (payload : Value).

Section session.
Context `{CryptoLib} `{SignalingCodec} `{SessionCodec} `{WebRtcLib}.

(** [SessionInner]; the recorded peer key is part of [signaling], whose handle the
    session shares. [events_taken]: [connect] has taken the transport events.
    [started]: the tasks spawned; [handled]: the payloads given to the request
    handler. *)
Record SessionInner : Type := mkSessionInner {
  status : SessionState;
  error : option string;
  peer_closed : bool;
  s_state_tx : list SessionStateObject;
  request_tx : list Value;
  response_tx : list SessionMessage;
  signaling : Inner;
  transport : Transport;
  control : Control;
  events_taken : bool;
  close_result : option (Result unit);
  started : list SessionTask;
  handled : list Value;
}.

Definition with_status (x : SessionState) (w : SessionInner) : SessionInner :=
  mkSessionInner x (error w) (peer_closed w) (s_state_tx w) (request_tx w) (response_tx w)
    (signaling w) (transport w) (control w) (events_taken w) (close_result w) (started w)
    (handled w).
Definition with_error (x : option string) (w : SessionInner) : SessionInner :=
  mkSessionInner (status w) x (peer_closed w) (s_state_tx w) (request_tx w) (response_tx w)
    (signaling w) (transport w) (control w) (events_taken w) (close_result w) (started w)
    (handled w).
Definition with_peer_closed (x : bool) (w : SessionInner) : SessionInner :=
  mkSessionInner (status w) (error w) x (s_state_tx w) (request_tx w) (response_tx w)
    (signaling w) (transport w) (control w) (events_taken w) (close_result w) (started w)
    (handled w).
Definition with_s_state_tx (x : list SessionStateObject) (w : SessionInner) : SessionInner :=
  mkSessionInner (status w) (error w) (peer_closed w) x (request_tx w) (response_tx w)
    (signaling w) (transport w) (control w) (events_taken w) (close_result w) (started w)
    (handled w).
Definition with_request_tx (x : list Value) (w : SessionInner) : SessionInner :=
  mkSessionInner (status w) (error w) (peer_closed w) (s_state_tx w) x (response_tx w)
    (signaling w) (transport w) (control w) (events_taken w) (close_result w) (started w)
    (handled w).
Definition with_response_tx (x : list SessionMessage) (w : SessionInner) : SessionInner :=
  mkSessionInner (status w) (error w) (peer_closed w) (s_state_tx w) (request_tx w) x
    (signaling w) (transport w) (control w) (events_taken w) (close_result w) (started w)
    (handled w).
Definition with_signaling (x : Inner) (w : SessionInner) : SessionInner :=
  mkSessionInner (status w) (error w) (peer_closed w) (s_state_tx w) (request_tx w)
    (response_tx w) x (transport w) (control w) (events_taken w) (close_result w) (started
    w) (handled w).
Definition with_transport (x : Transport) (w : SessionInner) : SessionInner :=
  mkSessionInner (status w) (error w) (peer_closed w) (s_state_tx w) (request_tx w)
    (response_tx w) (signaling w) x (control w) (events_taken w) (close_result w) (started
    w) (handled w).
Definition with_control (x : Control) (w : SessionInner) : SessionInner :=
  mkSessionInner (status w) (error w) (peer_closed w) (s_state_tx w) (request_tx w)
    (response_tx w) (signaling w) (transport w) x (events_taken w) (close_result w) (started
    w) (handled w).
Definition with_events_taken (x : bool) (w : SessionInner) : SessionInner :=
  mkSessionInner (status w) (error w) (peer_closed w) (s_state_tx w) (request_tx w)
    (response_tx w) (signaling w) (transport w) (control w) x (close_result w) (started w)
    (handled w).
Definition with_close_result (x : option (Result unit)) (w : SessionInner) : SessionInner :=
  mkSessionInner (status w) (error w) (peer_closed w) (s_state_tx w) (request_tx w)
    (response_tx w) (signaling w) (transport w) (control w) (events_taken w) x (started w)
    (handled w).
Definition with_started (x : list SessionTask) (w : SessionInner) : SessionInner :=
  mkSessionInner (status w) (error w) (peer_closed w) (s_state_tx w) (request_tx w)
    (response_tx w) (signaling w) (transport w) (control w) (events_taken w) (close_result
    w) x (handled w).
Definition with_handled (x : list Value) (w : SessionInner) : SessionInner :=
  mkSessionInner (status w) (error w) (peer_closed w) (s_state_tx w) (request_tx w)
    (response_tx w) (signaling w) (transport w) (control w) (events_taken w) (close_result
    w) (started w) x.

(** What the environment decides: for the signaling layer and the transport, a new
    message id, the outcome of the request handler, whether anyone observes
    requests, and what the response receiver yields. *)
Record SInput : Type := mkSInput {
  s_signaling : Input;
  s_transport : TInput;
  s_uuid : string;
  s_handler : Result Value;
  s_observed : bool;
  s_turns : list Turn;
}.

Abbreviation SLayer := (prog SessionInner SInput).

(** The parts' programs, run on the session. *)
Definition on_signaling {A} (p : prog Inner Input A) : SLayer A :=
  zoom signaling with_signaling s_signaling p.
Definition on_transport {A} (p : prog Transport TInput A) : SLayer A :=
  zoom transport with_transport s_transport p.

Context (properties : SignalingProperties).
(** [SessionInner::is_host], which [build_session] also gives to the transport. *)
Context (own_is_host : bool).
Context (instant_max : Z).

(** ** Small methods *)

Definition get_status : SLayer SessionState := reads status.
Definition get_error : SLayer (option string) := reads error.
Definition set_error (e : string) : SLayer unit := writes (with_error (Some e)).
Definition clear_error : SLayer unit := writes (with_error None).

Definition set_transport_error : SLayer unit :=
  closed ← reads peer_closed;
  if (closed : bool) then mret tt else set_error "peer-to-peer transport failed".

(** [peer_capabilities().and_then(|capabilities| capabilities.info)] *)
Definition peer_info (w : SessionInner) : option PeerInfo :=
  c ← SignalingLayer.peer_capabilities (signaling w); info c.

(** [Session::state] *)
Definition state : SLayer SessionStateObject :=
  s ← get_status;
  sig ← reads (fun w => SignalingLayer.state (signaling w));
  i ← reads peer_info;
  e ← get_error;
  mret (mkSessionStateObject s (Some sig) i e).

(** [Session::closed]: whether it returns now. *)
Definition session_closed : SLayer bool := reads (fun w => Control.closed_returns (control w)).

Definition set_status (new_status : SessionState) : SLayer unit :=
  writes (with_status new_status);;
  sig ← reads (fun w => SignalingLayer.state (signaling w));
  i ← reads peer_info;
  e ← get_error;
  writes (fun w => with_s_state_tx
    (s_state_tx w ++ [mkSessionStateObject new_status (Some sig) i e]) w).

(** [select_transport_id]: the first of the host's transports that the client has. *)
Definition select_transport_id (is_host : bool) (own_transports peer_transports : list string)
    : option string :=
  let host_preference := if is_host then own_transports else peer_transports in
  let client_supported := if is_host then peer_transports else own_transports in
  List.find (fun t => bool_decide (t ∈ client_supported)) host_preference.

Definition selected_transport (w : SessionInner) : option string :=
  peer ← SignalingLayer.peer_capabilities (signaling w);
  select_transport_id own_is_host ["wrtc"] (transports peer).

Definition select_transport : SLayer (option string) := reads selected_transport.

(** ** Sending *)

Definition send_session_message (message : SessionMessage) : SLayer unit :=
  plaintext ← lift (lib_err Other (session_to_string message));
  r ← atom (fun i w =>
    (w, match SignalingLayer.relying_key (signaling w) with
        | None => Err (Errors.Session "relying party public key not found")
        | Some k => peer_encrypt (SignalingLayer.prop_decryption_key properties)
                      (SignalingLayer.in_random (s_signaling i)) plaintext k
        end));
  encrypted ← lift r;
  on_transport (Transport.send encrypted).

(** The value that [relay_negotiation] sends over signaling. *)
Definition relay_value (message_id : string) (negotiation : TransportNegotiationMessage)
    : LibResult Value :=
  match negotiation_to_value negotiation with
  | inl payload => session_to_value (Request message_id payload)
  | inr e => inr e
  end.

Definition relay_negotiation (negotiation : TransportNegotiationMessage) : SLayer unit :=
  message_id ← asks s_uuid;
  value ← lift (lib_err Other (relay_value message_id negotiation));
  on_signaling (SignalingLayer.send properties value).

(** [run_operation] around a method of the session: a task runs it, and is finished
    when it has returned. *)
Definition run_operation {A} (operation : SLayer A) : SLayer A :=
  r ← atom (fun _ w => let '(r, c) := Control.spawn (control w) in (with_control c w, r));
  handle ← lift r;
  result ← attempt operation;
  writes (fun w => with_control (Control.finish_task handle (control w)) w);;
  lift result.

(** [run_operation] when close destroys its task, or the caller goes away, after some of
    the task's steps: the caller is told that the session is closed, unless the task had
    returned. *)
Definition destroyed_operation {A} (steps : nat) (operation : SLayer A) : SLayer A :=
  r ← atom (fun _ w => let '(r, c) := Control.spawn (control w) in (with_control c w, r));
  handle ← lift r;
  outcome ← first_steps steps operation;
  writes (fun w => with_control (Control.finish_task handle (control w)) w);;
  match outcome with Some result => lift result | None => lift (Err SessionClosed) end.

Definition inner_send (message : Value) (ack_timeout_ms response_timeout_ms : Z) : SLayer Value :=
  s ← reads (fun w => SignalingLayer.state (signaling w));
  if negb (bool_decide (s = SignalingLayer.Encrypted))
  then lift (Err (Errors.Session "session not ready"))
  else
    message_id ← asks s_uuid;
    send_session_message (Request message_id message);;
    await;;
    now ← asks (fun i => SignalingLayer.in_now (s_signaling i));
    turns ← asks s_turns;
    match receive_response instant_max message_id now ack_timeout_ms response_timeout_ms turns with
    | Some r => lift r
    | None => lift (Err SessionClosed)
    end.

Definition send_with_timeouts (message : Value) (ack_timeout_ms response_timeout_ms : Z)
    : SLayer Value :=
  run_operation (inner_send message ack_timeout_ms response_timeout_ms).

Definition send (message : Value) : SLayer Value :=
  send_with_timeouts message DEFAULT_ACK_TIMEOUT_MS DEFAULT_RESPONSE_TIMEOUT_MS.

(** ** Incoming requests *)

Definition drop_permit (p : nat) : SLayer unit :=
  r ← atom (fun _ w =>
    match Control.drop_permit p (control w) with
    | Ok c => (with_control c w, Ok tt)
    | Err e => (w, Err e)
    | Panic => (w, Panic)
    end);
  lift r.

Definition spawn_task (t : SessionTask) : SLayer (Result unit) :=
  atom (fun _ w =>
    match Control.spawn (control w) with
    | (Ok _, c) => (with_started (started w ++ [t]) (with_control c w), Ok tt)
    | (Err e, c) => (with_control c w, Err e)
    | (Panic, c) => (with_control c w, Panic)
    end).

(** [observe_request] *)
Definition observe_request (payload : Value) : SLayer unit :=
  observed ← asks s_observed;
  if (observed : bool) then writes (fun w => with_request_tx (request_tx w ++ [payload]) w)
  else mret tt.

(** [dispatch_request]: when the task is refused, the permit it owns is dropped. *)
Definition dispatch_request (message_id : string) (payload : Value) : SLayer unit :=
  r ← atom (fun _ w => let '(r, c) := Control.admit_handler (control w) in (with_control c w, r));
  permit ← lift r;
  observe_request payload;;
  r ← spawn_task (RemoteRequest message_id permit payload);
  match r with
  | Ok _ => mret tt
  | Err e => drop_permit permit;; lift (Err e)
  | Panic => lift Panic
  end.

(** [handle_remote_request]: the permit lives until the reply has been sent, or the
    handler has panicked. *)
Definition handle_remote_request (message_id : string) (permit : nat) (payload : Value)
    : SLayer unit :=
  attempt (send_session_message (Ack message_id));;
  outcome ← atom (fun i w => (with_handled (handled w ++ [payload]) w, s_handler i));
  await;;
  match reply message_id outcome with
  | Ok message => attempt (send_session_message message);; drop_permit permit
  | Err e => drop_permit permit;; lift (Err e)
  | Panic => drop_permit permit;; lift Panic
  end.

(** The task of a request, destroyed after some of its steps: what is left of it is
    dropped, and the permit with it. *)
Definition destroyed_request (steps : nat) (message_id : string) (permit : nat) (payload : Value)
    : SLayer unit :=
  outcome ← first_steps steps (handle_remote_request message_id permit payload);
  match outcome with Some result => lift result | None => drop_permit permit end.

(** ** Frames and events *)

Definition emit_response (m : SessionMessage) : SLayer unit :=
  writes (fun w => with_response_tx (response_tx w ++ [m]) w).

Definition handle_session_message (message : SessionMessage) : SLayer unit :=
  match message with
  | Request message_id payload => dispatch_request message_id payload
  | Close =>
      writes (with_peer_closed true);;
      clear_error;;
      emit_response Close;;
      set_status Disconnected
  | Unknown => mret tt
  | other => emit_response other
  end.

(** [handle_session_frame] *)
Definition handle_session_frame (plaintext : string) : SLayer unit :=
  message ← lift (lib_err Other (session_from_str plaintext));
  handle_session_message message.

Definition handle_transport_payload (raw : string) : SLayer unit :=
  r ← reads (fun w => peer_decrypt (SignalingLayer.prop_decryption_key properties) raw
                        (SignalingLayer.relying_key (signaling w)));
  plaintext ← lift r;
  handle_session_frame plaintext.

(** The body of [run_signal_state_loop]. *)
Definition on_signal_state (dc : nat) (s : SignalState) : SLayer unit :=
  match s with
  | SignalingLayer.Ready => set_status Ready
  | SignalingLayer.Handshake | SignalingLayer.HandshakePartial => set_status Linking
  | SignalingLayer.Encrypted =>
      selected ← select_transport;
      match selected with
      | None => set_error "no common transport with peer";; set_status Disconnected
      | Some _ =>
          r ← attempt (on_transport (Transport.setup own_is_host dc));
          match r with
          | Err e => set_error (OpenLvError_to_string e);; set_status Disconnected
          | _ => mret tt
          end
      end
  | SignalingLayer.Error =>
      set_error "signaling failed or timed out";; set_status Disconnected
  | _ => mret tt
  end.

(** How [run_signal_message_loop] reads a payload: a negotiation message, alone or in a
    request, and a message for the response channel. *)
Definition route_signal_payload (payload : Value)
    : option TransportNegotiationMessage * option SessionMessage :=
  match negotiation_from_value payload with
  | inl n => (Some n, None)
  | inr _ =>
      match session_from_value payload with
      | inr _ => (None, None)
      | inl (Request _ inner) =>
          match negotiation_from_value inner with inl n => (Some n, None) | inr _ => (None, None) end
      | inl other => (None, Some other)
      end
  end.

Definition on_signal_message (payload : Value) : SLayer unit :=
  let '(negotiation, response) := route_signal_payload payload in
  match response with Some m => emit_response m | None => mret tt end;;
  match negotiation with
  | Some n => attempt (on_transport (Transport.handle n));; mret tt
  | None => mret tt
  end.

(** The body of [run_transport_state_loop]: whether the loop goes on. *)
Definition on_transport_state (s : TransportState) : SLayer bool :=
  match s with
  | Transport.Connected => set_status Connected;; mret true
  | Transport.Error => set_transport_error;; set_status Disconnected;; mret false
  | _ => mret true
  end.

Definition on_transport_event (e : TransportEvent) : SLayer unit :=
  match e with
  | Transport.Negotiation n => attempt (relay_negotiation n);; mret tt
  | Transport.Message raw => attempt (handle_transport_payload raw);; mret tt
  end.

(** ** The event loops *)

(** [while let Ok(x) = receiver.recv().await]: the first error of the receiver ends the
    loop, a lag as well as a closed channel. *)
Fixpoint while_ok {X} (body : X -> SLayer bool) (recv : list (X + RecvError)) : SLayer unit :=
  match recv with
  | [] => mret tt
  | inl x :: r => go_on ← body x; if (go_on : bool) then while_ok body r else mret tt
  | inr _ :: _ => mret tt
  end.

Definition run_signal_state_loop (dc : nat) (recv : list (SignalState + RecvError)) : SLayer unit :=
  while_ok (fun s => on_signal_state dc s;; mret true) recv.
Definition run_signal_message_loop (recv : list (Value + RecvError)) : SLayer unit :=
  while_ok (fun v => on_signal_message v;; mret true) recv.
Definition run_transport_state_loop (recv : list (TransportState + RecvError)) : SLayer unit :=
  while_ok on_transport_state recv.

(** [while let Some(event) = events.recv().await] on an [mpsc] channel. *)
Fixpoint run_transport_event_loop (events : list TransportEvent) : SLayer unit :=
  match events with
  | [] => mret tt
  | e :: r => on_transport_event e;; run_transport_event_loop r
  end.

Definition start_event_loops : SLayer unit :=
  r1 ← spawn_task SignalStateLoop; lift r1;;
  r2 ← spawn_task SignalMessageLoop; lift r2;;
  r3 ← spawn_task TransportStateLoop; lift r3;;
  r4 ← spawn_task TransportEventLoop; lift r4.

(** ** Connecting and closing *)

Definition inner_connect : SLayer unit :=
  taken ← atom (fun _ w => (with_events_taken true w, events_taken w));
  if (taken : bool) then lift (Err (Errors.Session "session already connected"))
  else
    set_status Signaling;;
    start_event_loops;;
    on_signaling (SignalingLayer.setup properties).

Definition connect : SLayer unit := run_operation inner_connect.

(** [wait_for_link]'s loop over what the transport's state receiver yields, with the
    transport's state at that moment. *)
Definition link_failed : SLayer unit :=
  e ← get_error;
  lift (Err (Errors.Session (default "session failed to connect" e))).

Definition link_up : SLayer unit := set_status Connected.

Fixpoint link_loop (recv : list (TransportState + RecvError)) : SLayer unit :=
  match recv with
  | [] => lift (Err SessionClosed)
  | inl Transport.Connected :: _ => link_up
  | inl Transport.Error :: _ => set_transport_error;; set_status Disconnected;; link_failed
  | inl _ :: r | inr (Lagged _) :: r =>
      s ← reads (fun w => Transport.t_state (transport w));
      if decide (s = Transport.Connected) then link_up else link_loop r
  | inr Closed :: _ =>
      s ← reads (fun w => Transport.t_state (transport w));
      if decide (s = Transport.Connected) then link_up
      else lift (Err (Errors.Session "transport state channel closed"))
  end.

Definition inner_wait_for_link (recv : list (TransportState + RecvError)) : SLayer unit :=
  s ← get_status;
  match s with
  | Connected => mret tt
  | Disconnected => link_failed
  | _ =>
      t ← reads (fun w => Transport.t_state (transport w));
      if decide (t = Transport.Connected) then link_up else link_loop recv
  end.

(** [Session::wait_for_link] *)
Definition wait_for_link (recv : list (TransportState + RecvError)) : SLayer unit :=
  run_operation (inner_wait_for_link recv).

(** [SessionControl::wait_for_tasks]: the tasks are taken over, and the call returns
    when the last of them is destroyed. *)
Definition wait_for_tasks : SLayer unit :=
  writes (fun w => with_control (Control.take_tasks (control w)) w);;
  await;;
  writes (fun w => with_control (Control.joined (control w)) w).

(** What the first [close] does after the control is closed. *)
Definition close_once : SLayer (Result unit) :=
  attempt (send_session_message Close);;
  wait_for_tasks;;
  transport_result ← attempt (on_transport Transport.teardown);
  signaling_result ← attempt (on_signaling SignalingLayer.teardown);
  set_status Disconnected;;
  mret (res_and transport_result signaling_result).

(** [Session::close]: the result is computed once. *)
Definition close : SLayer unit :=
  writes (fun w => with_control (Control.close (control w)) w);;
  done ← reads close_result;
  match done with
  | Some r => lift r
  | None =>
      r ← close_once;
      writes (with_close_result (Some r));;
      lift r
  end.

End session.
