(* ===== verification/SessionSpec.v ===== *)
(** * What the session promises

    Transport selection, routing of negotiation messages, the life of a remote
    request, and closing. *)
From S2P Require Import Prelude RustStr Errors Json CryptoLib CryptoModel Encryption.
From S2P Require Import Message TextModel Tasks SessionMessage Response Session.
From S2P Require SignalingLayer Control Ownership Transport SignalingSafety.
Local Open Scope string_scope.
Local Open Scope list_scope.

(** ** Lemmas *)

Section lemmas.
Context `{CryptoLaws} `{SignalingCodec} `{SessionCodec} `{Transport.WebRtcLib}.
Context (properties : SignalingLayer.SignalingProperties) (instant_max : Z).
Implicit Types (w : SessionInner) (n : nat).

Lemma with_transport_same w : with_transport (transport w) w = w.
Proof. by destruct w. Qed.

Lemma run_on_transport {A} inputs n (p : prog Transport.Transport Transport.TInput A) w :
  run inputs n (on_transport p) w =
  let '(r, n', x) := run (fun k => s_transport (inputs k)) n p (transport w) in
  (r, n', with_transport x w).
Proof. apply run_zoom; [done|done|apply with_transport_same]. Qed.

(** [attempt] of what does not panic. *)
Lemma attempted {A} (r : Result A) n w :
  r <> Panic ->
  match r with Panic => (Panic, n, w) | _ => (Ok r, n, w) end = ((Ok r, n, w) : Result (Result A) * nat * SessionInner).
Proof. by destruct r. Qed.

(** Encryption does not panic. *)
Lemma peer_encrypt_no_panic d nonce m k : peer_encrypt d nonce m k <> Panic.
Proof.
  unfold peer_encrypt, peer_cipher. destruct (negb _); [done|]. destruct (negb _); [done|].
  destruct (hkdf_sha256_expand_32 (x25519_diffie_hellman (secret_key d) (public_key k))
    (key_info (dk_public_key d) (public_key k))) as (okm & -> & _). cbn.
  by destruct (aes256gcm_encrypt _ _ _).
Qed.

(** Sending over the transport: it never panics, and what it gives to the data channel,
    if anything, is the text. *)
Lemma run_transport_send inputs n s (w : Transport.Transport) :
  exists r n' (w' : Transport.Transport), run inputs n (Transport.send s) w = (r, n', w') /\ r <> Panic /\
    (r = Ok tt -> w' = Transport.with_unflushed true (Transport.with_sent s w)) /\
    (Transport.sent w' = Transport.sent w \/ Transport.sent w' = Transport.sent w ++ [s]) /\
    (Transport.t_state w = Transport.Connected -> is_Some (Transport.data_channel w) ->
     (forall k, Transport.t_io (inputs k) = inl tt) -> r = Ok tt).
Proof.
  unfold Transport.send. rewrite run_bind. cbn [run reads atom].
  case_bool_decide as Hs; cbn [negb];
    [|eexists (Err _), _, _; split_and!; [reflexivity|done|done|by left|by intros Hc]].
  rewrite run_bind. cbn [run reads atom].
  destruct (Transport.data_channel w) as [dc|] eqn:Hdc;
    [|eexists (Err _), _, _; split_and!; [reflexivity|done|done|by left|by intros _ [? Hd]]].
  unfold Transport.send_text. cbn. destruct (Transport.t_io (inputs (S (S n)))) as [[]|e] eqn:Hio; cbn.
  - eexists (Ok tt), _, _. split_and!; [reflexivity|done|done|by right|done].
  - eexists (Err _), _, _. split_and!; [reflexivity|done|done|by right|].
    intros _ _ Hok. by rewrite Hok in Hio.
Qed.

(** Sending a session message: only the transport changes. *)
Lemma run_send_session_message inputs n m w :
  exists r n' x, run inputs n (send_session_message properties m) w = (r, n', with_transport x w) /\
    r <> Panic.
Proof.
  unfold send_session_message. destruct (session_to_string m) as [text|e].
  - change (lift (lib_err Other (inl text)) ≫= ?q) with (q text). cbn beta.
    rewrite run_bind. cbn [run atom].
    set (r := match SignalingLayer.relying_key _ with None => _ | Some _ => _ end).
    assert (r <> Panic) as Hr.
    { unfold r. destruct (SignalingLayer.relying_key _); [apply peer_encrypt_no_panic|done]. }
    destruct r as [c|e|]; [|eexists _, _, (transport w); by rewrite with_transport_same|done].
    change (lift (Ok c) ≫= ?q) with (q c). cbn beta. rewrite run_on_transport.
    edestruct (run_transport_send (fun k => s_transport (inputs k)) (S n) c (transport w))
      as (r & n' & w' & -> & Hr' & _). eexists _, _, _. done.
  - eexists _, _, (transport w). cbn. by rewrite with_transport_same.
Qed.

(** On a connected transport, the encrypted message is what the peer gets. *)
Lemma run_send_session_message_ok inputs n m w text k :
  session_to_string m = inl text -> SignalingLayer.relying_key (signaling w) = Some k ->
  encryption_key_wf k -> (str_len text <= aes_gcm_max)%Z ->
  was_contributory (x25519_diffie_hellman
    (secret_key (SignalingLayer.prop_decryption_key properties)) (public_key k)) = true ->
  (forall i, length (SignalingLayer.in_random (s_signaling (inputs i))) = 12 /\
             Transport.t_io (s_transport (inputs i)) = inl tt) ->
  Transport.t_state (transport w) = Transport.Connected ->
  is_Some (Transport.data_channel (transport w)) ->
  exists n' c nonce, run inputs n (send_session_message properties m) w
      = (Ok tt, n', with_transport (Transport.with_unflushed true
           (Transport.with_sent c (transport w))) w) /\
    peer_encrypt (SignalingLayer.prop_decryption_key properties) nonce text k = Ok c /\
    length nonce = 12.
Proof.
  intros Ht Hk Hwf Hlen Hcon Hi Hst Hdc.
  destruct (peer_encrypt_ok (SignalingLayer.prop_decryption_key properties)
    (SignalingLayer.in_random (s_signaling (inputs n))) text k) as [c Hc]; [apply Hi|done..|].
  edestruct (run_transport_send (fun k => s_transport (inputs k)) (S n) c (transport w))
    as (r & n' & w' & Hrun & _ & Hw & _ & Hr).
  rewrite (Hr Hst Hdc) in Hrun, Hw by (intros i; apply Hi). rewrite (Hw eq_refl) in Hrun. clear w' Hw Hr.
  exists n', c, (SignalingLayer.in_random (s_signaling (inputs n))). split; [|by split; [|apply Hi]].
  unfold send_session_message. rewrite Ht. change (lift (lib_err Other (inl text)) ≫= ?q) with (q text).
  cbn beta. rewrite run_bind. cbn [run atom]. rewrite Hk, Hc.
  change (lift (Ok c) ≫= ?q) with (q c). cbn beta. rewrite run_on_transport. by rewrite Hrun.
Qed.

(** What was encrypted for us is handled as the message it was. *)
Lemma run_handle_sealed `{!SessionCodecLaws} a nonce text k c m inputs n k' peer :
  let b := SignalingLayer.prop_decryption_key properties in
  decryption_key_wf a -> decryption_key_wf b -> length nonce = 12 ->
  public_key k = dk_public_key b ->
  SignalingLayer.relying_key (signaling peer) = Some k' -> public_key k' = dk_public_key a ->
  session_safe m = true -> session_to_string m = inl text -> (str_len text <= aes_gcm_max)%Z ->
  peer_encrypt a nonce text k = Ok c ->
  run inputs n (handle_transport_payload properties c) peer
    = run inputs (S n) (handle_session_message m) peer.
Proof.
  cbn zeta. intros Ha Hb Hn Hkb Hk' Hka Hm Ht Hlen Henc.
  unfold handle_transport_payload. rewrite run_bind. cbn [run reads atom]. rewrite Hk'.
  rewrite (peer_decrypt_encrypt _ _ _ _ _ _ _ Ha Hb Hn (session_to_string_utf8 _ _ Ht)
    Hlen Hkb) with (2 := Henc) by (by intros ? [= <-]).
  rewrite run_lift_Ok. unfold handle_session_frame. by rewrite (session_from_to_string _ _ Hm Ht).
Qed.

(** A request that is handled on a connected transport: what is sent, and what else
    changes. *)
Lemma run_remote_request_ok inputs n id permit payload outcome answer ack_text answer_text key k w :
  (forall i, s_handler (inputs i) = outcome /\
     length (SignalingLayer.in_random (s_signaling (inputs i))) = 12 /\
     Transport.t_io (s_transport (inputs i)) = inl tt) ->
  reply id outcome = Ok answer ->
  session_to_string (Ack id) = inl ack_text -> session_to_string answer = inl answer_text ->
  (str_len ack_text <= aes_gcm_max)%Z -> (str_len answer_text <= aes_gcm_max)%Z ->
  SignalingLayer.relying_key (signaling w) = Some key -> encryption_key_wf key ->
  was_contributory (x25519_diffie_hellman
    (secret_key (SignalingLayer.prop_decryption_key properties)) (public_key key)) = true ->
  Transport.t_state (transport w) = Transport.Connected ->
  is_Some (Transport.data_channel (transport w)) ->
  Control.active_handlers (control w) = S k ->
  exists n' w' c1 c2 nonce1 nonce2,
    run inputs n (handle_remote_request properties id permit payload) w = (Ok tt, n', w') /\
    Transport.sent (transport w') = Transport.sent (transport w) ++ [c1; c2] /\
    peer_encrypt (SignalingLayer.prop_decryption_key properties) nonce1 ack_text key = Ok c1 /\
    peer_encrypt (SignalingLayer.prop_decryption_key properties) nonce2 answer_text key = Ok c2 /\
    length nonce1 = 12 /\ length nonce2 = 12 /\
    handled w' = handled w ++ [payload] /\ Control.active_handlers (control w') = k.
Proof.
  intros Hi Ha Ht1 Ht2 Hl1 Hl2 Hkey Hwf Hcon Hst Hdc Hk.
  assert (forall i, length (SignalingLayer.in_random (s_signaling (inputs i))) = 12 /\
            Transport.t_io (s_transport (inputs i)) = inl tt) as Hi' by (intros i; apply Hi).
  unfold handle_remote_request. rewrite run_bind, run_attempt.
  destruct (run_send_session_message_ok inputs n (Ack id) w ack_text key)
    as (n1 & c1 & nonce1 & -> & Hc1 & Hl1'); [done..|].
  rewrite run_bind. cbn [run atom]. rewrite (proj1 (Hi _)), run_bind. cbn [run await]. rewrite Ha.
  set (w1 := with_handled _ _).
  rewrite run_bind, run_attempt.
  destruct (run_send_session_message_ok inputs (S n1) answer w1 answer_text key)
    as (n2 & c2 & nonce2 & -> & Hc2 & Hl2'); [done..|].
  unfold drop_permit. rewrite run_bind. cbn [run atom]. unfold Control.drop_permit.
  change (Control.active_handlers (control _)) with (Control.active_handlers (control w)) at 1.
  rewrite Hk. eexists _, _, c1, c2, nonce1, nonce2. split; [reflexivity|]. split_and!; try done.
  cbn. by rewrite <- (assoc_L app).
Qed.

(** What sending leaves alone, at every point of it. *)
Definition keeps_requests (w w' : SessionInner) : Prop :=
  control w' = control w /\ handled w' = handled w.

#[local] Instance keeps_requests_preorder : PreOrder keeps_requests.
Proof. split; [by intros w|]. intros w1 w2 w3 [] []. split; congruence. Qed.

Lemma send_keeps_requests m : every keeps_requests (send_session_message properties m).
Proof.
  unfold send_session_message. apply every_bind; [apply every_lift|intros text].
  apply every_bind; [by apply every_atom|intros r].
  apply every_bind; [apply every_lift|intros c]. by apply every_zoom.
Qed.

(** Giving a permit back. *)
Lemma run_drop_permit inputs n permit k w :
  Control.active_handlers (control w) = S k ->
  exists w', run inputs n (drop_permit permit) w = (Ok tt, S n, w') /\
    Control.active_handlers (control w') = k /\ handled w' = handled w /\
    error w' = error w /\ status w' = status w.
Proof.
  intros Hk. unfold drop_permit. rewrite run_bind. cbn [run atom]. unfold Control.drop_permit.
  rewrite Hk. eexists. split; [reflexivity|]. done.
Qed.

(** A request's task has something to do before it is polled. *)
Lemma request_suspended id permit payload :
  suspended (handle_remote_request properties id permit payload).
Proof. unfold handle_remote_request, send_session_message. by destruct (session_to_string (Ack id)). Qed.

(** The attempt to acknowledge, begun at [n], is over before [n']. *)
Definition ack_over (inputs : nat -> SInput) n id w n' : Prop :=
  exists r n1 w1, run inputs n (send_session_message properties (Ack id)) w = (r, n1, w1) /\ (n1 < n')%nat.

Lemma interrupted_drop_permit inputs j n permit w rest n' w' :
  run_for inputs j n (drop_permit permit) w = (rest, n', w') -> suspended rest -> w' = w.
Proof.
  intros Hr Hs. destruct (run_for_cases _ _ _ _ _ _ _ _ _ Hr Hs)
    as [(p1 & H1' & Hs1)|(r & n1 & w1 & i & _ & Hr1)].
  - by destruct (run_for_atom _ _ _ _ _ _ _ _ H1' Hs1).
  - destruct i; injection Hr1 as <- _ _; done.
Qed.

(** The end of a request's task, interrupted. *)
Lemma interrupted_reply inputs j n id permit outcome w rest n' w' :
  run_for inputs j n (match reply id outcome with
    | Ok message => attempt (send_session_message properties message);; drop_permit permit
    | Err e => drop_permit permit;; lift (Err e)
    | Panic => drop_permit permit;; lift Panic
    end) w = (rest, n', w') -> suspended rest -> keeps_requests w w'.
Proof.
  intros Hr Hs.
  destruct (reply id outcome) as [m|e|];
    destruct (run_for_cases _ _ _ _ _ _ _ _ _ Hr Hs) as [(p1 & H1' & Hs1)|(a & n1 & w1 & i & Ha & Hr1)].
  - by apply (every_run_for keeps_requests _ _ _ _ _ _ _ _ (every_attempt _ _ (send_keeps_requests m)) H1').
  - apply interrupted_drop_permit in Hr1 as ->; [|done].
    pose proof (every_run keeps_requests inputs n _ w (every_attempt _ _ (send_keeps_requests m))) as HQ.
    by rewrite Ha in HQ.
  - by apply interrupted_drop_permit in H1' as ->.
  - destruct i; injection Hr1 as <- _ _; done.
  - by apply interrupted_drop_permit in H1' as ->.
  - destruct i; injection Hr1 as <- _ _; done.
Qed.

(** The task of a request, interrupted: it holds its permit, and has called the handler
    at most once, after the attempt to acknowledge. *)
Lemma interrupted_request inputs j n id permit payload w rest n' w' :
  run_for inputs j n (handle_remote_request properties id permit payload) w = (rest, n', w') ->
  suspended rest ->
  control w' = control w /\
  (handled w' = handled w \/ handled w' = handled w ++ [payload] /\ ack_over inputs n id w n').
Proof.
  unfold handle_remote_request. intros Hr Hs.
  assert (every keeps_requests (attempt (send_session_message properties (Ack id)))) as Hack
    by apply every_attempt, send_keeps_requests.
  destruct (run_for_cases _ _ _ _ _ _ _ _ _ Hr Hs) as [(p1 & H1' & _)|(a & n1 & w1 & i & Ha & Hr1)].
  { destruct (every_run_for keeps_requests _ _ _ _ _ _ _ _ Hack H1'). auto. }
  pose proof (every_run keeps_requests inputs n _ w Hack) as [Ec1 Eh1].
  rewrite Ha in Ec1, Eh1. cbn [snd] in Ec1, Eh1. rewrite run_attempt in Ha.
  destruct (run_for_cases _ _ _ _ _ _ _ _ _ Hr1 Hs) as [(p2 & H2' & Hs2)|(o & n2 & w2 & i2 & Ho & Hr2)].
  { destruct (run_for_atom _ _ _ _ _ _ _ _ H2' Hs2) as [-> ->]. auto. }
  cbn in Ho. injection Ho as <- <- <-. apply run_for_le in Hr2 as Hle.
  assert (keeps_requests (with_handled (handled w1 ++ [payload]) w1) w') as [E1 E2].
  { destruct (run_for_cases _ _ _ _ _ _ _ _ _ Hr2 Hs) as [(p3 & H3' & Hs3)|(u & n3 & w3 & i3 & Hu & Hr3)].
    - by destruct (run_for_await _ _ _ _ _ _ _ H3' Hs3) as [_ ->].
    - cbn in Hu. injection Hu as <- <- <-. by eapply interrupted_reply. }
  cbn in E1, E2. split; [congruence|]. right. split; [congruence|].
  destruct (run inputs n (send_session_message properties (Ack id)) w) as [[r n0] w0] eqn:Hsend.
  exists r, n0, w0. split; [exact Hsend|]. destruct r; simplify_eq; lia.
Qed.

(** The task of a request that runs to its end. *)
Lemma run_remote_request inputs n id permit payload outcome k w :
  Control.active_handlers (control w) = S k -> (forall i, s_handler (inputs i) = outcome) ->
  exists r n' w', run inputs n (handle_remote_request properties id permit payload) w = (r, n', w') /\
    handled w' = handled w ++ [payload] /\
    Control.active_handlers (control w') = k /\
    (r = Panic <-> outcome = Panic) /\ error w' = error w /\ status w' = status w /\
    ack_over inputs n id w n'.
Proof.
  intros Hk Ho. unfold handle_remote_request. rewrite run_bind, run_attempt.
  destruct (run_send_session_message inputs n (Ack id) w) as (r & n1 & x & Hack & Hr). rewrite Hack.
  rewrite (attempted r n1 (with_transport x w) Hr).
  rewrite run_bind. cbn [run atom]. rewrite Ho. rewrite run_bind. cbn [run await].
  set (w1 := with_handled _ _). assert (Control.active_handlers (control w1) = S k) as Hk1 by done.
  destruct outcome as [v|e|]; cbn [reply].
  1, 2: rewrite run_bind, run_attempt;
    match goal with |- context [send_session_message _ ?m] =>
      destruct (run_send_session_message inputs (S n1) m w1) as (r2 & n2 & x2 & Hreply & Hr2) end;
    apply run_le in Hreply as Hle; rewrite Hreply;
    destruct (run_drop_permit inputs n2 permit k (with_transport x2 w1) Hk1) as (w2 & Hw2 & Ha & Hh & He & Hs);
    exists (Ok tt), (S n2), w2; (split; [by destruct r2|]); split_and!; try done;
    exists r, n1, (with_transport x w); (split; [done|lia]).
  rewrite run_bind. destruct (run_drop_permit inputs (S n1) permit k w1 Hk1) as (w2 & -> & Ha & Hh & He & Hs).
  exists Panic, (S (S n1)), w2. split_and!; try done. exists r, n1, (with_transport x w). split; [done|lia].
Qed.

(** [set_status] changes the status and announces it. *)
Lemma run_set_status inputs n s w :
  exists n' l, run inputs n (set_status s) w = (Ok tt, n', with_s_state_tx l (with_status s w)).
Proof. eexists _, _. reflexivity. Qed.

Lemma run_set_status_bind {A} inputs n s (q : unit -> prog SessionInner SInput A) w :
  exists n' l, run inputs n (set_status s ≫= q) w
    = run inputs n' (q tt) (with_s_state_tx l (with_status s w)).
Proof.
  destruct (run_set_status inputs n s w) as (n' & l & Hr). exists n', l. rewrite run_bind. by rewrite Hr.
Qed.

Lemma run_on_signaling {A} inputs n (p : prog SignalingLayer.Inner SignalingLayer.Input A) w :
  run inputs n (on_signaling p) w =
  let '(r, n', x) := run (fun k => s_signaling (inputs k)) n p (signaling w) in
  (r, n', with_signaling x w).
Proof. apply run_zoom; [done|done|by intros []]. Qed.

(** An operation of a session that is not closed: its task is spawned, runs, and ends. *)
Lemma run_operation_spawned {A} inputs n (p : prog SessionInner SInput A) w :
  Control.closed (control w) = false ->
  run inputs n (run_operation p) w =
  match run inputs (S n) p (with_control (Control.spawn (control w)).2 w) with
  | (Panic, n', w') => (Panic, n', w')
  | (r, n', w') =>
      (r, S n', with_control (Control.finish_task (Control.next_task (control w)) (control w')) w')
  end.
Proof.
  intros Hc. unfold run_operation. rewrite run_bind. cbn [run atom].
  rewrite (surjective_pairing (Control.spawn (control w))).
  assert ((Control.spawn (control w)).1 = Ok (Control.next_task (control w))) as ->
    by (unfold Control.spawn; by rewrite Hc).
  rewrite run_lift_Ok, run_bind, run_attempt.
  by destruct (run inputs (S n) p _) as [[[a|e|] n'] w'].
Qed.

(** An operation whose task is destroyed after some steps: those steps have happened, and
    the caller is told that the session is closed, unless the task had returned. *)
Lemma run_destroyed_operation {A} inputs n steps (p : prog SessionInner SInput A) w :
  Control.closed (control w) = false ->
  run inputs n (destroyed_operation steps p) w =
  let '(rest, n1, w1) := run_for inputs steps (S n) p (with_control (Control.spawn (control w)).2 w) in
  (match rest with Done r => r | _ => Err SessionClosed end, S n1,
   with_control (Control.finish_task (Control.next_task (control w)) (control w1)) w1).
Proof.
  intros Hc. unfold destroyed_operation. rewrite run_bind. cbn [run atom].
  rewrite (surjective_pairing (Control.spawn (control w))).
  assert ((Control.spawn (control w)).1 = Ok (Control.next_task (control w))) as ->
    by (unfold Control.spawn; by rewrite Hc).
  rewrite run_lift_Ok, run_bind, run_first_steps.
  destruct (run_for inputs steps (S n) p _) as [[rest n1] w1]. by destruct rest as [[]| |].
Qed.

(** Tearing the transport down: both handles are gone, whatever the library says. *)
Lemma run_transport_teardown inputs n (w : Transport.Transport) :
  exists r n' (w' : Transport.Transport), run inputs n Transport.teardown w = (r, n', w') /\ r <> Panic /\
    Transport.data_channel w' = None /\ Transport.peer_connection w' = None /\
    Transport.sent w' = Transport.sent w.
Proof.
  unfold Transport.teardown. rewrite run_bind. cbn [run writes atom]. rewrite run_bind.
  cbn [run atom]. destruct (Transport.peer_connection _).
  - rewrite run_bind. cbn. destruct (Transport.t_io (inputs (S (S n)))); cbn;
      eexists _, _, _; (split; [reflexivity|]); by split_and!.
  - eexists _, _, _; (split; [reflexivity|]); by split_and!.
Qed.

(** Tearing signaling down stops its tasks, also when the channel fails. *)
Lemma run_signaling_teardown inputs n (w : SignalingLayer.Inner) :
  exists r n' (w' : SignalingLayer.Inner), run inputs n SignalingLayer.teardown w = (r, n', w') /\
    (exists k, r = SignalingLayer.in_io (inputs k)) /\
    SignalingLayer.handshake_task w' = None /\ SignalingLayer.deadline_task w' = None /\
    SignalingLayer.published w' = SignalingLayer.published w.
Proof.
  eexists (SignalingLayer.in_io (inputs (S (S n)))), _, _. split; [|split; [eauto|]].
  { unfold SignalingLayer.teardown, SignalingLayer.stop_handshake_tasks, SignalingLayer.stop_repeating.
    rewrite !run_bind. cbn [run writes atom]. unfold SignalingLayer.channel_call. cbn. reflexivity. }
  unfold SignalingLayer.take_deadline_task, SignalingLayer.take_handshake_task.
  destruct (SignalingLayer.handshake_task w) eqn:E1; cbn;
    destruct (SignalingLayer.deadline_task w) eqn:E2; cbn; split_and!; done.
Qed.

(** A loop over a receiver stops at the receiver's first error. *)
Lemma run_while_ok_stops {X} inputs n (body : X -> prog SessionInner SInput bool) l e rest w :
  run inputs n (while_ok body (l ++ inr e :: rest)) w = run inputs n (while_ok body l) w.
Proof.
  revert n w. induction l as [|[x|e'] l IH]; intros n w; cbn; [done| |done].
  rewrite !run_bind. destruct (run inputs n (body x) w) as [[[[]|e'|] n'] w']; auto.
Qed.

(** The transport's state loop keeps a closed session free of errors. *)
Lemma run_transport_loop_closed inputs recv n w r n' w' :
  peer_closed w = true -> run inputs n (run_transport_state_loop recv) w = (r, n', w') ->
  r = Ok tt /\ peer_closed w' = true /\ error w' = error w /\ response_tx w' = response_tx w.
Proof.
  unfold run_transport_state_loop. revert n w.
  induction recv as [|[s|e] recv IH]; intros n w Hc; cbn [while_ok]; [by intros [= <- _ <-]| |by intros [= <- _ <-]].
  rewrite run_bind. destruct s; cbn [on_transport_state]; try (cbn [run]; by apply IH).
  - rewrite run_bind. destruct (run_set_status inputs n Connected w) as (n1 & l & ->).
    cbn [run mret prog_mret]. intros Hrun. apply IH in Hrun; [exact Hrun|exact Hc].
  - unfold set_transport_error. rewrite !run_bind. cbn [run reads atom]. rewrite Hc. cbn [run mret prog_mret].
    rewrite !run_bind.
    destruct (run_set_status inputs (S n) Disconnected w) as (n1 & l & ->). cbn.
    by intros [= <- _ <-].
Qed.

End lemmas.

(** ** Properties *)

(** Host and client choose the same transport, each from its own list and the
    other's: the first of the host's transports that the client supports, if there
    is one. *)
Theorem transport_selection_agrees host_transports client_transports :
  select_transport_id true host_transports client_transports
    = select_transport_id false client_transports host_transports /\
  (forall t, select_transport_id true host_transports client_transports = Some t <->
     exists before after, host_transports = before ++ t :: after /\ t ∈ client_transports /\
       forall u, u ∈ before -> u ∉ client_transports) /\
  (select_transport_id true host_transports client_transports = None <->
     forall t, t ∈ host_transports -> t ∉ client_transports).
Proof.
  split; [done|]. unfold select_transport_id. induction host_transports as [|h l [IH1 IH2]]; cbn.
  - split; [|by split; [intros _ t ?%not_elem_of_nil|]].
    intros t. split; [done|]. intros (b & a & Hb & _). by destruct b.
  - case_bool_decide as Hh.
    + split.
      * intros t. split.
        { intros [= <-]. exists [], l. split_and!; [done..|]. by intros u ?%not_elem_of_nil. }
        intros (b & a & Hb & Ht & Hn). destruct b as [|b0 b]; simplify_eq/=; [done|].
        exfalso. apply (Hn b0); [apply list_elem_of_here|done].
      * split; [done|]. intros Hn. by destruct (Hn h (list_elem_of_here _ _)).
    + split.
      * intros t. rewrite IH1. split.
        { intros (b & a & -> & Ht & Hn). exists (h :: b), a. split_and!; [done..|].
          by intros u [->|Hu]%elem_of_cons; auto. }
        intros (b & a & Hb & Ht & Hn). destruct b as [|b0 b]; simplify_eq/=; [done|].
        exists b, a. split_and!; [done..|]. intros u Hu. apply Hn. by apply list_elem_of_further.
      * rewrite IH2. split; [by intros Hn t [->|Ht]%elem_of_cons; auto|].
        intros Hn t Ht. apply Hn. by apply list_elem_of_further.
Qed.

(** Negotiation messages reach the peer's transport: what [relay_negotiation] sends,
    for any message id, the peer's message loop reads as exactly that negotiation
    message, and so it reads a bare one; a [Close] is read as a session message and
    never as negotiation. *)
Theorem negotiation_round_trip `{SessionCodecLaws} id negotiation v :
  (relay_value id negotiation = inl v -> route_signal_payload v = (Some negotiation, None)) /\
  (negotiation_to_value negotiation = inl v -> route_signal_payload v = (Some negotiation, None)) /\
  (session_to_value Close = inl v -> route_signal_payload v = (None, Some Close)).
Proof.
  split_and!; intros Hv; unfold route_signal_payload.
  - unfold relay_value in Hv. destruct (negotiation_to_value negotiation) as [inner|e] eqn:Hn; [|done].
    assert (Hv' := Hv). rewrite request_to_value in Hv'. injection Hv' as <-.
    destruct (negotiation_from_value (Object _)) as [n'|e] eqn:Hw.
    { by apply (wrapped_not_negotiation id inner n' negotiation) in Hw. }
    rewrite (session_from_to_value _ _ Hv) by done. by rewrite (negotiation_from_to_value _ _ Hn).
  - by rewrite (negotiation_from_to_value _ _ Hv).
  - destruct (negotiation_from_value v) as [n'|e] eqn:Hw.
    { by apply (close_not_negotiation v n') in Hw. }
    by rewrite (session_from_to_value _ _ Hv).
Qed.

(** C25. The life of an admitted request: its task calls the handler at most once, with the
    payload, and gives its permit back exactly once, however it ends. A task that runs
    to its end has called the handler exactly once, whatever the transport did, also when
    the handler failed or panicked, and only a panic of the handler escapes. A task that
    is destroyed after any number of its steps has given its permit back and has called
    the handler at most once, and only after its attempt to acknowledge was over;
    destroyed before its first poll it has not called it. *)
Theorem remote_request_lifecycle `{CryptoLaws, SignalingCodec, SessionCodec, Transport.WebRtcLib}
    properties inputs n id permit payload outcome k w :
  Control.active_handlers (control w) = S k -> (forall i, s_handler (inputs i) = outcome) ->
  (exists r n' w', run inputs n (handle_remote_request properties id permit payload) w = (r, n', w') /\
    handled w' = handled w ++ [payload] /\
    Control.active_handlers (control w') = k /\
    (r = Panic <-> outcome = Panic) /\ error w' = error w /\ status w' = status w) /\
  (forall steps, exists r n' w',
    run inputs n (destroyed_request properties steps id permit payload) w = (r, n', w') /\
    Control.active_handlers (control w') = k /\
    (handled w' = handled w \/
     handled w' = handled w ++ [payload] /\
     exists r1 n1 w1, run inputs n (send_session_message properties (Ack id)) w = (r1, n1, w1) /\
       (n1 < n')%nat) /\
    (steps = 0 -> handled w' = handled w)).
Proof.
  intros Hk Ho.
  destruct (run_remote_request properties inputs n id permit payload outcome k w Hk Ho)
    as (r & n' & w' & Hr & Hh & Hk' & Hp & He & Hst & Hack).
  split; [by exists r, n', w'|]. intros steps. unfold destroyed_request. rewrite run_bind, run_first_steps.
  destruct (run_for inputs steps n (handle_remote_request properties id permit payload) w)
    as [[rest n1] w1] eqn:Hfor.
  destruct (suspended_or_done rest) as [Hs|[r1 ->]].
  - destruct (interrupted_request _ _ _ _ _ _ _ _ _ _ _ Hfor Hs) as [Hc Hh1].
    destruct (run_drop_permit inputs n1 permit k w1) as (w2 & Hd & Hk2 & Hh2 & _); [congruence|].
    exists (Ok tt), (S n1), w2. rewrite Hh2. split_and!; [by destruct rest|done| |].
    + destruct Hh1 as [|[? (r1 & n2 & w3 & Ha & Hlt)]]; [by left|right].
      split; [done|]. exists r1, n2, w3. split; [done|lia].
    + intros ->. rewrite run_for_0 in Hfor. by injection Hfor as _ _ <-.
  - assert (steps <> 0) as Hne.
    { intros ->. rewrite run_for_0 in Hfor. injection Hfor as Hdone _ _.
      pose proof (request_suspended properties id permit payload) as Hs. by rewrite Hdone in Hs. }
    apply run_for_run in Hfor. rewrite Hr in Hfor. injection Hfor as -> -> ->.
    exists r, n', w'. split_and!; [done|done|by right|done].
Qed.

(** A request is acknowledged and answered: on a connected transport with a
    recorded peer key, handling a request sends exactly two frames, in this order:
    the acknowledgement of its id, then the response with the handler's value, or
    [failed] when the handler failed; both are encrypted for the peer's key. *)
Theorem request_answered `{CryptoLaws, SignalingCodec, SessionCodec, Transport.WebRtcLib}
    properties inputs n id permit payload outcome answer ack_text answer_text key k w :
  (forall i, s_handler (inputs i) = outcome /\
     length (SignalingLayer.in_random (s_signaling (inputs i))) = 12 /\
     Transport.t_io (s_transport (inputs i)) = inl tt) ->
  reply id outcome = Ok answer ->
  session_to_string (Ack id) = inl ack_text -> session_to_string answer = inl answer_text ->
  (str_len ack_text <= aes_gcm_max)%Z -> (str_len answer_text <= aes_gcm_max)%Z ->
  SignalingLayer.relying_key (signaling w) = Some key -> encryption_key_wf key ->
  was_contributory (x25519_diffie_hellman
    (secret_key (SignalingLayer.prop_decryption_key properties)) (public_key key)) = true ->
  Transport.t_state (transport w) = Transport.Connected ->
  is_Some (Transport.data_channel (transport w)) ->
  Control.active_handlers (control w) = S k ->
  exists n' w' c1 c2 nonce1 nonce2,
    run inputs n (handle_remote_request properties id permit payload) w = (Ok tt, n', w') /\
    Transport.sent (transport w') = Transport.sent (transport w) ++ [c1; c2] /\
    peer_encrypt (SignalingLayer.prop_decryption_key properties) nonce1 ack_text key = Ok c1 /\
    peer_encrypt (SignalingLayer.prop_decryption_key properties) nonce2 answer_text key = Ok c2 /\
    (answer = Failed id <-> exists e, outcome = Err e).
Proof.
  intros Hi Ha Ht1 Ht2 Hl1 Hl2 Hkey Hwf Hcon Hst Hdc Hk.
  destruct (run_remote_request_ok properties inputs n id permit payload outcome answer ack_text
    answer_text key k w) as (n' & w' & c1 & c2 & nonce1 & nonce2 & Hr & Hs & Hc1 & Hc2 & _); try done.
  exists n', w', c1, c2, nonce1, nonce2. split_and!; try done.
  destruct outcome as [v|e|]; cbn in Ha; simplify_eq; split; try done; [by intros [e [=]]|eauto].
Qed.

(** A peer that closes the session does not look like a failure: after its [Close]
    has been handled, the error is cleared, waiting requests are told of it, the
    status is [Disconnected], and the transport's later failure, whatever states it
    goes through, leaves the session without an error. *)
Theorem peer_close_is_no_error `{CryptoLib, SignalingCodec, SessionCodec, Transport.WebRtcLib}
    inputs n recv w :
  exists n1 w1 n2 w2,
    run inputs n (handle_session_message Close) w = (Ok tt, n1, w1) /\
    status w1 = Disconnected /\ error w1 = None /\ response_tx w1 = response_tx w ++ [Close] /\
    run inputs n1 (run_transport_state_loop recv) w1 = (Ok tt, n2, w2) /\
    error w2 = None /\ response_tx w2 = response_tx w ++ [Close].
Proof.
  cbn [handle_session_message]. unfold clear_error, emit_response.
  rewrite !run_bind. cbn [run writes atom]. rewrite !run_bind. cbn [run writes atom].
  rewrite !run_bind. cbn [run writes atom].
  match goal with |- context [run inputs ?m (set_status Disconnected) ?w0] =>
    destruct (run_set_status inputs m Disconnected w0) as (n1 & l & ->) end.
  match goal with |- context [(Ok tt, n1, ?x)] => set (w1 := x) end.
  destruct (run inputs n1 (run_transport_state_loop recv) w1) as [[r n2] w2] eqn:E.
  exists n1, w1, n2, w2. assert (peer_closed w1 = true) as Hc by done.
  destruct (run_transport_loop_closed _ _ _ _ _ _ _ Hc E) as (-> & _ & -> & ->).
  by split_and!.
Qed.

(** A message crosses the transport unchanged: what [send_session_message] gives to the
    data channel, the peer's transport loop decrypts and hands to its message handler as
    the same message, provided each end has the other's key. *)
Theorem session_message_delivered
    `{CryptoLaws, SignalingCodec, SessionCodecLaws, Transport.WebRtcLib}
    here there inputs inputs' n n' m w peer c r n1 w1 :
  let a := SignalingLayer.prop_decryption_key here in
  let b := SignalingLayer.prop_decryption_key there in
  decryption_key_wf a -> decryption_key_wf b ->
  (forall i, length (SignalingLayer.in_random (s_signaling (inputs i))) = 12) ->
  (exists k, SignalingLayer.relying_key (signaling w) = Some k /\ public_key k = dk_public_key b) ->
  (exists k, SignalingLayer.relying_key (signaling peer) = Some k /\ public_key k = dk_public_key a) ->
  session_safe m = true ->
  (forall text, session_to_string m = inl text -> (str_len text <= aes_gcm_max)%Z) ->
  run inputs n (send_session_message here m) w = (r, n1, w1) ->
  Transport.sent (transport w1) = Transport.sent (transport w) ++ [c] ->
  run inputs' n' (handle_transport_payload there c) peer
    = run inputs' (S n') (handle_session_message m) peer.
Proof.
  cbn zeta. intros Ha Hb Hi (k & Hk & Hkb) (k' & Hk' & Hka) Hm Hlen Hrun Hc.
  assert (forall l : list string, l <> l ++ [c]) as Hne.
  { intros l Hl%(f_equal length). rewrite length_app in Hl. cbn in Hl. lia. }
  unfold send_session_message in Hrun. destruct (session_to_string m) as [text|e] eqn:Ht;
    [|cbn in Hrun; simplify_eq; by destruct (Hne _ Hc)].
  change (lift (lib_err Other (inl text)) ≫= ?q) with (q text) in Hrun. cbn beta in Hrun.
  rewrite run_bind in Hrun. cbn [run atom] in Hrun. rewrite Hk in Hrun.
  destruct (peer_encrypt _ _ _ _) as [c'|e|] eqn:Henc;
    [|cbn in Hrun; simplify_eq; by destruct (Hne _ Hc)..].
  change (lift (Ok c') ≫= ?q) with (q c') in Hrun. cbn beta in Hrun. rewrite run_on_transport in Hrun.
  destruct (run_transport_send (fun k => s_transport (inputs k)) (S n) c' (transport w))
    as (r' & n2 & t & Hs & _ & _ & Hsent & _). rewrite Hs in Hrun. injection Hrun as <- <- <-.
  cbn in Hc. destruct Hsent as [Hsent|Hsent]; rewrite Hsent in Hc; [by destruct (Hne _ Hc)|].
  apply (inj (Transport.sent (transport w) ++.)) in Hc. injection Hc as ->.
  eapply (run_handle_sealed there (SignalingLayer.prop_decryption_key here) _ text k c m); try done; by auto.
Qed.

(** Requests are admitted under the bound and refused cleanly: when the session is
    open and fewer than 256 handlers are active, a request is shown to the
    observers, if there are any, and starts exactly one task, which owns a permit;
    otherwise it fails and neither the observers nor the tasks notice. *)
Theorem dispatch_request_spec
    `{CryptoLib, SignalingCodec, SessionCodec, Transport.WebRtcLib} inputs n id payload w :
  let c := control w in
  exists r n' w',
    run inputs n (dispatch_request id payload) w = (r, n', w') /\
    (if Control.closed c then r = Err SessionClosed /\ w' = w
     else if (Control.MAX_ACTIVE_HANDLERS <=? Control.active_handlers c)%nat
     then r = Err RequestLimitReached /\ w' = w
     else
       r = Ok tt /\ started w' = started w ++ [RemoteRequest id (Control.next_permit c) payload] /\
       Control.active_handlers (control w') = S (Control.active_handlers c) /\
       Control.next_permit c ∈ Control.permits (control w') /\
       request_tx w' = request_tx w
         ++ (if s_observed (inputs (S n)) then [payload] else []) /\
       response_tx w' = response_tx w /\ status w' = status w /\
       signaling w' = signaling w /\ transport w' = transport w /\ handled w' = handled w).
Proof.
  cbn zeta. unfold dispatch_request. rewrite run_bind. cbn [run atom].
  unfold Control.admit_handler at 1. destruct (Control.closed _) eqn:Hc.
  { eexists _, _, _. split; [done|]. split; [done|]. by destruct w. }
  destruct (_ <=? _)%nat eqn:Hm.
  { eexists _, _, _. split; [done|]. split; [done|]. by destruct w. }
  rewrite run_lift_Ok, run_bind. unfold observe_request. rewrite run_bind. cbn [run asks atom].
  destruct (s_observed (inputs (S n))); cbn [run writes atom mret prog_mret];
    rewrite run_bind; cbn [run spawn_task atom]; unfold Control.spawn; cbn;
    eexists _, _, _; (split; [done|]); cbn; split_and!; try done; try set_solver.
  by rewrite app_nil_r.
Qed.

(** A slow reader loses its event loop, not only the events it missed: every loop
    written [while let Ok(..) = recv().await] ends at the first [Lagged], so nothing
    that arrives later is handled, even though the channel is open. *)
Theorem lagged_receiver_ends_loop
    `{CryptoLib, SignalingCodec, SessionCodec, Transport.WebRtcLib}
    own_is_host inputs n dc missed values later_values states later_states t_states later_t_states w :
  run inputs n (run_signal_message_loop (values ++ inr (Lagged missed) :: later_values)) w
    = run inputs n (run_signal_message_loop values) w /\
  run inputs n (run_signal_state_loop own_is_host dc (states ++ inr (Lagged missed) :: later_states)) w
    = run inputs n (run_signal_state_loop own_is_host dc states) w /\
  run inputs n (run_transport_state_loop (t_states ++ inr (Lagged missed) :: later_t_states)) w
    = run inputs n (run_transport_state_loop t_states) w.
Proof.
  split_and!; apply run_while_ok_stops.
Qed.

(** C26. Close happens once and always cleans up: unless the signaling channel panics, the
    first [close] returns with the session closed and [Disconnected], no task left
    to it, every task it had finished, no data channel or peer connection, and no handshake task, whatever the
    channel and the transport library answered; and every later [close], in any
    state that kept the result, returns the same result and only closes the
    control, which is closed already. *)
Theorem close_once_cleans_up
    `{CryptoLaws, SignalingCodec, SessionCodec, Transport.WebRtcLib} properties inputs n w :
  close_result w = None ->
  (forall k, SignalingLayer.in_io (s_signaling (inputs k)) <> Panic) ->
  exists r n1 w1, run inputs n (close properties) w = (r, n1, w1) /\
    status w1 = Disconnected /\ Control.closed (control w1) = true /\
    Control.tasks (control w1) = ∅ /\
    (forall t, t ∈ dom (Control.tasks (control w)) ->
       Control.awaited (control w1) !! t = Some Control.Finished) /\
    Transport.data_channel (transport w1) = None /\
    Transport.peer_connection (transport w1) = None /\
    SignalingLayer.handshake_task (signaling w1) = None /\
    SignalingLayer.deadline_task (signaling w1) = None /\
    forall inputs' m w2, close_result w2 = close_result w1 ->
      exists m', run inputs' m (close properties) w2
        = (r, m', with_control (Control.close (control w2)) w2).
Proof.
  intros Hn Hio. unfold close at 1. rewrite run_bind. cbn [run writes atom]. rewrite run_bind.
  cbn [run reads atom]. set (w0 := with_control _ w). change (close_result w0) with (close_result w).
  rewrite Hn. rewrite run_bind. unfold close_once. rewrite run_bind, run_attempt.
  destruct (run_send_session_message properties inputs (S (S n)) Close w0)
    as (rs & n1 & x & -> & Hrs).
  set (w1 := with_transport x w0).
  rewrite (attempted rs n1 w1 Hrs).
  set (w2 := with_control (Control.joined (Control.take_tasks (control w1))) w1).
  assert (run inputs n1 wait_for_tasks w1 = (Ok tt, S (S n1), w2)) as Hwait by done.
  rewrite run_bind, Hwait, run_bind, run_attempt, run_on_transport.
  destruct (run_transport_teardown (fun k => s_transport (inputs k)) (S (S n1)) (transport w2))
    as (rt & n2 & t & -> & Hrt & Hdc & Hpc & _).
  set (w3 := with_transport t w2).
  rewrite (attempted rt n2 w3 Hrt).
  rewrite run_bind, run_attempt, run_on_signaling.
  destruct (run_signaling_teardown (fun k => s_signaling (inputs k)) n2 (signaling w3))
    as (rg & n3 & g & -> & [k Hk] & Hht & Hdt & _).
  set (w4 := with_signaling g w3).
  rewrite (attempted rg n3 w4) by (cbn beta in Hk; rewrite Hk; apply Hio).
  destruct (run_set_status_bind inputs n3 Disconnected (fun _ => mret (res_and rt rg)) w4)
    as (n4 & l & ->). cbn [run mret prog_mret]. rewrite run_bind. cbn [run writes atom].
  eexists _, _, _. split; [done|]. split_and!; try done.
  - cbn. unfold Control.close. by destruct (Control.closed (control w)) eqn:Hc; cbn; rewrite ?Hc.
  - intros task Ht. apply Control.joined_finished. cbn. unfold Control.close.
    destruct (Control.closed (control w)); [done|]. cbn. by rewrite dom_fmap_L.
  - intros inputs' m w5 Hw5. unfold close. rewrite run_bind. cbn [run writes atom].
    rewrite run_bind. cbn [run reads atom]. cbn in Hw5 |- *. rewrite Hw5. eexists. done.
Qed.

(** A session connects at most once: a second [connect] fails without starting a task
    of its own beyond the operation, announcing a state, or touching the channel. *)
Theorem connect_is_once
    `{CryptoLib, SignalingCodec, SessionCodec, Transport.WebRtcLib} properties inputs n w :
  events_taken w = true ->
  exists r n' w', run inputs n (connect properties) w = (r, n', w') /\
    r = (if Control.closed (control w) then Err SessionClosed
         else Err (Errors.Session "session already connected")) /\
    started w' = started w /\ s_state_tx w' = s_state_tx w /\ signaling w' = signaling w /\
    status w' = status w.
Proof.
  intros He. unfold connect, inner_connect, run_operation. rewrite run_bind. cbn [run atom]. unfold Control.spawn.
  destruct (Control.closed (control w)).
  - by eexists _, _, _.
  - rewrite run_lift_Ok, run_bind, run_attempt, run_bind. cbn [run atom]. cbn [events_taken with_control].
    rewrite He. cbn. by eexists _, _, _.
Qed.

(** Connecting makes the owners of [Ownership.v]: the control of a session that has
    connected is the one of [connected_owners], where the operation has returned and
    its four loops run; the loop over the transport's events is the last task. *)
Theorem connect_makes_owners
    `{CryptoLib, SignalingCodec, SessionCodec, Transport.WebRtcLib} properties inputs n w r n' w' :
  events_taken w = false -> control w = Control.new_control -> started w = [] ->
  run inputs n (connect properties) w = (r, n', w') -> r <> Panic ->
  control w' = Ownership.control Ownership.connected_owners /\
  started w' = [SignalStateLoop; SignalMessageLoop; TransportStateLoop; TransportEventLoop] /\
  Ownership.roles Ownership.connected_owners !! 4 = Some Ownership.TransportEvents.
Proof.
  intros He Hc Hst. unfold connect, inner_connect, run_operation. rewrite run_bind. cbn [run atom]. rewrite Hc.
  cbn [Control.spawn Control.new_control Control.closed]. rewrite run_lift_Ok, run_bind, run_attempt, run_bind.
  cbn [run atom]. cbn [events_taken with_control]. rewrite He.
  set (w1 := with_events_taken _ _).
  destruct (run_set_status_bind inputs (S (S n)) Signaling
    (fun _ => start_event_loops;; on_signaling (SignalingLayer.setup properties)) w1) as (m & l & ->).
  set (w2 := with_s_state_tx _ _).
  assert (exists m' c, run inputs m start_event_loops w2 = (Ok tt, m', with_started (started w2 ++
      [SignalStateLoop; SignalMessageLoop; TransportStateLoop; TransportEventLoop]) (with_control c w2)) /\
    Control.finish_task 0 c = Ownership.control Ownership.connected_owners) as (m' & c & Hrun & Hfin).
  { eexists _, _. split; [cbn; rewrite Hst; reflexivity|]. reflexivity. }
  rewrite run_bind, Hrun, run_on_signaling. cbn [signaling with_started with_control].
  destruct (run _ m' (SignalingLayer.setup properties) _) as [[r1 m1] x].
  destruct r1 as [u|e|]; [..|by intros [= <- _ _]]; rewrite run_bind; cbn [run writes atom]; intros [= _ _ <-] _;
    (split_and!; [exact Hfin|cbn; by rewrite Hst|reflexivity]).
Qed.

(** ** Witnesses *)

(** A codec with the formats that serde derives, and two sessions that are linked. *)
Module SessionModel.
Import CryptoModel TextModel SignalingSafety.LayerModel.
#[export] Existing Instance Transport.TransportModel.webrtc_lib.

#[export] Instance SessionMessage_eq_dec : EqDecision SessionMessage.
Proof. solve_decision. Defined.

#[export] Instance SessionMessage_countable : Countable SessionMessage.
Proof.
  refine (inj_countable'
    (fun m => match m with
              | Request i v => (0%Z, i, v)
              | Response i v => (1%Z, i, v)
              | Ack i => (2%Z, i, Null)
              | Failed i => (3%Z, i, Null)
              | Close => (4%Z, "", Null)
              | Unknown => (5%Z, "", Null)
              end)
    (fun p => match p with
              | (0%Z, i, v) => Request i v
              | (1%Z, i, v) => Response i v
              | (2%Z, i, _) => Ack i
              | (3%Z, i, _) => Failed i
              | (4%Z, _, _) => Close
              | _ => Unknown
              end) _).
  by intros [].
Defined.

Definition tagged (ty : string) (fields : list (string * Value)) : Value :=
  Object (fields ++ [("type", Str ty)]).

Definition model_to_value (m : SessionMessage) : Value :=
  match m with
  | Request i v => tagged "request" [("messageId", Str i); ("payload", v)]
  | Response i v => tagged "response" [("messageId", Str i); ("payload", v)]
  | Ack i => tagged "ack" [("messageId", Str i)]
  | Failed i => tagged "failed" [("messageId", Str i)]
  | Close => tagged "close" []
  | Unknown => tagged "Unknown" []
  end.

Definition model_from_value (v : Value) : option SessionMessage :=
  ty ← value_get "type" v ≫= as_str;
  if String.eqb ty "close" then Some Close
  else
    let id := value_get "messageId" v ≫= as_str in
    if String.eqb ty "request" then i ← id; Request i <$> value_get "payload" v
    else if String.eqb ty "response" then i ← id; Response i <$> value_get "payload" v
    else if String.eqb ty "ack" then Ack <$> id
    else if String.eqb ty "failed" then Failed <$> id
    else Some Unknown.

Definition model_negotiation (v : Value) : option TransportNegotiationMessage :=
  ty ← value_get "type" v ≫= as_str;
  payload ← value_get "payload" v ≫= as_str;
  Some (mkTransportNegotiationMessage ty payload).

Definition of_option {A} (o : option A) : LibResult A :=
  match o with Some a => inl a | None => inr "invalid value" end.

#[export] Instance session_codec : SessionCodec := {|
  session_to_string m := inl (to_text m);
  session_from_str := of_text;
  session_to_value m := inl (model_to_value m);
  session_from_value v := of_option (model_from_value v);
  negotiation_to_value n :=
    inl (Object [("payload", Str (negotiation_payload n)); ("type", Str (message_type n))]);
  negotiation_from_value v := of_option (model_negotiation v);
|}.

#[export] Instance session_codec_laws : SessionCodecLaws.
Proof.
  split; cbn; try done.
  - intros m v [= <-]. by destruct m.
  - intros m s [= <-]. apply ascii_utf8_valid.
    eapply str_forall_impl; [apply text_char_ascii|apply to_text_chars].
  - intros m s _ [= <-]. apply of_to_text.
  - intros v [ty p]. unfold model_negotiation. split.
    + destruct v as [| | | | |m]; cbn; try done. intros Hv. exists m. split; [done|].
      destruct (map_get "type" m) as [[| | |t| |]|]; cbn in Hv; try done.
      destruct (map_get "payload" m) as [[| | |q| |]|]; cbn in Hv; by simplify_eq.
    + intros (m & -> & Ht & Hp). cbn in *. rewrite Ht. cbn. by rewrite Hp.
Qed.

Definition model_sinput (outcome : Result Value) : SInput :=
  mkSInput model_input Transport.TransportModel.good "id" outcome true [].

Definition model_transport : Transport.Transport :=
  Transport.with_dc (Some 0) (Transport.with_t_state Transport.Connected Transport.new_transport).

(** A session in the middle of its life: linked, with one active handler. *)
Definition model_session (key : EncryptionKey) : SessionInner :=
  mkSessionInner Connected None false [] [] []
    (SignalingLayer.with_relying_key (Some key) SignalingLayer.new_inner) model_transport
    (Control.admit_handler Control.new_control).2 false None [] [].

Definition model_host_session : SessionInner :=
  model_session (SignalingLayer.prop_encryption_key model_client).
Definition model_client_session : SessionInner :=
  model_session (SignalingLayer.prop_encryption_key model_host).

End SessionModel.

Import CryptoModel TextModel SignalingSafety.LayerModel SessionModel.

Lemma negotiation_round_trip_witness :
  route_signal_payload (Object [("messageId", Str "id");
      ("payload", Object [("payload", Str "sdp"); ("type", Str "offer")]);
      ("type", Str "request")])
    = (Some (mkTransportNegotiationMessage "offer" "sdp"), None).
Proof.
  apply (proj1 (negotiation_round_trip "id" (mkTransportNegotiationMessage "offer" "sdp") _)).
  vm_compute. reflexivity.
Defined.

(** A panicking handler; and the task destroyed before its first poll. *)
Lemma remote_request_lifecycle_witness :
  (exists r n' w',
    run (fun _ => model_sinput Panic) 0
      (handle_remote_request model_host "id" 0 Null) model_host_session
      = (r, n', w') /\
    handled w' = [Null] /\ Control.active_handlers (control w') = 0 /\ r = Panic) /\
  (exists r n' w',
    run (fun _ => model_sinput Panic) 0 (destroyed_request model_host 0 "id" 0 Null) model_host_session
      = (r, n', w') /\
    Control.active_handlers (control w') = 0 /\ handled w' = []).
Proof.
  destruct (remote_request_lifecycle model_host
    (fun _ => model_sinput Panic) 0 "id" 0 Null Panic 0 model_host_session)
    as [(r & n' & w' & Hr & Hh & Ha & Hp & _) Hdestroyed]; [reflexivity|reflexivity|].
  split.
  - exists r, n', w'. split; [exact Hr|]. split; [exact Hh|]. split; [exact Ha|]. by apply Hp.
  - destruct (Hdestroyed 0) as (r0 & n0 & w0 & Hr0 & Ha0 & _ & Hh0).
    exists r0, n0, w0. split; [exact Hr0|]. split; [exact Ha0|exact (Hh0 eq_refl)].
Defined.

Lemma request_answered_witness :
  exists n' w' c1 c2,
    run (fun _ => model_sinput (Ok Null)) 0
      (handle_remote_request model_host "id" 0 Null) model_host_session
      = (Ok tt, n', w') /\
    Transport.sent (transport w') = [c1; c2].
Proof.
  destruct (request_answered model_host
    (fun _ => model_sinput (Ok Null)) 0 "id" 0 Null (Ok Null) (Response "id" Null)
    (to_text (Ack "id")) (to_text (Response "id" Null))
    (SignalingLayer.prop_encryption_key model_client) 0
    model_host_session) as (n' & w' & c1 & c2 & _ & _ & Hr & Hs & _).
  - intros i. split; [reflexivity|]. split; reflexivity.
  - reflexivity.
  - reflexivity.
  - reflexivity.
  - vm_compute. discriminate.
  - vm_compute. discriminate.
  - reflexivity.
  - vm_compute. reflexivity.
  - vm_compute. reflexivity.
  - reflexivity.
  - eexists. reflexivity.
  - reflexivity.
  - exists n', w', c1, c2. split; [exact Hr|exact Hs].
Defined.

Lemma session_message_delivered_witness :
  exists c n' w', run (fun _ => model_sinput (Ok Null)) 0
      (handle_transport_payload model_client c) model_client_session = (Ok tt, n', w') /\
    response_tx w' = [Ack "id"].
Proof.
  destruct (run_send_session_message_ok model_host (fun _ => model_sinput (Ok Null)) 0 (Ack "id")
    model_host_session (to_text (Ack "id")) (SignalingLayer.prop_encryption_key model_client))
    as (n1 & c & nonce & Hr & _);
    [reflexivity|reflexivity|vm_compute; reflexivity|vm_compute; discriminate|vm_compute; reflexivity
    |intros i; split; reflexivity|reflexivity|eexists; reflexivity|].
  opose proof* (session_message_delivered model_host model_client (fun _ => model_sinput (Ok Null))
    (fun _ => model_sinput (Ok Null)) 0 0 (Ack "id") model_host_session model_client_session c
    (Ok tt) n1 (with_transport (Transport.with_unflushed true
        (Transport.with_sent c (transport model_host_session))) model_host_session)) as Hd.
  - split; reflexivity.
  - split; reflexivity.
  - reflexivity.
  - eexists. split; reflexivity.
  - eexists. split; reflexivity.
  - reflexivity.
  - intros text [= <-]. vm_compute. discriminate.
  - exact Hr.
  - reflexivity.
  - exists c. rewrite Hd. eexists _, _. split; reflexivity.
Defined.

Lemma close_once_cleans_up_witness :
  exists r n1 w1, run (fun _ => model_sinput (Ok Null)) 0 (close model_host) model_host_session
      = (r, n1, w1) /\
    status w1 = Disconnected /\ exists n2, run (fun _ => model_sinput (Ok Null)) 5 (close model_host) w1
      = (r, n2, with_control (Control.close (control w1)) w1).
Proof.
  destruct (close_once_cleans_up model_host (fun _ => model_sinput (Ok Null)) 0 model_host_session)
    as (r & n1 & w1 & Hr & Hs & _ & _ & _ & _ & _ & _ & _ & Hagain); [reflexivity|discriminate|].
  exists r, n1, w1. split; [exact Hr|]. split; [exact Hs|].
  apply Hagain. reflexivity.
Defined.

Lemma connect_is_once_witness :
  exists n' w', run (fun _ => model_sinput (Ok Null)) 0 (connect model_host)
      (with_events_taken true model_host_session)
    = (Err (Errors.Session "session already connected"), n', w') /\ started w' = [].
Proof.
  destruct (connect_is_once model_host (fun _ => model_sinput (Ok Null)) 0
    (with_events_taken true model_host_session)) as (r & n' & w' & Hr & Hres & Hs & _); [reflexivity|].
  exists n', w'. rewrite Hres in Hr. split; [exact Hr|exact Hs].
Defined.
