(* ===== verification/SessionSafety.v ===== *)
(** * Safety of the session under every interleaving

    The methods, event loops, request tasks and callbacks of one session as tasks on
    one [SessionInner], over the signaling layer's own tasks: what leaves through the
    data channel, and where the requests and responses that are handled came from. *)
From S2P Require Import Prelude RustStr Errors Json Wire CryptoLib CryptoModel Encryption.
From S2P Require Import Message TextModel Tasks SessionMessage Response Session SessionSpec.
From S2P Require Control Transport SignalingLayer SignalingSafety.
Local Open Scope string_scope.
Local Open Scope list_scope.

(** ** The transport *)

Section transport_safety.
Context `{Transport.WebRtcLib}.
Context (P : string -> Prop) (K : Prop).

(** What the transport's code may do: emit events, and send texts that satisfy [P];
    and start connecting, or receive a text, only if [K]. *)
Record transport_guarantee (w w' : Transport.Transport) : Prop := {
  tg_sent : exists l, Transport.sent w' = Transport.sent w ++ l /\ Forall P l;
  tg_events : Transport.event_tx w `prefix_of` Transport.event_tx w';
  tg_states : Transport.Connecting ∈ Transport.t_state_tx w' ->
    Transport.Connecting ∈ Transport.t_state_tx w \/ K;
  tg_messages : forall raw, Transport.Message raw ∈ Transport.event_tx w' ->
    Transport.Message raw ∈ Transport.event_tx w \/ K;
}.

#[export] Instance transport_guarantee_preorder : PreOrder transport_guarantee.
Proof.
  split.
  - intros w. split; auto. exists []. by rewrite app_nil_r.
  - intros w1 w2 w3 [(l1 & E1 & F1) P1 S1 M1] [(l2 & E2 & F2) P2 S2 M2]. split.
    + exists (l1 ++ l2). rewrite E2, E1, (assoc_L app). split; [done|]. by apply Forall_app.
    + by etrans.
    + intros Hin. destruct (S2 Hin); auto.
    + intros raw Hin. destruct (M2 raw Hin); auto.
Qed.

Abbreviation tevery := (every transport_guarantee).

(** Steps that touch neither the states nor the texts. *)
Definition quiet (x y : Transport.Transport) : Prop :=
  Transport.sent y = Transport.sent x /\ Transport.event_tx y = Transport.event_tx x /\
  Transport.t_state_tx y = Transport.t_state_tx x.

Lemma transport_quiet x y : quiet x y -> transport_guarantee x y.
Proof.
  intros (Es & Ee & Et). split; rewrite ?Es, ?Ee, ?Et; auto. exists []. by rewrite app_nil_r.
Qed.

Lemma tevery_quiet (f : Transport.Transport -> Transport.Transport) :
  (forall x, quiet x (f x)) -> tevery (writes f : prog _ Transport.TInput _).
Proof. intros Hf. apply every_writes. intros x. apply transport_quiet, Hf. Qed.

Lemma tevery_lib {A} (f : Transport.TInput -> Result A) :
  tevery (r ← asks f; lift r : prog Transport.Transport Transport.TInput A).
Proof. apply every_bind; [by apply every_asks; apply _|]. intros r. apply every_lift. Qed.

Lemma tevery_library_call : tevery Transport.library_call.
Proof. apply tevery_lib. Qed.

Lemma tevery_create_sdp : tevery Transport.create_sdp.
Proof. apply tevery_lib. Qed.

Lemma tevery_pc_call c : tevery (Transport.pc_call c).
Proof.
  apply every_atom_bind; intros i x. split; [|apply every_lift].
  destruct (Transport.t_io i); by apply transport_quiet.
Qed.

Lemma tevery_emit e :
  match e with Transport.Message _ => K | _ => True end -> tevery (Transport.emit e).
Proof.
  intros He. apply every_writes. intros x. split; cbn; auto; [exists []; by rewrite app_nil_r|by apply prefix_app_r|].
  intros raw [Hin|<-%list_elem_of_singleton]%elem_of_app; auto.
Qed.

Lemma tevery_negotiation n : tevery (Transport.emit (Transport.Negotiation n)).
Proof. by apply tevery_emit. Qed.

Lemma tevery_set_state s : s <> Transport.Connecting \/ K -> tevery (Transport.set_state s).
Proof.
  intros Hs. apply every_writes. intros x. split; cbn; auto; [exists []; by rewrite app_nil_r|].
  intros [Hin|<-%list_elem_of_singleton]%elem_of_app; [auto|]. by destruct Hs; auto.
Qed.

Lemma tevery_flush : tevery Transport.flush_pending_candidates.
Proof.
  apply every_atom_bind; intros i x. cbn. split; [by apply transport_quiet|].
  induction (Transport.pending_candidates x) as [|c cs IH]; [done|].
  apply every_bind; [apply tevery_pc_call|by intros _].
Qed.

Create HintDb transport discriminated.
#[local] Hint Resolve tevery_library_call tevery_pc_call tevery_create_sdp tevery_negotiation
  tevery_flush every_lift : transport.
#[local] Hint Extern 1 (every _ (Transport.set_state _)) => apply tevery_set_state; by left : transport.
#[local] Hint Extern 1 (every _ (mret _)) => exact Logic.I : transport.
#[local] Hint Extern 1 (every _ (reads _)) => apply every_reads; apply _ : transport.
#[local] Hint Extern 1 (every _ (asks _)) => apply every_asks; apply _ : transport.
#[local] Hint Extern 2 (every _ (writes _)) => by apply tevery_quiet : transport.

(** The steps of a program, one after the other, in each of its branches. *)
Ltac tsteps := repeat first
  [ solve [eauto with transport] | apply every_bind; [|intros ?] | case_match ].

Lemma tevery_send s : P s -> tevery (Transport.send s).
Proof.
  intros Hs. unfold Transport.send, Transport.send_text. tsteps.
  apply every_atom. intros i x. split; cbn; auto. exists [s]. split; [done|]. by apply Forall_singleton.
Qed.

Lemma tevery_handle m : tevery (Transport.handle m).
Proof.
  unfold Transport.handle, Transport.handle_offer, Transport.handle_answer,
    Transport.handle_candidate. tsteps.
Qed.

Lemma tevery_setup is_host dc : K -> tevery (Transport.setup is_host dc).
Proof.
  intros HK. unfold Transport.setup. apply every_bind; [apply tevery_set_state; by right|intros _]. tsteps.
Qed.

Lemma tevery_teardown : tevery Transport.teardown.
Proof.
  unfold Transport.teardown. tsteps. apply every_atom. intros i x. by apply transport_quiet.
Qed.

Lemma tevery_poll_dc events : K -> tevery (Transport.poll_dc events).
Proof.
  intros HK. induction events as [|[|data| | |] events IH]; cbn [Transport.poll_dc]; tsteps.
  by apply tevery_emit.
Qed.

Lemma tevery_store_and_poll_dc dc events : K -> tevery (Transport.store_and_poll_dc dc events).
Proof.
  intros HK. unfold Transport.store_and_poll_dc. apply every_bind; [|intros _; by apply tevery_poll_dc]. tsteps.
Qed.

Lemma tevery_on_ice_candidate json : tevery (Transport.on_ice_candidate json).
Proof. destruct json; [by apply tevery_emit|done]. Qed.

Lemma tevery_on_connection_state_change b : tevery (Transport.on_connection_state_change b).
Proof. destruct b; [apply tevery_set_state; by left|done]. Qed.

End transport_safety.

(** ** The running session *)

(** What can happen to a session: its methods, the callbacks of the channel and of the
    WebRTC library, a turn of one of its event loops, and the tasks of its requests.
    A turn names the value it takes by its place in the channel, and a request task
    its place among the started tasks, in any order: this covers what the receivers
    lose or delay. An event loop that close aborts is one that takes no more turns; an
    operation or a request task may be destroyed after any number of its steps. *)
Inductive SCall : Type :=
| Connect
| Close
| SendRequest (message : Value) (ack_timeout_ms response_timeout_ms : Z)
| WaitForLink (recv : list (Transport.TransportState + RecvError))
| FromChannel (payload : string)
| IceCandidate (json : option string)
| ConnectionStateChange (failed_or_closed : bool)
| OnDataChannel (dc : nat) (events : list Transport.DataChannelEvent)
| SignalStateTurn (dc i : nat)
| SignalMessageTurn (i : nat)
| TransportStateTurn (i : nat)
| TransportEventTurn (i : nat)
| RequestTask (i : nat)
| DestroyedConnect (steps : nat)
| DestroyedSend (steps : nat) (message : Value) (ack_timeout_ms response_timeout_ms : Z)
| DestroyedWait (steps : nat) (recv : list (Transport.TransportState + RecvError))
| DestroyedTask (steps i : nat).

Section session.
Context `{CryptoLib} `{SignalingCodec} `{SessionCodec} `{Transport.WebRtcLib}.
Context (properties : SignalingLayer.SignalingProperties) (own_is_host : bool) (instant_max : Z).

Abbreviation SProg := (prog SessionInner SInput).

(** A turn on the [i]-th value of a channel, if there is one. *)
Definition turn {X} (values : SessionInner -> list X) (i : nat) (body : X -> SProg unit) : SProg unit :=
  x ← reads (fun w => values w !! i);
  match x with Some x => body x | None => mret tt end.

(** The library calls the handler that [TransportLayer::setup] has built: before
    [setup] has begun there is none. *)
Definition library_callback (p : prog Transport.Transport Transport.TInput unit) : SProg unit :=
  made ← reads (fun w => bool_decide (Transport.Connecting ∈ Transport.t_state_tx (transport w)));
  if (made : bool) then on_transport p else mret tt.

Definition session_entry (call : SCall) : SProg unit :=
  match call with
  | Connect => connect properties
  | SessionSafety.Close => close properties
  | SendRequest message ack_timeout_ms response_timeout_ms =>
      send_with_timeouts properties instant_max message ack_timeout_ms response_timeout_ms;; mret tt
  | WaitForLink recv => wait_for_link recv
  | FromChannel payload => on_signaling (SignalingLayer.handle_receive properties payload)
  | IceCandidate json => library_callback (Transport.on_ice_candidate json)
  | ConnectionStateChange b => library_callback (Transport.on_connection_state_change b)
  | OnDataChannel dc events => library_callback (Transport.on_data_channel dc events)
  | SignalStateTurn dc i =>
      turn (fun w => SignalingLayer.state_tx (signaling w)) i (on_signal_state own_is_host dc)
  | SignalMessageTurn i =>
      turn (fun w => SignalingLayer.message_tx (signaling w)) i on_signal_message
  | TransportStateTurn i =>
      turn (fun w => Transport.t_state_tx (transport w)) i (fun s => on_transport_state s;; mret tt)
  | TransportEventTurn i =>
      turn (fun w => Transport.event_tx (transport w)) i (on_transport_event properties)
  | RequestTask i =>
      turn started i (fun t => match t with
                               | RemoteRequest id permit payload =>
                                   handle_remote_request properties id permit payload
                               | _ => mret tt
                               end)
  | DestroyedConnect steps => destroyed_operation steps (inner_connect properties)
  | DestroyedSend steps message ack_timeout_ms response_timeout_ms =>
      destroyed_operation steps
        (inner_send properties instant_max message ack_timeout_ms response_timeout_ms);; mret tt
  | DestroyedWait steps recv => destroyed_operation steps (inner_wait_for_link recv)
  | DestroyedTask steps i =>
      turn started i (fun t => match t with
                               | RemoteRequest id permit payload =>
                                   destroyed_request properties steps id permit payload
                               | _ => mret tt
                               end)
  end.

Definition session_arrive (call : SCall) (w : SessionInner) : SessionInner :=
  match call with
  | FromChannel payload => with_signaling (SignalingLayer.arrive (SignalingLayer.Receive payload) (signaling w)) w
  | _ => w
  end.

Definition session_is_aborted (w : SessionInner) (n : nat) : bool :=
  SignalingLayer.is_aborted (signaling w) n.

(** The tasks of the signaling layer, which the session's control does not own. *)
Definition session_take_spawned (w : SessionInner) : option (SessionInner * Thread SessionInner SInput) :=
  match SignalingLayer.take_spawned properties (signaling w) with
  | Some (x, t) => Some (with_signaling x w, zoom_thread signaling with_signaling s_signaling t)
  | None => None
  end.

(** A session that [build_session] made. *)
Definition new_session : SessionInner :=
  mkSessionInner Created None false [] [] [] SignalingLayer.new_inner Transport.new_transport
    Control.new_control false None [] [].

Definition session_initial : Config SessionInner SInput := mkConfig new_session [].

Definition session_reachable : Config SessionInner SInput -> Config SessionInner SInput -> Prop :=
  reachable session_is_aborted session_take_spawned session_entry session_arrive.

(** ** The invariant *)

(** A text that is an encrypted session message. *)
Definition sealed (w : SessionInner) (c : string) : Prop :=
  exists k m text random, SignalingLayer.relying_key (signaling w) = Some k /\
    session_to_string m = inl text /\
    peer_encrypt (SignalingLayer.prop_decryption_key properties) random text k = Ok c.

(** The message came in a text from the data channel that decrypted under our key and
    the recorded peer key. *)
Definition delivered (w : SessionInner) (m : SessionMessage) : Prop :=
  exists k raw text, SignalingLayer.relying_key (signaling w) = Some k /\
    Transport.Message raw ∈ Transport.event_tx (transport w) /\
    peer_decrypt (SignalingLayer.prop_decryption_key properties) raw (Some k) = Ok text /\
    session_from_str text = inl m.

Definition requested (w : SessionInner) (v : Value) : Prop :=
  exists id, delivered w (Request id v).

(** A message for the waiting requests came that way, or over encrypted signaling. *)
Definition responded (w : SessionInner) (m : SessionMessage) : Prop :=
  delivered w m \/
  exists v, SignalingLayer.sent_to_us properties (signaling w) v /\ session_from_value v = inl m.

Record control_ok (c : Control.Control) : Prop := {
  co_limit : Control.active_handlers c <= Control.MAX_ACTIVE_HANDLERS;
  co_shutdown : Control.shutdown c = Control.closed c;
  co_tasks : Control.closed c = true -> map_Forall (fun _ s => s <> Control.Running) (Control.tasks c);
}.

Record session_inv (w : SessionInner) : Prop := {
  si_layer : SignalingLayer.layer_inv properties (signaling w);
  si_control : control_ok (control w);
  si_sent : Forall (sealed w) (Transport.sent (transport w));
  si_setup : Transport.Connecting ∈ Transport.t_state_tx (transport w) ->
    is_Some (SignalingLayer.relying_key (signaling w));
  si_texts : forall raw, Transport.Message raw ∈ Transport.event_tx (transport w) ->
    is_Some (SignalingLayer.relying_key (signaling w));
  si_handled : Forall (requested w) (handled w);
  si_observed : Forall (requested w) (request_tx w);
  si_started : forall id p v, RemoteRequest id p v ∈ started w -> requested w v;
  si_responses : Forall (responded w) (response_tx w);
}.

Record session_guarantee (w w' : SessionInner) : Prop := {
  sg_layer : SignalingLayer.guarantee (signaling w) (signaling w');
  sg_sent : Transport.sent (transport w) `prefix_of` Transport.sent (transport w');
  sg_events : Transport.event_tx (transport w) `prefix_of` Transport.event_tx (transport w');
  sg_handled : handled w `prefix_of` handled w';
  sg_observed : request_tx w `prefix_of` request_tx w';
  sg_responses : response_tx w `prefix_of` response_tx w';
  sg_started : started w `prefix_of` started w';
  sg_closed : Control.closed (control w) = true ->
    Control.closed (control w') = true /\ started w' = started w;
}.

#[export] Existing Instance SignalingLayer.guarantee_preorder.

#[export] Instance session_guarantee_preorder : PreOrder session_guarantee.
Proof.
  split.
  - intros w. by split.
  - intros w1 w2 w3 [? ? ? ? ? ? ? C1] [? ? ? ? ? ? ? C2]. split; try by etrans.
    intros Hc. destruct (C1 Hc) as [Hc2 E1]. destruct (C2 Hc2) as [Hc3 E2].
    split; [done|congruence].
Qed.

End session.

(** ** Control *)

Lemma control_ok_spawn c : control_ok c -> control_ok (Control.spawn c).2.
Proof.
  intros [H1 H2 H3]. unfold Control.spawn. destruct (Control.closed c) eqn:Hc; split; cbn; congruence || auto.
Qed.

Lemma control_ok_close c : control_ok c -> control_ok (Control.close c).
Proof.
  intros [H1 H2 H3]. unfold Control.close. destruct (Control.closed c) eqn:Hc; split; cbn; congruence || auto.
  intros _ n s. rewrite lookup_fmap. destruct (Control.tasks c !! n) as [[]|]; intros [= <-]; done.
Qed.

Lemma control_ok_take c : control_ok c -> control_ok (Control.take_tasks c).
Proof. intros [H1 H2 H3]. by split. Qed.

Lemma control_ok_joined c : control_ok c -> control_ok (Control.joined c).
Proof. intros [H1 H2 H3]. by split. Qed.

Lemma control_ok_admit c : control_ok c -> control_ok (Control.admit_handler c).2.
Proof.
  intros [H1 H2 H3]. unfold Control.admit_handler.
  destruct (Control.closed c) eqn:Hc; [split; cbn; congruence || auto|].
  destruct (Nat.leb_spec Control.MAX_ACTIVE_HANDLERS (Control.active_handlers c));
    split; cbn; congruence || auto.
Qed.

Lemma control_ok_drop p c c' : control_ok c -> Control.drop_permit p c = Ok c' -> control_ok c'.
Proof.
  intros [H1 H2 H3]. unfold Control.drop_permit.
  destruct (Control.active_handlers c) eqn:Hn; [done|]. intros [= <-]. split; cbn; auto. lia.
Qed.

Lemma control_ok_finish n c : control_ok c -> control_ok (Control.finish_task n c).
Proof.
  intros [H1 H2 H3]. split; cbn; [done..|]. intros Hc. by apply Control.alter_not_running; [|apply H3].
Qed.

Lemma closed_spawn c : Control.closed (Control.spawn c).2 = Control.closed c.
Proof. unfold Control.spawn. by destruct (Control.closed c) eqn:?. Qed.

Lemma closed_close c : Control.closed (Control.close c) = true.
Proof. unfold Control.close. by destruct (Control.closed c) eqn:?. Qed.

Lemma closed_admit c : Control.closed (Control.admit_handler c).2 = Control.closed c.
Proof. unfold Control.admit_handler. destruct (Control.closed c) eqn:?; [done|]. by case_match. Qed.

(** ** Every task keeps the invariant *)

Section session_safety.
Context `{CryptoLaws} `{SignalingCodec} `{SessionCodec} `{Transport.WebRtcLib}.
Context (properties : SignalingLayer.SignalingProperties) (own_is_host : bool) (instant_max : Z).
Implicit Types (w : SessionInner).

Abbreviation SInv := (session_inv properties).
Abbreviation ssafe := (safe SInv session_guarantee).

Lemma sealed_mono w w' c : session_guarantee w w' -> sealed properties w c -> sealed properties w' c.
Proof.
  intros HG (k & m & text & rd & Hk & Hr). exists k, m, text, rd. split; [|done].
  by apply (SignalingLayer.g_key _ _ (sg_layer _ _ HG)).
Qed.

Lemma delivered_mono w w' m : session_guarantee w w' -> delivered properties w m -> delivered properties w' m.
Proof.
  intros HG (k & raw & text & Hk & Hin & Hd & Ht). exists k, raw, text. split_and!; [| |done..].
  - by apply (SignalingLayer.g_key _ _ (sg_layer _ _ HG)).
  - destruct (sg_events _ _ HG) as [l ->]. apply elem_of_app. by left.
Qed.

Lemma requested_mono w w' v : session_guarantee w w' -> requested properties w v -> requested properties w' v.
Proof. intros HG [id Hd]. exists id. by eapply delivered_mono. Qed.

Lemma responded_mono w w' m : session_guarantee w w' -> responded properties w m -> responded properties w' m.
Proof.
  intros HG [Hd|(v & Hv & Hm)]; [left; by eapply delivered_mono|right]. exists v. split; [|done].
  eapply SignalingLayer.sent_to_us_mono; [apply (sg_layer _ _ HG)|done].
Qed.

Lemma session_key_mono w w' : session_guarantee w w' ->
  is_Some (SignalingLayer.relying_key (signaling w)) ->
  is_Some (SignalingLayer.relying_key (signaling w')).
Proof. intros HG. apply (SignalingLayer.has_key_mono _ _ (sg_layer _ _ HG)). Qed.

#[local] Hint Resolve sealed_mono delivered_mono requested_mono responded_mono session_key_mono : openlv.

Lemma Forall_grow {A} (P Q : A -> Prop) l l' :
  (forall x, x ∈ l' -> x ∈ l \/ Q x) -> Forall P l -> (forall x, P x -> Q x) -> Forall Q l'.
Proof.
  rewrite !Forall_forall. intros Hl' Hl HPQ x Hx. destruct (Hl' x Hx); auto.
Qed.

(** A change keeps the invariant when it stays within the guarantee and what it adds
    satisfies it. *)
Lemma session_step w w' :
  SInv w -> session_guarantee w w' ->
  SignalingLayer.layer_inv properties (signaling w') -> control_ok (control w') ->
  (forall c, c ∈ Transport.sent (transport w') ->
     c ∈ Transport.sent (transport w) \/ sealed properties w' c) ->
  (Transport.Connecting ∈ Transport.t_state_tx (transport w') ->
     Transport.Connecting ∈ Transport.t_state_tx (transport w) \/
     is_Some (SignalingLayer.relying_key (signaling w'))) ->
  (forall raw, Transport.Message raw ∈ Transport.event_tx (transport w') ->
     Transport.Message raw ∈ Transport.event_tx (transport w) \/
     is_Some (SignalingLayer.relying_key (signaling w'))) ->
  (forall v, v ∈ handled w' -> v ∈ handled w \/ requested properties w' v) ->
  (forall v, v ∈ request_tx w' -> v ∈ request_tx w \/ requested properties w' v) ->
  (forall id p v, RemoteRequest id p v ∈ started w' ->
     RemoteRequest id p v ∈ started w \/ requested properties w' v) ->
  (forall m, m ∈ response_tx w' -> m ∈ response_tx w \/ responded properties w' m) ->
  SInv w'.
Proof.
  intros [] HG Hl Hc Hs Hsu Hte Hh Ho Hst Hr. split; try done;
    try by eapply Forall_grow; [eassumption|eassumption|]; eauto with openlv.
  - intros Hin. destruct (Hsu Hin); eauto with openlv.
  - intros raw Hin. destruct (Hte _ Hin); eauto with openlv.
  - intros id p v Hin. destruct (Hst _ _ _ Hin); eauto with openlv.
Qed.

(** The fields that the invariant and the guarantee do not mention. *)
Lemma session_plain w w' :
  SInv w -> control_ok (control w') ->
  (Control.closed (control w) = true -> Control.closed (control w') = true) ->
  (signaling w', transport w', handled w', request_tx w', started w', response_tx w')
  = (signaling w, transport w, handled w, request_tx w, started w, response_tx w) ->
  SInv w' /\ session_guarantee w w'.
Proof.
  intros HI Hc Hcl [= E1 E2 E3 E4 E5 E6].
  assert (session_guarantee w w') as HG by (split; rewrite ?E1, ?E2, ?E3, ?E4, ?E5, ?E6; first [reflexivity|auto]).
  split; [|done]. eapply session_step; [exact HI|exact HG|..]; rewrite ?E1, ?E2, ?E3, ?E4, ?E5, ?E6; auto.
  apply HI.
Qed.

Lemma ssafe_plain (f : SessionInner -> SessionInner) w :
  (forall x, control (f x) = control x /\
    (signaling (f x), transport (f x), handled (f x), request_tx (f x), started (f x), response_tx (f x))
    = (signaling x, transport x, handled x, request_tx x, started x, response_tx x)) ->
  ssafe (writes f : prog _ SInput _) w.
Proof.
  intros Hf. apply safe_writes. intros w' _ HI. destruct (Hf w') as [Hc Hr].
  apply session_plain; rewrite ?Hc; auto. apply HI.
Qed.

(** Changes of the control alone. *)
Lemma with_control_ok w c :
  SInv w -> control_ok c -> (Control.closed (control w) = true -> Control.closed c = true) ->
  SInv (with_control c w) /\ session_guarantee w (with_control c w).
Proof. intros HI Hc Hcl. by apply session_plain. Qed.

(** The parts' programs. *)
Lemma ssafe_on_signaling {A} (p : prog SignalingLayer.Inner SignalingLayer.Input A) w :
  safe (SignalingLayer.layer_inv properties) SignalingLayer.guarantee p (signaling w) ->
  ssafe (on_signaling p) w.
Proof.
  intros Hp. eapply safe_zoom; [done|by intros ? []|by intros ? ? []|apply _| |exact Hp].
  intros w' x _ HI Hx HG. assert (session_guarantee w' (with_signaling x w')) as HG' by (by split).
  split; [|done]. eapply session_step; [exact HI|exact HG'|done|..]; auto. apply HI.
Qed.

Lemma ssafe_on_transport {A} (p : prog Transport.Transport Transport.TInput A) w :
  every (transport_guarantee (sealed properties w)
    (is_Some (SignalingLayer.relying_key (signaling w)))) p -> ssafe (on_transport p) w.
Proof.
  apply safe_zoom_every; [apply _|]. intros w' x HG0 HI [(l & Hs & Hl) He Hst Hm].
  assert (session_guarantee w' (with_transport x w')) as HG.
  { split; cbn; try done. rewrite Hs. by apply prefix_app_r. }
  split; [|done]. eapply session_step; [exact HI|exact HG|apply HI|apply HI|..]; cbn; auto.
  - intros c. rewrite Hs. intros [Hc|Hc]%elem_of_app; [by left|right].
    rewrite Forall_forall in Hl. eapply sealed_mono; [|by apply Hl]. by etrans.
  - intros Hin. destruct (Hst Hin); [by left|right]. by eapply (session_key_mono w w').
  - intros raw Hin. destruct (Hm raw Hin); [by left|right]. by eapply (session_key_mono w w').
Qed.

(** *** Small methods *)

Lemma ssafe_control (f : Control.Control -> Control.Control) w :
  (forall c, control_ok c -> control_ok (f c)) ->
  (forall c, Control.closed c = true -> Control.closed (f c) = true) ->
  ssafe (writes (fun w => with_control (f (control w)) w) : prog _ SInput _) w.
Proof.
  intros Hf Hc. apply safe_writes. intros w' _ HI. apply with_control_ok; [done| |apply Hc].
  apply Hf, HI.
Qed.

Lemma ssafe_admitted {A B} (f : Control.Control -> Result A * Control.Control)
    (q : A -> prog SessionInner SInput B) w :
  (forall c, control_ok c -> control_ok (f c).2) ->
  (forall c, Control.closed c = true -> Control.closed (f c).2 = true) ->
  (forall a, ssafe (q a) w) ->
  ssafe (r ← atom (fun _ w => let '(r, c) := f (control w) in (with_control c w, r));
         a ← lift r; q a) w.
Proof.
  intros Hf Hc Hq. apply safe_atom_bind. intros _ w' HG HI.
  assert (SInv (with_control (f (control w')).2 w') /\
          session_guarantee w' (with_control (f (control w')).2 w')) as [HI' HG'].
  { apply with_control_ok; [done| |apply Hc]. apply Hf, HI. }
  destruct (f (control w')) as [r c]. cbn in *. split_and!; [done..|].
  apply safe_lift. intros a _. eapply safe_stable; [apply _| |apply Hq]. by etrans.
Qed.

Lemma ssafe_seq {A B} (p : prog SessionInner SInput A) (q : A -> prog SessionInner SInput B) w :
  ssafe p w -> (forall a, ssafe (q a) w) -> ssafe (p ≫= q) w.
Proof. apply safe_seq; apply _. Qed.

Lemma ssafe_reads {A} (f : SessionInner -> A) w : ssafe (reads f : prog _ SInput _) w.
Proof. apply safe_reads; apply _. Qed.

Lemma ssafe_asks {A} (f : SInput -> A) w : ssafe (asks f : prog SessionInner _ _) w.
Proof. apply safe_asks; apply _. Qed.

Lemma ssafe_done {A} (r : Result A) w : ssafe (lift r : prog SessionInner SInput A) w.
Proof. exact Logic.I. Qed.

Lemma ssafe_ret {A} (a : A) w : ssafe (mret a : prog SessionInner SInput A) w.
Proof. exact Logic.I. Qed.

Lemma ssafe_await w : ssafe (await : prog SessionInner SInput unit) w.
Proof. exact Logic.I. Qed.

Lemma ssafe_attempt {A} (p : prog SessionInner SInput A) w : ssafe p w -> ssafe (attempt p) w.
Proof. apply safe_attempt. Qed.

Create HintDb session discriminated.
#[local] Hint Resolve ssafe_done ssafe_ret ssafe_await ssafe_reads ssafe_asks ssafe_attempt : session.
#[local] Hint Extern 2 (safe _ _ (writes _) _) => by apply ssafe_plain : session.

(** The steps of a program, one after the other, in each of its branches. *)
Ltac ssteps := repeat first
  [ solve [eauto with session] | apply ssafe_seq; [|intros ?] | case_match ].

Lemma ssafe_set_error e w : ssafe (set_error e) w.
Proof. by apply ssafe_plain. Qed.

Lemma ssafe_clear_error w : ssafe clear_error w.
Proof. by apply ssafe_plain. Qed.

#[local] Hint Resolve ssafe_set_error ssafe_clear_error : session.

Lemma ssafe_set_status s w : ssafe (set_status s) w.
Proof. unfold set_status, get_error. ssteps. Qed.

Lemma ssafe_set_transport_error w : ssafe set_transport_error w.
Proof. unfold set_transport_error. ssteps. Qed.

#[local] Hint Resolve ssafe_set_status ssafe_set_transport_error : session.

Lemma ssafe_run_operation {A} (p : prog SessionInner SInput A) w :
  ssafe p w -> ssafe (run_operation p) w.
Proof.
  intros Hp. apply (ssafe_admitted Control.spawn);
    [apply control_ok_spawn|intros c; by rewrite closed_spawn|].
  intros n. ssteps. apply ssafe_control; [apply control_ok_finish|done].
Qed.

Lemma ssafe_destroyed_operation {A} steps (p : prog SessionInner SInput A) w :
  ssafe p w -> ssafe (destroyed_operation steps p) w.
Proof.
  intros Hp. apply (ssafe_admitted Control.spawn);
    [apply control_ok_spawn|intros c; by rewrite closed_spawn|].
  intros n. apply ssafe_seq; [by apply safe_first_steps|intros o].
  apply ssafe_seq; [apply ssafe_control; [apply control_ok_finish|done]|intros _]. by destruct o.
Qed.

Lemma ssafe_drop_permit p w : ssafe (drop_permit p) w.
Proof.
  apply safe_atom_bind. intros _ w' HG HI. cbn. destruct (Control.drop_permit p (control w')) as [c|e|] eqn:E.
  - assert (SInv (with_control c w') /\ session_guarantee w' (with_control c w')) as [? ?].
    { apply with_control_ok; [done|eapply control_ok_drop; [apply HI|done]|].
      revert E. unfold Control.drop_permit. case_match; by intros [= <-]. }
    by split_and!.
  - by split_and!.
  - by split_and!.
Qed.

(** A message is sealed for the peer before it is given to the transport. *)
Lemma ssafe_send_session_message m w : ssafe (send_session_message properties m) w.
Proof.
  apply safe_lift. intros text Htext. apply safe_atom_bind. intros i w' HG HI. cbn. split_and!; [done..|].
  destruct (SignalingLayer.relying_key (signaling w')) as [k|] eqn:Hk; [|done].
  apply safe_lift. intros c Hc. eapply (ssafe_on_transport (Transport.send c)), tevery_send.
  exists k, m, text, (SignalingLayer.in_random (s_signaling i)). split_and!; [done| |done].
  unfold lib_err in Htext. by destruct (session_to_string m); simplify_eq.
Qed.

#[local] Hint Resolve ssafe_run_operation ssafe_drop_permit ssafe_send_session_message : session.

(** *** The parts *)

Lemma ssafe_signaling_setup w : ssafe (on_signaling (SignalingLayer.setup properties)) w.
Proof. apply ssafe_on_signaling, SignalingLayer.safe_setup. Qed.

Lemma ssafe_signaling_teardown w : ssafe (on_signaling SignalingLayer.teardown) w.
Proof. eapply ssafe_on_signaling, SignalingLayer.safe_teardown. Qed.

Lemma ssafe_signaling_send v w : ssafe (on_signaling (SignalingLayer.send properties v)) w.
Proof. apply ssafe_on_signaling, SignalingLayer.safe_send. Qed.

Lemma ssafe_transport_setup dc w :
  is_Some (SignalingLayer.relying_key (signaling w)) ->
  ssafe (on_transport (Transport.setup own_is_host dc)) w.
Proof. intros Hk. by apply ssafe_on_transport, tevery_setup. Qed.

Lemma ssafe_transport_teardown w : ssafe (on_transport Transport.teardown) w.
Proof. eapply ssafe_on_transport, tevery_teardown. Qed.

Lemma ssafe_transport_handle m w : ssafe (on_transport (Transport.handle m)) w.
Proof. apply ssafe_on_transport, tevery_handle. Qed.

#[local] Hint Resolve ssafe_signaling_setup ssafe_signaling_teardown ssafe_signaling_send
  ssafe_transport_setup ssafe_transport_teardown ssafe_transport_handle : session.

(** *** What is appended to the session's lists *)

Lemma grows_in {A} (l : list A) x y : y ∈ l ++ [x] -> y ∈ l \/ y = x.
Proof. intros [?|?%list_elem_of_singleton]%elem_of_app; auto. Qed.

(** A task may be started when it is not the task of a payload no peer sent. *)
Definition startable (w : SessionInner) (t : SessionTask) : Prop :=
  match t with RemoteRequest _ _ v => requested properties w v | _ => True end.

Lemma ssafe_spawn_task t w : startable w t -> ssafe (spawn_task t) w.
Proof.
  intros Ht. intros i w' HG HI. pose proof (control_ok_spawn _ (si_control _ _ HI)) as Hc.
  unfold Control.spawn in *. destruct (Control.closed (control w')) eqn:Hcl; cbn in *.
  - split; [|split; [|done]]; apply (with_control_ok w' (control w')); auto; apply HI.
  - assert (forall x, session_guarantee w' (with_started (started w' ++ [t]) (with_control x w'))) as HG'.
    { intros x. split; cbn; try done; [by apply prefix_app_r|congruence]. }
    split; [|split; [apply HG'|done]].
    eapply session_step; [exact HI|apply HG'|apply HI|exact Hc|..]; cbn; auto.
    intros id p v [Hin|<-]%grows_in; [by left|right]. cbn in Ht.
    eapply requested_mono; [|exact Ht]. by etrans.
Qed.

Lemma ssafe_emit_response m w : responded properties w m -> ssafe (emit_response m) w.
Proof.
  intros Hm. apply safe_writes. intros w' HG HI.
  assert (session_guarantee w' (with_response_tx (response_tx w' ++ [m]) w')) as HG'.
  { split; cbn; try done. by apply prefix_app_r. }
  split; [|done]. eapply session_step; [exact HI|exact HG'|apply HI|apply HI|..]; cbn; auto.
  intros m' [Hin| ->]%grows_in; [by left|right]. eapply responded_mono; [|exact Hm]. by etrans.
Qed.

Lemma ssafe_observe_request v w : requested properties w v -> ssafe (observe_request v) w.
Proof.
  intros Hv. unfold observe_request. ssteps. apply safe_writes. intros w' HG HI.
  assert (session_guarantee w' (with_request_tx (request_tx w' ++ [v]) w')) as HG'.
  { split; cbn; try done. by apply prefix_app_r. }
  split; [|done]. eapply session_step; [exact HI|exact HG'|apply HI|apply HI|..]; cbn; auto.
  intros v' [Hin| ->]%grows_in; [by left|right]. eapply requested_mono; [|exact Hv]. by etrans.
Qed.

Lemma ssafe_handle {B} (f : SInput -> B) v w :
  requested properties w v -> ssafe (atom (fun i w => (with_handled (handled w ++ [v]) w, f i))) w.
Proof.
  intros Hv i w' HG HI.
  assert (session_guarantee w' (with_handled (handled w' ++ [v]) w')) as HG'.
  { split; cbn; try done. by apply prefix_app_r. }
  split_and!; [|exact HG'|done].
  eapply session_step; [exact HI|exact HG'|apply HI|apply HI|..]; cbn; auto.
  intros v' [Hin| ->]%grows_in; [by left|right]. eapply requested_mono; [|exact Hv]. by etrans.
Qed.

#[local] Hint Resolve ssafe_spawn_task ssafe_emit_response ssafe_observe_request ssafe_handle : session.

(** *** Requests *)

Lemma ssafe_handle_remote_request id p v w :
  requested properties w v -> ssafe (handle_remote_request properties id p v) w.
Proof. intros Hv. unfold handle_remote_request. ssteps. Qed.

Lemma ssafe_destroyed_request steps id p v w :
  requested properties w v -> ssafe (destroyed_request properties steps id p v) w.
Proof.
  intros Hv. apply ssafe_seq; [by apply safe_first_steps, ssafe_handle_remote_request|intros o].
  destruct o; [done|apply ssafe_drop_permit].
Qed.

Lemma ssafe_dispatch_request id v w : delivered properties w (Request id v) -> ssafe (dispatch_request id v) w.
Proof.
  intros Hv. assert (requested properties w v) as Hr by (by exists id).
  apply (ssafe_admitted Control.admit_handler);
    [apply control_ok_admit|intros c; by rewrite closed_admit|].
  intros permit. ssteps.
Qed.

Lemma ssafe_handle_session_message m w : delivered properties w m -> ssafe (handle_session_message m) w.
Proof.
  intros Hm. assert (responded properties w m) as Hr by (by left).
  destruct m; cbn [handle_session_message]; [by apply ssafe_dispatch_request|ssteps..].
Qed.

Lemma ssafe_handle_transport_payload raw w :
  Transport.Message raw ∈ Transport.event_tx (transport w) -> ssafe (handle_transport_payload properties raw) w.
Proof.
  intros Hraw. apply safe_read_bind; [apply _|]. intros w' HG HI.
  assert (Transport.Message raw ∈ Transport.event_tx (transport w')) as Hraw'
    by (destruct (sg_events _ _ HG) as [l ->]; apply elem_of_app; by left).
  destruct (si_texts _ _ HI raw Hraw') as [k Hk]. rewrite Hk. apply safe_lift. intros text Htext.
  apply safe_lift. intros m Hm. apply ssafe_handle_session_message.
  exists k, raw, text. split_and!; [done..|].
  - unfold lib_err in Hm. by destruct (session_from_str text); simplify_eq.
Qed.

(** *** Event loops *)

Lemma ssafe_on_signal_state dc s w :
  (SignalingLayer.keyed s = true -> is_Some (SignalingLayer.relying_key (signaling w))) ->
  ssafe (on_signal_state own_is_host dc s) w.
Proof.
  intros Hk. unfold on_signal_state, select_transport. ssteps.
Qed.

Lemma ssafe_on_signal_message v w :
  SignalingLayer.sent_to_us properties (signaling w) v -> ssafe (on_signal_message v) w.
Proof.
  intros Hv. unfold on_signal_message. destruct (route_signal_payload v) as [n r] eqn:Hroute.
  assert (forall m, r = Some m -> responded properties w m) as Hr.
  { intros m ->. right. exists v. split; [done|]. revert Hroute. unfold route_signal_payload.
    repeat case_match; congruence. }
  ssteps.
Qed.

Lemma ssafe_on_transport_state s w : ssafe (on_transport_state s) w.
Proof. destruct s; cbn [on_transport_state]; ssteps. Qed.

Lemma ssafe_relay_negotiation n w : ssafe (relay_negotiation properties n) w.
Proof. unfold relay_negotiation. ssteps. Qed.

#[local] Hint Resolve ssafe_relay_negotiation ssafe_handle_transport_payload : session.

Lemma ssafe_on_transport_event e w :
  e ∈ Transport.event_tx (transport w) -> ssafe (on_transport_event properties e) w.
Proof. intros He. destruct e; cbn [on_transport_event]; ssteps. Qed.

(** *** Methods *)

Lemma ssafe_inner_send m a r w : ssafe (inner_send properties instant_max m a r) w.
Proof. unfold inner_send. ssteps. Qed.

Lemma ssafe_start_event_loops w : ssafe start_event_loops w.
Proof. unfold start_event_loops. ssteps; by apply ssafe_spawn_task. Qed.

#[local] Hint Resolve ssafe_start_event_loops : session.

Lemma ssafe_inner_connect w : ssafe (inner_connect properties) w.
Proof.
  apply ssafe_seq; [|intros taken; ssteps].
  intros i w' _ HI. assert (SInv (with_events_taken true w') /\
    session_guarantee w' (with_events_taken true w')) as [? ?]; [|by split_and!].
  apply session_plain; auto. apply HI.
Qed.

Lemma ssafe_link_failed w : ssafe link_failed w.
Proof. unfold link_failed, get_error. ssteps. Qed.

Lemma ssafe_link_up w : ssafe link_up w.
Proof. apply ssafe_set_status. Qed.

#[local] Hint Resolve ssafe_link_failed ssafe_link_up : session.

Lemma ssafe_link_loop recv w : ssafe (link_loop recv) w.
Proof. induction recv as [|[[]|[]] recv IH]; cbn [link_loop]; ssteps. Qed.

#[local] Hint Resolve ssafe_link_loop : session.

Lemma ssafe_inner_wait_for_link recv w : ssafe (inner_wait_for_link recv) w.
Proof. unfold inner_wait_for_link, get_status. ssteps. Qed.

Lemma ssafe_wait_for_tasks w : ssafe (wait_for_tasks : prog _ SInput _) w.
Proof.
  unfold wait_for_tasks. ssteps; by apply ssafe_control; [apply control_ok_take || apply control_ok_joined|].
Qed.

#[local] Hint Resolve ssafe_wait_for_tasks : session.

Lemma ssafe_close w : ssafe (close properties) w.
Proof.
  unfold close. apply ssafe_seq; [apply ssafe_control; [apply control_ok_close|intros; apply closed_close]|].
  intros _. ssteps.
Qed.

(** ** The session as a whole *)

Lemma ssafe_turn {X} (values : SessionInner -> list X) i (body : X -> prog SessionInner SInput unit) w :
  (forall w' x, SInv w' -> x ∈ values w' -> ssafe (body x) w') -> ssafe (turn values i body) w.
Proof.
  intros Hb. apply safe_read_bind; [apply _|]. intros w' _ HI.
  destruct (values w' !! i) as [x|] eqn:Hx; [|done]. apply Hb; [done|]. by eapply list_elem_of_lookup_2.
Qed.

Lemma ssafe_library_callback p w :
  (forall P K, (K : Prop) -> every (transport_guarantee P K) p) -> ssafe (library_callback p) w.
Proof.
  intros Hp. apply safe_read_bind; [apply _|]. intros w' _ HI. case_bool_decide as Hm; [|done].
  apply ssafe_on_transport, Hp. by apply (si_setup _ _ HI).
Qed.

Lemma session_entry_safe call w :
  SInv w -> SInv (session_arrive call w) /\ session_guarantee w (session_arrive call w) /\
    ssafe (session_entry properties own_is_host instant_max call) (session_arrive call w).
Proof.
  intros HI. destruct call; cbn [session_arrive session_entry];
    try (split; [done|split; [done|]]).
  - apply ssafe_run_operation, ssafe_inner_connect.
  - apply ssafe_close.
  - apply ssafe_seq; [apply ssafe_run_operation, ssafe_inner_send|done].
  - apply ssafe_run_operation, ssafe_inner_wait_for_link.
  - destruct (SignalingLayer.entry_safe properties (SignalingLayer.Receive payload) (signaling w))
      as (HI' & HG & Hs); [apply HI|].
    assert (session_guarantee w (with_signaling
      (SignalingLayer.arrive (SignalingLayer.Receive payload) (signaling w)) w)) as HG' by (by split).
    split; [|split; [done|by apply ssafe_on_signaling]].
    eapply session_step; [exact HI|exact HG'|exact HI'|apply HI|..]; cbn; auto.
  - apply ssafe_library_callback. intros P K _. apply tevery_on_ice_candidate.
  - apply ssafe_library_callback. intros P K _. apply tevery_on_connection_state_change.
  - apply ssafe_library_callback. intros P K. apply tevery_store_and_poll_dc.
  - apply ssafe_turn. intros w' s HI' Hs. apply ssafe_on_signal_state.
    by apply (SignalingLayer.inv_state_tx _ _ (si_layer _ _ HI')).
  - apply ssafe_turn. intros w' v HI' Hv. apply ssafe_on_signal_message.
    by apply (SignalingLayer.inv_messages _ _ (si_layer _ _ HI')).
  - apply ssafe_turn. intros w' s _ _. apply ssafe_seq; [apply ssafe_on_transport_state|done].
  - apply ssafe_turn. intros w' e _ He. by apply ssafe_on_transport_event.
  - apply ssafe_turn. intros w' t HI' Ht. destruct t; try done.
    apply ssafe_handle_remote_request. by eapply (si_started _ _ HI').
  - apply ssafe_destroyed_operation, ssafe_inner_connect.
  - apply ssafe_seq; [apply ssafe_destroyed_operation, ssafe_inner_send|done].
  - apply ssafe_destroyed_operation, ssafe_inner_wait_for_link.
  - apply ssafe_turn. intros w' t HI' Ht. destruct t; try done.
    apply ssafe_destroyed_request. by eapply (si_started _ _ HI').
Qed.

Lemma session_take_spawned_safe w w' t :
  SInv w -> session_take_spawned properties w = Some (w', t) ->
  SInv w' /\ session_guarantee w w' /\ safe_thread SInv session_guarantee w' t.
Proof.
  intros HI. unfold session_take_spawned.
  destruct (SignalingLayer.take_spawned properties (signaling w)) as [[x t']|] eqn:E; [|done].
  intros [= <- <-].
  destruct (SignalingLayer.take_spawned_safe _ _ _ _ (si_layer _ _ HI) E) as (HI' & HG & Ht).
  assert (session_guarantee w (with_signaling x w)) as HG' by (by split).
  split; [|split; [done|]].
  - eapply session_step; [exact HI|exact HG'|exact HI'|apply HI|..]; cbn; auto.
  - destruct Ht as [Hc Ha]. split; cbn; [by apply ssafe_on_signaling|].
    destruct (again t'); [by apply (ssafe_on_signaling p)|done].
Qed.

Lemma new_session_inv : SInv new_session.
Proof.
  split; cbn; try constructor; cbn; try done; try lia; by intros * ?%not_elem_of_nil.
Qed.

(** Every configuration the session reaches satisfies the invariant, and what it
    reaches from there stays within the guarantee. *)
Lemma session_sound c c' :
  session_reachable properties own_is_host instant_max session_initial c ->
  session_reachable properties own_is_host instant_max c c' ->
  SInv (world c) /\ SInv (world c') /\ session_guarantee (world c) (world c').
Proof.
  intros Hc Hc'.
  assert (safe_config SInv session_guarantee c) as Hs.
  { eapply reachable_sound; [apply _|apply session_take_spawned_safe|apply session_entry_safe| |exact Hc].
    split; [apply new_session_inv|constructor]. }
  assert (safe_config SInv session_guarantee c' /\ session_guarantee (world c) (world c')) as [Hs' HG].
  { eapply reachable_sound; [apply _|apply session_take_spawned_safe|apply session_entry_safe|exact Hs|exact Hc']. }
  split_and!; [apply Hs|apply Hs'|exact HG].
Qed.

End session_safety.

(** ** Properties *)

(** How a text that carried [m] to the session opened: under our key and the recorded
    peer key [k], which it names as its sender. *)
Definition opened_from `{CryptoLib, SessionCodec} (properties : SignalingLayer.SignalingProperties)
    (k : EncryptionKey) (raw : string) (m : SessionMessage) : Prop :=
  exists text payload, session_from_str text = inl m /\
    peer_decrypt (SignalingLayer.prop_decryption_key properties) raw (Some k) = Ok text /\
    from_base64 raw = Ok payload /\ take PUBLIC_KEY_BYTES payload = public_key k.

Lemma delivered_opened `{CryptoLaws, SignalingCodec, SessionCodec, Transport.WebRtcLib} properties w m :
  delivered properties w m ->
  exists k raw, SignalingLayer.relying_key (signaling w) = Some k /\
    Transport.Message raw ∈ Transport.event_tx (transport w) /\ opened_from properties k raw m.
Proof.
  intros (k & raw & text & Hk & Hin & Hd & Ht). exists k, raw. split_and!; [done..|].
  destruct (SignalingSafety.peer_decrypt_sender _ _ _ _ Hd) as (payload & ? & ?). by exists text, payload.
Qed.

(** C4. Nothing leaves through the data channel in the clear: in every configuration
    a session reaches, with its methods, event loops, request tasks, callbacks and
    signaling tasks interleaved in any way, each text given to the data channel is one
    session message encrypted for the recorded peer key, which on the client has the
    hash of the connection URL. *)
Theorem data_channel_confidential
    `{CryptoLaws, SignalingCodec, SessionCodec, Transport.WebRtcLib}
    properties own_is_host instant_max c s :
  session_reachable properties own_is_host instant_max session_initial c ->
  s ∈ Transport.sent (transport (world c)) ->
  exists k m text random,
    SignalingLayer.relying_key (signaling (world c)) = Some k /\
    session_to_string m = inl text /\
    peer_encrypt (SignalingLayer.prop_decryption_key properties) random text k = Ok s /\
    (SignalingLayer.is_host properties = false -> hash_public_key k = SignalingLayer.prop_h properties).
Proof.
  intros Hc Hs. destruct (session_sound properties own_is_host instant_max c c Hc) as (HI & _); [apply reachable_refl|].
  assert (Hsealed := si_sent _ _ HI). rewrite Forall_forall in Hsealed.
  destruct (Hsealed s Hs) as (k & m & text & rd & Hk & Hm & He). exists k, m, text, rd.
  split_and!; [done..|]. intros Hh.
  destruct (SignalingLayer.inv_key _ _ (si_layer _ _ HI) k Hk) as (? & ? & ? & ? & _ & _ & Hr).
  rewrite Hh in Hr. by destruct Hr.
Qed.

(** C5. A session only listens to its peer: under every interleaving, each payload given to
    the request handler, or shown to those who observe requests, came in a text of the
    data channel that decrypted, under our key and the recorded peer key, into a
    [Request] with that payload, and that names the recorded key as its sender; and
    each message given to a waiting request came that way, or in an encrypted [Data]
    message of the signaling channel, opened with the recorded key unless it had
    arrived before a key was recorded. *)
Theorem peer_inputs_authentic
    `{CryptoLaws, SignalingCodec, SessionCodec, Transport.WebRtcLib}
    properties own_is_host instant_max c :
  session_reachable properties own_is_host instant_max session_initial c ->
  let w := world c in
  (forall v, v ∈ handled w \/ v ∈ request_tx w ->
     exists k id raw, SignalingLayer.relying_key (signaling w) = Some k /\
       Transport.Message raw ∈ Transport.event_tx (transport w) /\
       opened_from properties k raw (Request id v)) /\
  (forall m, m ∈ response_tx w ->
     exists k, SignalingLayer.relying_key (signaling w) = Some k /\
       ((exists raw, Transport.Message raw ∈ Transport.event_tx (transport w) /\
           opened_from properties k raw m)
        \/ (exists v payload frame text t, session_from_value v = inl m /\
             payload ∈ SignalingLayer.received (signaling w) /\ parse_frame payload = Ok frame /\
             prefix frame = Wire.Encrypted /\ signaling_from_str text = inl (Data v t) /\
             exists peer, peer_decrypt (SignalingLayer.prop_decryption_key properties)
                 (ciphertext frame) peer = Ok text /\
               (peer = Some k \/
                peer = None /\ payload ∈ SignalingLayer.early (signaling w))))).
Proof.
  intros Hc w. destruct (session_sound properties own_is_host instant_max c c Hc) as (HI & _); [apply reachable_refl|].
  assert (Hh := si_handled _ _ HI). assert (Ho := si_observed _ _ HI). assert (Hr := si_responses _ _ HI).
  rewrite Forall_forall in Hh. rewrite Forall_forall in Ho. rewrite Forall_forall in Hr. split.
  - intros v Hv. assert (requested properties w v) as [id Hd] by (destruct Hv; auto).
    apply delivered_opened in Hd as (k & raw & ? & ? & ?). by exists k, id, raw.
  - intros m Hm. destruct (Hr m Hm) as [Hd|(v & [[k Hk] Hs] & Hv)].
    + apply delivered_opened in Hd as (k & raw & ? & ? & ?). exists k. split; [done|]. left. by exists raw.
    + destruct Hs as (payload & frame & t & (Hin & Hp & _ & (text & Hop & Hm') & _) & Hpre).
      unfold SignalingLayer.opens in Hop. rewrite Hpre in Hop. destruct Hop as (peer & Hpeer & Hd).
      exists k. split; [done|]. right. exists v, payload, frame, text, t. split_and!; [done..|].
      exists peer. split; [done|]. destruct peer as [k'|]; [left; congruence|by right].
Qed.

(** C18. Closing is final: from a configuration whose control is closed, however the
    calls and tasks that are left interleave, the control stays closed, no task is
    started any more (no event loop, no request handler), no task of the control runs,
    at no time do more than [MAX_ACTIVE_HANDLERS] handlers hold a permit, and whoever
    waits for [closed] is let through. *)
Theorem closing_is_final
    `{CryptoLaws, SignalingCodec, SessionCodec, Transport.WebRtcLib}
    properties own_is_host instant_max c c' :
  session_reachable properties own_is_host instant_max session_initial c ->
  session_reachable properties own_is_host instant_max c c' ->
  Control.closed (control (world c)) = true ->
  Control.closed (control (world c')) = true /\ started (world c') = started (world c) /\
  (forall n s, Control.tasks (control (world c')) !! n = Some s -> s <> Control.Running) /\
  Control.active_handlers (control (world c')) <= Control.MAX_ACTIVE_HANDLERS /\
  (forall inputs n, run inputs n session_closed (world c') = (Ok true, S n, world c')).
Proof.
  intros Hc Hc' Hcl. destruct (session_sound properties own_is_host instant_max c c' Hc Hc') as (_ & HI & HG).
  destruct (sg_closed _ _ HG Hcl) as [Hcl' Hst]. destruct (si_control _ _ HI) as [Hl Hs Ht].
  split_and!; [done|done| |done|]; [by apply Ht|]. intros inputs n. cbn. unfold Control.closed_returns. congruence.
Qed.

(** ** A concrete session *)

Import CryptoModel TextModel SignalingSafety.LayerModel SessionSpec.SessionModel.

(** A call to the host's session that runs to its end without interference. *)
Definition host_session_call (outcome : Result Value) (call : SCall)
    (c : Config SessionInner SInput) : Config SessionInner SInput :=
  invoke session_is_aborted (session_take_spawned model_host) (session_entry model_host true 0)
    session_arrive (model_sinput outcome) call c.

(** A text of the client's data channel. *)
Definition client_text (m : SessionMessage) : bytes :=
  match peer_encrypt (SignalingLayer.prop_decryption_key model_client) witness_iv
          (to_text m) (SignalingLayer.prop_encryption_key model_host) with
  | Ok c => as_bytes c
  | _ => []
  end.

(** The host connects, the client's handshake arrives and the transport is set up; the
    data channel opens and brings a request, which is dispatched and handled, and an
    acknowledgement; then the session is closed. *)
Definition host_story : list SCall :=
  [Connect; FromChannel (last_frame client0); FromChannel (last_frame client1);
   FromChannel (last_frame client2); SignalStateTurn 0 4;
   OnDataChannel 0 [Transport.OnOpen; Transport.OnMessage (client_text (Request "id" Null));
                    Transport.OnMessage (client_text (Ack "id"))];
   TransportEventTurn 1; RequestTask 4; TransportEventTurn 2].

Definition tell (calls : list SCall) (c : Config SessionInner SInput) : Config SessionInner SInput :=
  fold_left (fun c call => host_session_call (Ok Null) call c) calls c.

Definition told : Config SessionInner SInput := tell host_story session_initial.
Definition told_closed : Config SessionInner SInput := tell [SessionSafety.Close] told.
Definition told_after : Config SessionInner SInput := tell [TransportEventTurn 1; Connect] told_closed.

Lemma tell_reachable calls c c' :
  session_reachable model_host true 0 c c' -> session_reachable model_host true 0 c (tell calls c').
Proof.
  unfold tell. revert c'. induction calls as [|call r IH]; intros c' Hc; [done|].
  by apply IH, invoke_reachable.
Qed.

Lemma told_reachable : session_reachable model_host true 0 session_initial told.
Proof. apply tell_reachable, reachable_refl. Qed.

Lemma told_closed_reachable : session_reachable model_host true 0 session_initial told_closed.
Proof. apply tell_reachable, told_reachable. Qed.

Lemma told_after_reachable : session_reachable model_host true 0 told_closed told_after.
Proof. apply tell_reachable, reachable_refl. Qed.

(** ** Witnesses *)

Lemma data_channel_confidential_witness :
  exists s m text random,
    last (Transport.sent (transport (world told))) = Some s /\ session_to_string m = inl text /\
    peer_encrypt (SignalingLayer.prop_decryption_key model_host) random text
      (SignalingLayer.prop_encryption_key model_client) = Ok s.
Proof.
  destruct (last (Transport.sent (transport (world told)))) as [s|] eqn:Hs;
    [|vm_compute in Hs; discriminate].
  destruct (data_channel_confidential model_host true 0 told s)
    as (k & m & text & rd & Hk & Hm & He & _); [exact told_reachable|apply last_Some_elem_of, Hs|].
  assert (SignalingLayer.relying_key (signaling (world told))
    = Some (SignalingLayer.prop_encryption_key model_client)) as Hk' by (vm_compute; reflexivity).
  rewrite Hk in Hk'. injection Hk' as Hk'. rewrite Hk' in He.
  exists s, m, text, rd. split; [reflexivity|]. split; [exact Hm|exact He].
Defined.

Lemma peer_inputs_authentic_witness :
  handled (world told) = [Null] /\ response_tx (world told) = [Ack "id"] /\
  (exists id raw, Transport.Message raw ∈ Transport.event_tx (transport (world told)) /\
     opened_from model_host (SignalingLayer.prop_encryption_key model_client) raw (Request id Null)) /\
  (exists k, SignalingLayer.relying_key (signaling (world told)) = Some k).
Proof.
  assert (handled (world told) = [Null]) as Eh by (vm_compute; reflexivity).
  assert (response_tx (world told) = [Ack "id"]) as Er by (vm_compute; reflexivity).
  assert (SignalingLayer.relying_key (signaling (world told))
    = Some (SignalingLayer.prop_encryption_key model_client)) as Ek by (vm_compute; reflexivity).
  split; [exact Eh|]. split; [exact Er|].
  destruct (peer_inputs_authentic model_host true 0 told told_reachable) as [Hh Hr]. split.
  - destruct (Hh Null) as (k & id & raw & Hk & Hin & Ho); [left; rewrite Eh; apply list_elem_of_here|].
    rewrite Ek in Hk. injection Hk as Hk. rewrite <- Hk in Ho. exists id, raw. split; [exact Hin|exact Ho].
  - destruct (Hr (Ack "id")) as (k & Hk & _); [rewrite Er; apply list_elem_of_here|]. exists k. exact Hk.
Defined.

Lemma closing_is_final_witness :
  length (Transport.event_tx (transport (world told_after))) = 3 /\
  started (world told_after) = started (world told_closed).
Proof.
  split; [vm_compute; reflexivity|].
  destruct (closing_is_final model_host true 0 told_closed told_after) as (_ & Hs & _).
  - exact told_closed_reachable.
  - exact told_after_reachable.
  - vm_compute. reflexivity.
  - exact Hs.
Defined.
