(* ===== verification/Setup.v ===== *)
(** * Creating and joining a session ([session/mod.rs], [signaling/mod.rs], [url/mod.rs])

    The configuration builders, [create_session] and [connect_session], the
    channel that a URL asks for, and what a session starts with. *)
From S2P Require Import Prelude RustStr Errors Json Regex CryptoLib CryptoModel Encryption Message TextModel.
From S2P Require Import SessionUri Ntfy Tasks SessionMessage.
From S2P Require Import SignalingLayer SignalingSafety SignalingRun Handshake.
From S2P Require Control Transport Session SessionSafety.
Local Open Scope string_scope.

(** ** URLs of any version ([url/mod.rs]) *)

Inductive SessionUri : Type := Version1 (v : Version1SessionUri).

Section setup.
Context `{CryptoLib} `{RegexLib} `{UnicodeLib} `{FormLib} `{Transport.WebRtcLib}.

(** [SessionUri::new] *)
Definition uri_new (session_id key_hash : string) (shared_key : HandshakeKey)
    (signaling_protocol : SignalingProtocol) (signaling_server : string) : SessionUri :=
  Version1 (mkVersion1SessionUri session_id key_hash shared_key signaling_protocol signaling_server).

(** [SessionUri::to_connection_url] *)
Definition to_connection_url (self : SessionUri) : string :=
  match self with Version1 version1 => to_url version1 end.

(** [SessionUri::from_url] *)
Definition uri_from_url (url : string) : Result SessionUri :=
  v1 ← from_url url; Ok (Version1 v1).

(** ** Channels ([signaling/mod.rs]) *)

(** The channel before its setup: where it will publish and subscribe. *)
Inductive SignalingChannel : Type :=
| MqttChannel (server topic : string)
| NtfyChannel (topic : string) (connection_info : NtfyConnectionInfo).

(** [create_signaling_channel], with [MqttChannel::new] and [NtfyChannel::new] *)
Definition create_signaling_channel (protocol : SignalingProtocol) (topic server : string)
    : Result SignalingChannel :=
  match protocol with
  | Mqtt => Ok (MqttChannel server topic)
  | Ntfy => info ← parse_ntfy_url server; Ok (NtfyChannel topic info)
  | Unsupported value => Err (UnsupportedProtocol value)
  end.

(** [signaling_layer_from_version1]: the layer's channel and its properties. *)
Definition signaling_layer_from_version1 (version1 : Version1SessionUri) (key_pair : KeyPair)
    (is_host : bool) (capabilities : PeerCapabilities)
    : Result (SignalingChannel * SignalingProperties) :=
  channel ← create_signaling_channel (signaling_protocol version1) (session_id version1)
              (signaling_server version1);
  Ok (channel, mkSignalingProperties is_host (key_hash version1) (Some (shared_key version1))
                 (encryption_key key_pair) (decryption_key key_pair) capabilities).

(** ** Sessions ([session/mod.rs]) *)

(** A session that has not connected yet: what [SessionInner] keeps for good, and its
    state. *)
Record NewSession : Type := mkNewSession {
  uri : SessionUri;
  session_is_host : bool;
  channel : SignalingChannel;
  properties : SignalingProperties;
  session_decryption_key : DecryptionKey;
  inner : Session.SessionInner;
}.

(** [build_session] *)
Definition build_session (uri : SessionUri) (is_host : bool)
    (signaling : SignalingChannel * SignalingProperties) (decryption_key : DecryptionKey)
    : NewSession :=
  mkNewSession uri is_host signaling.1 signaling.2 decryption_key
    (Session.mkSessionInner Session.Created None false [] [] [] new_inner Transport.new_transport
       Control.new_control false None [] []).

Record SessionInitParameters : Type := mkSessionInitParameters {
  init_session_id : option string;
  init_h : option string;
  init_k : option HandshakeKey;
  init_p : option string;
  init_s : option string;
  init_info : option PeerInfo;
}.

(** The random bytes that a new session draws. *)
Record Randomness : Type := mkRandomness {
  random_session_id : bytes;
  random_secret : bytes;
  random_handshake_key : bytes;
}.

Definition own_capabilities (info : option PeerInfo) : PeerCapabilities :=
  mkPeerCapabilities ["wrtc"] info.

Definition create_session (init : SessionInitParameters) (random : Randomness)
    : Result NewSession :=
  session_id ← match init_session_id init with
               | Some id => Ok id
               | None => generate_session_id (random_session_id random)
               end;
  key_pair ← key_pair_generate (random_secret random);
  handshake_key ← match init_k init with
                  | Some key => Ok key
                  | None => handshake_generate (random_handshake_key random)
                  end;
  hash ← init_hash (init_h init) (encryption_key key_pair);
  let protocol := protocol_from (default "ntfy" (init_p init)) in
  let server := default "https://ntfy.sh/" (init_s init) in
  channel ← create_signaling_channel protocol session_id server;
  let properties := mkSignalingProperties (init_is_host hash) (Encryption.hash hash)
                      (Some handshake_key) (encryption_key key_pair) (decryption_key key_pair)
                      (own_capabilities (init_info init)) in
  let uri := uri_new session_id (hash_public_key (encryption_key key_pair)) handshake_key
               protocol server in
  Ok (build_session uri true (channel, properties) (decryption_key key_pair)).

Definition connect_session_with_info (connection_url : string) (info : option PeerInfo)
    (random : Randomness) : Result NewSession :=
  uri ← uri_from_url connection_url;
  let 'Version1 version1 := uri in
  key_pair ← key_pair_generate (random_secret random);
  hash ← init_hash (Some (key_hash version1)) (encryption_key key_pair);
  signaling ← signaling_layer_from_version1 version1 key_pair (init_is_host hash)
                (own_capabilities info);
  Ok (build_session uri (init_is_host hash) signaling (decryption_key key_pair)).

Definition connect_session (connection_url : string) (random : Randomness) : Result NewSession :=
  connect_session_with_info connection_url None random.

(** *** The configuration *)

Record SessionConfig : Type := mkSessionConfig {
  connect_url : option string;
  config_session_id : option string;
  config_protocol : option SignalingProtocol;
  config_server : option string;
  config_handshake_key : option HandshakeKey;
  config_info : option PeerInfo;
}.

Definition dapp : SessionConfig := mkSessionConfig None None None None None None.

(** The methods of the builder; [protocol] takes what converts into a protocol. *)
Definition set_session_id (id : string) (c : SessionConfig) : SessionConfig :=
  mkSessionConfig (connect_url c) (Some id) (config_protocol c) (config_server c)
    (config_handshake_key c) (config_info c).
Definition set_protocol (p : SignalingProtocol) (c : SessionConfig) : SessionConfig :=
  mkSessionConfig (connect_url c) (config_session_id c) (Some p) (config_server c)
    (config_handshake_key c) (config_info c).
Definition set_server (s : string) (c : SessionConfig) : SessionConfig :=
  mkSessionConfig (connect_url c) (config_session_id c) (config_protocol c) (Some s)
    (config_handshake_key c) (config_info c).
Definition set_handshake_key (k : HandshakeKey) (c : SessionConfig) : SessionConfig :=
  mkSessionConfig (connect_url c) (config_session_id c) (config_protocol c) (config_server c)
    (Some k) (config_info c).
Definition set_info (i : PeerInfo) (c : SessionConfig) : SessionConfig :=
  mkSessionConfig (connect_url c) (config_session_id c) (config_protocol c) (config_server c)
    (config_handshake_key c) (Some i).
Definition set_connect_url (url : string) (c : SessionConfig) : SessionConfig :=
  mkSessionConfig (Some url) (config_session_id c) (config_protocol c) (config_server c)
    (config_handshake_key c) (config_info c).

Definition wallet (url : string) : SessionConfig := set_connect_url url dapp.

(** [SessionConfig::on_request] *)
Definition on_request (self : SessionConfig) (random : Randomness) : Result NewSession :=
  _ ← match config_info self with
      | Some info => map_err Errors.Session (peer_info_validate info)
      | None => Ok tt
      end;
  match connect_url self with
  | Some url => connect_session_with_info url (config_info self) random
  | None =>
      let protocol := default "ntfy" (protocol_to_string <$> config_protocol self) in
      let server := default "https://ntfy.sh/" (config_server self) in
      create_session (mkSessionInitParameters (config_session_id self) None
        (config_handshake_key self) (Some protocol) (Some server) (config_info self)) random
  end.

End setup.

(** ** Lemmas *)

Section setup_lemmas.
Context `{CryptoLaws} `{RegexLib} `{UnicodeLib} `{FormLib} `{Transport.WebRtcLib}.

Lemma key_pair_generate_ok secret :
  length secret = 32 ->
  exists kp, key_pair_generate secret = Ok kp /\ key_pair_wf kp /\ secret_key (decryption_key kp) = secret.
Proof. intros Hs. eexists. split; [done|]. by split. Qed.

Lemma handshake_generate_ok random :
  length random = 16 -> exists k, handshake_generate random = Ok k /\ handshake_key_wf k.
Proof.
  intros Hr. unfold handshake_generate.
  destruct (from_hex_ok (hex_encode random)) as (c & _ & _ & Hk).
  - by rewrite hex_encode_length, Hr.
  - eapply str_forall_impl; [apply lower_hexdigit_hexdigit|apply hex_encode_hex].
  - eexists. split; [exact Hk|]. by eapply from_hex_wf.
Qed.

(** What the caller of [dapp] may give. *)
Record config_wf (c : SessionConfig) (random : Randomness) : Prop := {
  wf_id : forall id, config_session_id c = Some id -> session_id_wf id;
  wf_key : forall k, config_handshake_key c = Some k -> handshake_key_wf k;
  wf_server : forall s, config_server c = Some s -> utf8_valid (as_bytes s) = true;
  wf_random : length (random_session_id random) = 16 /\ length (random_secret random) = 32 /\
              length (random_handshake_key random) = 16;
}.

(** What a host session consists of. *)
Record host_parts (c : SessionConfig) (random : Randomness) (s : NewSession) : Prop := {
  host_uri : exists v, uri s = Version1 v /\ uri_wf v /\
    key_hash v = hash_public_key (prop_encryption_key (properties s)) /\
    handshake_key (properties s) = Some (shared_key v) /\
    create_signaling_channel (signaling_protocol v) (session_id v) (signaling_server v)
      = Ok (channel s);
  host_role : session_is_host s = true /\ is_host (properties s) = true;
  host_keys : key_pair_wf (mkKeyPair (prop_encryption_key (properties s))
                             (prop_decryption_key (properties s)));
  host_secret : secret_key (prop_decryption_key (properties s)) = random_secret random;
  host_capabilities : capabilities (properties s) = own_capabilities (config_info c);
  host_info : match config_info c with Some i => peer_info_validate i = Ok tt | None => True end;
  host_inner : inner s = SessionSafety.new_session;
}.

Lemma session_id_ok c random :
  config_wf c random ->
  exists id, match config_session_id c with
             | Some id => Ok id
             | None => generate_session_id (random_session_id random)
             end = Ok id /\ session_id_wf id.
Proof.
  intros Hc. destruct (config_session_id c) as [id|] eqn:E.
  - exists id. split; [done|]. by apply (wf_id _ _ Hc).
  - apply generated_session_id, Hc.
Qed.

Lemma handshake_key_ok c random :
  config_wf c random ->
  exists k, match config_handshake_key c with
            | Some k => Ok k
            | None => handshake_generate (random_handshake_key random)
            end = Ok k /\ handshake_key_wf k.
Proof.
  intros Hc. destruct (config_handshake_key c) as [k|] eqn:E.
  - exists k. split; [done|]. by apply (wf_key _ _ Hc).
  - apply handshake_generate_ok, Hc.
Qed.

(** A channel exists only for the protocols that the program knows. *)
Lemma channel_protocol_wf p topic server ch :
  create_signaling_channel p topic server = Ok ch -> protocol_wf p.
Proof. by destruct p. Qed.

Lemma server_utf8 c random :
  config_wf c random ->
  utf8_valid (as_bytes (default "https://ntfy.sh/" (config_server c))) = true.
Proof.
  intros Hc. destruct (config_server c) as [s|] eqn:E; [|done]. by apply (wf_server _ _ Hc).
Qed.

Lemma info_validated c :
  (match config_info c with
   | Some info => map_err Errors.Session (peer_info_validate info)
   | None => Ok tt
   end : Result unit) = Ok tt ->
  match config_info c with Some i => peer_info_validate i = Ok tt | None => True end.
Proof. destruct (config_info c) as [i|]; [|done]. by destruct (peer_info_validate i) as [[]| |]. Qed.

Lemma host_session_parts c random s :
  connect_url c = None -> config_wf c random -> on_request c random = Ok s -> host_parts c random s.
Proof.
  intros Hu Hc Hs. unfold on_request in Hs. apply bind_Ok in Hs as ([] & Hi & Hs).
  apply info_validated in Hi. rewrite Hu in Hs.
  unfold create_session in Hs. cbn [init_session_id init_h init_k init_p init_s init_info default] in Hs.
  destruct (session_id_ok c random Hc) as (id & Hid & Hidwf). rewrite Hid in Hs.
  destruct (key_pair_generate_ok (random_secret random)) as (kp & Hkp & Hkpwf & Hsec); [apply Hc|].
  destruct (handshake_key_ok c random Hc) as (k & Hk & Hkwf).
  cbn [mbind res_bind] in Hs. rewrite Hkp in Hs. cbn [mbind res_bind] in Hs. rewrite Hk in Hs.
  cbn [mbind res_bind] in Hs. unfold init_hash in Hs. cbn [default mbind res_bind] in Hs.
  apply bind_Ok in Hs as (ch & Hch & Hs). injection Hs as <-.
  destruct (hash_public_key_hex (encryption_key kp)) as [Hh1 Hh2].
  split; cbn; try done.
  - eexists. split; [reflexivity|]. split_and!; try done. cbn. unfold uri_wf.
    split_and!; try done; [by eapply channel_protocol_wf|]. by eapply server_utf8.
  - split; [done|]. apply String.eqb_refl.
Qed.

Lemma own_capabilities_valid info :
  match info with Some i => peer_info_validate i = Ok tt | None => True end ->
  capabilities_validate (own_capabilities info) = Ok tt.
Proof. by destruct info. Qed.

Lemma parse_ntfy_url_no_panic url : parse_ntfy_url url <> Panic.
Proof.
  unfold parse_ntfy_url. destruct (regex_captures _ _) as [c|]; [|done]. cbn [ok_or mbind res_bind].
  destruct (group "protocol" c) as [p|]; [|done]. cbn [ok_or mbind res_bind].
  destruct (protocols p); [|done]. cbn [ok_or mbind res_bind]. by destruct (group "host" c).
Qed.

Lemma create_signaling_channel_no_panic p topic server :
  create_signaling_channel p topic server <> Panic.
Proof.
  destruct p; cbn; [done| |done].
  destruct (parse_ntfy_url server) eqn:E; cbn; [done..|]. by apply parse_ntfy_url_no_panic in E.
Qed.

Lemma connect_no_panic url info random : connect_session_with_info url info random <> Panic.
Proof.
  unfold connect_session_with_info, uri_from_url. destruct (from_url url) as [v|e|] eqn:E; [|done|].
  - cbn [mbind res_bind]. unfold key_pair_generate, init_hash, signaling_layer_from_version1.
    cbn [mbind res_bind]. destruct (create_signaling_channel _ _ _) eqn:Hch; [done..|].
    by apply create_signaling_channel_no_panic in Hch.
  - by apply from_url_no_panic in E.
Qed.

Lemma create_no_panic c random p s info :
  config_wf c random ->
  create_session (mkSessionInitParameters (config_session_id c) None (config_handshake_key c)
    (Some p) (Some s) info) random <> Panic.
Proof.
  intros Hc. unfold create_session. cbn [init_session_id init_h init_k init_p init_s init_info default].
  destruct (session_id_ok c random Hc) as (id & -> & _). cbn [mbind res_bind].
  unfold key_pair_generate. cbn [mbind res_bind].
  destruct (handshake_key_ok c random Hc) as (k & -> & _). unfold init_hash. cbn [mbind res_bind].
  destruct (create_signaling_channel _ _ _) eqn:Hch; [done..|].
  by apply create_signaling_channel_no_panic in Hch.
Qed.

Lemma on_request_no_panic c random : config_wf c random -> on_request c random <> Panic.
Proof.
  intros Hc. unfold on_request.
  destruct (config_info c) as [i|]; [destruct (peer_info_validate i) as [[]|r|] eqn:Hv|];
    cbn [mbind res_bind map_err]; try done; [|by apply peer_info_validate_no_panic in Hv|];
    (destruct (connect_url c) as [url|]; [apply connect_no_panic|apply create_no_panic, Hc]).
Qed.

(** A client that is given a host's URL joins its channel. *)
Lemma client_session_joins config random kp v ch :
  connect_url config = Some (to_url v) -> uri_wf v ->
  (forall i, config_info config = Some i -> peer_info_validate i = Ok tt) ->
  key_pair_generate (random_secret random) = Ok kp ->
  hash_public_key (encryption_key kp) <> key_hash v ->
  create_signaling_channel (signaling_protocol v) (session_id v) (signaling_server v) = Ok ch ->
  exists s, on_request config random = Ok s /\ uri s = Version1 v /\ channel s = ch /\
    session_is_host s = false /\ inner s = SessionSafety.new_session /\
    properties s = mkSignalingProperties false (key_hash v) (Some (shared_key v)) (encryption_key kp)
      (decryption_key kp) (own_capabilities (config_info config)).
Proof.
  intros Hcu Hwf Hinfo Hkp Hne Hch. unfold on_request. rewrite Hcu.
  assert ((match config_info config with
           | Some info => map_err Errors.Session (peer_info_validate info)
           | None => Ok tt
           end : Result unit) = Ok tt) as ->
    by (destruct (config_info config); [by rewrite Hinfo|done]).
  cbn [mbind res_bind]. unfold connect_session_with_info, uri_from_url.
  rewrite from_url_to_url by done. cbn [mbind res_bind]. rewrite Hkp. cbn [mbind res_bind].
  unfold init_hash. cbn [default from_option id mbind res_bind Encryption.hash init_is_host].
  unfold signaling_layer_from_version1. rewrite Hch. cbn [mbind res_bind].
  assert (String.eqb (key_hash v) (hash_public_key (encryption_key kp)) = false) as ->
    by (apply String.eqb_neq; congruence).
  eexists. split; [reflexivity|]. by split_and!.
Qed.

End setup_lemmas.

(** A host session and what its URL gives a client are an honest pair, on one channel. *)
Lemma created_honest_pair
    `{CryptoLaws, SignalingCodecLaws, RegexLib, UnicodeLib, FormLib, Transport.WebRtcLib}
    clock_ok config random host_session client_config client_random kp :
  connect_url config = None -> config_wf config random ->
  on_request config random = Ok host_session ->
  connect_url client_config = Some (to_connection_url (uri host_session)) ->
  (forall i, config_info client_config = Some i -> peer_info_validate i = Ok tt) ->
  length (random_secret client_random) = 32 ->
  key_pair_generate (random_secret client_random) = Ok kp ->
  hash_public_key (encryption_key kp)
    <> hash_public_key (prop_encryption_key (properties host_session)) ->
  was_contributory (x25519_diffie_hellman (random_secret random)
    (dk_public_key (decryption_key kp))) = true ->
  was_contributory (x25519_diffie_hellman (random_secret client_random)
    (dk_public_key (prop_decryption_key (properties host_session)))) = true ->
  (forall self m,
     capabilities self = own_capabilities (config_info config) \/
     capabilities self = own_capabilities (config_info client_config) ->
     prop_encryption_key self = encryption_key kp \/
     prop_encryption_key self = prop_encryption_key (properties host_session) ->
     handshake_message clock_ok self m -> encryptable m) ->
  exists client_session,
    on_request client_config client_random = Ok client_session /\
    uri client_session = uri host_session /\ channel client_session = channel host_session /\
    session_is_host host_session = true /\ session_is_host client_session = false /\
    inner host_session = SessionSafety.new_session /\ inner client_session = SessionSafety.new_session /\
    capabilities (properties host_session) = own_capabilities (config_info config) /\
    capabilities (properties client_session) = own_capabilities (config_info client_config) /\
    honest_pair clock_ok (properties host_session) (properties client_session).
Proof.
  intros Hu Hc Hs Hcu Hinfo Hl Hkp Hne Hcon1 Hcon2 Hsize.
  destruct (host_session_parts _ _ _ Hu Hc Hs)
    as [(v & Huri & Hwf & Hkh & Hhk & Hch) [Hr1 Hr2] Hkeys Hsec Hcap Hi Hin].
  destruct (key_pair_generate_ok _ Hl) as (kp' & Hkp' & Hkpwf & Hsec').
  rewrite Hkp in Hkp'. injection Hkp' as <-.
  destruct (client_session_joins client_config client_random kp v (channel host_session))
    as (cs & Hcs & Hcuri & Hcch & Hcr & Hcin & Hcp); try done.
  { by rewrite Hcu, Huri. }
  { by rewrite Hkh. }
  rewrite <- Huri in Hcuri. exists cs. split_and!; try done; rewrite Hcp; [done|].
  split; cbn; try done; cycle 2.
  { intros self m [->| ->]; apply Hsize; cbn; auto. }
  - split; cbn; [done| |rewrite Hcap; by apply own_capabilities_valid|by rewrite Hsec].
    exists (shared_key v). split; [done|apply Hwf].
  - split; cbn; [by destruct kp| | |by rewrite Hsec'].
    + exists (shared_key v). split; [done|apply Hwf].
    + apply own_capabilities_valid. destruct (config_info client_config); auto.
Qed.

(** ** Properties *)

(** A session that a dApp creates can be joined: the connection URL of a host session
    parses, and gives a client, with the same channel, that completes the handshake
    with the host when the channel delivers the frames; both end [Encrypted], with
    each other's keys, and agree on the transport. This holds for every
    configuration whose session identifier and handshake key are well formed, and
    all random bytes that give two different key hashes and contributory keys. *)
Theorem created_session_connects
    `{CryptoLaws, SignalingCodecLaws, RegexLib, UnicodeLib, FormLib, Transport.WebRtcLib}
    clock_ok config random host_session client_config client_random kp host_inputs client_inputs :
  connect_url config = None -> config_wf config random ->
  on_request config random = Ok host_session ->
  connect_url client_config = Some (to_connection_url (uri host_session)) ->
  (forall i, config_info client_config = Some i -> peer_info_validate i = Ok tt) ->
  length (random_secret client_random) = 32 ->
  key_pair_generate (random_secret client_random) = Ok kp ->
  hash_public_key (encryption_key kp)
    <> hash_public_key (prop_encryption_key (properties host_session)) ->
  was_contributory (x25519_diffie_hellman (random_secret random)
    (dk_public_key (decryption_key kp))) = true ->
  was_contributory (x25519_diffie_hellman (random_secret client_random)
    (dk_public_key (prop_decryption_key (properties host_session)))) = true ->
  (forall self m,
     capabilities self = own_capabilities (config_info config) \/
     capabilities self = own_capabilities (config_info client_config) ->
     prop_encryption_key self = encryption_key kp \/
     prop_encryption_key self = prop_encryption_key (properties host_session) ->
     handshake_message clock_ok self m -> encryptable m) ->
  inputs_ok clock_ok host_inputs -> inputs_ok clock_ok client_inputs ->
  exists client_session hw cw,
    on_request client_config client_random = Ok client_session /\
    uri client_session = uri host_session /\ channel client_session = channel host_session /\
    session_is_host host_session = true /\ session_is_host client_session = false /\
    handshake (properties host_session) (properties client_session) host_inputs client_inputs
      = Some (hw, cw) /\
    state hw = Encrypted /\ state cw = Encrypted /\
    relying_key hw = Some (prop_encryption_key (properties client_session)) /\
    relying_key cw = Some (prop_encryption_key (properties host_session)) /\
    (c ← peer_capabilities hw; Session.select_transport_id true ["wrtc"] (transports c)) = Some "wrtc" /\
    (c ← peer_capabilities cw; Session.select_transport_id false ["wrtc"] (transports c)) = Some "wrtc".
Proof.
  intros Hu Hc Hs Hcu Hinfo Hl Hkp Hne Hcon1 Hcon2 Hsize Hih Hic.
  destruct (created_honest_pair clock_ok config random host_session client_config client_random kp)
    as (cs & Hcs & Hcuri & Hcch & Hhr & Hcr & _ & _ & Hhcap & Hccap & Hp); try done.
  destruct (honest_handshake clock_ok _ _ _ _ Hp Hih Hic)
    as (hw & cw & Hh & Hhs & Hcst & Hhk' & Hck & Hhc & Hcc & _).
  exists cs, hw, cw. split_and!; try done.
  - by rewrite Hhc, Hccap.
  - by rewrite Hcc, Hhcap.
Qed.

(** The builders report a bad configuration instead of panicking: [on_request] never
    panics; it fails on an invalid peer info with that reason, and a host fails
    otherwise exactly when its channel cannot be made, with the channel's error. *)
Theorem on_request_errors
    `{CryptoLaws, RegexLib, UnicodeLib, FormLib, Transport.WebRtcLib} config random :
  config_wf config random ->
  on_request config random <> Panic /\
  (forall i reason, config_info config = Some i -> peer_info_validate i = Err reason ->
     on_request config random = Err (Errors.Session reason)) /\
  (forall e, connect_url config = None ->
     (forall i, config_info config = Some i -> peer_info_validate i = Ok tt) ->
     (on_request config random = Err e <->
      exists id, match config_session_id config with
                 | Some id => Ok id
                 | None => generate_session_id (random_session_id random)
                 end = Ok id /\
        create_signaling_channel
          (protocol_from (default "ntfy" (protocol_to_string <$> config_protocol config))) id
          (default "https://ntfy.sh/" (config_server config)) = Err e)).
Proof.
  intros Hc. split_and!.
  - apply on_request_no_panic, Hc.
  - intros i reason Hi Hv. unfold on_request. by rewrite Hi, Hv.
  - intros e Hu Hv. unfold on_request. rewrite Hu.
    assert ((match config_info config with
             | Some info => map_err Errors.Session (peer_info_validate info)
             | None => Ok tt
             end : Result unit) = Ok tt) as ->
      by (destruct (config_info config); [by rewrite Hv|done]).
    cbn [mbind res_bind]. unfold create_session.
    cbn [init_session_id init_h init_k init_p init_s init_info default].
    destruct (session_id_ok config random Hc) as (id & Hid & _). rewrite Hid. cbn [mbind res_bind].
    destruct (key_pair_generate_ok (random_secret random)) as (kp & Hkp & _); [apply Hc|].
    rewrite Hkp. cbn [mbind res_bind].
    destruct (handshake_key_ok config random Hc) as (k & Hk & _). rewrite Hk. cbn [mbind res_bind].
    unfold init_hash. cbn [mbind res_bind]. destruct (create_signaling_channel _ id _) as [ch|e'|] eqn:E.
    + split; [done|]. intros (id' & [= <-] & Hch). discriminate (eq_trans (eq_sym E) Hch).
    + split; [by intros [= <-]; eauto|]. intros (id' & [= <-] & Hch).
      injection (eq_trans (eq_sym E) Hch) as ->. done.
    + split; [done|]. intros (id' & [= <-] & Hch). discriminate (eq_trans (eq_sym E) Hch).
Qed.

(** ** Witnesses *)

Import CryptoModel TextModel UriModel.
#[export] Existing Instance Transport.TransportModel.webrtc_lib.

Definition witness_config : SessionConfig :=
  set_server "mqtt" (set_protocol Mqtt dapp).
Definition witness_random (secret : bytes) : Randomness :=
  mkRandomness (replicate 16 Byte.x00) secret (replicate 16 Byte.x00).

Lemma witness_config_wf : config_wf witness_config (witness_random witness_alice).
Proof. split; cbn; try done. by intros s [= <-]. Qed.

Lemma witness_sizes self m :
  capabilities self = own_capabilities None ->
  prop_encryption_key self = witness_encryption_key witness_bob \/
  prop_encryption_key self = witness_encryption_key witness_alice ->
  handshake_message model_clock self m -> encryptable m.
Proof.
  intros Hc Hk Hm. split.
  - destruct m as [v t|pk t|c t|v t]; [destruct Hm as [-> _]; vm_compute|..|destruct Hm]; reflexivity.
  - intros text [= <-].
    destruct m as [v t|[pk] t|c t|v t]; [| | |destruct Hm]; destruct Hm as [Hv Ht];
      cbn [pk_public_key] in Hv; [|destruct Hk as [Hk|Hk]; rewrite Hk in Hv|rewrite Hc in Hv];
      rewrite Hv, Ht; clear Hv Ht; vm_compute; discriminate.
Qed.

Lemma created_session_connects_witness :
  exists host_session client_session hw cw,
    on_request witness_config (witness_random witness_alice) = Ok host_session /\
    on_request (wallet (to_connection_url (uri host_session))) (witness_random witness_bob)
      = Ok client_session /\
    handshake (properties host_session) (properties client_session) model_inputs model_inputs
      = Some (hw, cw) /\ state hw = Encrypted /\ state cw = Encrypted.
Proof.
  assert (exists s, on_request witness_config (witness_random witness_alice) = Ok s /\
    prop_encryption_key (properties s) = witness_encryption_key witness_alice /\
    prop_decryption_key (properties s) = witness_decryption_key witness_alice)
    as (s & Hs & Hek & Hdk) by (eexists; split; [reflexivity|split; reflexivity]).
  destruct (created_session_connects model_clock witness_config (witness_random witness_alice) s
    (wallet (to_connection_url (uri s))) (witness_random witness_bob)
    (mkKeyPair (witness_encryption_key witness_bob) (witness_decryption_key witness_bob))
    model_inputs model_inputs) as (cs & hw & cw & Hcs & _ & _ & _ & _ & Hh & Hst1 & Hst2 & _).
  - reflexivity.
  - exact witness_config_wf.
  - exact Hs.
  - reflexivity.
  - discriminate.
  - reflexivity.
  - reflexivity.
  - rewrite Hek. vm_compute. discriminate.
  - vm_compute. reflexivity.
  - rewrite Hdk. vm_compute. reflexivity.
  - intros self m Hc Hk. apply witness_sizes; [by destruct Hc|]. rewrite Hek in Hk. exact Hk.
  - exact model_inputs_ok.
  - exact model_inputs_ok.
  - exists s, cs, hw, cw. auto.
Defined.

Lemma on_request_errors_witness :
  on_request (set_protocol (Unsupported "smoke") dapp)
    (witness_random witness_alice) = Err (UnsupportedProtocol "smoke").
Proof.
  assert (config_wf (set_protocol (Unsupported "smoke") dapp)
    (witness_random witness_alice)) as Hc by (split; cbn; try done).
  destruct (on_request_errors _ _ Hc) as (_ & _ & He).
  apply (He (UnsupportedProtocol "smoke")); [reflexivity|discriminate|].
  eexists. split; reflexivity.
Defined.
