(* ===== verification/JsonRpc.v ===== *)
(** * JSON-RPC over a session ([provider/jsonrpc/mod.rs])

    [exchange] sends a JSON-RPC request over a session, and [settle] checks that what
    comes back answers it. *)
From S2P Require Import Prelude RustStr Errors Json CryptoLib Message Tasks SessionMessage Response.
From S2P Require Transport Session SignalingLayer SignalingSafety.
From S2P Require Import CryptoModel TextModel SessionSpec.
Local Open Scope string_scope.
Local Open Scope list_scope.

(** A double quote. *)
Definition quote : string := String (ascii_of_nat 34) "".

Definition INTERNAL_ERROR_CODE : Z := -32603.

Inductive ExchangeError : Type :=
| SessionError (e : OpenLvError)
| InvalidResponse (reason : string).

(** [json!({...})] for a request that the wallet failed to handle. *)
Definition internal_error (id : Value) : Value :=
  object [("jsonrpc", Str "2.0"); ("id", id);
          ("error", object [("code", Num (NegInt INTERNAL_ERROR_CODE));
                            ("message", Str "Internal error")])].

(** [settle] *)
Definition settle (id : Value) (outcome : Result Value) : Res ExchangeError Value :=
  match outcome with
  | Ok response =>
      if negb (value_eq_str (value_index "jsonrpc" response) "2.0")
      then Err (InvalidResponse ("`jsonrpc` is missing or not " ++ quote ++ "2.0" ++ quote)%string)
      else if negb (match value_get "id" response with Some i => value_eqb i id | None => false end)
      then Err (InvalidResponse "`id` is missing or differs from the request")
      else Ok response
  | Err RequestFailed => Ok (internal_error id)
  | Err error => Err (SessionError error)
  | Panic => Panic
  end.

Section exchange.
Context `{CryptoLib} `{SignalingCodec} `{SessionCodec} `{Transport.WebRtcLib}.
Context (properties : SignalingLayer.SignalingProperties) (instant_max : Z).

(** [exchange], with [Session::send] *)
Definition exchange (request : Value)
    : prog Session.SessionInner Session.SInput (Res ExchangeError Value) :=
  let id := value_index "id" request in
  outcome ← attempt (Session.send properties instant_max request);
  mret (settle id outcome).

End exchange.

(** ** Properties *)

(** The response answers the request with this id. *)
Definition answers (id response : Value) : Prop :=
  value_eq_str (value_index "jsonrpc" response) "2.0" = true /\
  exists i, value_get "id" response = Some i /\ value_eqb i id = true.

Lemma internal_error_answers id : answers id (internal_error id).
Proof. split; [done|]. exists id. split; [done|]. apply value_eqb_refl. Qed.

(** C39. A value that [exchange] returns answers the request: for every session, every
    request, and whatever the peer does, an [Ok] is a JSON-RPC 2.0 response with the
    request's id ([null] when it has none); a failure of the wallet's handler comes
    back as such a response with the code of an internal error, and a panic of the
    session is not turned into an answer. *)
Theorem exchange_answers_request
    `{CryptoLib, SignalingCodec, SessionCodec, Transport.WebRtcLib}
    properties instant_max inputs n request w r n' w' :
  run inputs n (exchange properties instant_max request) w = (r, n', w') ->
  exists outcome, run inputs n (Session.send properties instant_max request) w = (outcome, n', w') /\
    match outcome with
    | Panic => r = Panic
    | Err RequestFailed => r = Ok (Ok (internal_error (value_index "id" request))) /\
        answers (value_index "id" request) (internal_error (value_index "id" request))
    | Err e => r = Ok (Err (SessionError e))
    | Ok response =>
        (answers (value_index "id" request) response /\ r = Ok (Ok response)) \/
        (~ answers (value_index "id" request) response /\
         exists reason, r = Ok (Err (InvalidResponse reason)))
    end.
Proof.
  unfold exchange. rewrite run_bind, run_attempt.
  destruct (run inputs n (Session.send properties instant_max request) w) as [[o n1] w1].
  intros Hr. exists o. assert ((n1, w1) = (n', w')) as [= -> ->]
    by (destruct o; cbn in Hr; by simplify_eq).
  split; [done|]. destruct o as [v|e|]; cbn [run mret prog_mret] in Hr.
  - injection Hr as <-. unfold settle, answers.
    destruct (value_eq_str _ "2.0"); cbn [negb]; [|right; split; [by intros [? _]|eauto]].
    destruct (value_get "id" v) as [i|]; cbn [negb];
      [|right; split; [by intros [_ (? & ? & _)]|eauto]].
    destruct (value_eqb i _) eqn:E; cbn [negb]; [left; eauto|].
    right. split; [|eauto]. intros [_ (i' & [= <-] & Hi)]. congruence.
  - injection Hr as <-. destruct e; try done. split; [done|]. apply internal_error_answers.
  - by injection Hr as <-.
Qed.

(** ** Witnesses *)

Import CryptoModel TextModel SignalingSafety.LayerModel SessionModel.

(** The peer acknowledges the request and fails it. *)
Definition failing_peer : Session.SInput :=
  Session.mkSInput model_input Transport.TransportModel.good "id" (Ok Null) true
    [mkTurn 1700000000001 (Received (Ack "id")) 1700000000001;
     mkTurn 1700000000002 (Received (Failed "id")) 1700000000002].

Definition encrypted_session : Session.SessionInner :=
  Session.with_signaling
    (SignalingLayer.with_state SignalingLayer.Encrypted (Session.signaling model_host_session))
    model_host_session.

Lemma exchange_answers_request_witness :
  exists r n' w',
    run (fun _ => failing_peer) 0 (exchange model_host (2 ^ 62) (Object [("id", Bool true)]))
      encrypted_session = (r, n', w') /\
    r = Ok (Ok (internal_error (Bool true))).
Proof.
  destruct (run (fun _ => failing_peer) 0 (exchange model_host (2 ^ 62) (Object [("id", Bool true)]))
    encrypted_session) as [[r n'] w'] eqn:E.
  exists r, n', w'. split; [reflexivity|].
  destruct (exchange_answers_request model_host (2 ^ 62) (fun _ => failing_peer) 0
    (Object [("id", Bool true)]) encrypted_session r n' w' E) as (outcome & Hs & Ho).
  assert (outcome = Err RequestFailed) as ->.
  { transitivity (run (fun _ => failing_peer) 0
      (Session.send model_host (2 ^ 62) (Object [("id", Bool true)])) encrypted_session).1.1;
      [by rewrite Hs|vm_compute; reflexivity]. }
  exact (proj1 Ho).
Defined.
