(* ===== verification/Wallet.v ===== *)
(** * The wallet example ([examples/client/main.rs])

    The request handler of the example wallet: a JSON-RPC server for three methods.
    The signer and the hexadecimal codec are third-party code. *)
From S2P Require Import Prelude RustStr Errors Json JsonRpc.
Local Open Scope string_scope.
Local Open Scope list_scope.

(** [PrivateKeySigner]: the text of its address, and [sign_message_sync]; and
    [alloy_primitives::hex::decode]. *)
Class SignerLib : Type := {
  address : string;
  sign_message_sync : bytes -> LibResult string;
  hex_decode : string -> LibResult bytes;
}.

(** [Value::as_array] *)
Definition as_array (v : Value) : option (list Value) := match v with Array l => Some l | _ => None end.

(** [str::strip_prefix] *)
Fixpoint strip_prefix (p s : string) : option string :=
  match p, s with
  | EmptyString, _ => Some s
  | String a p, String b s => if Ascii.eqb a b then strip_prefix p s else None
  | _, _ => None
  end.

#[global] Arguments strip_prefix : simpl never.

(** A JSON-RPC error object. *)
Definition error_object (code : Z) (message : string) : Value :=
  object [("code", Num (if (code <? 0)%Z then NegInt code else PosInt code)); ("message", Str message)].

Definition invalid_params (message : string) : Value := error_object (-32602) message.

Section wallet.
Context `{SignerLib}.

(** A result or an error object. *)
Abbreviation Outcome := (Value + Value)%type.

Definition personal_sign (request : Value) : Outcome :=
  match value_get "params" request ≫= as_array with
  | None => inr (invalid_params "personal_sign requires message and account parameters")
  | Some params =>
      match params with
      | [message; account] =>
          match as_str message, as_str account with
          | Some message, Some account =>
              if negb (String.eqb account address)
              then inr (error_object 4100 "Requested account is not available")
              else
                match hex_decode <$> strip_prefix "0x" message with
                | Some (inl message) =>
                    match sign_message_sync message with
                    | inl signature => inl (Str signature)
                    | inr _ => inr (error_object (-32603) "Internal error")
                    end
                | _ => inr (invalid_params "personal_sign message must be 0x-prefixed hex")
                end
          | _, _ => inr (invalid_params "personal_sign parameters must be strings")
          end
      | _ => inr (invalid_params "personal_sign requires exactly two parameters")
      end
  end.

(** The match on the method. *)
Definition dispatch (request : Value) : Outcome :=
  match value_get "method" request ≫= as_str with
  | Some method =>
      if String.eqb method "eth_accounts" then inl (Array [Str address])
      else if String.eqb method "eth_chainId" then inl (Str "0x1")
      else if String.eqb method "personal_sign" then personal_sign request
      else inr (error_object (-32601) ("Method " ++ method ++ " not found"))
  | None => inr (error_object (-32600) "Invalid request")
  end.

Definition handle_rpc_request (request : Value) : Value :=
  let id := value_index "id" request in
  match dispatch request with
  | inl result => object [("jsonrpc", Str "2.0"); ("id", id); ("result", result)]
  | inr error => object [("jsonrpc", Str "2.0"); ("id", id); ("error", error)]
  end.

(** The response answers the request, so the other end's [settle] accepts it. *)
Lemma handle_rpc_request_answers request :
  answers (value_index "id" request) (handle_rpc_request request).
Proof.
  unfold handle_rpc_request. destruct (dispatch request); (split; [done|]);
    exists (value_index "id" request); (split; [done|apply value_eqb_refl]).
Qed.

Lemma settle_answers id response : answers id response -> settle id (Ok response) = Ok response.
Proof. intros [Hj (i & Hi & He)]. unfold settle. by rewrite Hj, Hi, He. Qed.

Lemma strip_prefix_Some p s t : strip_prefix p s = Some t <-> s = (p ++ t)%string.
Proof.
  revert s. induction p as [|a p IH]; intros s; unfold strip_prefix; fold strip_prefix; [destruct s; (change ("" ++ t)%string with t; cbn; split; congruence)|].
  destruct s as [|b s]; [done|]. unfold strip_prefix. fold strip_prefix. destruct (Ascii.eqb_spec a b) as [->|Hne].
  - rewrite IH. by split; [intros ->|intros [= ->]].
  - split; [done|]. by intros [= -> _].
Qed.

End wallet.

Section lemmas.
Context `{SignerLib}.

(** A request is signed exactly when it asks for it as it should. *)
Lemma personal_sign_iff request result :
  personal_sign request = inl result <->
  exists text bytes signature,
    value_get "params" request = Some (Array [Str ("0x" ++ text); Str address]) /\
    hex_decode text = inl bytes /\ sign_message_sync bytes = inl signature /\ result = Str signature.
Proof.
  unfold personal_sign. split.
  - destruct (value_get "params" request) as [[| | | |params|]|]; cbn; try done.
    destruct params as [|[] [|[] [|]]]; cbn; try done.
    destruct (String.eqb_spec s0 address) as [->|]; cbn; [|done].
    destruct (strip_prefix "0x" s) as [text|] eqn:Hp; cbn; [|done].
    apply strip_prefix_Some in Hp as ->.
    destruct (hex_decode text) as [bytes|e] eqn:Hx; [|done].
    destruct (sign_message_sync bytes) as [signature|e] eqn:Hs; [|done].
    intros [= <-]. by exists text, bytes, signature.
  - intros (text & bytes & signature & -> & Hx & Hs & ->). cbn. rewrite String.eqb_refl. cbn.
    assert (strip_prefix "0x" ("0x" ++ text) = Some text) as -> by (by apply strip_prefix_Some).
    cbn. by rewrite Hx, Hs.
Qed.

End lemmas.

(** ** Properties *)

(** C35. The wallet answers every request and signs only what it should: for every JSON
    value, [handle_rpc_request] returns a JSON-RPC 2.0 response with the request's id,
    which holds either a result or an error object; and a [personal_sign] request gets
    a result exactly when its parameters are a 0x-prefixed hexadecimal text and the
    wallet's own address and the signer succeeds, and the result is then the
    signature of the decoded bytes. *)
Theorem wallet_responds `{SignerLib} request :
  let response := handle_rpc_request request in
  answers (value_index "id" request) response /\
  ((exists result, value_get "result" response = Some result /\ value_get "error" response = None) \/
   (exists code text, value_get "error" response = Some (error_object code text) /\
      value_get "result" response = None)) /\
  (value_get "method" request = Some (Str "personal_sign") -> forall result,
     value_get "result" response = Some result <->
     exists text bytes signature,
       value_get "params" request = Some (Array [Str ("0x" ++ text); Str address]) /\
       hex_decode text = inl bytes /\ sign_message_sync bytes = inl signature /\ result = Str signature).
Proof.
  cbn zeta. split_and!; [apply handle_rpc_request_answers|..].
  - unfold handle_rpc_request. destruct (dispatch request) as [result|error] eqn:Hd; [left; by exists result|right].
    assert (exists code text, error = error_object code text) as (code & text & ->); [|by exists code, text].
    revert Hd. unfold dispatch, personal_sign, invalid_params. repeat case_match; intros [= <-]; eauto.
  - intros Hm result. rewrite <- personal_sign_iff. unfold handle_rpc_request, dispatch. rewrite Hm.
    cbn [mbind option_bind as_str String.eqb Ascii.eqb Bool.eqb].
    destruct (personal_sign request) as [r|e].
    + change (Some r = Some result <-> inl r = inl result :> Value + Value). split; congruence.
    + change (None = Some result <-> inr e = inl result :> Value + Value). split; congruence.
Qed.

(** ** Witnesses *)

Module WalletModel.

#[export] Instance signer_lib : SignerLib := {|
  address := "0xf39F";
  sign_message_sync m := inl (string_of_list_byte m);
  hex_decode s := if String.eqb s "48" then inl [Byte.x48] else inr "odd length";
|}.

Definition sign_request : Value :=
  Object [("id", Num (PosInt 3)); ("jsonrpc", Str "2.0"); ("method", Str "personal_sign");
          ("params", Array [Str "0x48"; Str "0xf39F"])].

End WalletModel.

Import WalletModel.

Lemma wallet_responds_witness :
  value_get "result" (handle_rpc_request sign_request) = Some (Str "H").
Proof.
  destruct (wallet_responds sign_request) as (_ & _ & Hs). apply (Hs eq_refl).
  exists "48", [Byte.x48], "H". repeat split.
Defined.
