(* ===== verification/EndToEnd.v ===== *)
(** * A request from the dApp to the wallet and back

    The sessions of both sides together, with the wallet's handler and the dApp's
    JSON-RPC exchange: what one side sends through its data channel is given to the
    other side's transport loop. *)
From S2P Require Import Prelude RustStr Errors Json CryptoLib CryptoModel Encryption Message TextModel.
From S2P Require Import Tasks SessionMessage Response Session SessionSpec JsonRpc Wallet.
From S2P Require Control Transport SignalingLayer SignalingSafety.
Local Open Scope string_scope.
Local Open Scope list_scope.

Section end_to_end.
Context `{CryptoLaws} `{SignalingCodec} `{SessionCodecLaws} `{Transport.WebRtcLib}.

(** A session that is linked to the owner of [there]: it has the other's key, an
    encryption to that key works, and its data channel is open. *)
Record linked_to (here there : SignalingLayer.SignalingProperties) (w : SessionInner) : Prop := {
  lk_own : decryption_key_wf (SignalingLayer.prop_decryption_key here);
  lk_key : exists k, SignalingLayer.relying_key (signaling w) = Some k /\ encryption_key_wf k /\
    public_key k = dk_public_key (SignalingLayer.prop_decryption_key there) /\
    was_contributory (x25519_diffie_hellman
      (secret_key (SignalingLayer.prop_decryption_key here)) (public_key k)) = true;
  lk_connected : Transport.t_state (transport w) = Transport.Connected;
  lk_channel : is_Some (Transport.data_channel (transport w));
}.

(** Random nonces of the right size, and a transport library that accepts every call. *)
Definition good_inputs (inputs : nat -> SInput) : Prop :=
  forall i, length (SignalingLayer.in_random (s_signaling (inputs i))) = 12 /\
            Transport.t_io (s_transport (inputs i)) = inl tt.

(** The text of a message fits in one encryption. *)
Definition fits (m : SessionMessage) : Prop :=
  session_safe m = true /\ exists text, session_to_string m = inl text /\ (str_len text <= aes_gcm_max)%Z.

Lemma linked_to_ext here there w w' :
  SignalingLayer.relying_key (signaling w') = SignalingLayer.relying_key (signaling w) ->
  Transport.t_state (transport w') = Transport.t_state (transport w) ->
  Transport.data_channel (transport w') = Transport.data_channel (transport w) ->
  linked_to here there w -> linked_to here there w'.
Proof. intros E1 E2 E3 [A1 A2 A3 A4]. split; by rewrite ?E1, ?E2, ?E3. Qed.

(** A message that is sent, and its handling on the other side. *)
Lemma message_crosses here there inputs n m w :
  linked_to here there w -> decryption_key_wf (SignalingLayer.prop_decryption_key there) ->
  good_inputs inputs -> fits m ->
  exists n' c, run inputs n (send_session_message here m) w
      = (Ok tt, n', with_transport (Transport.with_unflushed true
           (Transport.with_sent c (transport w))) w) /\
    forall inputs' k peer, linked_to there here peer ->
      run inputs' k (handle_transport_payload there c) peer
      = run inputs' (S k) (handle_session_message m) peer.
Proof.
  intros [Hown (key & Hk & Hwf & Hpk & Hcon) Hst Hdc] Hthere Hi (Hsafe & text & Ht & Hlen).
  destruct (run_send_session_message_ok here inputs n m w text key)
    as (n' & c & nonce & Hr & Hc & Hn); [done..|].
  exists n', c. split; [exact Hr|]. intros inputs' k peer [_ (key' & Hk' & _ & Hpk' & _) _ _].
  by apply (run_handle_sealed there (SignalingLayer.prop_decryption_key here) nonce text key c m inputs' k key' peer).
Qed.

(** The request's answer on the dApp's side: the acknowledgement, then the response. *)
Definition settled_outcome (outcome : Result Value) : Result Value :=
  match outcome with Ok v => Ok v | _ => Err RequestFailed end.

(** The waiting call returns the peer's answer, when the acknowledgement and the answer
    are received before their deadlines. *)
Lemma response_in_time instant_max id outcome answer now ack_ms response_ms t1 t1' t2 t2' rest :
  reply id outcome = Ok answer ->
  (now + ack_ms <= instant_max)%Z -> (t1' + response_ms <= instant_max)%Z ->
  (t1 < now + ack_ms)%Z -> (t2 < t1' + response_ms)%Z ->
  receive_response instant_max id now ack_ms response_ms
    (mkTurn t1 (Received (Ack id)) t1' :: mkTurn t2 (Received answer) t2' :: rest)
  = Some (settled_outcome outcome).
Proof.
  intros Ha Hm1 Hm2 Hb1 Hb2. unfold receive_response, deadline_after.
  rewrite (proj2 (Z.leb_le _ _) Hm1). cbn [receive_loop clock Response.outcome].
  rewrite (proj2 (Z.leb_gt _ _) Hb1), String.eqb_refl. unfold deadline_after. cbn [clock_after].
  rewrite (proj2 (Z.leb_le _ _) Hm2). cbn [receive_loop clock Response.outcome].
  rewrite (proj2 (Z.leb_gt _ _) Hb2).
  destruct outcome as [v|e|]; cbn in Ha; simplify_eq; by rewrite String.eqb_refl.
Qed.

Lemma run_emit_response inputs n m w :
  run inputs n (emit_response m) w = (Ok tt, S n, with_response_tx (response_tx w ++ [m]) w).
Proof. done. Qed.

(** The wallet's part: a text that carries a request starts one handler task; the handler
    is called once, with the payload; the two texts that the task sends are, for the dApp,
    the acknowledgement and the answer. *)
Lemma wallet_part here there wallet_inputs m id v outcome answer k c0 peer :
  decryption_key_wf (SignalingLayer.prop_decryption_key here) ->
  linked_to there here peer -> good_inputs wallet_inputs ->
  (forall i, s_handler (wallet_inputs i) = outcome) -> reply id outcome = Ok answer ->
  fits (Ack id) -> fits answer ->
  Control.closed (control peer) = false -> Control.active_handlers (control peer) = k ->
  k < Control.MAX_ACTIVE_HANDLERS ->
  (forall inputs' j peer', linked_to there here peer' ->
    run inputs' j (handle_transport_payload there c0) peer'
    = run inputs' (S j) (handle_session_message (Request id v)) peer') ->
  exists m2 peer2 permit m3 peer3 c1 c2,
    run wallet_inputs m (handle_transport_payload there c0) peer = (Ok tt, m2, peer2) /\
    started peer2 = started peer ++ [RemoteRequest id permit v] /\
    run wallet_inputs m2 (handle_remote_request there id permit v) peer2 = (Ok tt, m3, peer3) /\
    handled peer3 = handled peer ++ [v] /\
    Transport.sent (transport peer3) = Transport.sent (transport peer) ++ [c1; c2] /\
    Control.active_handlers (control peer3) = k /\
    forall dapp_inputs n w1, linked_to here there w1 ->
      run dapp_inputs n (handle_transport_payload here c1;; handle_transport_payload here c2) w1
      = (Ok tt, S (S (S (S n))), with_response_tx (response_tx w1 ++ [Ack id; answer]) w1).
Proof.
  intros Hhere Hp Hwi Hh Ha Hf1 Hf2 Hcl Hact Hk Hc0.
  destruct (dispatch_request_spec wallet_inputs (S m) id v peer) as (r2 & m2 & peer2 & Hr2 & Hs2).
  rewrite Hcl, (proj2 (Nat.leb_gt _ _)) in Hs2 by (by rewrite Hact).
  destruct Hs2 as (-> & Hst2 & Hact2 & _ & _ & _ & _ & Hsig2 & Htr2 & Hh2).
  assert (linked_to there here peer2) as Hp2
    by (eapply linked_to_ext; [by rewrite Hsig2|by rewrite Htr2|by rewrite Htr2|exact Hp]).
  destruct Hp2 as [Hown (key & Hkey & Hwf & Hpk & Hcon) Hconn Hchan].
  destruct Hf1 as (Hsa1 & text1 & Ht1 & Hl1). destruct Hf2 as (Hsa2 & text2 & Ht2 & Hl2).
  destruct (run_remote_request_ok there wallet_inputs m2 id (Control.next_permit (control peer)) v
    outcome answer text1 text2 key k peer2)
    as (m3 & peer3 & c1 & c2 & nonce1 & nonce2 & Hr3 & Hs3 & Hc1 & Hc2 & Hn1 & Hn2 & Hh3 & Hact3);
    try done.
  { by rewrite Hact2, Hact. }
  exists m2, peer2, (Control.next_permit (control peer)), m3, peer3, c1, c2.
  split_and!; try done.
  - by rewrite (Hc0 wallet_inputs m peer Hp).
  - by rewrite Hh3, Hh2.
  - by rewrite Hs3, Htr2.
  - intros dapp_inputs n w1 [_ (key1 & Hkey1 & _ & Hpk1 & _) _ _].
    rewrite run_bind.
    rewrite (run_handle_sealed here (SignalingLayer.prop_decryption_key there) nonce1 text1 key c1 (Ack id) dapp_inputs n key1 w1
      Hown Hhere Hn1 Hpk Hkey1 Hpk1 Hsa1 Ht1 Hl1 Hc1).
    cbn [handle_session_message]. rewrite run_emit_response.
    set (w2 := with_response_tx _ w1).
    rewrite (run_handle_sealed here (SignalingLayer.prop_decryption_key there) nonce2 text2 key c2 answer dapp_inputs (S (S n)) key1 w2
      Hown Hhere Hn2 Hpk Hkey1 Hpk1 Hsa2 Ht2 Hl2 Hc2).
    destruct outcome as [x|e|]; cbn in Ha; simplify_eq; cbn [handle_session_message];
      rewrite run_emit_response; unfold w2; cbn; by rewrite <- (assoc_L app).
Qed.

(** A request is served: the dApp's text starts one handler task on the wallet; the
    handler is called once, with the payload; the two texts that the task sends are, for
    the dApp, the acknowledgement and the answer. *)
Lemma request_round_trip here there dapp_inputs wallet_inputs n m id v outcome answer k w peer :
  linked_to here there w -> linked_to there here peer ->
  good_inputs dapp_inputs -> good_inputs wallet_inputs ->
  (forall i, s_handler (wallet_inputs i) = outcome) -> reply id outcome = Ok answer ->
  fits (Request id v) -> fits (Ack id) -> fits answer ->
  Control.closed (control peer) = false -> Control.active_handlers (control peer) = k ->
  k < Control.MAX_ACTIVE_HANDLERS ->
  exists n1 w1 c0 m2 peer2 permit m3 peer3 c1 c2 n4 w4,
    run dapp_inputs n (send_session_message here (Request id v)) w = (Ok tt, n1, w1) /\
    Transport.sent (transport w1) = Transport.sent (transport w) ++ [c0] /\
    run wallet_inputs m (handle_transport_payload there c0) peer = (Ok tt, m2, peer2) /\
    started peer2 = started peer ++ [RemoteRequest id permit v] /\
    run wallet_inputs m2 (handle_remote_request there id permit v) peer2 = (Ok tt, m3, peer3) /\
    handled peer3 = handled peer ++ [v] /\
    Transport.sent (transport peer3) = Transport.sent (transport peer) ++ [c1; c2] /\
    Control.active_handlers (control peer3) = k /\
    run dapp_inputs n1 (handle_transport_payload here c1;; handle_transport_payload here c2) w1
      = (Ok tt, n4, w4) /\
    response_tx w4 = response_tx w ++ [Ack id; answer].
Proof.
  intros Hw Hp Hdi Hwi Hh Ha Hf0 Hf1 Hf2 Hcl Hact Hk.
  destruct (message_crosses here there dapp_inputs n (Request id v) w Hw (lk_own _ _ _ Hp) Hdi Hf0)
    as (n1 & c0 & Hr0 & Hc0).
  set (w1 := with_transport _ w) in Hr0.
  assert (linked_to here there w1) as Hw1 by (by eapply linked_to_ext; [..|exact Hw]).
  destruct (wallet_part here there wallet_inputs m id v outcome answer k c0 peer)
    as (m2 & peer2 & permit & m3 & peer3 & c1 & c2 & Hr2 & Hst & Hr3 & Hh3 & Hs3 & Hk3 & Hr4);
    try done; [apply Hw|].
  eexists n1, w1, c0, m2, peer2, permit, m3, peer3, c1, c2, _, _.
  split_and!; try done; [apply Hr4, Hw1|done].
Qed.

(** [exchange] while it waits for the response to request [id]: what is left of
    [send_with_timeouts], of [run_operation] around it, and of [exchange]. *)
Definition awaiting_response (instant_max : Z) (id : string) : prog SessionInner SInput Value :=
  await;;
  now ← asks (fun i => SignalingLayer.in_now (s_signaling i));
  turns ← asks s_turns;
  match receive_response instant_max id now DEFAULT_ACK_TIMEOUT_MS DEFAULT_RESPONSE_TIMEOUT_MS turns with
  | Some r => lift r
  | None => lift (Err SessionClosed)
  end.

Definition awaiting_operation (instant_max : Z) (id : string) (handle : nat)
    : prog SessionInner SInput Value :=
  result ← attempt (awaiting_response instant_max id);
  writes (fun w => with_control (Control.finish_task handle (control w)) w);;
  lift result.

Definition awaiting_exchange (instant_max : Z) (id : string) (handle : nat) (request : Value)
    : prog SessionInner SInput (Res ExchangeError Value) :=
  outcome ← attempt (awaiting_operation instant_max id handle);
  mret (settle (value_index "id" request) outcome).

Lemma run_awaiting_exchange instant_max id handle request inputs n now turns r w :
  (forall i, SignalingLayer.in_now (s_signaling (inputs i)) = now /\ s_turns (inputs i) = turns) ->
  receive_response instant_max id now DEFAULT_ACK_TIMEOUT_MS DEFAULT_RESPONSE_TIMEOUT_MS turns = Some r ->
  r <> Panic ->
  run inputs n (awaiting_exchange instant_max id handle request) w
  = (Ok (settle (value_index "id" request) r), S (S (S n)),
     with_control (Control.finish_task handle (control w)) w).
Proof.
  intros Hi Hr Hp. unfold awaiting_exchange, awaiting_operation.
  assert (run inputs n (awaiting_response instant_max id) w = (r, S (S n), w)) as Hresp.
  { unfold awaiting_response. cbn. rewrite (proj1 (Hi _)), (proj2 (Hi _)), Hr. done. }
  rewrite run_bind, run_attempt, run_bind, run_attempt, Hresp. by destruct r.
Qed.

(** [exchange] gets there, when the session is ready, and has then sent the request. *)
Lemma exchange_waits here there instant_max inputs n id request w :
  linked_to here there w -> decryption_key_wf (SignalingLayer.prop_decryption_key there) ->
  good_inputs inputs -> (forall i, s_uuid (inputs i) = id) -> fits (Request id request) ->
  SignalingLayer.state (signaling w) = SignalingLayer.Encrypted ->
  Control.closed (control w) = false ->
  exists handle n1 w1 c0,
    reaches inputs n (exchange here instant_max request) w
      (awaiting_exchange instant_max id handle request) n1 w1 /\
    linked_to here there w1 /\ response_tx w1 = response_tx w /\
    Transport.sent (transport w1) = Transport.sent (transport w) ++ [c0] /\
    (forall inputs' k peer, linked_to there here peer ->
      run inputs' k (handle_transport_payload there c0) peer
      = run inputs' (S k) (handle_session_message (Request id request)) peer).
Proof.
  intros Hw Hthere Hi Hid Hf Hst Hcl.
  set (w0 := with_control (Control.spawn (control w)).2 w).
  assert (linked_to here there w0) as Hw0 by (by eapply linked_to_ext; [..|exact Hw]).
  destruct (message_crosses here there inputs (S (S (S n))) (Request id request) w0 Hw0 Hthere Hi Hf)
    as (n1 & c0 & Hr & Hc0).
  set (w1 := with_transport _ w0) in Hr.
  exists (Control.next_task (control w)), n1, w1, c0.
  split_and!; [|by eapply linked_to_ext; [..|exact Hw]|done|done|exact Hc0].
  unfold exchange, send, send_with_timeouts, run_operation, inner_send.
  apply reaches_inside; [|exact Logic.I]. apply reaches_attempt; [|exact Logic.I].
  apply (reaches_after _ _ _ _ _ (Ok (Control.next_task (control w))) (S n) w0).
  { cbn. unfold w0, Control.spawn. by rewrite Hcl. }
  apply (reaches_after _ _ _ _ _ (Control.next_task (control w)) (S n) w0); [done|].
  apply reaches_inside; [|exact Logic.I]. apply reaches_attempt; [|exact Logic.I].
  apply (reaches_after _ _ _ _ _ SignalingLayer.Encrypted (S (S n)) w0); [cbn; by rewrite Hst|].
  cbn [negb bool_decide decide_rel].
  apply (reaches_after _ _ _ _ _ id (S (S (S n))) w0); [cbn; by rewrite Hid|].
  apply (reaches_after _ _ _ _ _ tt n1 w1); [exact Hr|]. apply reaches_here.
Qed.

End end_to_end.

(** ** Properties *)

(** C2. A request is served from end to end: between two linked sessions, the text that
    the dApp sends makes the wallet start exactly one handler task, which calls the
    handler once, with the payload; of the two texts the task sends back, the dApp
    makes the acknowledgement and the answer, in this order, and the permit is given
    back; and the waiting call returns the handler's value, or [RequestFailed] when the
    handler failed, whenever both are received before their deadlines. *)
Theorem request_served
    `{CryptoLaws, SignalingCodec, SessionCodecLaws, Transport.WebRtcLib}
    here there dapp_inputs wallet_inputs n m id v outcome answer k w peer :
  linked_to here there w -> linked_to there here peer ->
  good_inputs dapp_inputs -> good_inputs wallet_inputs ->
  (forall i, s_handler (wallet_inputs i) = outcome) -> reply id outcome = Ok answer ->
  fits (Request id v) -> fits (Ack id) -> fits answer ->
  Control.closed (control peer) = false -> Control.active_handlers (control peer) = k ->
  k < Control.MAX_ACTIVE_HANDLERS ->
  (exists n1 w1 c0 m2 peer2 permit m3 peer3 c1 c2 n4 w4,
    run dapp_inputs n (send_session_message here (Request id v)) w = (Ok tt, n1, w1) /\
    Transport.sent (transport w1) = Transport.sent (transport w) ++ [c0] /\
    run wallet_inputs m (handle_transport_payload there c0) peer = (Ok tt, m2, peer2) /\
    started peer2 = started peer ++ [RemoteRequest id permit v] /\
    run wallet_inputs m2 (handle_remote_request there id permit v) peer2 = (Ok tt, m3, peer3) /\
    handled peer3 = handled peer ++ [v] /\
    Transport.sent (transport peer3) = Transport.sent (transport peer) ++ [c1; c2] /\
    Control.active_handlers (control peer3) = k /\
    run dapp_inputs n1 (handle_transport_payload here c1;; handle_transport_payload here c2) w1
      = (Ok tt, n4, w4) /\
    response_tx w4 = response_tx w ++ [Ack id; answer]) /\
  (forall instant_max now ack_ms response_ms t1 t1' t2 t2' rest,
    (now + ack_ms <= instant_max)%Z -> (t1' + response_ms <= instant_max)%Z ->
    (t1 < now + ack_ms)%Z -> (t2 < t1' + response_ms)%Z ->
    receive_response instant_max id now ack_ms response_ms
      (mkTurn t1 (Received (Ack id)) t1' :: mkTurn t2 (Received answer) t2' :: rest)
    = Some (match outcome with Ok x => Ok x | _ => Err RequestFailed end)).
Proof.
  intros Hw Hp Hdi Hwi Hh Ha Hf0 Hf1 Hf2 Hcl Hact Hk. split.
  - by eapply (request_round_trip here there dapp_inputs wallet_inputs n m id v outcome answer).
  - intros *. by apply response_in_time.
Qed.

(** C17. [exchange] with the example wallet: for every JSON request, a dApp's [exchange] on a
    linked session sends one text and waits; the wallet makes one handler task of it,
    whose two texts the dApp's transport loop turns into the acknowledgement and the
    wallet's JSON-RPC response for the waiting call; and whenever the call receives these
    two messages before their deadlines, [exchange] returns exactly the wallet's response,
    which carries the id of the request. *)
Theorem wallet_serves_exchange
    `{CryptoLaws, SignalingCodec, SessionCodecLaws, Transport.WebRtcLib, SignerLib}
    here there instant_max dapp_inputs wallet_inputs n m id request k w peer :
  let response := handle_rpc_request request in
  linked_to here there w -> linked_to there here peer ->
  SignalingLayer.state (signaling w) = SignalingLayer.Encrypted ->
  Control.closed (control w) = false ->
  good_inputs dapp_inputs -> (forall i, s_uuid (dapp_inputs i) = id) ->
  good_inputs wallet_inputs -> (forall i, s_handler (wallet_inputs i) = Ok response) ->
  fits (Request id request) -> fits (Ack id) -> fits (Response id response) ->
  Control.closed (control peer) = false -> Control.active_handlers (control peer) = k ->
  k < Control.MAX_ACTIVE_HANDLERS ->
  exists steps waiting n1 w1 c0 m2 peer2 permit m3 peer3 c1 c2 n4 w4,
    run_for dapp_inputs steps n (exchange here instant_max request) w = (waiting, n1, w1) /\
    suspended waiting /\
    Transport.sent (transport w1) = Transport.sent (transport w) ++ [c0] /\
    run wallet_inputs m (handle_transport_payload there c0) peer = (Ok tt, m2, peer2) /\
    started peer2 = started peer ++ [RemoteRequest id permit request] /\
    run wallet_inputs m2 (handle_remote_request there id permit request) peer2 = (Ok tt, m3, peer3) /\
    Transport.sent (transport peer3) = Transport.sent (transport peer) ++ [c1; c2] /\
    run dapp_inputs n1 (handle_transport_payload here c1;; handle_transport_payload here c2) w1
      = (Ok tt, n4, w4) /\
    response_tx w4 = response_tx w ++ [Ack id; Response id response] /\
    answers (value_index "id" request) response /\
    forall later_inputs n5 now t1 t1' t2 t2' first second rest,
      response_tx w4 = response_tx w ++ [first; second] ->
      (forall i, SignalingLayer.in_now (s_signaling (later_inputs i)) = now /\
         s_turns (later_inputs i)
         = mkTurn t1 (Received first) t1' :: mkTurn t2 (Received second) t2' :: rest) ->
      (now + DEFAULT_ACK_TIMEOUT_MS <= instant_max)%Z ->
      (t1' + DEFAULT_RESPONSE_TIMEOUT_MS <= instant_max)%Z ->
      (t1 < now + DEFAULT_ACK_TIMEOUT_MS)%Z -> (t2 < t1' + DEFAULT_RESPONSE_TIMEOUT_MS)%Z ->
      exists n6 w6, run later_inputs n5 waiting w4 = (Ok (Ok response), n6, w6).
Proof.
  cbn zeta. intros Hw Hp Hst Hcl0 Hdi Hid Hwi Hh Hf0 Hf1 Hf2 Hcl Hact Hk.
  destruct (exchange_waits here there instant_max dapp_inputs n id request w)
    as (handle & n1 & w1 & c0 & [j Hj] & Hw1 & Hresp1 & Hs0 & Hc0); try done; [apply Hp|].
  destruct (wallet_part here there wallet_inputs m id request (Ok (handle_rpc_request request))
    (Response id (handle_rpc_request request)) k c0 peer)
    as (m2 & peer2 & permit & m3 & peer3 & c1 & c2 & Hr2 & Hstd & Hr3 & _ & Hs3 & _ & Hr4);
    try done; [apply Hw|].
  eexists j, _, n1, w1, c0, m2, peer2, permit, m3, peer3, c1, c2, _, _.
  split_and!; [exact Hj|exact Logic.I|exact Hs0|exact Hr2|exact Hstd|exact Hr3|exact Hs3|apply Hr4, Hw1|..].
  - cbn. by rewrite Hresp1.
  - apply handle_rpc_request_answers.
  - intros later n5 now t1 t1' t2 t2' first second rest Hmsgs Hturns Hm1 Hm2 Hb1 Hb2.
    cbn in Hmsgs. rewrite Hresp1 in Hmsgs. apply (inj (response_tx w ++.)) in Hmsgs.
    injection Hmsgs as <- <-. eexists _, _.
    rewrite (run_awaiting_exchange _ _ _ _ _ _ now _ (Ok (handle_rpc_request request) : Result Value) _ Hturns);
      [|by eapply (response_in_time instant_max id (Ok (handle_rpc_request request) : Result Value))|done].
    by rewrite (settle_answers _ _ (handle_rpc_request_answers request)).
Qed.

(** ** Witnesses *)

Import CryptoModel TextModel SignalingSafety.LayerModel SessionModel WalletModel.

Lemma model_host_linked : linked_to model_host model_client model_host_session.
Proof.
  split; [split; reflexivity| |reflexivity|eexists; reflexivity].
  eexists. split; [reflexivity|]. split; [split; reflexivity|]. split; [reflexivity|]. vm_compute. reflexivity.
Qed.

Lemma model_client_linked : linked_to model_client model_host model_client_session.
Proof.
  split; [split; reflexivity| |reflexivity|eexists; reflexivity].
  eexists. split; [reflexivity|]. split; [split; reflexivity|]. split; [reflexivity|]. vm_compute. reflexivity.
Qed.

Lemma model_inputs_good outcome : good_inputs (fun _ => model_sinput outcome).
Proof. intros i. split; reflexivity. Qed.

Lemma fits_compute m : session_safe m = true -> (str_len (to_text m) <=? aes_gcm_max)%Z = true -> fits m.
Proof. intros Hm Hl. split; [done|]. exists (to_text m). split; [done|]. by apply Z.leb_le. Qed.

Lemma request_served_witness :
  receive_response 1000000 "id" 0 10 100
    [mkTurn 5 (Received (Ack "id")) 6; mkTurn 50 (Received (Failed "id")) 51] = Some (Err RequestFailed) /\
  exists n1 w1, run (fun _ => model_sinput (Ok Null)) 0 (send_session_message model_host (Request "id" Null))
    model_host_session = (Ok tt, n1, w1).
Proof.
  destruct (request_served model_host model_client (fun _ => model_sinput (Ok Null))
    (fun _ => model_sinput (Err (Other "no"))) 0 0 "id" Null (Err (Other "no")) (Failed "id") 1
    model_host_session model_client_session) as [(n1 & w1 & _ & _ & _ & _ & _ & _ & _ & _ & _ & _ & Hr & _) Ht].
  - exact model_host_linked.
  - exact model_client_linked.
  - apply model_inputs_good.
  - apply model_inputs_good.
  - reflexivity.
  - reflexivity.
  - apply fits_compute; vm_compute; reflexivity.
  - apply fits_compute; vm_compute; reflexivity.
  - apply fits_compute; vm_compute; reflexivity.
  - reflexivity.
  - reflexivity.
  - unfold Control.MAX_ACTIVE_HANDLERS. lia.
  - split; [apply Ht; lia|]. exists n1, w1. exact Hr.
Defined.

(** The dApp's session, ready, and what its waiting call receives. *)
Definition ready_session : SessionInner :=
  with_signaling (SignalingLayer.with_state SignalingLayer.Encrypted (signaling model_host_session))
    model_host_session.

Definition later_input : SInput :=
  mkSInput model_input Transport.TransportModel.good "id" (Ok Null) true
    [mkTurn 1700000000001 (Received (Ack "id")) 1700000000001;
     mkTurn 1700000000002 (Received (Response "id" (handle_rpc_request sign_request))) 1700000000002].

Lemma wallet_serves_exchange_witness :
  exists (waiting : prog SessionInner SInput (Res ExchangeError Value)) w4 n6 w6, suspended waiting /\
    response_tx w4 = [Ack "id"; Response "id" (handle_rpc_request sign_request)] /\
    run (fun _ => later_input) 0 waiting w4 = (Ok (Ok (handle_rpc_request sign_request)), n6, w6).
Proof.
  destruct (wallet_serves_exchange model_host model_client (2 ^ 62) (fun _ => model_sinput (Ok Null))
    (fun _ => model_sinput (Ok (handle_rpc_request sign_request))) 0 0 "id" sign_request 1
    ready_session model_client_session)
    as (steps & waiting & n1 & w1 & _ & _ & _ & _ & _ & _ & _ & _ & n4 & w4 & _ & Hw & _ & _ & _ & _ & _ & _ & Hresp & _ & Hrun).
  - apply (linked_to_ext _ _ model_host_session); [|reflexivity|reflexivity|exact model_host_linked].
    reflexivity.
  - exact model_client_linked.
  - reflexivity.
  - reflexivity.
  - apply model_inputs_good.
  - reflexivity.
  - apply model_inputs_good.
  - reflexivity.
  - apply fits_compute; vm_compute; reflexivity.
  - apply fits_compute; vm_compute; reflexivity.
  - apply fits_compute; vm_compute; reflexivity.
  - reflexivity.
  - reflexivity.
  - unfold Control.MAX_ACTIVE_HANDLERS. lia.
  - destruct (Hrun (fun _ => later_input) 0 1700000000000%Z 1700000000001%Z 1700000000001%Z
      1700000000002%Z 1700000000002%Z (Ack "id") (Response "id" (handle_rpc_request sign_request)) [])
      as (n6 & w6 & Hr6).
    + exact Hresp.
    + intros i. split; reflexivity.
    + vm_compute. discriminate.
    + vm_compute. discriminate.
    + reflexivity.
    + reflexivity.
    + exists waiting, w4, n6, w6. split; [exact Hw|]. split; [exact Hresp|exact Hr6].
Defined.
