(* ===== verification/Linking.v ===== *)
(** * From the handshake to the data channel ([session/mod.rs], [transport/webrtc.rs])

    Two sessions whose signaling is [Encrypted] connect their transports: each starts
    its transport, the negotiation messages that one transport emits are relayed over
    signaling to the other, and the data channel opens. Then the whole way from two
    configurations to an answered request. *)
From S2P Require Import Prelude RustStr Errors Json Regex CryptoLib CryptoModel Encryption Message TextModel.
From S2P Require Import SessionUri Ntfy Tasks SessionMessage Response Session SessionSpec.
From S2P Require SignalingLayer SignalingSafety SignalingRun Announce Control Transport SessionSafety Setup.
From S2P Require Import Handshake JsonRpc Wallet EndToEnd.
Local Open Scope string_scope.
Local Open Scope list_scope.

Import SignalingLayer(Inner, SignalingProperties, Input).
Import Transport(TInput, WebRtcLib, Sdp, Candidate, sdp_from_str, sdp_to_string, candidate_from_str).

(** serde on session descriptions: what one end prints, the other reads. *)
Class WebRtcLaws `{WebRtcLib} : Prop := {
  sdp_from_to_string sdp s : sdp_to_string sdp = inl s -> sdp_from_str s = inl sdp;
}.

(** ** The transports *)

Section transports.
Context `{WebRtcLaws}.
Implicit Types (w : Transport.Transport) (inputs : nat -> TInput) (n dc : nat).

(** What matters of a transport here. *)
Definition tview (w : Transport.Transport) :=
  (Transport.t_state w, Transport.peer_connection w, Transport.data_channel w,
   Transport.pending_candidates w, Transport.event_tx w, Transport.sent w).

(** A library that accepts every call and creates one description, in a runtime. *)
Definition accepts (sdp : Sdp) (inputs : nat -> TInput) : Prop :=
  forall k, Transport.t_io (inputs k) = inl tt /\ Transport.t_sdp (inputs k) = inl sdp /\
    Transport.t_runtime (inputs k) = true.

Definition offer_message (text : string) : TransportNegotiationMessage := mkTransportNegotiationMessage "offer" text.
Definition answer_message (text : string) : TransportNegotiationMessage := mkTransportNegotiationMessage "answer" text.
Definition candidate_message (json : string) : TransportNegotiationMessage :=
  mkTransportNegotiationMessage "candidate" json.

Lemma run_library_call {A} inputs n (q : unit -> prog _ TInput A) w sdp :
  accepts sdp inputs -> run inputs n (Transport.library_call ≫= q) w = run inputs (S n) (q tt) w.
Proof. intros Ha. rewrite run_bind. cbn. by rewrite (proj1 (Ha n)). Qed.

Lemma run_create_sdp {A} inputs n (q : Sdp -> prog _ TInput A) w sdp :
  accepts sdp inputs -> run inputs n (Transport.create_sdp ≫= q) w = run inputs (S n) (q sdp) w.
Proof. intros Ha. rewrite run_bind. cbn. by rewrite (proj1 (proj2 (Ha n))). Qed.

Lemma run_sdp_text {A} inputs n sdp text (q : string -> prog _ TInput A) w :
  sdp_to_string sdp = inl text ->
  run inputs n (lift (lib_err Other (sdp_to_string sdp)) ≫= q) w = run inputs n (q text) w.
Proof. by intros ->. Qed.

Lemma run_pc {A} inputs n c log (q : unit -> prog _ TInput A) w sdp :
  accepts sdp inputs -> Transport.peer_connection w = Some log ->
  run inputs n (Transport.pc_call c ≫= q) w
  = run inputs (S n) (q tt) (Transport.with_pc (Some (log ++ [c])) w).
Proof. intros Ha Hp. rewrite run_bind. cbn. rewrite (proj1 (Ha n)). cbn. by rewrite Hp. Qed.

(** The host's setup: its offer is set and emitted, and the data channel is there. *)
Lemma host_setup_run inputs n dc offer text w :
  accepts offer inputs -> sdp_to_string offer = inl text ->
  exists n' w', run inputs n (Transport.setup true dc) w = (Ok tt, n', w') /\
    tview w' = (Transport.Ready, Some [Transport.SetLocal offer], Some dc, Transport.pending_candidates w,
      Transport.event_tx w ++ [Transport.Negotiation (offer_message text)], Transport.sent w).
Proof.
  intros Ha Ht. unfold Transport.setup. rewrite run_bind. cbn [run Transport.set_state writes atom].
  rewrite !(run_library_call _ _ _ _ offer Ha), run_bind. cbn [run asks atom].
  rewrite (proj2 (proj2 (Ha _))). cbn [negb]. rewrite (run_library_call _ _ _ _ offer Ha), run_bind.
  rewrite (run_library_call _ _ _ _ offer Ha), run_bind. cbn [run writes atom].
  rewrite (run_create_sdp _ _ _ _ offer Ha), (run_library_call _ _ _ _ offer Ha).
  rewrite (run_sdp_text _ _ _ _ _ _ Ht), run_bind. cbn. eexists _, _. split; [reflexivity|]. done.
Qed.

Lemma client_setup_run inputs n dc sdp w :
  accepts sdp inputs ->
  exists n' w', run inputs n (Transport.setup false dc) w = (Ok tt, n', w') /\
    tview w' = (Transport.Ready, Some [], Transport.data_channel w, Transport.pending_candidates w,
      Transport.event_tx w, Transport.sent w).
Proof.
  intros Ha. unfold Transport.setup. rewrite run_bind. cbn [run Transport.set_state writes atom].
  rewrite !(run_library_call _ _ _ _ sdp Ha), run_bind. cbn [run asks atom].
  rewrite (proj2 (proj2 (Ha _))). cbn [negb]. rewrite (run_library_call _ _ _ _ sdp Ha), run_bind.
  cbn. eexists _, _. split; [reflexivity|]. done.
Qed.

(** The client takes the offer and emits its answer. *)
Lemma offer_run inputs n offer text answer answer_text log w :
  accepts answer inputs -> sdp_to_string offer = inl text -> sdp_to_string answer = inl answer_text ->
  Transport.peer_connection w = Some log -> Transport.pending_candidates w = [] ->
  exists n' w', run inputs n (Transport.handle (offer_message text)) w = (Ok tt, n', w') /\
    tview w' = (Transport.t_state w, Some (log ++ [Transport.SetRemote offer; Transport.SetLocal answer]),
      Transport.data_channel w, [],
      Transport.event_tx w ++ [Transport.Negotiation (answer_message answer_text)], Transport.sent w).
Proof.
  intros Ha Ht Hat Hp Hc. unfold Transport.handle. rewrite run_bind. cbn [run reads atom]. rewrite Hp.
  cbn [offer_message message_type negotiation_payload String.eqb Ascii.eqb Bool.eqb].
  unfold Transport.handle_offer. rewrite (sdp_from_to_string _ _ Ht).
  change (lift (lib_err Other (inl offer)) ≫= ?q) with (q offer). cbn beta.
  rewrite (run_pc _ _ _ _ _ _ answer Ha Hp), run_bind. unfold Transport.flush_pending_candidates.
  rewrite run_bind. cbn [run atom]. cbn [Transport.pending_candidates Transport.with_pc]. rewrite Hc.
  cbn [Transport.add_candidates run mret prog_mret]. rewrite (run_create_sdp _ _ _ _ answer Ha).
  erewrite run_pc; [|exact Ha|reflexivity]. rewrite (run_sdp_text _ _ _ _ _ _ Hat).
  cbn. eexists _, _. split; [reflexivity|]. unfold tview. cbn. by rewrite <- (assoc_L app).
Qed.

(** The host takes the answer. *)
Lemma answer_run inputs n answer answer_text sdp log w :
  accepts sdp inputs -> sdp_to_string answer = inl answer_text ->
  Transport.peer_connection w = Some log -> Transport.pending_candidates w = [] ->
  exists n' w', run inputs n (Transport.handle (answer_message answer_text)) w = (Ok tt, n', w') /\
    tview w' = (Transport.t_state w, Some (log ++ [Transport.SetRemote answer]),
      Transport.data_channel w, [], Transport.event_tx w, Transport.sent w).
Proof.
  intros Ha Ht Hp Hc. unfold Transport.handle. rewrite run_bind. cbn [run reads atom]. rewrite Hp.
  cbn [answer_message message_type negotiation_payload String.eqb Ascii.eqb Bool.eqb].
  unfold Transport.handle_answer. rewrite (sdp_from_to_string _ _ Ht).
  change (lift (lib_err Other (inl answer)) ≫= ?q) with (q answer). cbn beta.
  rewrite (run_pc _ _ _ _ _ _ sdp Ha Hp). unfold Transport.flush_pending_candidates.
  rewrite run_bind. cbn [run atom]. cbn [Transport.pending_candidates Transport.with_pc]. rewrite Hc.
  cbn. eexists _, _. split; [reflexivity|]. done.
Qed.

(** A candidate after the remote description goes to the connection. *)
Lemma candidate_run inputs n json c sdp log w :
  accepts sdp inputs -> json <> "" -> candidate_from_str json = inl c ->
  Transport.peer_connection w = Some log -> Transport.has_remote log = true ->
  exists n' w', run inputs n (Transport.handle (candidate_message json)) w = (Ok tt, n', w') /\
    tview w' = (Transport.t_state w, Some (log ++ [Transport.AddCandidate c]),
      Transport.data_channel w, Transport.pending_candidates w, Transport.event_tx w, Transport.sent w).
Proof.
  intros Ha Hj Hc Hp Hr. unfold Transport.handle. rewrite run_bind. cbn [run reads atom]. rewrite Hp.
  cbn [candidate_message message_type negotiation_payload String.eqb Ascii.eqb Bool.eqb].
  unfold Transport.handle_candidate. destruct (String.eqb_spec json ""); [done|]. rewrite Hc.
  change (lift (lib_err Other (inl c)) ≫= ?q) with (q c). cbn beta. rewrite run_bind. cbn [run reads atom].
  rewrite Hp. cbn [default from_option id]. rewrite Hr. cbn [negb]. cbn. rewrite (proj1 (Ha _)). cbn. rewrite Hp.
  eexists _, _. split; [reflexivity|]. done.
Qed.

End transports.

(** ** The sessions *)

Section sessions.
Context `{CryptoLib} `{SignalingCodec} `{SessionCodec} `{WebRtcLib}.

(** A call that must succeed, from an atom counter and a session. *)
Definition session_call (inputs : nat -> SInput) (p : prog SessionInner SInput unit) (s : nat * SessionInner)
    : option (nat * SessionInner) :=
  match run inputs s.1 p s.2 with (Ok _, n', w') => Some (n', w') | _ => None end.

(** One negotiation message on its way: the sender's loop takes it from the transport's
    events and relays it, the receiver's channel gets the frame, and the receiver's loop
    takes the message. *)
Definition relay (self other : SignalingProperties) (inputs inputs' : nat -> SInput)
    (n : TransportNegotiationMessage) (s r : nat * SessionInner)
    : option ((nat * SessionInner) * (nat * SessionInner)) :=
  s' ← session_call inputs (on_transport_event self (Transport.Negotiation n)) s;
  r1 ← session_call inputs' (on_signaling (SignalingLayer.handle_receive other
         (last_published (signaling s'.2)))) r;
  v ← last (SignalingLayer.message_tx (signaling r1.2));
  r2 ← session_call inputs' (on_signal_message v) r1;
  Some (s', r2).

(** The newest event of a transport, which must be a negotiation message. *)
Definition emitted (w : SessionInner) : option TransportNegotiationMessage :=
  match last (Transport.event_tx (transport w)) with
  | Some (Transport.Negotiation n) => Some n
  | _ => None
  end.

(** The candidates that one end finds are relayed in order. *)
Fixpoint trickle (self other : SignalingProperties) (inputs inputs' : nat -> SInput) (candidates : list string)
    (s r : nat * SessionInner) : option ((nat * SessionInner) * (nat * SessionInner)) :=
  match candidates with
  | [] => Some (s, r)
  | json :: rest =>
      s1 ← session_call inputs (on_transport (Transport.on_ice_candidate (Some json))) s;
      n ← emitted s1.2;
      '(s2, r2) ← relay self other inputs inputs' n s1 r;
      trickle self other inputs inputs' rest s2 r2
  end.

Context (host client : SignalingProperties) (host_inputs client_inputs : nat -> SInput) (dc : nat).

(** What the session's signaling has announced. *)
Definition announced (w : SessionInner) : list (SignalingLayer.SignalState + RecvError) :=
  inl <$> SignalingLayer.state_tx (signaling w).

(** The sessions link: their loops hear of all their signaling has announced and start the
    transports, the offer and the answer are
    exchanged, then the candidates of both ends; the data channel opens on both ends,
    and [wait_for_link] returns. *)
Definition link (host_candidates client_candidates : list string) (h0 c0 : nat * SessionInner)
    : option ((nat * SessionInner) * (nat * SessionInner)) :=
  h1 ← session_call host_inputs (run_signal_state_loop true dc (announced h0.2)) h0;
  c1 ← session_call client_inputs (run_signal_state_loop false dc (announced c0.2)) c0;
  offer ← emitted h1.2;
  '(h2, c2) ← relay host client host_inputs client_inputs offer h1 c1;
  answer ← emitted c2.2;
  '(c3, h3) ← relay client host client_inputs host_inputs answer c2 h2;
  '(h4, c4) ← trickle host client host_inputs client_inputs host_candidates h3 c3;
  '(c5, h5) ← trickle client host client_inputs host_inputs client_candidates c4 h4;
  h6 ← session_call host_inputs (on_transport (Transport.poll_dc [Transport.OnOpen])) h5;
  c6 ← session_call client_inputs (on_transport (Transport.on_data_channel dc [Transport.OnOpen])) c5;
  h7 ← session_call host_inputs (wait_for_link []) h6;
  c7 ← session_call client_inputs (wait_for_link []) c6;
  Some (h7, c7).

(** Every frame of the handshake is delivered to the other session. *)
Definition session_deliveries (h0 c0 : nat * SessionInner) : option ((nat * SessionInner) * (nat * SessionInner)) :=
  let host_hears f := session_call host_inputs (on_signaling (SignalingLayer.handle_receive host f)) in
  let client_hears f := session_call client_inputs (on_signaling (SignalingLayer.handle_receive client f)) in
  let published (s : nat * SessionInner) := last_published (signaling s.2) in
  h1 ← host_hears (published c0) h0;
  c1 ← client_hears (published h1) c0;
  h2 ← host_hears (published c1) h1;
  c2 ← client_hears (published h2) c1;
  h3 ← host_hears (published c2) h2;
  Some (h3, c2).

(** The sessions handshake: both connect, and every frame is delivered. *)
Definition session_handshake (h c : SessionInner) : option ((nat * SessionInner) * (nat * SessionInner)) :=
  h0 ← session_call host_inputs (connect host) (0, h);
  c0 ← session_call client_inputs (connect client) (0, c);
  session_deliveries h0 c0.

End sessions.

(** ** One message crosses *)

Section crossing.
Context `{CryptoLaws} `{SignalingCodecLaws} `{SessionCodecLaws} `{WebRtcLib}.
Context (clock_ok : Z -> Prop) (host client : SignalingProperties).
Context (pair : honest_pair clock_ok host client).

(** A session whose signaling and transport have moved on. *)
Definition at_ (w : SessionInner) (x : Inner) (t : Transport.Transport) : SessionInner :=
  with_transport t (with_signaling x w).
(** The layer has the other end's key and capabilities. *)
Definition secured (other : SignalingProperties) (x : Inner) : Prop :=
  SignalingLayer.state x = SignalingLayer.Encrypted /\
  SignalingLayer.relying_key x = Some (SignalingLayer.prop_encryption_key other) /\
  SignalingLayer.peer_capabilities x = Some (SignalingLayer.capabilities other).

(** A negotiation message fits in one frame, under the message ids that are drawn. *)
Definition relayable (inputs : nat -> SInput) (n : TransportNegotiationMessage) : Prop :=
  forall k v t, relay_value (s_uuid (inputs k)) n = inl v -> clock_ok t -> encryptable (Message.Data v t).

Definition ends_of (self other : SignalingProperties) : Prop :=
  (self = host /\ other = client) \/ (self = client /\ other = host).

Lemma session_call_ok (inputs : nat -> SInput) p n w n' w' :
  run inputs n p w = (Ok tt, n', w') -> session_call inputs p (n, w) = Some (n', w').
Proof. unfold session_call. cbn [fst snd]. by intros ->. Qed.

Lemma relay_value_object id n v : relay_value id n = inl v -> is_object v = true.
Proof.
  unfold relay_value. rewrite negotiation_to_value_format, request_to_value. by intros [= <-].
Qed.

Lemma relay_value_exists id n : exists v, relay_value id n = inl v.
Proof. unfold relay_value. rewrite negotiation_to_value_format, request_to_value. eauto. Qed.

Lemma relay_value_routed id n v : relay_value id n = inl v -> route_signal_payload v = (Some n, None).
Proof.
  intros Hv. unfold route_signal_payload, relay_value in *.
  destruct (negotiation_to_value n) as [inner|e] eqn:Hn; [|done]. assert (Hv' := Hv).
  rewrite request_to_value in Hv'. injection Hv' as <-.
  destruct (negotiation_from_value (Object _)) as [n'|e] eqn:Hw.
  { by apply (wrapped_not_negotiation id inner n' n) in Hw. }
  rewrite (session_from_to_value _ _ Hv) by done. by rewrite (negotiation_from_to_value _ _ Hn).
Qed.

(** The sender's side of a relay. *)
Lemma relay_sends self other inputs i n w x t :
  ends_of self other -> inputs_ok clock_ok (fun k => s_signaling (inputs k)) -> relayable inputs n ->
  secured other x ->
  exists i' x' v, run inputs i (on_transport_event self (Transport.Negotiation n)) (at_ w x t) = (Ok tt, i', at_ w x' t) /\
    secured other x' /\ route_signal_payload v = (Some n, None) /\
    forall inputs' j y, secured self y ->
      exists j', run inputs' j (SignalingLayer.handle_receive other (last_published x')) y
        = (Ok tt, j', SignalingLayer.with_message_tx (SignalingLayer.message_tx y ++ [v]) y).
Proof using All.
  intros Hso Hi Hn (Hs & Hk & Hc). destruct (relay_value_exists (s_uuid (inputs i)) n) as [v Hv].
  destruct (data_crosses clock_ok host client (fun k => s_signaling (inputs k)) (S i) v self other x pair Hi Hso
    (relay_value_object _ _ _ Hv) (fun t Ht => Hn i v t Hv Ht) Hk) as (i' & x' & f & R & V & Hrecv).
  injection V as V1 V2 V3 _ V5.
  exists i', x', v. split; [|split; [|split]].
  - unfold on_transport_event, relay_negotiation. rewrite run_bind, run_attempt, run_bind. cbn [run asks atom].
    rewrite Hv. change (lift (lib_err Other (inl v)) ≫= ?q) with (q v). cbn beta.
    rewrite run_on_signaling. cbn [signaling at_ with_transport with_signaling]. by rewrite R.
  - unfold secured. by rewrite V1, V2, V3.
  - by apply (relay_value_routed _ _ _ Hv).
  - intros inputs' j y (Hys & Hyk & _). rewrite (last_published_app _ _ _ V5). by apply Hrecv.
Qed.

(** A whole relay: the receiver's transport has handled the message. *)
Lemma relay_ok self other inputs inputs' n i j w x t w' y u (P : Transport.Transport -> Prop) :
  ends_of self other -> inputs_ok clock_ok (fun k => s_signaling (inputs k)) -> relayable inputs n ->
  secured other x -> secured self y ->
  (forall m, exists m' u', run (fun k => s_transport (inputs' k)) m (Transport.handle n) u = (Ok tt, m', u') /\ P u') ->
  exists i' j' x' y' u', relay self other inputs inputs' n (i, at_ w x t) (j, at_ w' y u)
      = Some ((i', at_ w x' t), (j', at_ w' y' u')) /\ secured other x' /\ secured self y' /\ P u'.
Proof using All.
  intros Hso Hi Hn Hx Hy Hh. destruct (relay_sends self other inputs i n w x t Hso Hi Hn Hx) as (i' & x' & v & R & Hx' & Hv & Hrecv).
  destruct (Hrecv (fun k => s_signaling (inputs' k)) j y Hy) as (j1 & R1).
  set (y' := SignalingLayer.with_message_tx (SignalingLayer.message_tx y ++ [v]) y) in R1.
  destruct (Hh j1) as (j2 & u' & R2 & HP).
  exists i', j2, x', y', u'. split; [|split_and!; [done| |done]]; [|by destruct Hy as (? & ? & ?)].
  unfold relay. rewrite (session_call_ok _ _ _ _ _ _ R). csimpl.
  assert (run inputs' j (on_signaling (SignalingLayer.handle_receive other (last_published x'))) (at_ w' y u)
    = (Ok tt, j1, at_ w' y' u)) as R1'.
  { rewrite run_on_signaling. cbn [signaling at_ with_transport with_signaling]. by rewrite R1. }
  change (signaling (at_ w x' t)) with x'. rewrite (session_call_ok _ _ _ _ _ _ R1'). csimpl.
  change (SignalingLayer.message_tx (signaling (at_ w' y' u))) with (SignalingLayer.message_tx y ++ [v]).
  rewrite last_snoc. csimpl.
  assert (run inputs' j1 (on_signal_message v) (at_ w' y' u) = (Ok tt, j2, at_ w' y' u')) as R2'.
  { unfold on_signal_message. rewrite Hv. rewrite run_bind. cbn [run mret prog_mret].
    rewrite run_bind, run_attempt, run_on_transport. cbn [transport at_ with_transport]. by rewrite R2. }
  by rewrite (session_call_ok _ _ _ _ _ _ R2').
Qed.

#[local] Arguments at_ : simpl never.

(** What a relay or a found candidate leaves of a transport, its events apart. *)
Definition tcore (t : Transport.Transport) :=
  (Transport.t_state t, Transport.peer_connection t, Transport.data_channel t,
   Transport.pending_candidates t, Transport.sent t).

(** A candidate as the library prints and reads it. *)
Definition candidate_text (json : string) (c : Candidate) : Prop :=
  json <> "" /\ candidate_from_str json = inl c.

Lemma emitted_at w x t n :
  emitted (at_ w x (Transport.with_event (Transport.Negotiation n) t)) = Some n.
Proof. unfold emitted, at_. cbn. by rewrite last_snoc. Qed.

Lemma emitted_last w x t l n : Transport.event_tx t = l ++ [Transport.Negotiation n] -> emitted (at_ w x t) = Some n.
Proof. intros He. unfold emitted. change (transport (at_ w x t)) with t. by rewrite He, last_snoc. Qed.

Lemma trickle_ok self other inputs inputs' sdp jsons cs i j w x t w' y u st log d snt :
  ends_of self other -> inputs_ok clock_ok (fun k => s_signaling (inputs k)) ->
  accepts sdp (fun k => s_transport (inputs' k)) ->
  Forall2 candidate_text jsons cs -> Forall (fun json => relayable inputs (candidate_message json)) jsons ->
  secured other x -> secured self y -> Transport.has_remote log = true ->
  tcore u = (st, Some log, d, [], snt) ->
  exists i' j' x' t' y' u', trickle self other inputs inputs' jsons (i, at_ w x t) (j, at_ w' y u)
      = Some ((i', at_ w x' t'), (j', at_ w' y' u')) /\
    secured other x' /\ secured self y' /\ tcore t' = tcore t /\
    tcore u' = (st, Some (log ++ map Transport.AddCandidate cs), d, [], snt).
Proof using All.
  intros Hso Hi Ha Hc. revert i j x t y u log.
  induction Hc as [|json c jsons cs [Hj Hp] _ IH]; intros i j x t y u log Hrel Hx Hy Hr Hu.
  { exists i, j, x, t, y, u. cbn. by rewrite app_nil_r. }
  apply Forall_cons in Hrel as [Hrel1 Hrel]. cbn [trickle].
  set (t1 := Transport.with_event (Transport.Negotiation (candidate_message json)) t).
  assert (run inputs i (on_transport (Transport.on_ice_candidate (Some json))) (at_ w x t)
    = (Ok tt, S i, at_ w x t1)) as R by done.
  rewrite (session_call_ok _ _ _ _ _ _ R). csimpl.
  assert (emitted (at_ w x t1) = Some (candidate_message json)) as -> by apply emitted_at. csimpl.
  injection Hu as Hu1 Hu2 Hu3 Hu4 Hu5.
  destruct (relay_ok self other inputs inputs' (candidate_message json) (S i) j w x t1 w' y u
    (fun u' => tcore u' = (st, Some (log ++ [Transport.AddCandidate c]), d, [], snt)))
    as (i1 & j1 & x1 & y1 & u1 & R1 & Hx1 & Hy1 & Hu'); try done.
  { intros m. destruct (candidate_run (fun k => s_transport (inputs' k)) m json c sdp log u)
      as (m' & u' & Ru & [= V1 V2 V3 V4 V5 V6]); try done.
    exists m', u'. split; [done|]. unfold tcore. congruence. }
  rewrite R1. csimpl.
  destruct (IH i1 j1 x1 t1 y1 u1 (log ++ [Transport.AddCandidate c])) as (i2 & j2 & x2 & t2 & y2 & u2 & R2 & Htail);
    [done..|by rewrite Transport.has_remote_app, Hr|done|].
  exists i2, j2, x2, t2, y2, u2. split; [exact R2|]. rewrite <- (assoc_L app) in Htail. exact Htail.
Qed.

(** ** The sessions link *)

(** What linking leaves of a session, its status, signaling and transport apart. *)
Definition rest (w : SessionInner) :=
  (error w, handled w, started w, request_tx w, response_tx w, peer_closed w, close_result w,
   Control.closed (control w), Control.active_handlers (control w)).

Lemma at_same w : at_ w (signaling w) (transport w) = w.
Proof. by destruct w. Qed.

Lemma transport_selected (is_host : bool) l :
  "wrtc" ∈ l -> is_Some (select_transport_id is_host ["wrtc"] l).
Proof.
  intros Hl. unfold select_transport_id. destruct is_host; cbn.
  - by rewrite bool_decide_true.
  - destruct (List.find _ l) as [t|] eqn:E; [by eexists|].
    apply list_elem_of_In in Hl. apply (List.find_none _ _ E), bool_decide_eq_false in Hl.
    destruct Hl. by left.
Qed.

(** The announcements up to [Encrypted], the last one. *)
Definition up_to_encrypted (states : list SignalingLayer.SignalState) : Prop :=
  exists earlier, states = earlier ++ [SignalingLayer.Encrypted] /\
    Forall (fun s => s <> SignalingLayer.Encrypted /\ s <> SignalingLayer.Error) earlier.

(** Earlier announcements only set the status. *)
Lemma earlier_states (own_is_host : bool) inputs dc earlier later n w x t :
  Forall (fun s => s <> SignalingLayer.Encrypted /\ s <> SignalingLayer.Error) earlier ->
  status w <> Disconnected ->
  exists n' w', run inputs n (run_signal_state_loop own_is_host dc (inl <$> earlier ++ later)) (at_ w x t)
      = run inputs n' (run_signal_state_loop own_is_host dc (inl <$> later)) (at_ w' x t) /\
    status w' <> Disconnected /\ rest w' = rest w.
Proof.
  intros Hall. revert n w. induction Hall as [|s earlier [H1' H2'] _ IH]; intros n w Hs.
  { by exists n, w. }
  assert (exists n1 w1, run inputs n (on_signal_state own_is_host dc s) (at_ w x t) = (Ok tt, n1, at_ w1 x t) /\
    status w1 <> Disconnected /\ rest w1 = rest w) as (n1 & w1 & R & Hs1 & Hr1).
  { destruct s; try done; try (by exists n, w);
      (eexists _, (with_s_state_tx _ (with_status _ w)); split; [reflexivity|by split]). }
  destruct (IH n1 w1 Hs1) as (n2 & w2 & R2 & Hs2 & Hr2). exists n2, w2.
  split; [|by rewrite Hr2]. rewrite <- R2. unfold run_signal_state_loop. cbn [fmap list_fmap app while_ok].
  rewrite run_bind, run_bind, R. done.
Qed.

(** The session's loop hears of [Encrypted] and starts the transport. *)
Lemma transport_starts (own_is_host : bool) other inputs dc states i w x t (P : Transport.Transport -> Prop) :
  secured other x -> "wrtc" ∈ transports (SignalingLayer.capabilities other) ->
  up_to_encrypted states -> status w <> Disconnected ->
  (forall m, exists m' t', run (fun k => s_transport (inputs k)) m (Transport.setup own_is_host dc) t = (Ok tt, m', t') /\ P t') ->
  exists i' w' t', session_call inputs (run_signal_state_loop own_is_host dc (inl <$> states)) (i, at_ w x t)
      = Some (i', at_ w' x t') /\ P t' /\ status w' <> Disconnected /\ rest w' = rest w.
Proof using All.
  intros (_ & _ & Hc) Ht (earlier & -> & He) Hd Hs.
  destruct (earlier_states own_is_host inputs dc earlier [SignalingLayer.Encrypted] i w x t He Hd)
    as (n & w' & R0 & Hd' & Hr').
  destruct (Hs (S n)) as (i' & t' & R & HP). exists i', w', t'. split; [|done].
  apply session_call_ok. rewrite R0. unfold run_signal_state_loop. cbn [fmap list_fmap while_ok on_signal_state].
  rewrite run_bind, run_bind, run_bind. unfold select_transport. cbn [run reads atom].
  destruct (transport_selected own_is_host _ Ht) as [sel Hsel].
  assert (selected_transport own_is_host (at_ w' x t) = Some sel) as ->.
  { unfold selected_transport. change (signaling (at_ w' x t)) with x. by rewrite Hc. }
  rewrite run_bind, run_attempt, run_on_transport. change (transport (at_ w' x t)) with t. by rewrite R.
Qed.

(** [wait_for_link] returns once the transport is connected. *)
Lemma wait_ok inputs i w x t :
  Transport.t_state t = Transport.Connected -> Control.closed (control w) = false -> status w <> Disconnected ->
  exists i' w', session_call inputs (wait_for_link []) (i, at_ w x t) = Some (i', at_ w' x t) /\
    status w' = Connected /\ rest w' = rest w.
Proof.
  intros Ht Hc Hs. unfold session_call, wait_for_link. cbn [fst snd].
  rewrite run_operation_spawned by done. change (control (at_ w x t)) with (control w).
  unfold inner_wait_for_link. rewrite run_bind. unfold get_status. cbn [run reads atom].
  change (status (with_control ?c (at_ w x t))) with (status w).
  assert (forall m c, exists l, run inputs m link_up (with_control c (at_ w x t))
    = (Ok tt, 5 + m, with_s_state_tx l (with_status Connected (with_control c (at_ w x t))))) as Hup
    by (intros m c; eexists; reflexivity).
  destruct (decide (status w = Connected)) as [E|E].
  - rewrite E. cbn [run mret prog_mret].
    eexists _, (with_control _ w). split; [reflexivity|]. split; [exact E|].
    unfold rest, Control.spawn. cbn. by rewrite Hc.
  - destruct (Hup (S (S (S i))) (Control.spawn (control w)).2) as [l Hl].
    destruct (status w) eqn:E'; try done;
      (rewrite run_bind; cbn [run reads atom];
       change (Transport.t_state (transport (with_control ?c (at_ w x t)))) with (Transport.t_state t);
       rewrite decide_True by done; rewrite Hl;
       eexists _, (with_control _ (with_s_state_tx l (with_status Connected w))); split; [reflexivity|];
       split; [reflexivity|]; unfold rest, Control.spawn; cbn; by rewrite Hc).
Qed.

End crossing.

Section linking.
Context `{CryptoLaws} `{SignalingCodecLaws} `{SessionCodecLaws} `{WebRtcLib, !WebRtcLaws}.
Context (clock_ok : Z -> Prop) (host client : SignalingProperties).
Context (pair : honest_pair clock_ok host client).

(** What the environment of one end provides for a negotiation: random bytes, a clock and
    a channel that work, a WebRTC library that accepts every call and makes one
    description, and candidates that it reads back; every message fits in a frame. *)
Record negotiates (kind : string) (inputs : nat -> SInput) (sdp : Sdp) (text : string)
    (jsons : list string) (cs : list Candidate) : Prop := {
  ng_inputs : inputs_ok clock_ok (fun k => s_signaling (inputs k));
  ng_accepts : accepts sdp (fun k => s_transport (inputs k));
  ng_text : sdp_to_string sdp = inl text;
  ng_description : relayable clock_ok inputs (mkTransportNegotiationMessage kind text);
  ng_candidates : Forall2 candidate_text jsons cs;
  ng_relayable : Forall (fun json => relayable clock_ok inputs (candidate_message json)) jsons;
}.

Lemma negotiates_good kind inputs sdp text jsons cs :
  negotiates kind inputs sdp text jsons cs -> good_inputs inputs.
Proof. intros [Hi Ha _ _ _ _] k. split; [apply Hi|apply Ha]. Qed.

(** Secured ends whose transports are connected are linked. *)
Lemma secured_linked self other w x t :
  ends_of host client self other -> secured other x ->
  Transport.t_state t = Transport.Connected -> is_Some (Transport.data_channel t) ->
  linked_to self other (at_ w x t).
Proof using All.
  intros Hso (_ & Hk & _) Ht Hd.
  assert (honest self other /\ honest other self) as [Hs Ho].
  { destruct pair. destruct Hso as [[-> ->]|[-> ->]]; auto. }
  split; [by eapply honest_dk| |done|done].
  exists (SignalingLayer.prop_encryption_key other). split_and!; [done| | |].
  - unfold encryption_key_wf. rewrite (honest_public_key _ _ Ho). by eapply dk_public_key_length, honest_dk.
  - by eapply honest_public_key.
  - rewrite (honest_public_key _ _ Ho). by apply honest_contributory.
Qed.

Context (host_inputs client_inputs : nat -> SInput) (offer answer : Sdp) (offer_text answer_text : string).
Context (host_jsons client_jsons : list string) (host_cs client_cs : list Candidate).
Context (host_ok : negotiates "offer" host_inputs offer offer_text host_jsons host_cs).
Context (client_ok : negotiates "answer" client_inputs answer answer_text client_jsons client_cs).

(** A session before it links: secured, which its loop is about to hear, not closed, and
    without candidates. *)
Record before_link (other : SignalingProperties) (w : SessionInner) : Prop := {
  bl_states : up_to_encrypted (SignalingLayer.state_tx (signaling w));
  bl_secured : secured other (signaling w);
  bl_wrtc : "wrtc" ∈ transports (SignalingLayer.capabilities other);
  bl_pending : Transport.pending_candidates (transport w) = [];
  bl_open : Control.closed (control w) = false;
  bl_status : status w <> Disconnected;
}.

(** A session after it linked: the descriptions and candidates its connection got. *)
Record after_link (self other : SignalingProperties) (calls : list Transport.PcCall) (w w' : SessionInner) : Prop := {
  al_linked : linked_to self other w';
  al_status : status w' = Connected;
  al_calls : Transport.peer_connection (transport w') = Some calls;
  al_sent : Transport.sent (transport w') = Transport.sent (transport w);
  al_rest : rest w' = rest w;
}.

Lemma sessions_linked dc i j hw cw :
  before_link client hw -> before_link host cw ->
  exists h c, link host client host_inputs client_inputs dc host_jsons client_jsons (i, hw) (j, cw) = Some (h, c) /\
    after_link host client
      ([Transport.SetLocal offer; Transport.SetRemote answer] ++ map Transport.AddCandidate client_cs) hw h.2 /\
    after_link client host
      ([Transport.SetRemote offer; Transport.SetLocal answer] ++ map Transport.AddCandidate host_cs) cw c.2.
Proof using All.
  intros [Hsth Hxh Hwc Hph Hoh Hsh] [Hstc Hxc Hwh Hpc Hoc Hsc].
  destruct host_ok as [Hi1 Ha1 Ht1 Hd1 Hc1 Hr1], client_ok as [Hi2 Ha2 Ht2 Hd2 Hc2 Hr2].
  unfold link.
  destruct (transport_starts clock_ok host client pair true client host_inputs dc (SignalingLayer.state_tx (signaling hw)) i hw (signaling hw) (transport hw)
    (fun t => tview t = _) Hxh Hwc Hsth Hsh
    (fun m => host_setup_run _ m dc offer offer_text (transport hw) Ha1 Ht1)) as (i1 & hw1 & h1 & R1 & [= V1 V2 V3 V4 V5 V6] & Hsh1 & Hrh1).
  destruct (transport_starts clock_ok host client pair false host client_inputs dc (SignalingLayer.state_tx (signaling cw)) j cw (signaling cw) (transport cw)
    (fun t => tview t = _) Hxc Hwh Hstc Hsc
    (fun m => client_setup_run _ m dc answer (transport cw) Ha2)) as (j1 & cw1 & c1 & R2 & [= U1 U2 U3 U4 U5 U6] & Hsc1 & Hrc1).
  rewrite at_same in R1, R2. unfold announced. cbn [snd]. rewrite R1, R2.
  csimpl. rewrite (emitted_last _ _ _ _ _ V5). csimpl.
  destruct (relay_ok clock_ok host client pair host client host_inputs client_inputs (offer_message offer_text) i1 j1
    hw1 (signaling hw) h1 cw1 (signaling cw) c1 _ (or_introl (conj eq_refl eq_refl)) Hi1 Hd1 Hxh Hxc
    (fun m => offer_run _ m offer offer_text answer answer_text [] c1 Ha2 Ht1 Ht2 U2 (eq_trans U4 Hpc)))
    as (i2 & j2 & xh & xc & c2 & -> & Hxh2 & Hxc2 & [= U1' U2' U3' U4' U5' U6']).
  csimpl. rewrite (emitted_last _ _ _ _ _ U5'). csimpl.
  destruct (relay_ok clock_ok host client pair client host client_inputs host_inputs (answer_message answer_text) j2 i2
    cw1 xc c2 hw1 xh h1 _ (or_intror (conj eq_refl eq_refl)) Hi2 Hd2 Hxc2 Hxh2
    (fun m => answer_run _ m answer answer_text offer _ h1 Ha1 Ht2 V2 (eq_trans V4 Hph)))
    as (j3 & i3 & xc3 & xh3 & h3 & -> & Hxc3 & Hxh3 & [= V1' V2' V3' V4' V5' V6']).
  csimpl.
  destruct (trickle_ok clock_ok host client pair host client host_inputs client_inputs answer host_jsons host_cs i3 j3
    hw1 xh3 h3 cw1 xc3 c2 Transport.Ready [Transport.SetRemote offer; Transport.SetLocal answer] (Transport.data_channel cw.(transport)) (Transport.sent cw.(transport)))
    as (i4 & j4 & xh4 & h4 & xc4 & c4 & -> & Hxh4 & Hxc4 & Hh4 & Hc4); [by left|done..| |].
  { unfold tcore. congruence. }
  csimpl.
  destruct (trickle_ok clock_ok host client pair client host client_inputs host_inputs offer client_jsons client_cs j4 i4
    cw1 xc4 c4 hw1 xh4 h4 Transport.Ready [Transport.SetLocal offer; Transport.SetRemote answer] (Some dc) (Transport.sent hw.(transport)))
    as (j5 & i5 & xc5 & c5 & xh5 & h5 & -> & Hxc5 & Hxh5 & Hc5 & [= X1 X2 X3 X4 X5]); [by right|done..| |].
  { rewrite Hh4. unfold tcore. congruence. }
  csimpl. rewrite Hc4 in Hc5. injection Hc5 as Y1 Y2 Y3 Y4 Y5.
  set (ho := Transport.with_t_state Transport.Connected h5).
  set (co := Transport.with_t_state Transport.Connected (Transport.with_dc (Some dc) c5)).
  change (with_transport ho (at_ hw1 xh5 h5)) with (at_ hw1 xh5 ho).
  change (with_transport co (with_transport (Transport.with_dc (Some dc) c5) (at_ cw1 xc5 c5))) with (at_ cw1 xc5 co).
  destruct (wait_ok host_inputs (S i5) hw1 xh5 ho)
    as (i6 & hw6 & -> & Hhs & Hhr); [done|unfold rest in Hrh1; congruence|done|]. csimpl.
  destruct (wait_ok client_inputs (S (S j5)) cw1 xc5 co)
    as (j6 & cw6 & -> & Hcs & Hcr); [done|unfold rest in Hrc1; congruence|done|]. csimpl.
  eexists _, _. split; [reflexivity|].
  split.
  - split; [apply secured_linked; [by left|done|done|by eexists]|done|cbn; congruence..|exact (eq_trans Hhr Hrh1)].
  - split; [apply secured_linked; [by right|done|done|by eexists]|done|cbn; congruence..|exact (eq_trans Hcr Hrc1)].
Qed.
End linking.

(** ** The sessions handshake *)

Section shaking.
Context `{CryptoLib} `{SignalingCodec} `{SessionCodec} `{WebRtcLib}.

(** A call of the signaling layer, on the session. *)
Lemma session_call_signaling inputs (p : prog Inner Input unit) n w :
  session_call inputs (on_signaling p) (n, w)
  = (fun s => (s.1, with_signaling s.2 w)) <$> party_call (fun k => s_signaling (inputs k)) p (n, signaling w).
Proof.
  unfold session_call, party_call. cbn [fst snd]. rewrite run_on_signaling.
  by destruct (run _ n p (signaling w)) as [[[] n'] x].
Qed.

Lemma spawn_open c :
  Control.closed c = false ->
  Control.closed (Control.spawn c).2 = false /\
  Control.active_handlers (Control.spawn c).2 = Control.active_handlers c.
Proof. unfold Control.spawn. by intros ->. Qed.

Lemma run_spawn_task {A} inputs n t (q : Result unit -> prog SessionInner SInput A) w :
  Control.closed (control w) = false ->
  run inputs n (spawn_task t ≫= q) w
  = run inputs (S n) (q (Ok tt)) (with_started (started w ++ [t]) (with_control (Control.spawn (control w)).2 w)).
Proof. intros Hc. rewrite run_bind. unfold spawn_task, Control.spawn. cbn. by rewrite Hc. Qed.

(** The loops start, in a session that is not closed. *)
Lemma loops_start inputs n w :
  Control.closed (control w) = false ->
  exists n' c l, run inputs n start_event_loops w = (Ok tt, n', with_started l (with_control c w)) /\
    Control.closed c = false /\ Control.active_handlers c = Control.active_handlers (control w).
Proof.
  intros Hc. destruct (spawn_open _ Hc) as [H1' A1]. destruct (spawn_open _ H1') as [H2' A2].
  destruct (spawn_open _ H2') as [H3' A3]. destruct (spawn_open _ H3') as [H4' A4]. unfold start_event_loops.
  rewrite run_spawn_task, run_lift_Ok by done. rewrite run_spawn_task, run_lift_Ok by done.
  rewrite run_spawn_task, run_lift_Ok by done. rewrite run_spawn_task by done.
  eexists _, _, _. split; [reflexivity|]. split; [exact H4'|].
  exact (eq_trans A4 (eq_trans A3 (eq_trans A2 A1))).
Qed.

(** What connecting and the handshake leave of a session. *)
Definition kept (w : SessionInner) :=
  (handled w, request_tx w, response_tx w, peer_closed w, close_result w,
   Control.closed (control w), Control.active_handlers (control w), transport w).

(** [connect] on a session that has not connected. *)
Lemma connect_ok properties inputs n w (P : Inner -> Prop) :
  events_taken w = false -> Control.closed (control w) = false ->
  (forall m, exists m' x, run (fun k => s_signaling (inputs k)) m (SignalingLayer.setup properties) (signaling w)
     = (Ok tt, m', x) /\ P x) ->
  exists n' w', session_call inputs (connect properties) (n, w) = Some (n', w') /\
    P (signaling w') /\ status w' = Signaling /\ kept w' = kept w.
Proof.
  intros He Hc Hs. unfold session_call, connect, inner_connect. cbn [fst snd]. rewrite run_operation_spawned by done.
  rewrite run_bind. cbn [run atom]. cbn [events_taken with_control]. rewrite He.
  destruct (run_set_status_bind inputs (S (S n)) Signaling (fun _ => start_event_loops;;
    on_signaling (SignalingLayer.setup properties)) (with_events_taken true (with_control (Control.spawn (control w)).2 w)))
    as (n1 & l & ->).
  destruct (spawn_open _ Hc) as [Hc1 Ha1].
  edestruct (loops_start inputs n1) as (n2 & c & tasks & R & Hc2 & Ha2); [|rewrite run_bind, R]; [done|].
  rewrite run_on_signaling. cbn [signaling with_started with_control].
  destruct (Hs n2) as (n3 & x & R3 & HP). cbn in R3 |- *. rewrite R3.
  eexists _, _. split; [reflexivity|]. split; [exact HP|]. split; [done|].
  unfold kept. cbn in Ha2 |- *. by rewrite Hc, Hc2, Ha2, Ha1.
Qed.

Lemma session_deliveries_layers host client host_inputs client_inputs nh nc h c h' c' :
  deliveries host client (fun k => s_signaling (host_inputs k)) (fun k => s_signaling (client_inputs k))
    (nh, signaling h) (nc, signaling c) = Some (h', c') ->
  session_deliveries host client host_inputs client_inputs (nh, h) (nc, c)
  = Some ((h'.1, with_signaling h'.2 h), (c'.1, with_signaling c'.2 c)).
Proof.
  unfold deliveries, host_receives, client_receives, session_deliveries.
  intros ([n1 h1] & E1 & ([m1 c1] & E2 & ([n2 h2] & E3 & ([m2 c2] & E4 & ([n3 h3] & E5 & [= <- <-])%bind_Some)%bind_Some)%bind_Some)%bind_Some)%bind_Some.
  cbn [fst snd] in *. rewrite session_call_signaling, E1. csimpl.
  rewrite session_call_signaling, E2. csimpl. rewrite session_call_signaling. cbn [signaling with_signaling].
  rewrite E3. csimpl. rewrite session_call_signaling. cbn [signaling with_signaling].
  rewrite E4. csimpl. rewrite session_call_signaling. cbn [signaling with_signaling]. by rewrite E5.
Qed.

(** What a completed handshake has announced. *)
Lemma handshake_announced : up_to_encrypted
  [SignalingLayer.Connecting; SignalingLayer.Ready; SignalingLayer.Handshake;
   SignalingLayer.HandshakePartial; SignalingLayer.Encrypted].
Proof.
  exists [SignalingLayer.Connecting; SignalingLayer.Ready; SignalingLayer.Handshake; SignalingLayer.HandshakePartial].
  split; [done|]. by repeat constructor.
Qed.

(** Both sessions connect, and the frames of the handshake are delivered. *)
Lemma sessions_shaken `{!CryptoLaws, !SignalingCodecLaws} clock_ok host client host_inputs client_inputs h c :
  honest_pair clock_ok host client ->
  inputs_ok clock_ok (fun k => s_signaling (host_inputs k)) ->
  inputs_ok clock_ok (fun k => s_signaling (client_inputs k)) ->
  h = SessionSafety.new_session -> c = SessionSafety.new_session ->
  exists i h' j c', session_handshake host client host_inputs client_inputs h c = Some ((i, h'), (j, c')) /\
    secured client (signaling h') /\ secured host (signaling c') /\
    up_to_encrypted (SignalingLayer.state_tx (signaling h')) /\
    up_to_encrypted (SignalingLayer.state_tx (signaling c')) /\
    status h' = Signaling /\ status c' = Signaling /\ kept h' = kept h /\ kept c' = kept c.
Proof.
  intros Hp Hih Hic -> ->. unfold session_handshake.
  destruct (connect_ok host host_inputs 0 SessionSafety.new_session (fun x => SignalingRun.view x = (SignalingLayer.Ready, None, None, [], []) /\
      SignalingLayer.state_tx x = [SignalingLayer.Connecting; SignalingLayer.Ready]))
    as (nh & h & -> & [Vh Th] & Sh & Kh); [done|done| |].
  { intros m. destruct (host_setup_stage clock_ok host client Hp _ Hih m SignalingLayer.new_inner eq_refl)
      as (m' & x & R & V & _). exists m', x. split_and!; [done..|].
    assert (Ha := Announce.setup_announces host (fun k => s_signaling (host_inputs k)) m SignalingLayer.new_inner
      (fun k => proj2 (proj2 (Hih k))) eq_refl).
    by rewrite R, (pair_host _ _ _ Hp) in Ha. }
  destruct (connect_ok client client_inputs 0 SessionSafety.new_session (fun x => exists f t,
      SignalingRun.view x = (SignalingLayer.Handshake, None, None, [], [f]) /\
      conveys clock_ok client host Wire.Handshake (Flash (Object []) t) f /\
      SignalingLayer.state_tx x = [SignalingLayer.Connecting; SignalingLayer.Ready; SignalingLayer.Handshake]))
    as (nc & c & -> & (f & t & Vc & Cf & Tc) & Sc & Kc); [done|done| |].
  { intros m. destruct (client_setup_stage clock_ok host client Hp _ Hic m SignalingLayer.new_inner eq_refl)
      as (m' & x & f & t & R & V & _ & C). exists m', x. split; [done|]. exists f, t. split_and!; [done..|].
    assert (Ha := Announce.setup_announces client (fun k => s_signaling (client_inputs k)) m SignalingLayer.new_inner
      (fun k => proj2 (proj2 (Hic k))) eq_refl).
    by rewrite R, (pair_client _ _ _ Hp) in Ha. }
  csimpl.
  destruct (honest_deliveries clock_ok host client _ _ nh nc (signaling h) (signaling c) f t Hp Hih Hic Vh Vc Cf)
    as (h' & c' & D & Hs & Th' & Tc').
  rewrite (session_deliveries_layers _ _ _ _ _ _ _ _ _ _ D).
  destruct Hs as (H1' & H2' & H3' & H4' & H5' & H6' & _).
  eexists _, _, _, _. split; [reflexivity|]. cbn [signaling with_signaling].
  rewrite Th', Tc', Th, Tc. split_and!; done || exact handshake_announced.
Qed.

End shaking.

(** ** Properties *)

(** C3. Two sessions whose signaling is [Encrypted] link: when their loops hear of what was
    announced, both start their transports, the host's offer and the client's answer cross
    over signaling, then the ICE candidates of both ends, and the data channel opens;
    [wait_for_link] succeeds on both. Each connection has got exactly the two
    descriptions, its own and the other's, in the order that WebRTC asks for, then all of
    the other end's candidates in order; both sessions can send to each other, and their
    errors, requests, responses, tasks and handlers are as before. *)
Theorem sessions_link
    `{CryptoLaws, SignalingCodecLaws, SessionCodecLaws, WebRtcLib, !WebRtcLaws}
    clock_ok host client host_inputs client_inputs offer answer offer_text answer_text
    host_jsons client_jsons host_cs client_cs dc i j hw cw :
  honest_pair clock_ok host client ->
  negotiates clock_ok "offer" host_inputs offer offer_text host_jsons host_cs ->
  negotiates clock_ok "answer" client_inputs answer answer_text client_jsons client_cs ->
  before_link client hw -> before_link host cw ->
  exists h c, link host client host_inputs client_inputs dc host_jsons client_jsons (i, hw) (j, cw) = Some (h, c) /\
    after_link host client
      ([Transport.SetLocal offer; Transport.SetRemote answer] ++ map Transport.AddCandidate client_cs) hw h.2 /\
    after_link client host
      ([Transport.SetRemote offer; Transport.SetLocal answer] ++ map Transport.AddCandidate host_cs) cw c.2.
Proof. intros Hp Ho Hc Hh Hcw. by eapply (sessions_linked clock_ok). Qed.

(** C1. The whole way: a dApp creates a session from any well-formed configuration, a
    wallet joins it on the same channel with the connection URL, both connect, complete the
    handshake and link their transports, and a request of the dApp is served: the wallet's handler is called
    once, with the payload, and what comes back to the dApp's session is the
    acknowledgement and the answer to this request, with the handler's outcome. *)
Theorem created_sessions_serve
    `{CryptoLaws, SignalingCodecLaws, SessionCodecLaws, WebRtcLib, !WebRtcLaws, RegexLib, UnicodeLib, SessionUri.FormLib}
    clock_ok config random host_session client_config client_random kp
    host_inputs client_inputs offer answer offer_text answer_text host_jsons client_jsons host_cs client_cs dc
    id v outcome reply_message :
  Setup.connect_url config = None -> Setup.config_wf config random ->
  Setup.on_request config random = Ok host_session ->
  Setup.connect_url client_config = Some (Setup.to_connection_url (Setup.uri host_session)) ->
  (forall i, Setup.config_info client_config = Some i -> peer_info_validate i = Ok tt) ->
  length (Setup.random_secret client_random) = 32 ->
  key_pair_generate (Setup.random_secret client_random) = Ok kp ->
  let host := Setup.properties host_session in
  hash_public_key (encryption_key kp) <> hash_public_key (SignalingLayer.prop_encryption_key host) ->
  was_contributory (x25519_diffie_hellman (Setup.random_secret random) (dk_public_key (decryption_key kp))) = true ->
  was_contributory (x25519_diffie_hellman (Setup.random_secret client_random)
    (dk_public_key (SignalingLayer.prop_decryption_key host))) = true ->
  (forall self m,
     SignalingLayer.capabilities self = Setup.own_capabilities (Setup.config_info config) \/
     SignalingLayer.capabilities self = Setup.own_capabilities (Setup.config_info client_config) ->
     SignalingLayer.prop_encryption_key self = encryption_key kp \/
     SignalingLayer.prop_encryption_key self = SignalingLayer.prop_encryption_key host ->
     handshake_message clock_ok self m -> encryptable m) ->
  negotiates clock_ok "offer" host_inputs offer offer_text host_jsons host_cs ->
  negotiates clock_ok "answer" client_inputs answer answer_text client_jsons client_cs ->
  (forall i, s_handler (client_inputs i) = outcome) -> reply id outcome = Ok reply_message ->
  fits (Request id v) -> fits (Ack id) -> fits reply_message ->
  exists client_session h0 c0 n hw m cw,
    Setup.on_request client_config client_random = Ok client_session /\
    Setup.uri client_session = Setup.uri host_session /\
    Setup.channel client_session = Setup.channel host_session /\
    let client := Setup.properties client_session in
    session_handshake host client host_inputs client_inputs (Setup.inner host_session) (Setup.inner client_session)
      = Some (h0, c0) /\
    link host client host_inputs client_inputs dc host_jsons client_jsons h0 c0 = Some ((n, hw), (m, cw)) /\
    status hw = Connected /\ status cw = Connected /\
    exists n1 hw1 request m1 cw1 permit m2 cw2 ack answer n2 hw2,
      run host_inputs n (send_session_message host (Request id v)) hw = (Ok tt, n1, hw1) /\
      Transport.sent (transport hw1) = [request] /\
      run client_inputs m (handle_transport_payload client request) cw = (Ok tt, m1, cw1) /\
      started cw1 = started cw ++ [RemoteRequest id permit v] /\
      run client_inputs m1 (handle_remote_request client id permit v) cw1 = (Ok tt, m2, cw2) /\
      handled cw2 = [v] /\ Transport.sent (transport cw2) = [ack; answer] /\
      run host_inputs n1 (handle_transport_payload host ack;; handle_transport_payload host answer) hw1
        = (Ok tt, n2, hw2) /\
      response_tx hw2 = [Ack id; reply_message].
Proof.
  cbn zeta. intros Hu Hc Hs Hcu Hinfo Hl Hkp Hne Hcon1 Hcon2 Hsize Hneg1 Hneg2 Hh Hr Hf0 Hf1 Hf2.
  destruct (Setup.created_honest_pair clock_ok config random host_session client_config client_random kp)
    as (cs & Hcs & Huri & Hch & _ & _ & Hih & Hic & Hhcap & Hccap & Hp); [done..|].
  set (host := Setup.properties host_session) in *. set (client := Setup.properties cs) in *.
  destruct (sessions_shaken clock_ok host client host_inputs client_inputs _ _ Hp (ng_inputs _ _ _ _ _ _ _ Hneg1)
    (ng_inputs _ _ _ _ _ _ _ Hneg2) Hih Hic)
    as (i & h0 & j & c0 & Hshake & Hxh & Hxc & Huh & Huc & Hsh & Hsc & Kh & Kc).
  rewrite Hih in Kh. rewrite Hic in Kc. unfold kept in Kh, Kc.
  injection Kh as Kh1 Kh2 Kh3 Kh4 Kh5 Kh6 Kh7 Kh8. injection Kc as Kc1 Kc2 Kc3 Kc4 Kc5 Kc6 Kc7 Kc8.
  destruct (sessions_linked clock_ok host client Hp host_inputs client_inputs offer answer offer_text answer_text
    host_jsons client_jsons host_cs client_cs Hneg1 Hneg2 dc i j h0 c0) as ([n hw] & [m cw] & Hlink & Ah & Ac).
  { split; [done|done|by rewrite Hccap; left|by rewrite Kh8|done|by rewrite Hsh]. }
  { split; [done|done|by rewrite Hhcap; left|by rewrite Kc8|done|by rewrite Hsc]. }
  destruct Ah as [Lh Sh _ Th Rh], Ac as [Lc Sc _ Tc Rc]. unfold rest in Rh, Rc. cbn [snd] in *.
  injection Rh as _ _ _ _ Rh4 _ _ _ _. injection Rc as _ Rc1 _ _ _ _ _ Rc7 Rc8.
  destruct (request_round_trip host client host_inputs client_inputs n m id v outcome reply_message 0 hw cw)
    as (n1 & hw1 & request & m1 & cw1 & permit & m2 & cw2 & ack & answer' & n2 & hw2 & R1 & S1 & R2 & S2 & R3 & H3' & S3 & _ & R4 & S4);
    [done|done|by eapply negotiates_good..|done|done|done|done|done|congruence|congruence|unfold Control.MAX_ACTIVE_HANDLERS; lia|].
  exists cs, (i, h0), (j, c0), n, hw, m, cw. split_and!; [done..|].
  exists n1, hw1, request, m1, cw1, permit, m2, cw2, ack, answer', n2, hw2.
  rewrite Th, Kh8 in S1. rewrite Tc, Kc8 in S3. rewrite Rc1, Kc1 in H3'. rewrite Rh4, Kh3 in S4. by split_and!.
Qed.

(** ** Witnesses *)

Import CryptoModel TextModel SessionUri.UriModel SignalingSafety.LayerModel SessionModel.

#[export] Instance webrtc_laws : WebRtcLaws.
Proof. split. by intros sdp s [= <-]. Qed.

(** An end whose library makes this description, and whose handler answers with this. *)
Definition end_inputs (sdp : string) (outcome : Result Value) : nat -> SInput := fun _ =>
  mkSInput model_input (Transport.mkTInput (inl tt) (inl sdp) true) "id" outcome true [].

Lemma end_negotiates kind sdp outcome json :
  json <> "" ->
  relayable model_clock (end_inputs sdp outcome) (mkTransportNegotiationMessage kind sdp) ->
  relayable model_clock (end_inputs sdp outcome) (candidate_message json) ->
  negotiates model_clock kind (end_inputs sdp outcome) sdp sdp [json] [json].
Proof.
  intros Hj Hd Hc. split; [intros k; by split_and!|intros k; by split_and!|done|done|by repeat constructor|].
  by constructor.
Qed.

(** Whether a negotiation message fits, by computation. *)
Definition relayed (n : TransportNegotiationMessage) : Value :=
  match relay_value "id" n with inl v => v | inr _ => Null end.

Lemma relayable_compute sdp outcome n :
  let v := relayed n in
  message_safe (Message.Data v 1700000000000) = true ->
  (str_len (to_text (Message.Data v 1700000000000)) <=? aes_gcm_max)%Z = true ->
  relayable model_clock (end_inputs sdp outcome) n.
Proof.
  cbn zeta. intros Hs Hl k v' t Hv' Ht. change (relay_value "id" n = inl v') in Hv'.
  unfold relayed in *. rewrite Hv' in Hs, Hl. rewrite Ht.
  split; [done|]. intros text [= <-]. by apply Z.leb_le.
Qed.

Definition pong : Result Value := Ok (Str "pong").

Lemma host_negotiates : negotiates model_clock "offer" (end_inputs "an offer" pong) "an offer" "an offer" ["host 1"] ["host 1"].
Proof. apply end_negotiates; [done|..]; apply relayable_compute; vm_compute; reflexivity. Qed.

Lemma client_negotiates : negotiates model_clock "answer" (end_inputs "an answer" pong) "an answer" "an answer" ["client 1"] ["client 1"].
Proof. apply end_negotiates; [done|..]; apply relayable_compute; vm_compute; reflexivity. Qed.

Lemma sessions_link_witness :
  exists hw cw i j h c, link model_host model_client (end_inputs "an offer" pong) (end_inputs "an answer" pong) 7
      ["host 1"] ["client 1"] (i, hw) (j, cw) = Some (h, c) /\
    Transport.peer_connection (transport h.2) = Some [Transport.SetLocal "an offer";
      Transport.SetRemote "an answer"; Transport.AddCandidate "client 1"].
Proof.
  destruct (sessions_shaken model_clock model_host model_client (end_inputs "an offer" pong) (end_inputs "an answer" pong)
    SessionSafety.new_session SessionSafety.new_session model_pair (ng_inputs _ _ _ _ _ _ _ host_negotiates)
    (ng_inputs _ _ _ _ _ _ _ client_negotiates) eq_refl eq_refl)
    as (i & hw & j & cw & _ & Hxh & Hxc & Huh & Huc & Hsh & Hsc & [= _ _ _ _ _ Ho _ Ht] & [= _ _ _ _ _ Ho' _ Ht']).
  destruct (sessions_link model_clock model_host model_client _ _ _ _ _ _ _ _ _ _ 7 i j hw cw
    model_pair host_negotiates client_negotiates) as (h & c & Hl & Ah & _).
  - split; [done|done|by left|by rewrite Ht|done|by rewrite Hsh].
  - split; [done|done|by left|by rewrite Ht'|done|by rewrite Hsc].
  - exists hw, cw, i, j, h, c. split; [exact Hl|]. apply (al_calls _ _ _ _ _ Ah).
Defined.

Lemma created_sessions_serve_witness :
  exists host_session client_session n hw m cw hw2,
    Setup.on_request Setup.witness_config (Setup.witness_random witness_alice) = Ok host_session /\
    Setup.on_request (Setup.wallet (Setup.to_connection_url (Setup.uri host_session)))
      (Setup.witness_random witness_bob) = Ok client_session /\
    (exists h0 c0, link (Setup.properties host_session) (Setup.properties client_session)
       (end_inputs "an offer" pong) (end_inputs "an answer" pong) 7 ["host 1"] ["client 1"] h0 c0
       = Some ((n, hw), (m, cw))) /\
    status hw = Connected /\ status cw = Connected /\
    response_tx hw2 = [Ack "id"; Response "id" (Str "pong")].
Proof.
  assert (exists s, Setup.on_request Setup.witness_config (Setup.witness_random witness_alice) = Ok s /\
    SignalingLayer.prop_encryption_key (Setup.properties s) = witness_encryption_key witness_alice /\
    SignalingLayer.prop_decryption_key (Setup.properties s) = witness_decryption_key witness_alice)
    as (s & Hs & Hek & Hdk) by (eexists; split; [reflexivity|split; reflexivity]).
  destruct (created_sessions_serve model_clock Setup.witness_config (Setup.witness_random witness_alice) s
    (Setup.wallet (Setup.to_connection_url (Setup.uri s))) (Setup.witness_random witness_bob)
    (mkKeyPair (witness_encryption_key witness_bob) (witness_decryption_key witness_bob))
    (end_inputs "an offer" pong) (end_inputs "an answer" pong) "an offer" "an answer" "an offer" "an answer"
    ["host 1"] ["client 1"] ["host 1"] ["client 1"] 7 "id" (Str "ping") pong (Response "id" (Str "pong"))
    eq_refl Setup.witness_config_wf Hs) as (cs & h0 & c0 & n & hw & m & cw & Hcs & _ & _ & _ & Hl & Hhs & Hcst & Hrun).
  1, 3, 4: reflexivity.
  - discriminate.
  - rewrite Hek. vm_compute. discriminate.
  - vm_compute. reflexivity.
  - rewrite Hdk. vm_compute. reflexivity.
  - intros self x Hc Hk. apply Setup.witness_sizes; [by destruct Hc|]. rewrite Hek in Hk. exact Hk.
  - exact host_negotiates.
  - exact client_negotiates.
  - reflexivity.
  - reflexivity.
  - apply fits_compute; vm_compute; reflexivity.
  - apply fits_compute; vm_compute; reflexivity.
  - apply fits_compute; vm_compute; reflexivity.
  - destruct Hrun as (_ & _ & _ & _ & _ & _ & _ & _ & _ & _ & _ & hw2 & _ & _ & _ & _ & _ & _ & _ & _ & Hr).
    exists s, cs, n, hw, m, cw, hw2. split_and!; [exact Hs|exact Hcs|by exists h0, c0|exact Hhs|exact Hcst|exact Hr].
Defined.
