(* ===== verification/Bridge.v ===== *)
(** * Requests across the bridge ([openlv-ffi/src/lib.rs])

    [Requests] holds the remote requests that wait for the native request handler.
    The core calls [handle] for each of them; native code takes them with
    [next_request], answers with [respond] or [fail], and [shutdown] stops the
    bridge. These run on several threads: every access to the shared state is one
    transition of [bridge_step], in any order. *)
From S2P Require Import Prelude RustStr Errors Json TextModel SessionMessage.
Local Open Scope string_scope.
Local Open Scope list_scope.

(** ** Errors that cross the bridge *)

Inductive BridgeError : Type := Failure (kind message : string).

(** [From<OpenLvError> for BridgeError] *)
Definition error_kind (e : OpenLvError) : string :=
  match e with
  | InvalidUri _ => "invalid_uri"
  | Signaling _ => "signaling"
  | Transport _ => "transport"
  | Session _ => "session"
  | SessionClosed => "session_closed"
  | RequestLimitReached => "request_limit_reached"
  | RequestFailed => "request_failed"
  | InvalidRequestTimeout => "invalid_request_timeout"
  | ResponseChannelClosed => "response_channel_closed"
  | Encryption _ => "encryption"
  | WireFrameError _ => "wire_frame"
  | ProtocolViolation _ => "protocol_violation"
  | UnsupportedProtocol _ => "unsupported_protocol"
  | NoConnection => "no_connection"
  | RequestTimeout _ => "request_timeout"
  | Other _ => "other"
  end.

Definition bridge_error (e : OpenLvError) : BridgeError := Failure (error_kind e) (OpenLvError_to_string e).

Abbreviation Bridged A := (Res BridgeError A).

Definition not_pending : BridgeError := Failure "session" "Request is no longer pending".

(** [serde_json] on values: [Value::to_string] and [from_str::<Value>]. *)
Class ValueText : Type := {
  value_to_string : Value -> string;
  value_from_string : string -> LibResult Value;
}.

Class ValueTextLaws `{ValueText} : Prop := {
  value_text_round_trip v : value_from_string (value_to_string v) = inl v;
}.

(** ** State *)

(** What the native handler returned, or that it failed. *)
Definition Answer : Type := string + OpenLvError.

Record Request : Type := mkRequest {
  id : Z;
  message : string;
}.

(** The channel that brings the answer to one call of [handle]: the sender exists, it
    sent, or it was dropped. *)
Inductive Oneshot : Type := Empty | Sent (a : Answer) | SenderGone.

(** Where a call of [handle] is: it has drawn its id; it waits for the answer, with the
    guard that removes its entry; it has returned; or the core dropped it. *)
Inductive Phase : Type := Drawn | Waiting | Returned (r : Result Value) | Cancelled.

Record Call : Type := mkCall {
  call_id : Z;
  call_message : string;
  phase : Phase;
  oneshot : Oneshot;
}.

(** The fields of [Requests], where [pending] names the call that a sender belongs to;
    [calls]: the calls of [handle], by their number; [replying]: the senders that
    [reply] has taken and not used yet; [popped]: the request that [next], under the
    lock of the receiver, has taken from the queue and not looked up yet. The rest
    records the past: the requests ever queued, those that [next] returned, and the
    answers that [reply] accepted. *)
Record Requests : Type := mkRequests {
  next_id : Z;
  pending : gmap Z nat;
  queue : list Request;
  stopped : bool;
  calls : list Call;
  replying : list (nat * Answer);
  popped : option Request;
  queued : list Request;
  delivered : list Request;
  accepted : list (nat * Z * Answer);
}.

(** [Requests::new] *)
Definition new_requests : Requests := mkRequests 0 ∅ [] false [] [] None [] [] [].

Definition with_calls (x : list Call) (w : Requests) : Requests :=
  mkRequests (next_id w) (pending w) (queue w) (stopped w) x (replying w) (popped w) (queued w)
    (delivered w) (accepted w).
Definition with_pending (x : gmap Z nat) (w : Requests) : Requests :=
  mkRequests (next_id w) x (queue w) (stopped w) (calls w) (replying w) (popped w) (queued w)
    (delivered w) (accepted w).
Definition with_replying (x : list (nat * Answer)) (w : Requests) : Requests :=
  mkRequests (next_id w) (pending w) (queue w) (stopped w) (calls w) x (popped w) (queued w)
    (delivered w) (accepted w).
Definition with_popped (x : option Request) (w : Requests) : Requests :=
  mkRequests (next_id w) (pending w) (queue w) (stopped w) (calls w) (replying w) x (queued w)
    (delivered w) (accepted w).

Definition set_phase (p : Phase) (c : Call) : Call := mkCall (call_id c) (call_message c) p (oneshot c).
Definition set_oneshot (o : Oneshot) (c : Call) : Call := mkCall (call_id c) (call_message c) (phase c) o.

(** A sender is dropped: the receiver learns it, unless an answer was sent. *)
Definition drop_sender (c : Call) : Call :=
  match oneshot c with Empty => set_oneshot SenderGone c | _ => c end.

(** Senders that leave [pending] without being used are dropped. *)
Definition drop_senders (m : gmap Z nat) (l : list Call) : list Call :=
  imap (fun n c => if bool_decide (map_Exists (fun _ k => k = n) m) then drop_sender c else c) l.

#[global] Arguments drop_senders : simpl never.

(** The entry of [pending] under this id, as a map. *)
Definition entry (i : Z) (m : gmap Z nat) : gmap Z nat := filter (fun kv => kv.1 = i) m.

(** ** Operations *)

Section operations.
Context `{ValueText}.

(** [next_id.fetch_add(1)] on a [u64], and the oneshot channel. *)
Definition draw (v : Value) (w : Requests) : Requests :=
  mkRequests ((next_id w + 1) mod 2 ^ 64)%Z (pending w) (queue w) (stopped w)
    (calls w ++ [mkCall (next_id w) (value_to_string v) Drawn Empty])
    (replying w) (popped w) (queued w) (delivered w) (accepted w).

(** The critical section of [handle]. The send on the queue succeeds, because the
    receiver is a field of the same [Requests]. *)
Definition register (n : nat) (w : Requests) : Requests :=
  match calls w !! n with
  | Some c =>
      if stopped w then with_calls (alter (set_phase (Returned (Err SessionClosed))) n (calls w)) w
      else
        let request := mkRequest (call_id c) (call_message c) in
        mkRequests (next_id w) (<[call_id c := n]> (pending w)) (queue w ++ [request]) (stopped w)
          (alter (set_phase Waiting) n (drop_senders (entry (call_id c) (pending w)) (calls w)))
          (replying w) (popped w) (queued w ++ [request]) (delivered w) (accepted w)
  | None => w
  end.

(** [Drop for PendingRequest] *)
Definition drop_pending (i : Z) (w : Requests) : Requests :=
  with_calls (drop_senders (entry i (pending w)) (calls w)) (with_pending (delete i (pending w)) w).

(** What [handle] makes of the outcome of [rx.await]; [None]: it still waits. *)
Definition handle_result (o : Oneshot) : option (Result Value) :=
  match o with
  | Empty => None
  | Sent (inl reply) => Some (lib_err from_json_error (value_from_string reply))
  | Sent (inr e) => Some (Err e)
  | SenderGone => Some (Err SessionClosed)
  end.

(** [handle] is polled: with an outcome it returns, and its guard is dropped. *)
Definition poll (n : nat) (w : Requests) : option Requests :=
  c ← calls w !! n;
  r ← handle_result (oneshot c);
  Some (drop_pending (call_id c) (with_calls (alter (set_phase (Returned r)) n (calls w)) w)).

(** The core drops the future of [handle], and with it the guard and the receiver. *)
Definition cancel (n : nat) (w : Requests) : Requests :=
  match calls w !! n with
  | Some c => drop_pending (call_id c) (with_calls (alter (set_phase Cancelled) n (calls w)) w)
  | None => w
  end.

(** [reply] up to the end of its critical section. *)
Definition take_sender (i : Z) (a : Answer) (w : Requests) : Bridged unit * Requests :=
  match pending w !! i with
  | Some n => (Ok tt, with_replying (replying w ++ [(n, a)]) (with_pending (delete i (pending w)) w))
  | None => (Err not_pending, w)
  end.

(** The receiver of a call that no longer waits is gone. *)
Definition receiver_alive (c : Call) : bool := match phase c with Waiting => true | _ => false end.

(** The rest of [reply]: [sender.send(answer)] on the [k]-th sender in use. *)
Definition send_answer (k : nat) (w : Requests) : Bridged unit * Requests :=
  match replying w !! k with
  | Some (n, a) =>
      let w' := with_replying (delete k (replying w)) w in
      match calls w !! n with
      | Some c =>
          if receiver_alive c
          then (Ok tt, mkRequests (next_id w) (pending w) (queue w) (stopped w)
                         (alter (set_oneshot (Sent a)) n (calls w)) (delete k (replying w)) (popped w)
                         (queued w) (delivered w) (accepted w ++ [(n, call_id c, a)]))
          else (Err not_pending, with_calls (alter drop_sender n (calls w)) w')
      | None => (Err not_pending, w')
      end
  | None => (Err not_pending, w)
  end.

(** [respond] and [fail] hand [reply] these answers. *)
Definition respond_answer (response : string) : Answer := inl response.
Definition fail_answer : Answer := inr (Other "native request handler failed").

(** [Requests::stop], under the lock of [pending] *)
Definition stop (w : Requests) : Requests :=
  mkRequests (next_id w) ∅ (queue w) true (drop_senders (pending w) (calls w)) (replying w)
    (popped w) (queued w) (delivered w) (accepted w).

(** The loop of [next], under the lock of the receiver: it returns [None] once stopped;
    it takes a request from the queue; it returns the request if it is pending. *)
Definition next_stopped (w : Requests) : bool := stopped w.

Definition next_receive (w : Requests) : option Requests :=
  match popped w, queue w with
  | None, r :: rest =>
      Some (mkRequests (next_id w) (pending w) rest (stopped w) (calls w) (replying w) (Some r)
              (queued w) (delivered w) (accepted w))
  | _, _ => None
  end.

Definition next_return (w : Requests) : option (option Request * Requests) :=
  match popped w with
  | Some r =>
      if bool_decide (is_Some (pending w !! id r))
      then Some (Some r, mkRequests (next_id w) (pending w) (queue w) (stopped w) (calls w) (replying w)
                           None (queued w) (delivered w ++ [r]) (accepted w))
      else Some (None, with_popped None w)
  | None => None
  end.

(** ** Executions *)

Definition in_phase (p : Phase) (n : nat) (w : Requests) : Prop := phase <$> calls w !! n = Some p.

Inductive bridge_step : Requests -> Requests -> Prop :=
| step_draw w v : bridge_step w (draw v w)
| step_register w n : in_phase Drawn n w -> bridge_step w (register n w)
| step_poll w w' n : in_phase Waiting n w -> poll n w = Some w' -> bridge_step w w'
| step_cancel w n : in_phase Waiting n w -> bridge_step w (cancel n w)
| step_take w i a : bridge_step w (take_sender i a w).2
| step_send w k : bridge_step w (send_answer k w).2
| step_stop w : bridge_step w (stop w)
| step_receive w w' : next_receive w = Some w' -> bridge_step w w'
| step_return w w' r : next_return w = Some (r, w') -> bridge_step w w'.

Definition bridge_reachable : Requests -> Requests -> Prop := rtc bridge_step.

(** ** The invariant *)

(** What a call's state says: an open channel has its sender in [pending] or in the hands
    of [reply]; a result is that of the answer [reply] accepted, if it accepted one. *)
Definition call_ok (w : Requests) (n : nat) (c : Call) : Prop :=
  (forall a, oneshot c = Sent a -> (n, call_id c, a) ∈ accepted w) /\
  match phase c with
  | Drawn => oneshot c = Empty
  | Waiting => oneshot c = Empty -> pending w !! call_id c = Some n \/ n ∈ (replying w).*1
  | Returned r =>
      match oneshot c with
      | Sent a => handle_result (Sent a) = Some r
      | _ => r = Err SessionClosed
      end
  | Cancelled => True
  end.

Record bridge_inv (w : Requests) : Prop := {
  bi_pending : forall i n, pending w !! i = Some n ->
    exists c, calls w !! n = Some c /\ call_id c = i /\ phase c = Waiting /\ oneshot c = Empty /\
      n ∉ (replying w).*1;
  bi_replying : forall n, n ∈ (replying w).*1 ->
    exists c, calls w !! n = Some c /\ oneshot c = Empty /\ (phase c = Waiting \/ phase c = Cancelled);
  bi_nodup : NoDup (replying w).*1;
  bi_calls : forall n c, calls w !! n = Some c -> call_ok w n c;
  bi_accepted : forall n i a, (n, i, a) ∈ accepted w ->
    exists c, calls w !! n = Some c /\ call_id c = i /\ oneshot c = Sent a;
  bi_once : NoDup (accepted w);
  bi_stop : stopped w = true -> pending w = ∅;
}.

(** What [handle] puts in the queue for a call. *)
Definition key (c : Call) : Request := mkRequest (call_id c) (call_message c).

(** The ids of the calls, and what the queue has seen. *)
Record bridge_log (w : Requests) : Prop := {
  bl_next : next_id w = (Z.of_nat (length (key <$> calls w)) mod 2 ^ 64)%Z;
  bl_ids : forall n r, (key <$> calls w) !! n = Some r -> id r = (Z.of_nat n mod 2 ^ 64)%Z;
  bl_queue : exists consumed, queued w = consumed ++ option_list (popped w) ++ queue w /\
    delivered w `sublist_of` consumed;
}.

End operations.

(** ** Lemmas *)

Section lemmas.
Context `{ValueText}.
Implicit Types (w : Requests) (n : nat) (c : Call).

Lemma drop_senders_lookup m l n :
  drop_senders m l !! n =
  (fun c => if bool_decide (map_Exists (fun _ k => k = n) m) then drop_sender c else c) <$> l !! n.
Proof. unfold drop_senders. by rewrite list_lookup_imap. Qed.

Lemma entry_exists i m n : map_Exists (fun _ k => k = n) (entry i m) <-> m !! i = Some n.
Proof.
  unfold entry. split.
  - intros (j & k & Hj & ->). apply map_lookup_filter_Some in Hj as [Hj Hi]. cbn in Hi. by subst.
  - intros Hi. exists i, n. split; [|done]. by apply map_lookup_filter_Some.
Qed.

Lemma drop_sender_same c : oneshot c <> Empty -> drop_sender c = c.
Proof. unfold drop_sender. by destruct (oneshot c). Qed.

Lemma drop_sender_fields c :
  call_id (drop_sender c) = call_id c /\ call_message (drop_sender c) = call_message c /\
  phase (drop_sender c) = phase c /\ oneshot (drop_sender c) <> Empty /\
  (forall a, oneshot (drop_sender c) = Sent a -> oneshot c = Sent a).
Proof. unfold drop_sender. destruct (oneshot c) eqn:E; cbn; rewrite ?E; by split_and!. Qed.

Lemma drop_senders_entry_lookup i m l n :
  drop_senders (entry i m) l !! n =
  (fun c => if bool_decide (m !! i = Some n) then drop_sender c else c) <$> l !! n.
Proof.
  rewrite drop_senders_lookup. by rewrite (bool_decide_ext _ _ (entry_exists i m n)).
Qed.

Lemma drop_pending_inv i w : bridge_inv w -> bridge_inv (drop_pending i w).
Proof.
  intros [Hp Hr Hn Hc Ha Hon Hs]. split; cbn; try done.
  - intros j n. rewrite lookup_delete_Some. intros [Hne Hj].
    destruct (Hp _ _ Hj) as (c & Hl & Hid & ? & ? & ?). exists c.
    rewrite drop_senders_entry_lookup, Hl. cbn. rewrite bool_decide_eq_false_2; [done|].
    intros Hi. destruct (Hp _ _ Hi) as (c' & Hl' & Hid' & _). congruence.
  - intros n Hin. destruct (Hr _ Hin) as (c & Hl & ? & ?). exists c.
    rewrite drop_senders_entry_lookup, Hl. cbn. rewrite bool_decide_eq_false_2; [done|].
    intros Hi. by destruct (Hp _ _ Hi) as (c' & _ & _ & _ & _ & []).
  - intros n c. rewrite drop_senders_entry_lookup, fmap_Some. intros (c0 & Hl & ->).
    destruct (Hc _ _ Hl) as [Hsent Hph]. case_bool_decide as Hi; unfold call_ok; cbn.
    + destruct (drop_sender_fields c0) as (-> & _ & -> & Hne & Hsd). split; [auto|].
      destruct (Hp _ _ Hi) as (c' & Hl' & _ & Hw & _). simplify_eq. rewrite Hw. by intros ?%Hne.
    + split; [done|]. destruct (phase c0) eqn:Hph0; try done. intros He.
      destruct (Hph He) as [Hpi|]; [left|by right]. rewrite lookup_delete_Some. split; [|done].
      by intros ->.
  - intros n j a Hin. destruct (Ha _ _ _ Hin) as (c & Hl & ? & Ho). exists c.
    rewrite drop_senders_entry_lookup, Hl. cbn. case_bool_decide; [|done].
    by rewrite drop_sender_same by congruence.
  - intros Hst. by rewrite (Hs Hst), delete_empty.
Qed.

Lemma set_phase_inv w n c p :
  bridge_inv w -> calls w !! n = Some c -> (forall i, pending w !! i <> Some n) ->
  p <> Drawn -> p <> Waiting -> (n ∈ (replying w).*1 -> p = Cancelled) ->
  (forall r, p = Returned r -> call_ok w n (set_phase p c)) ->
  bridge_inv (with_calls (alter (set_phase p) n (calls w)) w).
Proof.
  intros [Hp Hr Hn Hc Ha Hon Hs] Hl Hnp Hnd Hnw Hrep Hret. split; cbn; try done.
  - intros i m Hi. destruct (Hp _ _ Hi) as (c' & Hl' & ?). exists c'.
    rewrite list_lookup_alter_ne; [done|]. intros ->. by apply (Hnp i).
  - intros m Hm. destruct (Hr _ Hm) as (c' & Hl' & ? & ?). destruct (decide (m = n)) as [->|Hne].
    + exists (set_phase p c'). rewrite list_lookup_alter_eq, Hl'. cbn. auto.
    + exists c'. by rewrite list_lookup_alter_ne.
  - intros m c'. destruct (decide (m = n)) as [->|Hne].
    + rewrite list_lookup_alter_eq, Hl. intros [= <-]. destruct p as [| |r|]; try done.
      * by apply (Hret r).
      * split; [|done]. apply (Hc _ _ Hl).
    + rewrite list_lookup_alter_ne by done. apply Hc.
  - intros m i a Hin. destruct (Ha _ _ _ Hin) as (c' & Hl' & ? & ?). destruct (decide (m = n)) as [->|Hne].
    + exists (set_phase p c'). rewrite list_lookup_alter_eq, Hl'. auto.
    + exists c'. by rewrite list_lookup_alter_ne.
Qed.

Lemma drop_sender_set_phase p c : drop_sender (set_phase p c) = set_phase p (drop_sender c).
Proof. unfold drop_sender. cbn. by destruct (oneshot c). Qed.

Lemma drop_senders_alter m p n (l : list Call) :
  drop_senders m (alter (set_phase p) n l) = alter (set_phase p) n (drop_senders m l).
Proof.
  apply list_eq. intros k. rewrite drop_senders_lookup. destruct (decide (k = n)) as [->|Hne].
  - rewrite !list_lookup_alter_eq, drop_senders_lookup. destruct (l !! n) as [c|]; [|done]. cbn.
    case_bool_decide; [|done]. by rewrite drop_sender_set_phase.
  - by rewrite !list_lookup_alter_ne, drop_senders_lookup by done.
Qed.

Lemma drop_pending_alter i p n w :
  drop_pending i (with_calls (alter (set_phase p) n (calls w)) w)
  = with_calls (alter (set_phase p) n (calls (drop_pending i w))) (drop_pending i w).
Proof.
  unfold drop_pending, with_calls, with_pending. f_equal. apply drop_senders_alter.
Qed.

(** After the entry of a call is dropped, no entry is left that refers to it. *)
Lemma drop_pending_none i n c w j :
  bridge_inv w -> calls w !! n = Some c -> call_id c = i -> pending (drop_pending i w) !! j <> Some n.
Proof.
  intros HI Hl <-. cbn. rewrite lookup_delete_Some. intros [Hne Hj].
  destruct (bi_pending _ HI _ _ Hj) as (c' & Hl' & Hid & _). congruence.
Qed.

Lemma in_phase_lookup p n w : in_phase p n w <-> exists c, calls w !! n = Some c /\ phase c = p.
Proof.
  unfold in_phase. rewrite fmap_Some. split; intros (c & ? & ?); exists c; auto.
Qed.

Lemma poll_inv n w w' : bridge_inv w -> in_phase Waiting n w -> poll n w = Some w' -> bridge_inv w'.
Proof.
  intros HI (c & Hl & Hph)%in_phase_lookup. unfold poll. rewrite Hl. cbn.
  destruct (handle_result (oneshot c)) as [r|] eqn:Hr; [|done]. intros [= <-].
  rewrite drop_pending_alter.
  assert (oneshot c <> Empty) as Hne by (intros E; by rewrite E in Hr).
  assert (calls (drop_pending (call_id c) w) !! n = Some c) as Hl'.
  { cbn. rewrite drop_senders_entry_lookup, Hl. cbn. case_bool_decide; [|done].
    by rewrite drop_sender_same. }
  apply (set_phase_inv _ _ c); [by apply drop_pending_inv|done|..]; try done.
  - intros j. by eapply drop_pending_none.
  - cbn. intros Hin. destruct (bi_replying _ HI _ Hin) as (c' & Hl2 & ? & _). congruence.
  - intros r' [= <-]. destruct (bi_calls _ HI _ _ Hl) as [Hs _]. split; [done|]. cbn.
    destruct (oneshot c) as [|a|] eqn:Ho; [done|done|by injection Hr].
Qed.

Lemma cancel_inv n w : bridge_inv w -> in_phase Waiting n w -> bridge_inv (cancel n w).
Proof.
  intros HI (c & Hl & Hph)%in_phase_lookup. unfold cancel. rewrite Hl, drop_pending_alter.
  assert (exists c', calls (drop_pending (call_id c) w) !! n = Some c') as [c' Hl'].
  { cbn. rewrite drop_senders_entry_lookup, Hl. cbn. eauto. }
  apply (set_phase_inv _ _ c'); [by apply drop_pending_inv|done|..]; try done.
  intros j. by eapply drop_pending_none.
Qed.


Lemma lookup_snoc_Some {A} (l : list A) x k y :
  (l ++ [x]) !! k = Some y <-> l !! k = Some y \/ (k = length l /\ y = x).
Proof.
  rewrite lookup_app_Some, list_lookup_singleton_Some. split.
  - intros [?|(? & ? & <-)]; [by left|right]. split; [lia|done].
  - intros [?|(-> & ->)]; [by left|right]. split_and!; [done|lia|done].
Qed.

Lemma draw_inv v w : bridge_inv w -> bridge_inv (draw v w).
Proof.
  intros [Hp Hr Hn Hc Ha Hon Hs]. split; cbn; try done.
  - intros i n Hi. destruct (Hp _ _ Hi) as (c & Hl & ?). exists c. by rewrite (lookup_app_l_Some _ _ _ _ Hl).
  - intros n Hi. destruct (Hr _ Hi) as (c & Hl & ?). exists c. by rewrite (lookup_app_l_Some _ _ _ _ Hl).
  - intros n c [Hl|[-> ->]]%lookup_snoc_Some; [by apply Hc|]. by split.
  - intros n i a Hi. destruct (Ha _ _ _ Hi) as (c & Hl & ?). exists c.
    by rewrite (lookup_app_l_Some _ _ _ _ Hl).
Qed.

(** A drawn call is neither pending nor being answered. *)
Lemma drawn_fresh n c w :
  bridge_inv w -> calls w !! n = Some c -> phase c = Drawn ->
  (forall i, pending w !! i <> Some n) /\ n ∉ (replying w).*1.
Proof.
  intros HI Hl Hph. split.
  - intros i Hi. destruct (bi_pending _ HI _ _ Hi) as (c' & ? & _ & ? & _). congruence.
  - intros Hi. destruct (bi_replying _ HI _ Hi) as (c' & ? & _ & [?|?]); congruence.
Qed.

Definition enqueue (n : nat) (c : Call) (w : Requests) : Requests :=
  let request := mkRequest (call_id c) (call_message c) in
  mkRequests (next_id w) (<[call_id c := n]> (pending w)) (queue w ++ [request]) (stopped w)
    (alter (set_phase Waiting) n (calls w)) (replying w) (popped w) (queued w ++ [request])
    (delivered w) (accepted w).

Lemma register_enqueue n c w :
  calls w !! n = Some c -> stopped w = false ->
  register n w = enqueue n c (drop_pending (call_id c) w).
Proof.
  intros Hl Hs. unfold register, enqueue. rewrite Hl, Hs. cbn. rewrite Hs. by rewrite insert_delete_eq.
Qed.

Lemma enqueue_inv n c w :
  bridge_inv w -> stopped w = false -> calls w !! n = Some c -> phase c = Drawn ->
  pending w !! call_id c = None -> bridge_inv (enqueue n c w).
Proof.
  intros HI Hst Hl Hph Hnone. destruct (drawn_fresh _ _ _ HI Hl Hph) as [Hnp Hnr].
  destruct HI as [Hp Hr Hn Hc Ha Hon Hs]. split; cbn; try done; [..|congruence].
  - intros i m [[<- <-]|[Hne Hi]]%lookup_insert_Some.
    + exists (set_phase Waiting c). rewrite list_lookup_alter_eq, Hl. cbn.
      destruct (Hc _ _ Hl) as [_ Ho]. rewrite Hph in Ho. done.
    + destruct (Hp _ _ Hi) as (c' & ? & ?). exists c'. rewrite list_lookup_alter_ne; [done|].
      intros ->. by apply (Hnp i).
  - intros m Hm. destruct (Hr _ Hm) as (c' & ? & ?). exists c'. rewrite list_lookup_alter_ne; [done|congruence].
  - intros m c'. destruct (decide (m = n)) as [->|Hne].
    + rewrite list_lookup_alter_eq, Hl. intros [= <-]. destruct (Hc _ _ Hl) as [Hsent _]. split; cbn; [done|].
      intros _. left. apply lookup_insert_eq.
    + rewrite list_lookup_alter_ne by done. intros Hl'. destruct (Hc _ _ Hl') as [Hsent Hx].
      split; [done|]. destruct (phase c'); try done. intros He. destruct (Hx He) as [Hi|]; [left|by right].
      apply lookup_insert_Some. right. split; [congruence|done].
  - intros m i a Hin. destruct (Ha _ _ _ Hin) as (c' & Hl' & ? & ?). destruct (decide (m = n)) as [->|Hne].
    + exists (set_phase Waiting c'). rewrite list_lookup_alter_eq, Hl'. auto.
    + exists c'. by rewrite list_lookup_alter_ne.
Qed.

Lemma register_inv n w : bridge_inv w -> in_phase Drawn n w -> bridge_inv (register n w).
Proof.
  intros HI (c & Hl & Hph)%in_phase_lookup. destruct (drawn_fresh _ _ _ HI Hl Hph) as [Hnp Hnr].
  destruct (stopped w) eqn:Hst.
  - unfold register. rewrite Hl, Hst. apply (set_phase_inv _ _ c); try done.
    intros r [= <-]. destruct (bi_calls _ HI _ _ Hl) as [Hsent Ho]. rewrite Hph in Ho.
    split; [done|]. cbn. by rewrite Ho.
  - rewrite (register_enqueue n c) by done. apply enqueue_inv; try done.
    + by apply drop_pending_inv.
    + cbn. rewrite drop_senders_entry_lookup, Hl. cbn. by rewrite bool_decide_eq_false_2.
    + cbn. by rewrite lookup_delete_eq.
Qed.

Lemma take_inv i a w : bridge_inv w -> bridge_inv (take_sender i a w).2.
Proof.
  intros HI. unfold take_sender. destruct (pending w !! i) as [n|] eqn:Hi; [|done]. cbn.
  destruct (bi_pending _ HI _ _ Hi) as (c0 & Hl0 & Hid0 & Hw0 & Ho0 & Hnr0).
  destruct HI as [Hp Hr Hn Hc Ha Hon Hs].
  split; cbn; try done; rewrite ?fmap_app; cbn.
  - intros j m. rewrite lookup_delete_Some. intros [Hne Hj].
    destruct (Hp _ _ Hj) as (c & Hl & ? & ? & ? & ?). exists c. split_and!; try done.
    rewrite not_elem_of_app, list_elem_of_singleton. split; [done|]. intros ->. congruence.
  - intros m [Hm| ->%list_elem_of_singleton]%elem_of_app; [auto|]. exists c0. auto.
  - apply NoDup_app. split_and!; [done| |apply NoDup_singleton].
    intros m Hm ->%list_elem_of_singleton. done.
  - intros m c Hl. destruct (Hc _ _ Hl) as [Hsent Hx]. split; [done|].
    destruct (phase c); try done. cbn. rewrite fmap_app, elem_of_app. intros He. destruct (Hx He) as [Hpi|]; [|auto].
    destruct (decide (call_id c = i)) as [<-|Hne].
    + right. right. cbn. rewrite Hi in Hpi. injection Hpi as ->. apply list_elem_of_here.
    + left. by rewrite lookup_delete_ne.
  - intros Hst. by rewrite (Hs Hst), delete_empty.
Qed.

(** One sender in use, and the others. *)
Lemma replying_split k n a w :
  bridge_inv w -> replying w !! k = Some (n, a) ->
  exists l, (delete k (replying w)).*1 = l /\ NoDup l /\ (n ∉ l) /\
    (forall m, (m ∈ (replying w).*1) <-> m = n \/ m ∈ l).
Proof.
  intros HI Hk. assert (Hn := bi_nodup _ HI). revert Hn.
  apply list_elem_of_split_length in Hk as (l1 & l2 & Hs & ->). rewrite Hs, delete_middle.
  exists ((l1 ++ l2).*1). split; [done|]. rewrite !fmap_app in *. cbn in *.
  rewrite NoDup_app, NoDup_cons in Hn. destruct Hn as (Hn1 & Hn2 & Hn3 & Hn4). split_and!.
  - apply NoDup_app. split_and!; [done| |done]. intros x Hx Hx'. apply (Hn2 x Hx). by right.
  - rewrite elem_of_app. intros [Hx|Hx]; [|done]. apply (Hn2 n Hx). apply list_elem_of_here.
  - intros m. rewrite !elem_of_app, elem_of_cons. tauto.
Qed.

(** A sender in use is used up: nothing changes but its call. *)
Lemma use_sender_inv k n a c o acc w :
  bridge_inv w -> replying w !! k = Some (n, a) -> calls w !! n = Some c -> o <> Empty ->
  (forall b, o = Sent b -> acc = accepted w ++ [(n, call_id c, b)]) ->
  (o = SenderGone -> acc = accepted w) ->
  bridge_inv (mkRequests (next_id w) (pending w) (queue w) (stopped w)
                (alter (set_oneshot o) n (calls w)) (delete k (replying w)) (popped w) (queued w)
                (delivered w) acc).
Proof.
  intros HI Hk Hl Hne Hsent Hgone.
  destruct (replying_split _ _ _ _ HI Hk) as (l & El & Hnl & Hnn & Hall).
  destruct HI as [Hp Hr Hn Hc Ha Hon Hs].
  assert (forall x, x ∈ accepted w -> x ∈ acc) as Hmono.
  { intros x Hx. destruct o as [|b|]; [done| |by rewrite Hgone].
    rewrite (Hsent b) by done. apply elem_of_app. by left. }
  destruct (Hr n) as (c' & Hl' & He & Hph); [by apply Hall; left|].
  rewrite Hl in Hl'. injection Hl' as <-.
  split; cbn; rewrite ?El; try done.
  - intros i m Hi. destruct (Hp _ _ Hi) as (c1 & Hl1 & ? & ? & ? & Hnot). rewrite Hall in Hnot.
    exists c1. rewrite list_lookup_alter_ne by (intros ->; auto). split_and!; try done. auto.
  - intros m Hm. destruct (Hr m) as (c1 & Hl1 & ?); [by apply Hall; right|]. exists c1.
    rewrite list_lookup_alter_ne; [done|]. by intros ->.
  - intros m c1. destruct (decide (m = n)) as [->|Hmn].
    + rewrite list_lookup_alter_eq, Hl. intros [= <-]. split; cbn.
      * intros b ->. rewrite (Hsent b) by done. apply elem_of_app. right. apply list_elem_of_here.
      * destruct Hph as [-> | ->]; [by intros ->|done].
    + rewrite list_lookup_alter_ne by done. intros Hl1. destruct (Hc _ _ Hl1) as [Hs1 Hx].
      split; [eauto|]. cbn. rewrite El. destruct (phase c1); try done.
      intros Hem. destruct (Hx Hem) as [|Hin]; [by left|right]. apply Hall in Hin as [|]; [done|done].
  - intros m i b Hin. assert ((m, i, b) ∈ accepted w \/ (m = n /\ i = call_id c /\ o = Sent b)) as [Hi|(-> & -> & ->)].
    { destruct o as [|b'|]; [done| |rewrite Hgone in Hin; auto]. rewrite (Hsent b') in Hin by done.
      apply elem_of_app in Hin as [|[= -> -> ->]%list_elem_of_singleton]; auto. }
    + destruct (Ha _ _ _ Hi) as (c1 & Hl1 & ? & ?). exists c1. rewrite list_lookup_alter_ne; [done|congruence].
    + exists (set_oneshot (Sent b) c). by rewrite list_lookup_alter_eq, Hl.
  - destruct o as [|b|]; [done| |by rewrite Hgone]. rewrite (Hsent b) by done.
    apply NoDup_app. split_and!; [done| |apply NoDup_singleton].
    intros x Hx ->%list_elem_of_singleton. destruct (Ha _ _ _ Hx) as (c1 & ? & _ & ?). congruence.
Qed.

Lemma send_inv k w : bridge_inv w -> bridge_inv (send_answer k w).2.
Proof.
  intros HI. unfold send_answer. destruct (replying w !! k) as [[n a]|] eqn:Hk; [|done].
  destruct (bi_replying _ HI n) as (c & Hl & He & Hph).
  { apply list_elem_of_fmap. exists (n, a). split; [done|]. by eapply list_elem_of_lookup_2. }
  rewrite Hl. destruct (receiver_alive c); cbn.
  - eapply use_sender_inv; try done. by intros b [= <-].
  - replace (alter drop_sender n (calls w)) with (alter (set_oneshot SenderGone) n (calls w)).
    + unfold with_calls, with_replying. cbn. by apply (use_sender_inv k n a c).
    + apply list_eq. intros j. destruct (decide (j = n)) as [->|Hne].
      * rewrite !list_lookup_alter_eq, Hl. cbn. unfold drop_sender. by rewrite He.
      * by rewrite !list_lookup_alter_ne.
Qed.

Lemma stop_inv w : bridge_inv w -> bridge_inv (stop w).
Proof.
  intros [Hp Hr Hn Hc Ha Hon Hs]. split; cbn; try done.
  - intros n Hin. destruct (Hr _ Hin) as (c & Hl & ? & ?). exists c.
    rewrite drop_senders_lookup, Hl. cbn. rewrite bool_decide_eq_false_2; [done|].
    intros (i & m & Hi & ->). by destruct (Hp _ _ Hi) as (c' & _ & _ & _ & _ & []).
  - intros n c. rewrite drop_senders_lookup, fmap_Some. intros (c0 & Hl & ->).
    destruct (Hc _ _ Hl) as [Hsent Hph]. case_bool_decide as Hex; unfold call_ok; cbn.
    + destruct (drop_sender_fields c0) as (-> & _ & -> & Hne & Hsd). split; [auto|].
      destruct Hex as (i & m & Hi & ->).
      destruct (Hp _ _ Hi) as (c' & Hl' & _ & Hw & _). simplify_eq. rewrite Hw. by intros ?%Hne.
    + split; [done|]. destruct (phase c0) eqn:Hph0; try done. intros He.
      destruct (Hph He) as [Hpi|]; [|by right]. destruct Hex. by exists (call_id c0), n.
  - intros n j a Hin. destruct (Ha _ _ _ Hin) as (c & Hl & ? & Ho). exists c.
    rewrite drop_senders_lookup, Hl. cbn. case_bool_decide; [|done].
    by rewrite drop_sender_same by congruence.
Qed.

(** What the invariant does not mention. *)
Lemma bridge_inv_ext w w' :
  (pending w', calls w', replying w', accepted w', stopped w')
  = (pending w, calls w, replying w, accepted w, stopped w) ->
  bridge_inv w -> bridge_inv w'.
Proof.
  intros [= Ep Ec Er Ea Es] [Hp Hr Hn Hc Ha Hon Hs].
  split; rewrite ?Ep, ?Ec, ?Er, ?Ea, ?Es; try done.
  intros n c Hl. destruct (Hc n c Hl) as [? Hx]. unfold call_ok. by rewrite Ea, Ep, Er.
Qed.

Lemma bridge_step_inv w w' : bridge_step w w' -> bridge_inv w -> bridge_inv w'.
Proof.
  destruct 1 as [w v|w n Hn|w w' n Hn Hp|w n Hn|w i a|w k|w|w w' Hr|w w' r Hr]; intros HI.
  - by apply draw_inv.
  - by apply register_inv.
  - by eapply poll_inv.
  - by apply cancel_inv.
  - by apply take_inv.
  - by apply send_inv.
  - by apply stop_inv.
  - revert Hr. unfold next_receive. destruct (popped w), (queue w); try done.
    intros [= <-]. by eapply bridge_inv_ext; [|exact HI].
  - revert Hr. unfold next_return. destruct (popped w); [|done].
    case_bool_decide; intros [= _ <-]; by eapply bridge_inv_ext; [|exact HI].
Qed.

Lemma new_requests_inv : bridge_inv new_requests.
Proof. split; cbn; try done; try (intros; set_solver); apply NoDup_nil_2. Qed.

Lemma bridge_reachable_inv w : bridge_reachable new_requests w -> bridge_inv w.
Proof.
  intros Hr. assert (bridge_inv new_requests) as HI by apply new_requests_inv. revert HI.
  induction Hr; [done|]. eauto using bridge_step_inv.
Qed.

Lemma keys_alter (f : Call -> Call) n (l : list Call) :
  (forall c, key (f c) = key c) -> key <$> alter f n l = key <$> l.
Proof.
  intros Hf. apply list_eq. intros j. rewrite !list_lookup_fmap. destruct (decide (j = n)) as [->|Hne].
  - rewrite list_lookup_alter_eq. destruct (l !! n); cbn; [by rewrite Hf|done].
  - by rewrite list_lookup_alter_ne.
Qed.

Lemma keys_drop m l : key <$> drop_senders m l = key <$> l.
Proof.
  apply list_eq. intros j. rewrite !list_lookup_fmap, drop_senders_lookup. destruct (l !! j) as [c|]; [|done].
  cbn. case_bool_decide; [|done]. unfold key. by destruct (drop_sender_fields c) as (-> & -> & _).
Qed.

(** What the log is about. *)
Lemma bridge_log_ext w w' :
  (next_id w', key <$> calls w', queued w', popped w', queue w', delivered w')
  = (next_id w, key <$> calls w, queued w, popped w, queue w, delivered w) ->
  bridge_log w -> bridge_log w'.
Proof.
  intros [= En Ek Eq Ep Eu Ed] [Hn Hi Hq]. by split; rewrite ?En, ?Ek, ?Eq, ?Ep, ?Eu, ?Ed.
Qed.

Lemma draw_log v w : bridge_log w -> bridge_log (draw v w).
Proof.
  intros [Hn Hi Hq]. split; cbn; try done; rewrite ?fmap_app.
  - rewrite length_app, Hn. cbn. rewrite Zplus_mod_idemp_l. f_equal. lia.
  - intros n r [Hl|[-> ->]]%lookup_snoc_Some; [by apply Hi|done].
Qed.

Lemma register_log n w : bridge_log w -> bridge_log (register n w).
Proof.
  intros HL. unfold register. destruct (calls w !! n) as [c|] eqn:Hl; [|done]. destruct (stopped w).
  { eapply bridge_log_ext; [|exact HL]. cbn. by rewrite keys_alter. }
  assert (key <$> alter (set_phase Waiting) n (drop_senders (entry (call_id c) (pending w)) (calls w))
          = key <$> calls w) as Hk by (by rewrite keys_alter, keys_drop).
  destruct HL as [Hn Hi (cs & Hq & Hd)]. split; cbn; rewrite ?Hk; try done.
  exists cs. split; [|done]. by rewrite Hq, <- !(assoc_L app).
Qed.

Lemma bridge_step_log w w' : bridge_step w w' -> bridge_log w -> bridge_log w'.
Proof.
  destruct 1 as [w v|w n Hn|w w' n Hn Hp|w n Hn|w i a|w k|w|w w' Hr|w w' r Hr]; intros HL.
  - by apply draw_log.
  - by apply register_log.
  - revert Hp. unfold poll. destruct (calls w !! n) as [c|]; [|done]. cbn.
    destruct (handle_result _); [|done]. intros [= <-].
    eapply bridge_log_ext; [|exact HL]. cbn. by rewrite keys_drop, keys_alter.
  - unfold cancel. destruct (calls w !! n); [|done].
    eapply bridge_log_ext; [|exact HL]. cbn. by rewrite keys_drop, keys_alter.
  - unfold take_sender. destruct (pending w !! i); [|done]. by eapply bridge_log_ext; [|exact HL].
  - unfold send_answer. destruct (replying w !! k) as [[n a]|]; [|done].
    destruct (calls w !! n); [destruct (receiver_alive _)|]; (eapply bridge_log_ext; [|exact HL]); cbn; [..|done].
    + by rewrite keys_alter.
    + rewrite keys_alter; [done|]. intros c'. unfold key. by destruct (drop_sender_fields c') as (-> & -> & _).
  - eapply bridge_log_ext; [|exact HL]. cbn. by rewrite keys_drop.
  - revert Hr. unfold next_receive. destruct (popped w) eqn:Hp, (queue w) eqn:Hq; try done.
    intros [= <-]. destruct HL as [Hn Hi (cs & Hqd & Hd)]. split; cbn; try done.
    exists cs. split; [|done]. by rewrite Hqd, Hp, Hq.
  - revert Hr. unfold next_return. destruct (popped w) as [r0|] eqn:Hp; [|done].
    destruct HL as [Hn Hi (cs & Hqd & Hd)]. rewrite Hp in Hqd.
    case_bool_decide; intros [= _ <-]; (split; cbn; try done); exists (cs ++ [r0]);
      (split; [by rewrite Hqd, <- (assoc_L app)|]).
    + by apply sublist_app.
    + by apply sublist_inserts_r.
Qed.

Lemma bridge_reachable_log w : bridge_reachable new_requests w -> bridge_log w.
Proof.
  intros Hr. assert (bridge_log new_requests) as HL.
  { split; cbn; try done. by exists []. }
  revert HL. induction Hr; [done|]. eauto using bridge_step_log.
Qed.

(** Calls keep their id and message, and leave [Drawn] for good. *)
Definition evolves (l l' : list Call) : Prop :=
  forall n c, l !! n = Some c ->
    exists c', l' !! n = Some c' /\ key c' = key c /\ (phase c <> Drawn -> phase c' <> Drawn).

Lemma evolves_trans l1 l2 l3 : evolves l1 l2 -> evolves l2 l3 -> evolves l1 l3.
Proof.
  intros H1 H2 n c Hl. destruct (H1 _ _ Hl) as (c' & Hl' & Hk & Hp).
  destruct (H2 _ _ Hl') as (c'' & Hl'' & Hk' & Hp'). exists c''. split_and!; [done|congruence|auto].
Qed.

Lemma evolves_alter (f : Call -> Call) n l :
  (forall c, key (f c) = key c /\ (phase c <> Drawn -> phase (f c) <> Drawn)) -> evolves l (alter f n l).
Proof.
  intros Hf m c Hl. destruct (decide (m = n)) as [->|Hne].
  - exists (f c). rewrite list_lookup_alter_eq, Hl. by destruct (Hf c).
  - exists c. by rewrite list_lookup_alter_ne.
Qed.

Lemma evolves_drop m l : evolves l (drop_senders m l).
Proof.
  intros n c Hl. rewrite drop_senders_lookup, Hl. cbn. eexists. split; [done|].
  case_bool_decide; [|done]. destruct (drop_sender_fields c) as (? & ? & Hp & _).
  split; [by apply (f_equal2 mkRequest)|by rewrite Hp].
Qed.

Lemma evolves_refl l : evolves l l.
Proof. intros n c Hl. by exists c. Qed.

#[local] Hint Resolve evolves_drop evolves_refl : openlv.

Lemma evolves_set_phase p n l : p <> Drawn -> evolves l (alter (set_phase p) n l).
Proof. intros Hp. by apply evolves_alter. Qed.

Lemma bridge_step_evolves w w' : bridge_step w w' -> evolves (calls w) (calls w').
Proof.
  destruct 1 as [w v|w n Hn|w w' n Hn Hp|w n Hn|w i a|w k|w|w w' Hr|w w' r Hr]; cbn.
  - intros n c Hl. exists c. by rewrite (lookup_app_l_Some _ _ _ _ Hl).
  - unfold register. destruct (calls w !! n); [|auto with openlv].
    destruct (stopped w); cbn; [by apply evolves_set_phase|].
    eapply evolves_trans; [apply evolves_drop|by apply evolves_set_phase].
  - revert Hp. unfold poll. destruct (calls w !! n) as [c|]; [|done]. cbn.
    destruct (handle_result _); [|done]. intros [= <-]. cbn.
    eapply evolves_trans; [by apply (evolves_set_phase (Returned r) n)|apply evolves_drop].
  - unfold cancel. destruct (calls w !! n); [|auto with openlv]. cbn.
    eapply evolves_trans; [by apply (evolves_set_phase Cancelled n)|apply evolves_drop].
  - unfold take_sender. destruct (pending w !! i); apply evolves_refl.
  - unfold send_answer. destruct (replying w !! k) as [[n a]|]; [|apply evolves_refl].
    destruct (calls w !! n); [destruct (receiver_alive _)|]; cbn; [by apply evolves_alter| |apply evolves_refl].
    apply evolves_alter. intros c'. destruct (drop_sender_fields c') as (? & ? & Hp & _).
    split; [by apply (f_equal2 mkRequest)|by rewrite Hp].
  - apply evolves_drop.
  - revert Hr. unfold next_receive. destruct (popped w), (queue w); intros; simplify_eq; apply evolves_refl.
  - revert Hr. unfold next_return. destruct (popped w); [|done].
    case_bool_decide; intros [= _ <-]; apply evolves_refl.
Qed.

(** The queue has seen each registered call once. *)
Definition registered (l : list Call) (n : nat) (r : Request) : Prop :=
  exists c, l !! n = Some c /\ r = key c /\ phase c <> Drawn.

Definition queued_once (w : Requests) : Prop :=
  exists ns, NoDup ns /\ Forall2 (registered (calls w)) ns (queued w).

Lemma registered_evolves l l' n r : evolves l l' -> registered l n r -> registered l' n r.
Proof.
  intros He (c & Hl & -> & Hp). destruct (He _ _ Hl) as (c' & ? & Hk & ?). exists c'. auto.
Qed.

Lemma register_queued n w :
  stopped w = false -> forall c, calls w !! n = Some c -> phase c = Drawn ->
  queued (register n w) = queued w ++ [key c] /\ registered (calls (register n w)) n (key c).
Proof.
  intros Hs c Hl Hph. rewrite (register_enqueue n c) by done. split; [done|].
  destruct (evolves_drop (entry (call_id c) (pending w)) (calls w) n c Hl) as (c' & Hl' & Hk & _).
  exists (set_phase Waiting c'). cbn. rewrite list_lookup_alter_eq, Hl'. by split_and!.
Qed.

Lemma bridge_step_queued w w' : bridge_step w w' -> queued_once w -> queued_once w'.
Proof.
  intros Hst (ns & Hnd & Hf). pose proof (bridge_step_evolves _ _ Hst) as Hev.
  assert (Forall2 (registered (calls w')) ns (queued w)) as Hf'.
  { eapply Forall2_impl; [exact Hf|]. intros n r. by apply registered_evolves. }
  assert (queued w' = queued w -> queued_once w') as Hsame by (intros E; exists ns; by rewrite E).
  destruct Hst as [w v|w n Hn|w w' n Hn Hp|w n Hn|w i a|w k|w|w w' Hr|w w' r Hr]; try by apply Hsame.
  - apply in_phase_lookup in Hn as (c & Hl & Hph). destruct (stopped w) eqn:Hs.
    { apply Hsame. unfold register. by rewrite Hl, Hs. }
    destruct (register_queued n w Hs c Hl Hph) as [Eq Hreg]. exists (ns ++ [n]). rewrite Eq. split.
    + apply NoDup_app. split_and!; [done| |apply NoDup_singleton].
      intros m Hm ->%list_elem_of_singleton. apply list_elem_of_lookup in Hm as [k Hk].
      destruct (Forall2_lookup_l _ _ _ _ _ Hf Hk) as (r & _ & c' & ? & _ & ?). congruence.
    + apply Forall2_app; [done|]. by constructor.
  - apply Hsame. revert Hp. unfold poll. destruct (calls w !! n); [|done]. cbn.
    destruct (handle_result _); [|done]. by intros [= <-].
  - apply Hsame. unfold cancel. by destruct (calls w !! n).
  - apply Hsame. unfold take_sender. by destruct (pending w !! i).
  - apply Hsame. unfold send_answer. destruct (replying w !! k) as [[n a]|]; [|done].
    destruct (calls w !! n); [|done]. by destruct (receiver_alive _).
  - apply Hsame. revert Hr. unfold next_receive. by destruct (popped w), (queue w); intros; simplify_eq.
  - apply Hsame. revert Hr. unfold next_return. destruct (popped w); [|done].
    by case_bool_decide; intros [= _ <-].
Qed.

Lemma bridge_reachable_queued w : bridge_reachable new_requests w -> queued_once w.
Proof.
  intros Hr. assert (queued_once new_requests) as HL.
  { exists []. split; [apply NoDup_nil_2|constructor]. }
  revert HL. induction Hr; [done|]. eauto using bridge_step_queued.
Qed.

(** *** After the stop *)

Definition settled (c : Call) : bool :=
  match phase c with Returned _ | Cancelled => true | _ => false end.

(** The calls that have not ended. *)
Definition unsettled (l : list Call) : nat := sum_list_with (fun c => if settled c then 0 else 1) l.

#[global] Arguments unsettled : simpl never.

(** A step of the bridge's own code: a call registers or is polled, a reply is sent. *)
Inductive settling_step (w : Requests) : Requests -> Prop :=
| settle_register n : in_phase Drawn n w -> settling_step w (register n w)
| settle_poll n w' : in_phase Waiting n w -> poll n w = Some w' -> settling_step w w'
| settle_send k : k < length (replying w) -> settling_step w (send_answer k w).2.

Lemma settling_bridge w w' : settling_step w w' -> bridge_step w w'.
Proof. destruct 1; [by apply step_register|by eapply step_poll|apply step_send]. Qed.

Lemma unsettled_ext l l' : phase <$> l' = phase <$> l -> unsettled l' = unsettled l.
Proof.
  unfold unsettled. revert l'. induction l as [|c l IH]; intros [|c' l']; cbn; try done.
  intros [= Hp Hl]. unfold settled at 1 3. rewrite Hp. by rewrite (IH l').
Qed.

Lemma phases_drop m l : phase <$> drop_senders m l = phase <$> l.
Proof.
  apply list_eq. intros j. rewrite !list_lookup_fmap, drop_senders_lookup. destruct (l !! j) as [c|]; [|done].
  cbn. case_bool_decide; [|done]. by destruct (drop_sender_fields c) as (_ & _ & -> & _).
Qed.

Lemma unsettled_drop m l : unsettled (drop_senders m l) = unsettled l.
Proof. apply unsettled_ext, phases_drop. Qed.

Lemma phases_alter (f : Call -> Call) n (l : list Call) :
  (forall c, phase (f c) = phase c) -> phase <$> alter f n l = phase <$> l.
Proof.
  intros Hf. apply list_eq. intros j. rewrite !list_lookup_fmap. destruct (decide (j = n)) as [->|Hne].
  - rewrite list_lookup_alter_eq. destruct (l !! n); cbn; [by rewrite Hf|done].
  - by rewrite list_lookup_alter_ne.
Qed.

Lemma unsettled_ends p n c (l : list Call) :
  l !! n = Some c -> settled c = false -> settled (set_phase p c) = true ->
  S (unsettled (alter (set_phase p) n l)) = unsettled l.
Proof.
  intros Hl Hc Hp. destruct (list_elem_of_split_length _ _ _ Hl) as (l1 & l2 & -> & ->).
  replace (length l1) with (length l1 + 0) by lia. rewrite alter_app_r. cbn. unfold unsettled.
  rewrite !sum_list_with_app. cbn [sum_list_with]. rewrite Hc, Hp. lia.
Qed.

(** What is left to do after the stop. *)
Definition remaining (w : Requests) : nat := unsettled (calls w) + length (replying w).

Lemma settling_remaining w w' :
  stopped w = true -> settling_step w w' -> stopped w' = true /\ S (remaining w') = remaining w.
Proof.
  intros Hst Hs. destruct Hs as [n Hn|n w' Hn Hp|k Hk]; unfold remaining.
  - apply in_phase_lookup in Hn as (c & Hl & Hph). unfold register. rewrite Hl, Hst. cbn. split; [done|].
    rewrite <- (unsettled_ends (Returned (Err SessionClosed)) n c (calls w)); try done.
    unfold settled. by rewrite Hph.
  - apply in_phase_lookup in Hn as (c & Hl & Hph). revert Hp. unfold poll. rewrite Hl. cbn.
    destruct (handle_result _) as [r|]; [|done]. intros [= <-]. cbn. split; [done|]. rewrite unsettled_drop.
    rewrite <- (unsettled_ends (Returned r) n c (calls w)); try done. unfold settled. by rewrite Hph.
  - apply lookup_lt_is_Some_2 in Hk as [[n a] Hk].
    assert (S (length (delete k (replying w))) = length (replying w)) as Hd.
    { rewrite length_delete by done. apply lookup_lt_Some in Hk. lia. }
    unfold send_answer. rewrite Hk.
    destruct (calls w !! n) as [c|]; [destruct (receiver_alive c)|]; cbn; split; try done.
    + rewrite (unsettled_ext (calls w) (alter (set_oneshot (Sent a)) n (calls w))); [lia|by apply phases_alter].
    + rewrite (unsettled_ext (calls w) (alter drop_sender n (calls w))); [lia|].
      apply phases_alter. intros c'. by destruct (drop_sender_fields c') as (_ & _ & -> & _).
    + lia.
Qed.

(** A stopped bridge whose own code can do nothing more has ended every call. *)
Lemma stuck_settled w :
  bridge_inv w -> stopped w = true -> (forall w', ~ settling_step w w') ->
  Forall (fun c => settled c = true) (calls w) /\ replying w = [].
Proof.
  intros HI Hst Hstuck.
  assert (replying w = []) as Hr.
  { destruct (replying w) as [|x l] eqn:E; [done|]. destruct (Hstuck (send_answer 0 w).2).
    apply settle_send. rewrite E. cbn. lia. }
  split; [|done]. apply Forall_lookup. intros n c Hl. unfold settled.
  destruct (bi_calls _ HI _ _ Hl) as [_ Hc]. destruct (phase c) eqn:Hph; try done.
  - destruct (Hstuck (register n w)). apply settle_register, in_phase_lookup. eauto.
  - assert (oneshot c <> Empty) as Hne.
    { intros He. destruct (Hc He) as [Hp|Hin].
      - by rewrite (bi_stop _ HI Hst) in Hp.
      - rewrite Hr in Hin. by apply not_elem_of_nil in Hin. }
    assert (is_Some (handle_result (oneshot c))) as [r Hres].
    { unfold handle_result. destruct (oneshot c) as [|[]|]; eauto. done. }
    exfalso. eapply (Hstuck _), (settle_poll _ n); [apply in_phase_lookup; eauto|].
    unfold poll. rewrite Hl. cbn. by rewrite Hres.
Qed.

Lemma stopped_step w w' : bridge_step w w' -> stopped w = true -> stopped w' = true.
Proof.
  destruct 1 as [w v|w n Hn|w w' n Hn Hp|w n Hn|w i a|w k|w|w w' Hr|w w' r Hr]; intros Hs; try done.
  - unfold register. destruct (calls w !! n); [|done]. by rewrite Hs.
  - revert Hp. unfold poll. destruct (calls w !! n); [|done]. cbn.
    destruct (handle_result _); [|done]. by intros [= <-].
  - unfold cancel. by destruct (calls w !! n).
  - unfold take_sender. by destruct (pending w !! i).
  - unfold send_answer. destruct (replying w !! k) as [[n a]|]; [|done].
    destruct (calls w !! n); [|done]. by destruct (receiver_alive _).
  - revert Hr. unfold next_receive. by destruct (popped w), (queue w); intros; simplify_eq.
  - revert Hr. unfold next_return. destruct (popped w); [|done]. by case_bool_decide; intros [= _ <-].
Qed.

(** The result of a call that has returned is that of the answer it accepted. *)
Lemma returned_result w n c r :
  bridge_inv w -> calls w !! n = Some c -> phase c = Returned r ->
  (forall a, (n, call_id c, a) ∈ accepted w -> handle_result (Sent a) = Some r) /\
  ((forall a, (n, call_id c, a) ∉ accepted w) -> r = Err SessionClosed).
Proof.
  intros HI Hl Hph. destruct (bi_calls _ HI _ _ Hl) as [Hs Hc]. rewrite Hph in Hc. split.
  - intros a Ha. destruct (bi_accepted _ HI _ _ _ Ha) as (c' & Hl' & _ & Ho).
    rewrite Hl in Hl'. injection Hl' as <-. by rewrite Ho in Hc.
  - intros Hnone. destruct (oneshot c) as [|a|]; [done| |done]. destruct (Hnone a). auto.
Qed.

Lemma call_ids_distinct w n n' c c' :
  bridge_log w -> (Z.of_nat (length (calls w)) <= 2 ^ 64)%Z ->
  calls w !! n = Some c -> calls w !! n' = Some c' -> call_id c = call_id c' -> n = n'.
Proof.
  intros HL Hlen Hl Hl' Heq.
  assert (forall m d, calls w !! m = Some d -> call_id d = Z.of_nat m) as Hid.
  { intros m d Hd. transitivity (id (key d)); [done|]. rewrite (bl_ids _ HL m (key d)).
    - apply Z.mod_small. apply lookup_lt_Some in Hd. lia.
    - by rewrite list_lookup_fmap, Hd. }
  rewrite (Hid _ _ Hl), (Hid _ _ Hl') in Heq. lia.
Qed.

(** What native code gets is the request of a call. *)
Lemma delivered_key w q :
  bridge_reachable new_requests w -> q ∈ delivered w -> exists n c, calls w !! n = Some c /\ q = key c.
Proof.
  intros Hr Hin. destruct (bridge_reachable_queued _ Hr) as (ns & Hnd & Hf).
  destruct (bl_queue _ (bridge_reachable_log _ Hr)) as (cs & Hq & Hd).
  assert (q ∈ queued w) as Hin'.
  { rewrite Hq. apply elem_of_app. left. by eapply elem_of_sublist. }
  apply list_elem_of_lookup in Hin' as [k Hk].
  destruct (Forall2_lookup_r _ _ _ _ _ Hf Hk) as (n & _ & c & ? & ? & _). eauto.
Qed.

End lemmas.

(** ** Properties *)

(** C15. Each request gets its own answer: however calls, replies, cancellations and the
    stop interleave, a call of [handle] that has returned says that the session is
    closed, or returns what the native answer with its own id says; a request accepts
    at most one answer; and while at most 2^64 requests have arrived, no two requests
    share an id, so no answer reaches another request. *)
Theorem answers_matched `{ValueText} w :
  bridge_reachable new_requests w ->
  (forall n c r, calls w !! n = Some c -> phase c = Returned r ->
     r = Err SessionClosed \/
     exists a, (n, call_id c, a) ∈ accepted w /\ handle_result (Sent a) = Some r) /\
  NoDup (accepted w) /\
  (forall n i a a', (n, i, a) ∈ accepted w -> (n, i, a') ∈ accepted w -> a = a') /\
  ((Z.of_nat (length (calls w)) <= 2 ^ 64)%Z -> forall n n' i a a',
     (n, i, a) ∈ accepted w -> (n', i, a') ∈ accepted w -> n = n' /\ a = a').
Proof.
  intros Hr. assert (HI := bridge_reachable_inv _ Hr). assert (HL := bridge_reachable_log _ Hr).
  assert (forall n i i' a a', (n, i, a) ∈ accepted w -> (n, i', a') ∈ accepted w -> a = a') as Hone.
  { intros n i i' a a' Ha Ha'. destruct (bi_accepted _ HI _ _ _ Ha) as (c & Hl & _ & Hs).
    destruct (bi_accepted _ HI _ _ _ Ha') as (c' & Hl' & _ & Hs'). congruence. }
  split_and!.
  - intros n c r Hl Hph. destruct (bi_calls _ HI _ _ Hl) as [Hs Hc]. rewrite Hph in Hc.
    destruct (oneshot c) as [|a|] eqn:Ho; [by left|right|by left]. exists a. split; [by apply Hs|done].
  - apply HI.
  - eauto.
  - intros Hlen n n' i a a' Ha Ha'. destruct (bi_accepted _ HI _ _ _ Ha) as (c & Hl & Hi & _).
    destruct (bi_accepted _ HI _ _ _ Ha') as (c' & Hl' & Hi' & _).
    assert (n = n') as <- by (eapply call_ids_distinct; [done..|congruence]). eauto.
Qed.

(** C16. A stop ends every call: in every stopped state the bridge can reach, whatever
    it was doing, each run of its own code ends (there is no infinite one), and where
    none of it can go on, every call of [handle] has returned or was cancelled and no
    reply is under way; in particular no call waits forever. *)
Theorem shutdown_drains `{ValueText} w :
  bridge_reachable new_requests w -> stopped w = true ->
  Acc (flip settling_step) w /\
  (forall w', rtc settling_step w w' -> (forall w'', ~ settling_step w' w'') ->
     Forall (fun c => phase c = Cancelled \/ exists r, phase c = Returned r) (calls w') /\
     replying w' = []).
Proof.
  intros Hr Hst. split.
  - assert (forall n v, remaining v = n -> stopped v = true -> Acc (flip settling_step) v) as Hacc; [|by eapply Hacc].
    induction n as [|n IH]; intros v Hn Hv; constructor; intros v' Hs;
      destruct (settling_remaining _ _ Hv Hs) as [Hv' Hm]; [lia|apply IH; [lia|done]].
  - intros w' Hs Hstuck.
    assert (bridge_inv w' /\ stopped w' = true) as [HI Hst'].
    { apply bridge_reachable_inv in Hr. revert Hr Hst. clear Hstuck.
      induction Hs as [|w w1 w2 H1 _ IH]; [done|]. intros HI Hst. apply settling_bridge in H1.
      apply IH; [by eapply bridge_step_inv|by eapply stopped_step]. }
    destruct (stuck_settled _ HI Hst' Hstuck) as [Hall Hrep]. split; [|done].
    eapply Forall_impl; [exact Hall|]. intros c. unfold settled. destruct (phase c); eauto; done.
Qed.

(** The stop is final: from a stopped state, however the rest interleaves, the bridge
    stays stopped with nothing pending, so [reply] fails for every id, [next] returns
    no request, and a call that arrives is refused with [SessionClosed]. *)
Theorem stop_is_final `{ValueText} w w' :
  bridge_reachable new_requests w -> stopped w = true -> bridge_reachable w w' ->
  next_stopped w' = true /\
  (forall i a, take_sender i a w' = (Err not_pending, w')) /\
  (forall r w'', next_return w' = Some (r, w'') -> r = None) /\
  (forall n c, calls w' !! n = Some c -> phase c = Drawn ->
     calls (register n w') !! n = Some (set_phase (Returned (Err SessionClosed)) c)).
Proof.
  intros Hr Hst Hw.
  assert (bridge_inv w' /\ stopped w' = true) as [HI Hst'].
  { apply bridge_reachable_inv in Hr. revert Hr Hst. induction Hw as [|w w1 w2 H1 _ IH]; [done|].
    intros HI Hst. apply IH; [by eapply bridge_step_inv|by eapply stopped_step]. }
  assert (Hp := bi_stop _ HI Hst'). split_and!; [done|..].
  - intros i a. unfold take_sender. by rewrite Hp.
  - intros r w''. unfold next_return. destruct (popped w') as [x|]; [|done]. rewrite Hp.
    case_bool_decide as Hs; [by destruct Hs|]. by intros [= <-].
  - intros n c Hl Hph. unfold register. rewrite Hl, Hst'. cbn. by rewrite list_lookup_alter_eq, Hl.
Qed.

(** C33. Requests reach native code in order and at most once: what [next] has returned
    is a subsequence of the requests in the order in which they were queued, each is
    the request of one call of [handle], and while at most 2^64 requests have arrived
    no two that it returned have the same id. *)
Theorem requests_in_order `{ValueText} w :
  bridge_reachable new_requests w ->
  delivered w `sublist_of` queued w /\
  (forall r, r ∈ delivered w -> exists n c, calls w !! n = Some c /\ r = key c) /\
  ((Z.of_nat (length (calls w)) <= 2 ^ 64)%Z -> NoDup (id <$> delivered w)).
Proof.
  intros Hr. assert (HL := bridge_reachable_log _ Hr).
  destruct (bridge_reachable_queued _ Hr) as (ns & Hnd & Hf).
  destruct (bl_queue _ HL) as (cs & Hq & Hd).
  assert (delivered w `sublist_of` queued w) as Hsub.
  { rewrite Hq. etrans; [exact Hd|]. by apply sublist_inserts_r. }
  split_and!; [done|..].
  - intros r. by apply delivered_key.
  - intros Hlen. eapply sublist_NoDup; [|by apply fmap_sublist]. clear Hsub Hd Hq.
    revert Hnd. induction Hf as [|n r ns q Hreg Hf IH]; cbn; [intros; apply NoDup_nil_2|].
    intros [Hn Hnd]%NoDup_cons. apply NoDup_cons. split; [|auto].
    intros (r' & Hid & Hin)%list_elem_of_fmap. apply list_elem_of_lookup in Hin as [k Hk].
    destruct (Forall2_lookup_r _ _ _ _ _ Hf Hk) as (n' & Hk' & c' & Hl' & -> & _).
    destruct Hreg as (c & Hl & -> & _). apply Hn.
    assert (n = n') as -> by (by eapply call_ids_distinct). by eapply list_elem_of_lookup_2.
Qed.

(** ** A concrete bridge *)

Module BridgeModel.
Import TextModel.

#[export] Instance value_text : ValueText := {|
  value_to_string := to_text;
  value_from_string := of_text;
|}.

#[export] Instance value_text_laws : ValueTextLaws.
Proof. split. intros v. apply of_to_text. Qed.

(** Two requests arrive; native code takes the first and answers it. *)
Definition bridge1 : Requests := register 1 (draw (Bool true) (register 0 (draw Null new_requests))).
Definition bridge2 : Requests := default bridge1 (next_receive bridge1).
Definition bridge3 : Requests := from_option snd bridge2 (next_return bridge2).
Definition bridge4 : Requests := (send_answer 0 (take_sender 0 (respond_answer (to_text (Str "ok"))) bridge3).2).2.
Definition bridge5 : Requests := default bridge4 (poll 0 bridge4).

(** Then the session shuts down. *)
Definition bridge6 : Requests := stop bridge5.
Definition bridge7 : Requests := default bridge6 (poll 1 bridge6).

Lemma bridge1_reachable : bridge_reachable new_requests bridge1.
Proof.
  eapply rtc_l; [apply (step_draw _ Null)|].
  eapply rtc_l; [apply (step_register _ 0); vm_compute; reflexivity|].
  eapply rtc_l; [apply (step_draw _ (Bool true))|].
  apply rtc_once. apply (step_register _ 1). vm_compute. reflexivity.
Qed.

Lemma bridge3_reachable : bridge_reachable new_requests bridge3.
Proof.
  etrans; [apply bridge1_reachable|].
  eapply rtc_l; [apply (step_receive bridge1 bridge2); vm_compute; reflexivity|].
  apply rtc_once. eapply (step_return bridge2 bridge3). vm_compute. reflexivity.
Qed.

Lemma bridge5_reachable : bridge_reachable new_requests bridge5.
Proof.
  etrans; [apply bridge3_reachable|].
  eapply rtc_l; [by apply (step_take _ 0 (respond_answer (to_text (Str "ok"))))|].
  eapply rtc_l; [apply (step_send _ 0)|].
  apply rtc_once. apply (step_poll _ bridge5 0); vm_compute; reflexivity.
Qed.

Lemma bridge6_reachable : bridge_reachable new_requests bridge6.
Proof.
  etrans; [apply bridge5_reachable|]. apply rtc_once, step_stop.
Qed.

Lemma poll6 : poll 1 bridge6 = Some bridge7.
Proof. vm_compute. reflexivity. Qed.

Lemma waiting6 : in_phase Waiting 1 bridge6.
Proof. vm_compute. reflexivity. Qed.

Lemma stopped6 : stopped bridge6 = true.
Proof. reflexivity. Qed.

Lemma bridge7_settled : rtc settling_step bridge6 bridge7.
Proof. apply rtc_once, (settle_poll _ 1 bridge7); [apply waiting6|apply poll6]. Qed.

End BridgeModel.

Import TextModel BridgeModel.

Lemma answers_matched_witness :
  exists a, (0, 0%Z, a) ∈ accepted bridge5 /\ handle_result (Sent a) = Some (Ok (Str "ok")).
Proof.
  destruct (answers_matched bridge5 bridge5_reachable) as [Hr _].
  assert (exists c, calls bridge5 !! 0 = Some c /\ call_id c = 0%Z /\ phase c = Returned (Ok (Str "ok")))
    as (c & Hl & Hi & Hp) by (vm_compute; eexists; repeat split; reflexivity).
  destruct (Hr 0 c _ Hl Hp) as [|(a & Hin & Ha)]; [discriminate|].
  exists a. rewrite Hi in Hin. split; [exact Hin|exact Ha].
Defined.

Lemma shutdown_drains_witness :
  Forall (fun c => phase c = Cancelled \/ exists r, phase c = Returned r) (calls bridge7).
Proof.
  destruct (shutdown_drains bridge6 bridge6_reachable stopped6) as [_ Hd].
  apply (Hd bridge7 bridge7_settled). intros w Hs. inversion Hs as [n Hn|n w' Hn Hp|k Hk].
  - destruct n as [|[|n]]; vm_compute in Hn; discriminate.
  - destruct n as [|[|n]]; vm_compute in Hn; discriminate.
  - vm_compute in Hk. lia.
Defined.

Lemma stop_is_final_witness :
  next_stopped bridge7 = true /\ (take_sender 1 (respond_answer "late") bridge7).1 = Err not_pending.
Proof.
  destruct (stop_is_final bridge6 bridge7 bridge6_reachable stopped6) as (Hs & Ht & _).
  - apply rtc_once, (step_poll _ bridge7 1); [apply waiting6|apply poll6].
  - split; [exact Hs|]. rewrite Ht. reflexivity.
Defined.

Lemma requests_in_order_witness :
  delivered bridge3 = [mkRequest 0 (to_text Null)] /\ delivered bridge3 `sublist_of` queued bridge3.
Proof. split; [vm_compute; reflexivity|]. exact (proj1 (requests_in_order bridge3 bridge3_reachable)). Defined.
