(* ===== verification/Alloy.v ===== *)
(** * The alloy transports ([provider/alloy_1.rs], [provider/alloy_2.rs])

    The same code for two versions of alloy: a packet of JSON-RPC requests goes through
    [exchange], one request after the other. alloy's request and response types are
    parameters. *)
From S2P Require Import Prelude RustStr Errors Json CryptoLib CryptoModel Message TextModel Tasks SessionMessage.
From S2P Require Import Response JsonRpc Bridge.
From S2P Require Transport Session SignalingLayer SignalingSafety SessionSpec.
Local Open Scope string_scope.
Local Open Scope list_scope.

(** alloy's [SerializedRequest] with the text of [into_serialized().get()], and its
    [Response] with [serde_json::from_value]. *)
Class AlloyLib : Type := {
  SerializedRequest : Type;
  AlloyResponse : Type;
  serialized : SerializedRequest -> string;
  response_from_value : Value -> LibResult AlloyResponse;
}.

(** [TransportErrorKind::custom] of the error of [serde_json] or of [exchange]. *)
Inductive TransportError : Type :=
| CustomJson (text : string)
| CustomExchange (e : ExchangeError).

Section alloy.
Context `{AlloyLib}.

Inductive RequestPacket : Type :=
| SingleRequest (request : SerializedRequest)
| BatchRequest (requests : list SerializedRequest).

Inductive ResponsePacket : Type :=
| SingleResponse (response : AlloyResponse)
| BatchResponse (responses : list AlloyResponse).

Context `{CryptoLib} `{SignalingCodec} `{SessionCodec} `{Transport.WebRtcLib} `{ValueText}.
Context (properties : SignalingLayer.SignalingProperties) (instant_max : Z).

Abbreviation SLayer := (prog Session.SessionInner Session.SInput).
Abbreviation Outcome A := (Res TransportError A).

Definition json_err {A} (r : LibResult A) : Outcome A :=
  match r with inl a => Ok a | inr text => Err (CustomJson text) end.

(** [dispatch_one] *)
Definition dispatch_one (req : SerializedRequest) : SLayer (Outcome AlloyResponse) :=
  match json_err (value_from_string (serialized req)) with
  | Ok request =>
      response ← exchange properties instant_max request;
      mret (response ← map_err CustomExchange response;
            json_err (response_from_value response))
  | Err e => mret (Err e)
  | Panic => mret Panic
  end.

(** The loop over a batch: [dispatch_one(..).await?] for each request. *)
Fixpoint dispatch_all (requests : list SerializedRequest) (responses : list AlloyResponse)
    : SLayer (Outcome (list AlloyResponse)) :=
  match requests with
  | [] => mret (Ok responses)
  | request :: rest =>
      response ← dispatch_one request;
      match response with
      | Ok x => dispatch_all rest (responses ++ [x])
      | Err e => mret (Err e)
      | Panic => mret Panic
      end
  end.

(** [Service::call] *)
Definition call (req : RequestPacket) : SLayer (Outcome ResponsePacket) :=
  match req with
  | SingleRequest request =>
      response ← dispatch_one request;
      mret (x ← response; Ok (SingleResponse x))
  | BatchRequest requests =>
      responses ← dispatch_all requests [];
      mret (xs ← responses; Ok (BatchResponse xs))
  end.

(** ** Lemmas *)

(** The requests of a batch called one by one, up to the first that fails. *)
Fixpoint one_by_one (inputs : nat -> Session.SInput) (n : nat) (requests : list SerializedRequest)
    (w : Session.SessionInner) : Result (Outcome (list AlloyResponse)) * nat * Session.SessionInner :=
  match requests with
  | [] => (Ok (Ok []), n, w)
  | request :: rest =>
      match run inputs n (call (SingleRequest request)) w with
      | (Ok (Ok (SingleResponse x)), n1, w1) =>
          let '(r, n2, w2) := one_by_one inputs n1 rest w1 in
          (match r with
           | Ok (Ok xs) => Ok (Ok (x :: xs))
           | other => other
           end, n2, w2)
      | (Ok (Ok (BatchResponse _)), n1, w1) => (Ok (Ok []), n1, w1)
      | (Ok (Err e), n1, w1) => (Ok (Err e), n1, w1)
      | (Ok Panic, n1, w1) => (Ok Panic, n1, w1)
      | (Err e, n1, w1) => (Err e, n1, w1)
      | (Panic, n1, w1) => (Panic, n1, w1)
      end
  end.

Lemma run_single inputs n request w :
  run inputs n (call (SingleRequest request)) w =
  match run inputs n (dispatch_one request) w with
  | (Ok r, n', w') => (Ok (x ← r; Ok (SingleResponse x)), n', w')
  | (Err e, n', w') => (Err e, n', w')
  | (Panic, n', w') => (Panic, n', w')
  end.
Proof. cbn [call]. rewrite run_bind. by destruct (run _ _ _ _) as [[[r|e|] n'] w']. Qed.

Lemma run_dispatch_all inputs n requests acc w :
  run inputs n (dispatch_all requests acc) w =
  let '(r, n', w') := one_by_one inputs n requests w in
  (match r with Ok (Ok xs) => Ok (Ok (acc ++ xs)) | other => other end, n', w').
Proof.
  revert n acc w. induction requests as [|request rest IH]; intros n acc w; cbn [dispatch_all one_by_one].
  { cbn. by rewrite app_nil_r. }
  rewrite run_bind, run_single.
  destruct (run inputs n (dispatch_one request) w) as [[[[x|e|]|e|] n1] w1]; cbn; try done.
  rewrite IH. destruct (one_by_one inputs n1 rest w1) as [[[[xs|e|]|e|] n2] w2]; try done.
  by rewrite <- (assoc_L app).
Qed.

(** The response is read from a value that answers the request. *)
Definition answered (request : SerializedRequest) (x : AlloyResponse) : Prop :=
  exists v response, value_from_string (serialized request) = inl v /\
    answers (value_index "id" v) response /\ response_from_value response = inl x.

Lemma settle_Ok id outcome response : settle id outcome = Ok response -> answers id response.
Proof.
  unfold settle, answers. destruct outcome as [v|e|]; [|destruct e; try done|done].
  - destruct (value_eq_str _ "2.0") eqn:Hj; cbn [negb]; [|done].
    destruct (value_get "id" v) as [i|] eqn:Hi; cbn [negb]; [|done].
    destruct (value_eqb i id) eqn:He; cbn [negb]; [|done]. intros [= <-]. eauto.
  - intros [= <-]. apply internal_error_answers.
Qed.

Lemma dispatch_one_answered inputs n request w x n' w' :
  run inputs n (dispatch_one request) w = (Ok (Ok x), n', w') -> answered request x.
Proof.
  unfold dispatch_one. destruct (value_from_string (serialized request)) as [v|e] eqn:Hv; [|done].
  cbn [json_err]. unfold exchange. rewrite !run_bind, run_attempt.
  destruct (run inputs n (Session.send properties instant_max v) w) as [[o n1] w1].
  assert (forall r, run inputs n1 (mret (settle (value_index "id" v) r)) w1
    = (Ok (settle (value_index "id" v) r), n1, w1)) as Hret by done.
  destruct o as [y|e|]; [rewrite Hret|rewrite Hret|done];
    cbn [run mret prog_mret]; destruct (settle _ _) as [resp|e'|] eqn:Hs; try done; cbn;
    destruct (response_from_value resp) as [z|t] eqn:Hz; try done; intros [= <- _ _];
    exists v, resp; (split; [done|]); (split; [by eapply settle_Ok|done]).
Qed.

Lemma one_by_one_answered inputs n requests w xs n' w' :
  one_by_one inputs n requests w = (Ok (Ok xs), n', w') -> Forall2 answered requests xs.
Proof.
  revert n w xs. induction requests as [|request rest IH]; intros n w xs; cbn [one_by_one].
  { intros [= <- _ _]. constructor. }
  rewrite run_single. destruct (run inputs n (dispatch_one request) w) as [[[[x|e|]|e|] n1] w1] eqn:Hr;
    cbn; try done.
  destruct (one_by_one inputs n1 rest w1) as [[[[ys|e|]|e|] n2] w2] eqn:Hrest; try done.
  intros [= <- -> ->]. constructor; [by eapply dispatch_one_answered|by eapply IH].
Qed.

End alloy.

(** ** Properties *)

(** C34. A batch is its requests one by one: calling the transport with a batch does what
    calling it with each of its requests in turn does, up to the first that fails,
    after which nothing more is sent; on success there is one response for each
    request, in the order of the requests, each read from a JSON-RPC response with that
    request's id. *)
Theorem batch_is_sequential
    `{AlloyLib, CryptoLib, SignalingCodec, SessionCodec, Transport.WebRtcLib, ValueText}
    properties instant_max inputs n requests w :
  (let '(r, n', w') := one_by_one properties instant_max inputs n requests w in
   run inputs n (call properties instant_max (BatchRequest requests)) w
   = (match r with
      | Ok outcome => Ok (xs ← outcome; Ok (BatchResponse xs))
      | Err e => Err e
      | Panic => Panic
      end, n', w')) /\
  (forall xs n' w',
     run inputs n (call properties instant_max (BatchRequest requests)) w
       = (Ok (Ok (BatchResponse xs)), n', w') ->
     Forall2 answered requests xs).
Proof.
  assert (run inputs n (call properties instant_max (BatchRequest requests)) w
    = let '(r, n', w') := one_by_one properties instant_max inputs n requests w in
      (match r with
       | Ok outcome => Ok (xs ← outcome; Ok (BatchResponse xs))
       | Err e => Err e
       | Panic => Panic
       end, n', w')) as Hrun.
  { cbn [call]. rewrite run_bind, run_dispatch_all.
    destruct (one_by_one _ _ _ _ _ _) as [[[[xs|e|]|e|] n1] w1]; done. }
  split; [rewrite Hrun; by destruct (one_by_one _ _ _ _ _ _) as [[r n1] w1]|].
  intros xs n' w'. rewrite Hrun.
  destruct (one_by_one properties instant_max inputs n requests w) as [[r n1] w1] eqn:Ho.
  destruct r as [[ys|e|]|e|]; try done. intros [= <- <- <-]. by eapply one_by_one_answered.
Qed.

(** ** Witnesses *)

Module AlloyModel.

#[export] Instance alloy_lib : AlloyLib := {|
  SerializedRequest := string;
  AlloyResponse := Value;
  serialized s := s;
  response_from_value v := inl v;
|}.

End AlloyModel.

Import CryptoModel TextModel SignalingSafety.LayerModel SessionSpec.SessionModel BridgeModel AlloyModel.

(** Two requests; the wallet fails both, so both get an internal error. *)
Definition model_batch : list SerializedRequest :=
  [to_text (Object [("id", Bool true)]); to_text (Object [("id", Bool false)])].

Definition after_batch : Result (Res TransportError ResponsePacket) * nat * Session.SessionInner :=
  run (fun _ => failing_peer) 0 (call model_host (2 ^ 62) (BatchRequest model_batch)) encrypted_session.

Lemma batch_is_sequential_witness :
  Forall2 answered model_batch [internal_error (Bool true); internal_error (Bool false)].
Proof.
  apply (proj2 (batch_is_sequential model_host (2 ^ 62) (fun _ => failing_peer) 0 model_batch
    encrypted_session) _ after_batch.1.2 after_batch.2).
  vm_compute. reflexivity.
Defined.
