(* ===== verification/Ffi.v ===== *)
(** * The foreign interface ([openlv-ffi/src/lib.rs])

    What native code calls: sessions are created from JSON options, and messages,
    states and requests cross as JSON texts. The functions are those of [Setup.v],
    [Session.v] and [Bridge.v] behind conversions, and an error crosses as a kind and a
    message. *)
From S2P Require Import Prelude RustStr Errors Json Regex CryptoLib CryptoModel Encryption Message TextModel.
From S2P Require Import SessionUri Ntfy Tasks SessionMessage Response Setup Bridge.
From S2P Require SignalingLayer Transport Control Session SessionSpec.
Local Open Scope string_scope.
Local Open Scope list_scope.

(** [json!] of an optional value *)
Definition opt_value {A} (f : A -> Value) (o : option A) : Value :=
  match o with Some a => f a | None => Null end.

(** ** Options *)

Record PeerInfo : Type := mkPeerInfo {
  identity : string;
  name : string;
  icon : option string;
}.

Record SessionOptions : Type := mkSessionOptions {
  session_id : option string;
  protocol : option string;
  server : option string;
  handshake_key : option string;
  peer_info : option PeerInfo;
}.

(** The derived [Deserialize] of both types, behind [serde_json::from_str]. *)
Class OptionsText : Type := {
  options_from_str : string -> LibResult SessionOptions;
  peer_info_from_str : string -> LibResult (option PeerInfo);
}.

(** [parse_json] *)
Definition parse_json {A} (r : LibResult A) : Bridged A :=
  match r with inl a => Ok a | inr error => Err (Failure "other" error) end.

Definition to_core (i : PeerInfo) : Message.PeerInfo := Message.mkPeerInfo (identity i) (name i) (icon i).

(** [TryFrom<PeerInfo> for openlv::PeerInfo] *)
Definition try_from (value : PeerInfo) : Bridged Message.PeerInfo :=
  let info := to_core value in
  map_err (Failure "session") (peer_info_validate info);;
  Ok info.

(** [.map(try_from).transpose()?] *)
Definition try_from_opt (value : option PeerInfo) : Bridged (option Message.PeerInfo) :=
  match value with Some i => p ← try_from i; Ok (Some p) | None => Ok None end.

(** [on_runtime]: a task that panicked is an error of the join, with its text. *)
Definition on_runtime {A} (join_error : string) (r : Bridged A) : Bridged A :=
  match r with Panic => Err (Failure "other" join_error) | _ => r end.

(** ** Creating sessions *)

Section create.
Context `{CryptoLib} `{RegexLib} `{UnicodeLib} `{FormLib} `{Transport.WebRtcLib}.
Context `{ValueText} `{OptionsText}.
Context (join_error : string).

(** [Session]: the core session and the requests that wait for the native handler. *)
Record Session : Type := mkSession {
  inner : NewSession;
  requests : Requests;
}.

(** [Session::create] *)
Definition create (config : SessionConfig) (random : Randomness) : Bridged Session :=
  inner ← map_err bridge_error (on_request config random);
  Ok (mkSession inner new_requests).

(** [if let Some(x) = option { config = config.method(x) }] *)
Definition if_some {A} (o : option A) (f : A -> SessionConfig -> SessionConfig) (c : SessionConfig)
    : SessionConfig :=
  match o with Some a => f a c | None => c end.

Definition create_dapp (options_json : string) (random : Randomness) : Bridged Session :=
  on_runtime join_error (
    options ← parse_json (options_from_str options_json);
    peer ← try_from_opt (peer_info options);
    let config := dapp in
    let config := if_some (session_id options) set_session_id config in
    let config := if_some (protocol options) (fun p => set_protocol (protocol_from p)) config in
    let config := if_some (server options) set_server config in
    config ← match handshake_key options with
             | Some key => k ← map_err bridge_error (from_hex key); Ok (set_handshake_key k config)
             | None => Ok config
             end;
    let config := if_some peer set_info config in
    create config random).

Definition create_wallet (uri peer_info_json : string) (random : Randomness) : Bridged Session :=
  on_runtime join_error (
    peer ← parse_json (peer_info_from_str peer_info_json);
    let config := wallet uri in
    config ← match peer with
             | Some peer => p ← try_from peer; Ok (set_info p config)
             | None => Ok config
             end;
    create config random).

(** [parse_session_uri]; [to_hex] gives the text of the key. *)
Definition uri_value (uri : Version1SessionUri) : Value :=
  object [("session_id", Str (SessionUri.session_id uri));
          ("key_hash", Str (key_hash uri));
          ("handshake_key", Str (hex (shared_key uri)));
          ("protocol", Str (protocol_to_string (signaling_protocol uri)));
          ("server", Str (signaling_server uri))].

Definition parse_session_uri (url : string) : Bridged string :=
  uri ← map_err bridge_error (uri_from_url url);
  let 'Version1 uri := uri in
  Ok (value_to_string (uri_value uri)).

(** [Session::uri], [Session::session_id], [Session::is_host] *)
Definition uri (self : Session) : string := to_connection_url (Setup.uri (inner self)).
Definition get_session_id (self : Session) : string :=
  let 'Version1 u := Setup.uri (inner self) in SessionUri.session_id u.
Definition is_host (self : Session) : bool := session_is_host (inner self).

End create.

(** ** States *)

Definition status_text (s : Session.SessionState) : string :=
  match s with
  | Session.Created => "created"
  | Session.Signaling => "signaling"
  | Session.Ready => "ready"
  | Session.Linking => "linking"
  | Session.Connected => "connected"
  | Session.Disconnected => "disconnected"
  end.

Definition signaling_text (s : SignalingLayer.SignalState) : string :=
  match s with
  | SignalingLayer.Standby => "standby"
  | SignalingLayer.Connecting => "connecting"
  | SignalingLayer.Ready => "ready"
  | SignalingLayer.Handshake => "handshake"
  | SignalingLayer.HandshakePartial => "handshake_partial"
  | SignalingLayer.Encrypted => "encrypted"
  | SignalingLayer.Error => "error"
  end.

Definition peer_value (peer : Message.PeerInfo) : Value :=
  object [("identity", Str (Message.identity peer));
          ("name", Str (Message.name peer));
          ("icon", opt_value Str (Message.icon peer))].

Definition state_value (state : Session.SessionStateObject) : Value :=
  object [("status", Str (status_text (Session.o_status state)));
          ("signaling", opt_value (fun s => Str (signaling_text s)) (Session.o_signaling state));
          ("peer", opt_value peer_value (Session.o_peer_info state));
          ("error", opt_value Str (Session.o_error state))].

(** [generate_session_id], with the random bytes. *)
Definition new_session_id (random : bytes) : Result string := generate_session_id random.

Section states.
Context `{ValueText}.

(** [state_json] *)
Definition state_json (state : Session.SessionStateObject) : string := value_to_string (state_value state).

(** [StateSubscription::next_state]: at each turn, whether the session is closed, which
    is looked at first, and what the receiver yields. *)
Fixpoint next_state (turns : list (bool * (Session.SessionStateObject + RecvError)))
    : option (option string) :=
  match turns with
  | [] => None
  | (true, _) :: _ => Some None
  | (false, inl state) :: _ => Some (Some (state_json state))
  | (false, inr (Lagged _)) :: r => next_state r
  | (false, inr Closed) :: _ => Some None
  end.

(** [Session::next_request]: closed is looked at first; a request is an object. *)
Definition request_value (r : Request) : Value :=
  object [("id", Num (PosInt (id r))); ("message", Str (message r))].

Definition next_request (closed : bool) (next : option Request) : option string :=
  if closed then None else (fun r => value_to_string (request_value r)) <$> next.

End states.

(** ** Methods of a session *)

Section methods.
Context `{CryptoLib} `{SignalingCodec} `{SessionCodec} `{Transport.WebRtcLib} `{ValueText}.
Context (properties : SignalingLayer.SignalingProperties) (instant_max : Z) (join_error : string).

Abbreviation SLayer := (prog Session.SessionInner Session.SInput).

(** A method of the core in a task of its own: its result or its panic. *)
Fixpoint spawned {A} (p : SLayer A) : SLayer (Result A) :=
  match p with
  | Done r => Done (Ok r)
  | Atom f k => Atom f (fun b => spawned (k b))
  | Await k => Await (spawned k)
  end.

(** [on_runtime(async move { Ok(method().await?) })] *)
Definition bridged {A B} (f : A -> B) (p : SLayer A) : SLayer (Bridged B) :=
  r ← spawned p;
  mret (on_runtime join_error (a ← map_err bridge_error r; Ok (f a))).

(** [Session::state] *)
Definition state : SLayer string :=
  s ← Session.state;
  mret (state_json s).

Definition connect : SLayer (Bridged unit) := bridged (fun u => u) (Session.connect properties).
Definition wait_for_link (recv : list (Transport.TransportState + RecvError)) : SLayer (Bridged unit) :=
  bridged (fun u => u) (Session.wait_for_link recv).

Definition send_with_timeouts (message : string) (ack_timeout_ms response_timeout_ms : Z)
    : SLayer (Bridged string) :=
  match parse_json (value_from_string message) with
  | Ok v => bridged value_to_string
      (Session.send_with_timeouts properties instant_max v ack_timeout_ms response_timeout_ms)
  | Err e => mret (Err e)
  | Panic => mret (on_runtime join_error Panic)
  end.

Definition send (message : string) : SLayer (Bridged string) :=
  match parse_json (value_from_string message) with
  | Ok v => bridged value_to_string (Session.send properties instant_max v)
  | Err e => mret (Err e)
  | Panic => mret (on_runtime join_error Panic)
  end.

(** [shutdown], after the stop of the requests *)
Definition shutdown (w : Requests) : Requests * SLayer (Bridged unit) :=
  (stop w, bridged (fun u => u) (Session.close properties)).

(** [Drop for Session]: the core's handle goes as in [Ownership.v]. *)
Definition drop (w : Requests) : Requests := stop w.

End methods.

(** ** Lemmas *)

(** The configuration that the options describe. *)
Definition dapp_config `{UnicodeLib} (o : SessionOptions) (key : option HandshakeKey)
    (peer : option Message.PeerInfo) : SessionConfig :=
  mkSessionConfig None (session_id o) (protocol_from <$> protocol o) (server o) key peer.

(** The handshake key that the options give, if any. *)
Definition option_key `{CryptoLib} (o : SessionOptions) : Result (option HandshakeKey) :=
  match handshake_key o with Some h => k ← from_hex h; Ok (Some k) | None => Ok None end.

Definition peer_valid (p : option PeerInfo) : Prop :=
  forall i, p = Some i -> peer_info_validate (to_core i) = Ok tt.

Section lemmas.
Context `{CryptoLaws} `{RegexLib} `{UnicodeLib} `{FormLib} `{Transport.WebRtcLib}.
Context `{ValueText} `{OptionsText}.
Context (join_error : string).

Lemma try_from_ok i : peer_info_validate (to_core i) = Ok tt -> try_from i = Ok (to_core i).
Proof. intros Hv. unfold try_from. by rewrite Hv. Qed.

Lemma try_from_opt_ok p : peer_valid p -> try_from_opt p = Ok (to_core <$> p).
Proof. intros Hv. destruct p as [i|]; [|done]. cbn. by rewrite try_from_ok by auto. Qed.

Lemma create_dapp_config json random o :
  options_from_str json = inl o -> peer_valid (peer_info o) ->
  create_dapp join_error json random =
  on_runtime join_error (key ← map_err bridge_error (option_key o);
                         create (dapp_config o key (to_core <$> peer_info o)) random).
Proof.
  intros Ho Hp. unfold create_dapp, option_key. rewrite Ho. cbn [parse_json mbind res_bind].
  rewrite try_from_opt_ok by done. cbn [mbind res_bind].
  destruct (handshake_key o) as [h|]; [destruct (from_hex h) as [k|e|]|];
    destruct (session_id o) eqn:E1, (protocol o) eqn:E2, (server o) eqn:E3, (peer_info o);
    unfold dapp_config; by rewrite ?E1, ?E2, ?E3.
Qed.

Lemma create_wallet_config url json random p :
  peer_info_from_str json = inl p -> peer_valid p ->
  create_wallet join_error url json random =
  on_runtime join_error (create (mkSessionConfig (Some url) None None None None (to_core <$> p)) random).
Proof.
  intros Hj Hp. unfold create_wallet. rewrite Hj. cbn [parse_json mbind res_bind].
  destruct p as [i|]; [|done]. by rewrite try_from_ok by auto.
Qed.

Lemma on_runtime_Ok {A} (r : Bridged A) a : on_runtime join_error r = Ok a -> r = Ok a.
Proof. by destruct r. Qed.

Lemma create_Ok config random s :
  create config random = Ok s -> on_request config random = Ok (inner s) /\ requests s = new_requests.
Proof. unfold create. destruct (on_request config random); [|done..]. by intros [= <-]. Qed.

Lemma option_key_wf o k : option_key o = Ok (Some k) -> handshake_key_wf k.
Proof.
  unfold option_key. destruct (handshake_key o) as [h|]; [|done]. destruct (from_hex h) eqn:E; [|done..].
  intros [= <-]. by eapply from_hex_wf.
Qed.

End lemmas.

Section run.
Context `{CryptoLib} `{SignalingCodec} `{SessionCodec} `{Transport.WebRtcLib} `{ValueText}.
Context (join_error : string).

Lemma run_spawned {A} inputs n (p : prog Session.SessionInner Session.SInput A) w :
  run inputs n (spawned p) w =
  let '(r, n', w') := run inputs n p w in (Ok r, n', w').
Proof.
  revert n w. induction p as [r|B f k IH|k IH]; intros n w; cbn; [done| |by rewrite IH].
  destruct (f (inputs n) w) as [w' b]. by rewrite IH.
Qed.

(** What a method returns to native code. *)
Definition outcome {A B} (f : A -> B) (r : Result A) : Bridged B :=
  match r with
  | Ok a => Ok (f a)
  | Err e => Err (bridge_error e)
  | Panic => Err (Failure "other" join_error)
  end.

Lemma run_bridged {A B} inputs n (f : A -> B) (p : prog Session.SessionInner Session.SInput A) w :
  run inputs n (bridged join_error f p) w =
  let '(r, n', w') := run inputs n p w in (Ok (outcome f r), n', w').
Proof.
  unfold bridged. rewrite run_bind, run_spawned. destruct (run inputs n p w) as [[r n'] w']. by destruct r.
Qed.

End run.

(** ** Properties *)

(** A session created by native code can be joined by native code: from a URL that
    [create_dapp] gives, [create_wallet] makes a client of the same channel, with the
    host's key hash and handshake key, the host and the client know their roles and
    the same session id, and [parse_session_uri] tells native code what the URL holds.
    This holds for all options with a well-formed session id, every valid peer info,
    and all random bytes that give two different key hashes. *)
Theorem dapp_joined_by_wallet
    `{CryptoLaws, RegexLib, UnicodeLib, FormLib, Transport.WebRtcLib, ValueTextLaws, OptionsText}
    join_error options_json o random s info_json p random' kp :
  options_from_str options_json = inl o ->
  (forall i, session_id o = Some i -> session_id_wf i) ->
  (forall x, server o = Some x -> utf8_valid (as_bytes x) = true) ->
  length (random_session_id random) = 16 -> length (random_secret random) = 32 ->
  length (random_handshake_key random) = 16 ->
  create_dapp join_error options_json random = Ok s ->
  peer_info_from_str info_json = inl p -> peer_valid p ->
  key_pair_generate (random_secret random') = Ok kp ->
  hash_public_key (encryption_key kp)
    <> hash_public_key (SignalingLayer.prop_encryption_key (properties (inner s))) ->
  exists s' v text,
    create_wallet join_error (uri s) info_json random' = Ok s' /\
    uri s' = uri s /\ channel (inner s') = channel (inner s) /\
    is_host s = true /\ is_host s' = false /\ get_session_id s' = get_session_id s /\
    requests s' = new_requests /\
    SignalingLayer.prop_h (properties (inner s'))
      = hash_public_key (SignalingLayer.prop_encryption_key (properties (inner s))) /\
    SignalingLayer.handshake_key (properties (inner s')) = SignalingLayer.handshake_key (properties (inner s)) /\
    Setup.uri (inner s) = Version1 v /\
    parse_session_uri (uri s) = Ok text /\ value_from_string text = inl (uri_value v).
Proof.
  intros Ho Hid Hsrv Hl1 Hl2 Hl3 Hs Hj Hp Hkp Hne.
  assert (peer_valid (peer_info o)) as Hpv.
  { intros i Hi. unfold create_dapp in Hs. rewrite Ho in Hs. cbn [parse_json mbind res_bind] in Hs.
    rewrite Hi in Hs. cbn in Hs. unfold try_from in Hs.
    destruct (peer_info_validate (to_core i)) as [[]|r|] eqn:E; [done|..]; cbn in Hs; try done. }
  rewrite (create_dapp_config join_error _ _ _ Ho Hpv) in Hs. apply on_runtime_Ok in Hs.
  destruct (option_key o) as [key|e|] eqn:Hkey; cbn in Hs; [|done..].
  apply create_Ok in Hs as [Hs _].
  set (config := dapp_config o key (to_core <$> peer_info o)) in *.
  assert (config_wf config random) as Hwf.
  { split; cbn; auto. intros k ->. by apply option_key_wf in Hkey. }
  destruct (host_session_parts config random _ eq_refl Hwf Hs)
    as [(v & Huri & Hvwf & Hkh & Hhk & Hch) [Hr1 Hr2] _ _ _ _ _].
  destruct (client_session_joins (mkSessionConfig (Some (to_url v)) None None None None (to_core <$> p))
    random' kp v (channel (inner s))) as (cs & Hcs & Hcu & Hcc & Hcr & _ & Hcp); try done.
  { cbn. intros i Hi. destruct p as [i0|]; [|done]. injection Hi as <-. by apply Hp. }
  { by rewrite Hkh. }
  assert (uri s = to_url v) as Hus by (unfold uri; by rewrite Huri).
  exists (mkSession cs new_requests), v, (value_to_string (uri_value v)). rewrite Hus. split_and!; try done.
  - rewrite (create_wallet_config join_error _ _ _ _ Hj Hp). unfold create. by rewrite Hcs.
  - unfold uri. cbn. by rewrite Hcu.
  - unfold get_session_id. cbn. by rewrite Hcu, Huri.
  - cbn. by rewrite Hcp.
  - cbn. by rewrite Hcp, Hhk.
  - unfold parse_session_uri, uri_from_url. by rewrite from_url_to_url.
  - apply value_text_round_trip.
Qed.

(** C31. [create_dapp] is the core's builder: for every text and all random bytes it
    fails with the parser's text (kind [other]) when the options do not parse, with
    the reason (kind [session]) when the peer info is invalid, with the core's error
    when the handshake key is malformed, and is otherwise [on_request] of the record of
    the given options; an error keeps its kind and text, and nothing panics. *)
Theorem create_dapp_equiv
    `{CryptoLaws, RegexLib, UnicodeLib, FormLib, Transport.WebRtcLib, ValueText, OptionsText}
    join_error json random :
  create_dapp join_error json random <> Panic /\
  match options_from_str json with
  | inr e => create_dapp join_error json random = Err (Failure "other" e)
  | inl o =>
      (forall i reason, peer_info o = Some i -> peer_info_validate (to_core i) = Err reason ->
         create_dapp join_error json random = Err (Failure "session" reason)) /\
      (peer_valid (peer_info o) ->
       match option_key o with
       | Ok key =>
           create_dapp join_error json random =
           match on_request (dapp_config o key (to_core <$> peer_info o)) random with
           | Ok s => Ok (mkSession s new_requests)
           | Err e => Err (Failure (error_kind e) (OpenLvError_to_string e))
           | Panic => Err (Failure "other" join_error)
           end
       | Err e =>
           create_dapp join_error json random = Err (Failure (error_kind e) (OpenLvError_to_string e))
       | Panic => create_dapp join_error json random = Err (Failure "other" join_error)
       end)
  end.
Proof.
  split; [unfold create_dapp; by destruct (_ ← _; _)|].
  destruct (options_from_str json) as [o|e] eqn:Ho; [|unfold create_dapp; by rewrite Ho]. split.
  - intros i reason Hi Hv. unfold create_dapp. rewrite Ho. cbn [parse_json mbind res_bind].
    rewrite Hi. cbn [try_from_opt]. unfold try_from. by rewrite Hv.
  - intros Hp. rewrite (create_dapp_config join_error _ _ _ Ho Hp).
    destruct (option_key o) as [key|e|]; [|done..]. cbn [map_err mbind res_bind]. unfold create.
    by destruct (on_request _ _).
Qed.

(** A request sent by native code is the core's request: [send_with_timeouts]
    fails with the parser's text when the message does not parse; otherwise it runs the
    core's method to its end, changing the session as the method does, and returns a
    text that reads back as the peer's response, or the error's kind and text; a panic
    of the core becomes an error. *)
Theorem bridged_send_refines
    `{CryptoLib, SignalingCodec, SessionCodec, Transport.WebRtcLib, ValueTextLaws}
    properties instant_max join_error inputs n message ack response w :
  match value_from_string message with
  | inr e =>
      run inputs n (send_with_timeouts properties instant_max join_error message ack response) w
      = (Ok (Err (Failure "other" e)), n, w)
  | inl v => exists r n' w' b,
      run inputs n (Session.send_with_timeouts properties instant_max v ack response) w = (r, n', w') /\
      run inputs n (send_with_timeouts properties instant_max join_error message ack response) w
      = (Ok b, n', w') /\
      match r with
      | Ok value => exists text, b = Ok text /\ value_from_string text = inl value
      | Err e => b = Err (Failure (error_kind e) (OpenLvError_to_string e))
      | Panic => b = Err (Failure "other" join_error)
      end
  end.
Proof.
  unfold send_with_timeouts. destruct (value_from_string message) as [v|e]; [|done]. cbn [parse_json].
  rewrite run_bridged.
  destruct (run inputs n (Session.send_with_timeouts _ _ v ack response) w) as [[r n'] w'].
  exists r, n', w', (outcome join_error value_to_string r). split_and!; [done..|].
  destruct r as [value|e|]; cbn; [|done..]. eexists. split; [done|]. apply value_text_round_trip.
Qed.

(** Nothing is lost in the texts that native code reads: two states with the same
    JSON are the same state, and two requests with the same JSON are the same request. *)
Theorem bridge_texts_faithful `{ValueTextLaws} :
  (forall s s', state_json s = state_json s' -> s = s') /\
  (forall r r', next_request false (Some r) = next_request false (Some r') -> r = r').
Proof.
  assert (forall v v', value_to_string v = value_to_string v' -> v = v') as Hinj.
  { intros v v' E. assert (inl v = inl v' :> LibResult Value) as [=]; [|done].
    by rewrite <- !value_text_round_trip, E. }
  split.
  - intros [st sg pi er] [st' sg' pi' er'] E%Hinj. cbn in E.
    injection E as He Hp Hs Ht.
    assert (st = st') as -> by (by destruct st, st').
    assert (sg = sg') as -> by (by destruct sg as [[]|], sg' as [[]|]).
    assert (er = er') as -> by (destruct er, er'; cbn in *; congruence).
    assert (pi = pi') as ->; [|done].
    destruct pi as [[i n ic]|], pi' as [[i' n' ic']|]; cbn in Hp; try done.
    injection Hp as Hic Hi Hn. cbn in *. subst. f_equal. f_equal. destruct ic, ic'; cbn in *; congruence.
  - intros [i m] [i' m'] E. cbn in E. injection E as E%Hinj. cbn in E. by injection E as -> ->.
Qed.

(** ** Witnesses *)

Module FfiModel.

(** Two texts of options. *)
#[export] Instance options_text : OptionsText := {|
  options_from_str s :=
    if String.eqb s "{}" then inl (mkSessionOptions None (Some "MQTT") (Some "mqtt") None None)
    else inr "expected value";
  peer_info_from_str s := if String.eqb s "null" then inl None else inr "expected value";
|}.

End FfiModel.

Import CryptoModel TextModel UriModel SignalingSafety.LayerModel SessionSpec.SessionModel BridgeModel FfiModel.

Lemma dapp_joined_by_wallet_witness :
  exists s s', create_dapp "panic" "{}" (witness_random witness_alice) = Ok s /\
    create_wallet "panic" (uri s) "null" (witness_random witness_bob) = Ok s' /\
    is_host s' = false.
Proof.
  assert (exists s, create_dapp "panic" "{}" (witness_random witness_alice) = Ok s /\
    SignalingLayer.prop_encryption_key (properties (inner s)) = witness_encryption_key witness_alice)
    as (s & Hs & Hek) by (eexists; split; reflexivity).
  destruct (dapp_joined_by_wallet "panic" "{}" (mkSessionOptions None (Some "MQTT") (Some "mqtt") None None)
    (witness_random witness_alice) s "null" None (witness_random witness_bob)
    (mkKeyPair (witness_encryption_key witness_bob) (witness_decryption_key witness_bob)))
    as (s' & v & text & Hs' & _ & _ & _ & Hc & _).
  - reflexivity.
  - discriminate.
  - intros x [= <-]. reflexivity.
  - reflexivity.
  - reflexivity.
  - reflexivity.
  - exact Hs.
  - reflexivity.
  - intros i Hi. discriminate Hi.
  - reflexivity.
  - rewrite Hek. vm_compute. discriminate.
  - exists s, s'. split; [exact Hs|]. split; [exact Hs'|exact Hc].
Defined.

Lemma create_dapp_equiv_witness :
  create_dapp "panic" "[]" (witness_random witness_alice) = Err (Failure "other" "expected value").
Proof. exact (proj2 (create_dapp_equiv "panic" "[]" (witness_random witness_alice))). Defined.

Lemma bridged_send_refines_witness :
  exists n' w', run (fun _ => model_sinput (Ok Null)) 0
    (send_with_timeouts model_host (2 ^ 62) "panic" (to_text Null) 10 10) model_host_session
  = (Ok (Err (Failure "session" "session error: session not ready")), n', w').
Proof.
  pose proof (bridged_send_refines model_host (2 ^ 62) "panic" (fun _ => model_sinput (Ok Null)) 0
    (to_text Null) 10 10 model_host_session) as H.
  assert (value_from_string (to_text Null) = inl Null) as E by (vm_compute; reflexivity).
  rewrite E in H. destruct H as (r & n' & w' & b & Hr & Hb & Hrb). exists n', w'. rewrite Hb.
  assert (r = Err (Errors.Session "session not ready")) as ->.
  { transitivity (run (fun _ => model_sinput (Ok Null)) 0
      (Session.send_with_timeouts model_host (2 ^ 62) Null 10 10) model_host_session).1.1;
      [by rewrite Hr|vm_compute; reflexivity]. }
  rewrite Hrb. reflexivity.
Defined.

Lemma bridge_texts_faithful_witness :
  state_json (Session.mkSessionStateObject Session.Ready None None None)
  <> state_json (Session.mkSessionStateObject Session.Linking None None None).
Proof.
  intros E. apply (proj1 bridge_texts_faithful) in E. discriminate.
Defined.
