(* ===== verification/Native.v ===== *)
(** * The native request handler behind a session

    The wallet's handler is the bridge of [Bridge.v]: the session calls [handle], native
    code takes the request with [next_request] and answers it with [respond] or [fail].
    What the peer's session gets, from its request to the answer. *)
From S2P Require Import Prelude RustStr Errors Json CryptoLib CryptoModel Encryption Message TextModel.
From S2P Require Import Tasks SessionMessage Response Session SessionSpec EndToEnd.
From S2P Require Control Transport SignalingLayer SignalingSafety Bridge.
Local Open Scope string_scope.
Local Open Scope list_scope.

Import Bridge(ValueText, value_to_string, value_from_string, Requests, bridge_reachable, new_requests).

(** The session message that an answer of native code makes, for the request [id]. *)
Definition native_message `{ValueText} (id : string) (a : Bridge.Answer) : SessionMessage :=
  match a with
  | inl text => match value_from_string text with inl v => Response id v | inr _ => Failed id end
  | inr _ => Failed id
  end.

Lemma reply_native `{ValueText} id a r :
  Bridge.handle_result (Bridge.Sent a) = Some r -> reply id r = Ok (native_message id a).
Proof.
  unfold native_message. destruct a as [text|e]; cbn; [|by intros [= <-]].
  destruct (value_from_string text); by intros [= <-].
Qed.

(** ** Properties *)

(** C32. The peer gets what the native handler said: let the wallet's handler be a call of
    [handle] on a bridge, in any state the bridge can reach, that has returned. Then
    the dApp's request, sent over a linked session, makes the wallet call the handler once,
    with the payload, and the dApp's session receives the acknowledgement and one
    answer: if native code's [respond] was accepted for this call, the response with
    the value of its text, or [failed] when the text is no JSON; [failed] if its [fail]
    was accepted, or no answer was. And while at most 2^64 requests have arrived, any
    request that [next_request] returned under this call's id carries the call's text. *)
Theorem native_answer_reaches_peer
    `{CryptoLaws, SignalingCodec, SessionCodecLaws, Transport.WebRtcLib, ValueText}
    here there dapp_inputs wallet_inputs n m id v answer k w peer bridge number call result :
  bridge_reachable new_requests bridge ->
  Bridge.calls bridge !! number = Some call -> Bridge.phase call = Bridge.Returned result ->
  Bridge.call_message call = value_to_string v ->
  linked_to here there w -> linked_to there here peer ->
  good_inputs dapp_inputs -> good_inputs wallet_inputs ->
  (forall i, s_handler (wallet_inputs i) = result) -> reply id result = Ok answer ->
  fits (Request id v) -> fits (Ack id) -> fits answer ->
  Control.closed (control peer) = false -> Control.active_handlers (control peer) = k ->
  k < Control.MAX_ACTIVE_HANDLERS ->
  (exists n1 w1 c0 m2 peer2 permit m3 peer3 c1 c2 n4 w4,
    run dapp_inputs n (send_session_message here (Request id v)) w = (Ok tt, n1, w1) /\
    Transport.sent (transport w1) = Transport.sent (transport w) ++ [c0] /\
    run wallet_inputs m (handle_transport_payload there c0) peer = (Ok tt, m2, peer2) /\
    run wallet_inputs m2 (handle_remote_request there id permit v) peer2 = (Ok tt, m3, peer3) /\
    handled peer3 = handled peer ++ [v] /\
    Transport.sent (transport peer3) = Transport.sent (transport peer) ++ [c1; c2] /\
    run dapp_inputs n1 (handle_transport_payload here c1;; handle_transport_payload here c2) w1
      = (Ok tt, n4, w4) /\
    response_tx w4 = response_tx w ++ [Ack id; answer]) /\
  (forall text x, (number, Bridge.call_id call, Bridge.respond_answer text) ∈ Bridge.accepted bridge ->
     value_from_string text = inl x -> answer = Response id x) /\
  (forall text e, (number, Bridge.call_id call, Bridge.respond_answer text) ∈ Bridge.accepted bridge ->
     value_from_string text = inr e -> answer = Failed id) /\
  ((number, Bridge.call_id call, Bridge.fail_answer) ∈ Bridge.accepted bridge -> answer = Failed id) /\
  ((forall a, (number, Bridge.call_id call, a) ∉ Bridge.accepted bridge) -> answer = Failed id) /\
  ((Z.of_nat (length (Bridge.calls bridge)) <= 2 ^ 64)%Z ->
   forall q, q ∈ Bridge.delivered bridge -> Bridge.id q = Bridge.call_id call ->
     Bridge.message q = value_to_string v).
Proof.
  intros Hb Hl Hph Hmsg Hw Hp Hdi Hwi Hh Ha Hf0 Hf1 Hf2 Hcl Hact Hk.
  assert (HI := Bridge.bridge_reachable_inv _ Hb).
  destruct (Bridge.returned_result _ _ _ _ HI Hl Hph) as [Hsome Hnone].
  assert (forall a, (number, Bridge.call_id call, a) ∈ Bridge.accepted bridge ->
    answer = native_message id a) as Hans.
  { intros a Hin. apply Hsome, (reply_native id) in Hin. rewrite Ha in Hin. by injection Hin. }
  split_and!.
  - destruct (request_round_trip here there dapp_inputs wallet_inputs n m id v result answer k w peer)
      as (n1 & w1 & c0 & m2 & peer2 & permit & m3 & peer3 & c1 & c2 & n4 & w4 &
          ? & ? & ? & _ & ? & ? & ? & _ & ? & ?); try done.
    by exists n1, w1, c0, m2, peer2, permit, m3, peer3, c1, c2, n4, w4.
  - intros text x Hin Hv. rewrite (Hans _ Hin). cbn. by rewrite Hv.
  - intros text e Hin Hv. rewrite (Hans _ Hin). cbn. by rewrite Hv.
  - intros Hin. by rewrite (Hans _ Hin).
  - intros Hno. rewrite (Hnone Hno) in Ha. by injection Ha.
  - intros Hlen q Hin Hid. destruct (Bridge.delivered_key _ _ Hb Hin) as (n' & c' & Hl' & ->).
    assert (number = n') as <-
      by (by eapply (Bridge.call_ids_distinct _ _ _ _ _ (Bridge.bridge_reachable_log _ Hb) Hlen Hl Hl')).
    rewrite Hl in Hl'. by injection Hl' as <-.
Qed.

(** ** Witnesses *)

Import CryptoModel TextModel SignalingSafety.LayerModel SessionModel Bridge.BridgeModel.

(** Native code has answered the first request of the bridge with a JSON string. *)
Lemma native_answer_reaches_peer_witness :
  exists n4 w4, response_tx w4 = [Ack "id"; Response "id" (Str "ok")] /\
    exists n1 w1 c1 c2, run (fun _ => model_sinput (Ok Null)) n1
      (handle_transport_payload model_host c1;; handle_transport_payload model_host c2) w1 = (Ok tt, n4, w4).
Proof.
  assert (exists call, Bridge.calls bridge5 !! 0 = Some call /\
    Bridge.phase call = Bridge.Returned (Ok (Str "ok")) /\ Bridge.call_message call = to_text Null)
    as (call & Hl & Hph & Hm) by (vm_compute; eexists; repeat split; reflexivity).
  destruct (native_answer_reaches_peer model_host model_client (fun _ => model_sinput (Ok Null))
    (fun _ => model_sinput (Ok (Str "ok"))) 0 0 "id" Null (Response "id" (Str "ok")) 1
    model_host_session model_client_session bridge5 0 call (Ok (Str "ok")))
    as [(n1 & w1 & c0 & m2 & peer2 & permit & m3 & peer3 & c1 & c2 & n4 & w4 &
         _ & _ & _ & _ & _ & _ & Hr & Hresp) _].
  - exact bridge5_reachable.
  - exact Hl.
  - exact Hph.
  - exact Hm.
  - exact model_host_linked.
  - exact model_client_linked.
  - apply model_inputs_good.
  - apply model_inputs_good.
  - reflexivity.
  - reflexivity.
  - apply fits_compute; vm_compute; reflexivity.
  - apply fits_compute; vm_compute; reflexivity.
  - apply fits_compute; vm_compute; reflexivity.
  - reflexivity.
  - reflexivity.
  - unfold Control.MAX_ACTIVE_HANDLERS. lia.
  - exists n4, w4. split; [exact Hresp|]. exists n1, w1, c1, c2. exact Hr.
Defined.
