(* ===== verification/Examples.v ===== *)
(** * The example programs ([examples/app/main.rs], [examples/client/main.rs])

    The two [main] functions: the dApp makes a session, shows its URL, waits for a
    wallet, sends one request and closes; the wallet joins, answers through its handler
    and watches the requests. Both are programs of [Tasks.v] over the session and the
    lines that they print themselves; the handlers, in tasks of the session, print
    theirs in between. The QR code and the signer's key derivation are third-party
    code. *)
From S2P Require Import Prelude RustStr Errors Json Regex CryptoLib CryptoModel Encryption Message TextModel.
From S2P Require Import SessionUri Ntfy Tasks SessionMessage Session Setup JsonRpc Wallet Response Bridge.
From S2P Require Transport SignalingLayer Control.
Local Open Scope string_scope.
Local Open Scope list_scope.

(** [QrCode::new] and the rendering, on success the lines to print; and
    [MnemonicBuilder], which builds the signer. *)
Class ExampleLib : Type := {
  qr_code : string -> LibResult string;
  test_signer : LibResult SignerLib;
}.

Section examples.
Context `{CryptoLib} `{SignalingCodec} `{SessionCodec} `{Transport.WebRtcLib}.
Context `{RegexLib} `{UnicodeLib} `{FormLib} `{ValueText} `{ExampleLib}.
Context (instant_max : Z).

(** ** Processes *)

Record Process : Type := mkProcess {
  core : SessionInner;
  stdout : list string;
  stderr : list string;
}.

Definition with_core (x : SessionInner) (w : Process) : Process := mkProcess x (stdout w) (stderr w).

Abbreviation Main := (prog Process SInput).

Definition println (line : string) : Main unit :=
  writes (fun w => mkProcess (core w) (stdout w ++ [line]) (stderr w)).
Definition eprintln (line : string) : Main unit :=
  writes (fun w => mkProcess (core w) (stdout w) (stderr w ++ [line])).

(** A method of the session. *)
Definition method {A} (p : prog SessionInner SInput A) : Main A := zoom core with_core (fun i => i) p.

(** ** The dApp *)

(** [Box<dyn std::error::Error>] *)
Inductive BoxError : Type :=
| SessionFailure (e : OpenLvError)
| QrFailure (text : string).

(** [p?], in a function that returns a boxed error. *)
Definition question {A} (p : Main A) (k : A -> Main (Res BoxError unit)) : Main (Res BoxError unit) :=
  r ← attempt p;
  match r with
  | Ok a => k a
  | Err e => mret (Err (SessionFailure e))
  | Panic => lift Panic
  end.

(** The handler that the dApp gives to [on_request]. *)
Definition app_handler (msg : Value) : Result Value :=
  Ok (object [("result", Str "ok"); ("id", value_index "id" msg); ("jsonrpc", Str "2.0")]).

Definition chain_id_request : Value :=
  object [("jsonrpc", Str "2.0"); ("method", Str "eth_chainId"); ("params", Array []); ("id", Num (PosInt 1))].

Definition app_config : SessionConfig := set_server "https://ntfy.sh/" (set_protocol Ntfy dapp).

(** [main] once the session is made; [recv] is what the link's receiver yields. *)
Definition app_session (dapp : NewSession) (recv : list (Transport.TransportState + RecvError))
    : Main (Res BoxError unit) :=
  question (method (connect (properties dapp))) (fun _ =>
    let uri := to_connection_url (Setup.uri dapp) in
    println ("Connection URL: " ++ uri);;
    match qr_code uri with
    | inr e => mret (Err (QrFailure e))
    | inl qr_data =>
        println ("QR Code:" ++ String "010" qr_data);;
        println "Waiting for wallet to connect...";;
        question (method (wait_for_link recv)) (fun _ =>
          println "Connected!";;
          question (method (send (properties dapp) instant_max chain_id_request)) (fun resp =>
            println ("Response: " ++ value_to_string resp);;
            question (method (close (properties dapp))) (fun _ => mret (Ok tt))))
    end).

Definition app_main (random : Randomness) (inputs : nat -> SInput)
    (recv : list (Transport.TransportState + RecvError)) : Res BoxError unit * list string :=
  match on_request app_config random with
  | Ok dapp =>
      match run inputs 0 (app_session dapp recv) (mkProcess (inner dapp) [] []) with
      | (Ok r, _, w) => (r, stdout w)
      | (_, _, w) => (Panic, stdout w)
      end
  | Err e => (Err (SessionFailure e), [])
  | Panic => (Panic, [])
  end.

(** ** The wallet *)

(** How the wallet's [main] ends: with an exit code, or not. *)
Inductive Exit : Type := Exited (code : Z) | Watching.

(** [p.unwrap_or_else(|e| { eprintln!(..); process::exit(1) })] *)
Definition or_exit {A} (what : string) (p : Main A) (k : A -> Main Exit) : Main Exit :=
  r ← attempt p;
  match r with
  | Ok a => k a
  | Err e => eprintln (what ++ OpenLvError_to_string e);; mret (Exited 1)
  | Panic => lift Panic
  end.

(** The handler that the wallet gives to [on_request]. *)
Definition wallet_handler (signer : SignerLib) (msg : Value) : Result Value :=
  Ok (handle_rpc_request msg).

(** The loop over the observed requests; a turn without a value is the timer's. It
    returns when the channel is closed. *)
Fixpoint watch (turns : list (option (Value + RecvError))) : Main bool :=
  match turns with
  | [] => mret false
  | None :: r => watch r
  | Some (inl payload) :: r => println ("Incoming request: " ++ value_to_string payload);; watch r
  | Some (inr (Lagged _)) :: r => eprintln "Warning: missed some requests";; watch r
  | Some (inr Closed) :: _ => eprintln "Request channel closed, exiting.";; mret true
  end.

(** [main] once the session is made. *)
Definition wallet_session (wallet : NewSession) (recv : list (Transport.TransportState + RecvError))
    (turns : list (option (Value + RecvError))) : Main Exit :=
  or_exit "Connection failed: " (method (connect (properties wallet))) (fun _ =>
  or_exit "Link failed: " (method (wait_for_link recv)) (fun _ =>
    println "Connected!";;
    ended ← watch turns;
    if (ended : bool) then attempt (method (close (properties wallet)));; mret (Exited 0)
    else mret Watching)).

(** The whole of it, on the arguments of the command line. *)
Definition wallet_main (args : list string) (random : Randomness) (inputs : nat -> SInput)
    (recv : list (Transport.TransportState + RecvError)) (turns : list (option (Value + RecvError)))
    : Res OpenLvError Exit * list string * list string :=
  match args !! 1 with
  | None => (Ok (Exited 1), [], ["usage: client <openlv://...>"])
  | Some url =>
      let out := [("Connecting to: " ++ url)%string] in
      match test_signer with
      | inr error => (Ok (Exited 1), out, [("Failed to derive test account: " ++ error)%string])
      | inl signer =>
          let out := out ++ [("Wallet account: " ++ address)%string] in
          match on_request (wallet url) random with
          | Err e => (Ok (Exited 1), out, [("Failed to create session: " ++ OpenLvError_to_string e)%string])
          | Panic => (Panic, out, [])
          | Ok w =>
              let '(r, _, p) := run inputs 0 (wallet_session w recv turns) (mkProcess (inner w) out []) in
              (r, stdout p, stderr p)
          end
      end
  end.

End examples.

(** ** Lemmas *)

Section examples_lemmas.
Context `{CryptoLib} `{SignalingCodec} `{SessionCodec} `{Transport.WebRtcLib}.
Context `{RegexLib} `{UnicodeLib} `{FormLib} `{ValueText} `{ExampleLib}.
Context (instant_max : Z) (properties : SignalingLayer.SignalingProperties).

Lemma run_method {A} inputs n (p : prog SessionInner SInput A) w :
  run inputs n (method p) w =
  let '(r, n', x) := run inputs n p (core w) in (r, n', with_core x w).
Proof. unfold method. rewrite run_zoom; [done|done|done|by intros []]. Qed.

Lemma run_question {A} inputs n (p : prog SessionInner SInput A) k w :
  run inputs n (question (method p) k) w =
  match run inputs n p (core w) with
  | (Ok a, n', x) => run inputs n' (k a) (with_core x w)
  | (Err e, n', x) => (Ok (Err (SessionFailure e)), n', with_core x w)
  | (Panic, n', x) => (Panic, n', with_core x w)
  end.
Proof.
  unfold question. rewrite run_bind, run_attempt, run_method. by destruct (run inputs n p (core w)) as [[[] ?] ?].
Qed.

Lemma run_or_exit {A} inputs n what (p : prog SessionInner SInput A) k w :
  run inputs n (or_exit what (method p) k) w =
  match run inputs n p (core w) with
  | (Ok a, n', x) => run inputs n' (k a) (with_core x w)
  | (Err e, n', x) =>
      (Ok (Exited 1), S n', mkProcess x (stdout w) (stderr w ++ [(what ++ OpenLvError_to_string e)%string]))
  | (Panic, n', x) => (Panic, n', with_core x w)
  end.
Proof.
  unfold or_exit. rewrite run_bind, run_attempt, run_method. by destruct (run inputs n p (core w)) as [[[] ?] ?].
Qed.

(** A line, and what comes after it. *)
Lemma run_println {A} inputs n line (p : prog Process SInput A) w :
  run inputs n (println line;; p) w =
  run inputs (S n) p (mkProcess (core w) (stdout w ++ [line]) (stderr w)).
Proof. done. Qed.

(** [close] closes the control, whatever else fails. *)
Definition stays_closed (w w' : SessionInner) : Prop :=
  Control.closed (control w) = true -> Control.closed (control w') = true.

#[local] Instance stays_closed_preorder : PreOrder stays_closed.
Proof. split; unfold stays_closed; [by intros w|auto]. Qed.

Lemma every_zoomed {W I A} (get : SessionInner -> W) (put : W -> SessionInner -> SessionInner)
    (input : SInput -> I) (p : prog W I A) :
  (forall x w, control (put x w) = control w) -> every stays_closed (zoom get put input p).
Proof. intros Hp. apply every_zoom. intros x w. unfold stays_closed. by rewrite Hp. Qed.

Lemma set_status_stays s : every stays_closed (set_status s).
Proof.
  unfold set_status, get_error. repeat (apply every_bind; [|intros ?]);
    first [by apply every_reads|apply every_writes; intros ? Hx; exact Hx].
Qed.

Lemma send_session_message_stays m : every stays_closed (send_session_message properties m).
Proof.
  unfold send_session_message. apply every_bind; [apply every_lift|intros text].
  apply every_bind; [apply every_atom; intros i w Hx; exact Hx|intros r].
  apply every_bind; [apply every_lift|intros c]. by apply every_zoomed.
Qed.

Lemma wait_for_tasks_stays : every stays_closed wait_for_tasks.
Proof.
  unfold wait_for_tasks. apply every_bind; [apply every_writes; intros ? Hx; exact Hx|intros _].
  apply every_bind; [exact Logic.I|intros _]. apply every_writes; intros ? Hx; exact Hx.
Qed.

Lemma run_close_closed inputs n w : Control.closed (control (run inputs n (close properties) w).2) = true.
Proof.
  unfold close. rewrite run_bind. cbn [run writes atom]. set (w0 := with_control _ w).
  assert (Control.closed (control w0) = true) as Hc.
  { cbn. unfold Control.close. destruct (Control.closed (control w)) eqn:E; cbn; congruence. }
  apply (every_run stays_closed inputs (S n)); [|exact Hc].
  apply every_bind; [apply every_reads; apply _|]. intros [r|]; [apply every_lift|].
  apply every_bind; [|intros r; apply every_bind; [apply every_writes; intros ? Hx; exact Hx|intros _; apply every_lift]].
  unfold close_once.
  apply every_bind; [apply every_attempt, send_session_message_stays|intros _].
  apply every_bind; [apply wait_for_tasks_stays|intros _].
  apply every_bind; [by apply every_attempt, every_zoomed|intros rt].
  apply every_bind; [by apply every_attempt, every_zoomed|intros rs].
  apply every_bind; [apply set_status_stays|intros _; exact Logic.I].
Qed.

(** A run that failed after some lines. *)
Lemma stops_after printed lines (w w' : Process) (r : Result (Res BoxError unit)) (P : list string -> Prop) :
  printed `prefix_of` lines -> stdout w' = stdout w ++ printed -> stderr w' = stderr w -> r <> Ok (Ok tt) ->
  exists l, l = lines /\ stderr w' = stderr w /\
    (exists printed, printed `prefix_of` l /\ stdout w' = stdout w ++ printed) /\ (r = Ok (Ok tt) -> P l).
Proof. intros Hp Ho He Hr. exists lines. split_and!; [done..|by exists printed|done]. Qed.

(** What the loop prints. *)
Definition shown (turns : list (option (Value + RecvError))) : list string :=
  omap (fun t => match t with
                 | Some (inl payload) => Some ("Incoming request: " ++ value_to_string payload)%string
                 | _ => None
                 end) turns.

Definition warned (turns : list (option (Value + RecvError))) : list string :=
  omap (fun t => match t with Some (inr (Lagged _)) => Some "Warning: missed some requests" | _ => None end) turns.

(** The loop prints every request, until the channel closes. *)
Lemma run_watch inputs n turns w :
  exists n', ((Some (inr Closed) ∉ turns) /\
    run inputs n (watch turns) w
      = (Ok false, n', mkProcess (core w) (stdout w ++ shown turns) (stderr w ++ warned turns))) \/
  exists before after, turns = before ++ (Some (inr Closed) :: after) /\
    run inputs n (watch turns) w
      = (Ok true, n', mkProcess (core w) (stdout w ++ shown before)
                        (stderr w ++ warned before ++ ["Request channel closed, exiting."])).
Proof.
  revert n w. induction turns as [|t turns IH]; intros n w.
  - exists n. left. split; [apply not_elem_of_nil|]. cbn. rewrite !app_nil_r. by destruct w.
  - assert (forall p m, (run inputs n (watch (t :: turns)) w = run inputs m (watch turns) p) ->
      core p = core w -> stdout p = stdout w ++ shown [t] -> stderr p = stderr w ++ warned [t] ->
      t <> Some (inr Closed) ->
      exists n', ((Some (inr Closed) ∉ t :: turns) /\
        run inputs n (watch (t :: turns)) w
          = (Ok false, n', mkProcess (core w) (stdout w ++ shown (t :: turns)) (stderr w ++ warned (t :: turns)))) \/
      exists before after, (t :: turns) = before ++ (Some (inr Closed) :: after) /\
        run inputs n (watch (t :: turns)) w
          = (Ok true, n', mkProcess (core w) (stdout w ++ shown before)
                            (stderr w ++ warned before ++ ["Request channel closed, exiting."]))) as Hgo.
    { intros p m Hrun Hc Ho He Ht. rewrite Hrun. destruct (IH m p) as (n' & [[Hn ->]|(b & a & -> & ->)]); exists n'.
      - left. split; [by apply not_elem_of_cons|]. rewrite Hc, Ho, He, <- !(assoc_L app). unfold shown, warned.
        by rewrite <- !omap_app.
      - right. exists (t :: b), a. split; [done|]. rewrite Hc, Ho, He, <- !(assoc_L app). unfold shown, warned.
        by rewrite !(assoc_L app), <- !(assoc_L app _ (omap _ [t])), <- !omap_app. }
    destruct t as [[payload|[| k]]|].
    + apply (Hgo (mkProcess (core w) (stdout w ++ shown [Some (inl payload)]) (stderr w)) (S n)); try done.
      cbn. by rewrite app_nil_r.
    + exists (S n). right. exists [], turns. split; [done|]. cbn. by rewrite app_nil_r.
    + apply (Hgo (mkProcess (core w) (stdout w) (stderr w ++ warned [Some (inr (Lagged k))])) (S n)); try done.
      cbn. by rewrite app_nil_r.
    + apply (Hgo w n); try done; cbn; by rewrite app_nil_r.
Qed.

End examples_lemmas.

(** ** Properties *)

(** How the wallet ends: its [main] exits with code 1 and one line on stderr, and
    without touching the session further, exactly at the first failed step; once the
    session is linked it shows every observed request in order, one warning for each
    lag, and leaves the loop only at a closed channel, after which the session is
    closed too. Without a closed channel, which the handle that [main] holds
    excludes, it watches for ever and never closes the session. *)
Theorem wallet_outcome
    `{CryptoLib, SignalingCodec, SessionCodec, Transport.WebRtcLib, RegexLib, UnicodeLib, FormLib, ValueText}
    wallet recv turns inputs n w e n' w' :
  run inputs n (wallet_session wallet recv turns) w = (Ok e, n', w') ->
  (e = Exited 1 /\ stdout w' = stdout w /\ exists what error m x,
     stderr w' = stderr w ++ [(what ++ OpenLvError_to_string error)%string] /\ core w' = x /\
     ((what = "Connection failed: " /\
       run inputs n (connect (properties wallet)) (core w) = (Err error, m, x)) \/
      (what = "Link failed: " /\ exists m1 x1,
       run inputs n (connect (properties wallet)) (core w) = (Ok tt, m1, x1) /\
       run inputs m1 (wait_for_link recv) x1 = (Err error, m, x)))) \/
  (exists m x m1 x1, run inputs n (connect (properties wallet)) (core w) = (Ok tt, m1, x1) /\
     run inputs m1 (wait_for_link recv) x1 = (Ok tt, m, x) /\
     ((e = Watching /\ (Some (inr Closed) ∉ turns) /\ core w' = x /\
       stdout w' = stdout w ++ ("Connected!" :: shown turns) /\ stderr w' = stderr w ++ warned turns) \/
      (e = Exited 0 /\ Control.closed (control (core w')) = true /\
       exists before after, turns = before ++ (Some (inr Closed) :: after) /\
         stdout w' = stdout w ++ ("Connected!" :: shown before) /\
         stderr w' = stderr w ++ warned before ++ ["Request channel closed, exiting."]))).
Proof.
  unfold wallet_session. rewrite run_or_exit.
  destruct (run inputs n (connect (properties wallet)) (core w)) as [[[[]|err|] m1] x1] eqn:Hc; [|intros [= <- _ <-]|done].
  - rewrite run_or_exit. cbn [core with_core].
    destruct (run inputs m1 (wait_for_link recv) x1) as [[[[]|err|] m2] x2] eqn:Hl; [|intros [= <- _ <-]|done].
    + rewrite run_println, run_bind. set (p := mkProcess _ _ _).
      destruct (run_watch inputs (S m2) turns p) as (m3 & [[Hn ->]|(before & after & Ht & ->)]); cbn [negb].
      * intros [= <- _ <-]. right. exists m2, x2, m1, x1. split; [done|]. split; [done|]. left. cbn.
        by rewrite <- (assoc_L app).
      * rewrite run_bind, run_attempt, run_method. set (p' := mkProcess _ _ _).
        assert (Hcl := run_close_closed (properties wallet) inputs m3 (core p')).
        destruct (run inputs m3 (close (properties wallet)) (core p')) as [[r m4] x4]. cbn in Hcl.
        assert (forall q, run inputs m4 (mret (Exited 0)) (with_core x4 p') = (Ok e, n', w') -> q = r ->
          e = Exited 0 /\ core w' = x4 /\ stdout w' = stdout w ++ ("Connected!" :: shown before) /\
          stderr w' = stderr w ++ warned before ++ ["Request channel closed, exiting."]) as Hend.
        { intros q [= <- _ <-] _. cbn. by rewrite <- (assoc_L app). }
        intros Hrun. destruct r as [u|err|]; [..|done];
          (destruct (Hend _ Hrun eq_refl) as (-> & Hx & Ho & He); right; exists m2, x2, m1, x1;
           split; [done|]; split; [done|]; right; split; [done|]; split; [by rewrite Hx|];
           by exists before, after).
    + left. split; [done|]. split; [done|]. exists "Link failed: ", err, m2, x2.
      split; [done|]. split; [done|]. right. eauto.
  - left. split; [done|]. split; [done|]. exists "Connection failed: ", err, m1, x1.
    split; [done|]. split; [done|]. by left.
Qed.

(** The dApp stops at the first step that fails, with that step's error; what it has
    printed is a prefix of its five lines. When it returns without an error it has
    printed them all, the last with the response that [send] returned, and the session
    is closed. *)
Theorem app_outcome
    `{CryptoLib, SignalingCodec, SessionCodec, Transport.WebRtcLib, RegexLib, UnicodeLib, FormLib, ValueText, ExampleLib}
    instant_max dapp recv inputs n w r n' w' :
  run inputs n (app_session instant_max dapp recv) w = (r, n', w') ->
  exists qr resp lines,
    lines = ["Connection URL: " ++ to_connection_url (Setup.uri dapp); "QR Code:" ++ String "010" qr;
             "Waiting for wallet to connect..."; "Connected!"; "Response: " ++ value_to_string resp]%string /\
    stderr w' = stderr w /\
    (exists shown, shown `prefix_of` lines /\ stdout w' = stdout w ++ shown) /\
    (r = Ok (Ok tt) -> stdout w' = stdout w ++ lines /\ qr_code (to_connection_url (Setup.uri dapp)) = inl qr /\
       Control.closed (control (core w')) = true /\
       exists m x m1 x1, run inputs m (send (properties dapp) instant_max chain_id_request) x = (Ok resp, m1, x1)).
Proof.
  unfold app_session. rewrite run_question.
  set (url := to_connection_url (Setup.uri dapp)). set (line1 := ("Connection URL: " ++ url)%string).
  destruct (run inputs n (connect (properties dapp)) (core w)) as [[[[]|err|] m1] x1];
    [|intros [= <- _ <-]; exists "", Null; apply (stops_after []); [apply prefix_nil|cbn; by rewrite app_nil_r|done|done]..].
  rewrite run_println. destruct (qr_code url) as [qr|text] eqn:Hq;
    [|intros [= <- _ <-]; exists "", Null; apply (stops_after [line1]); [by eexists|done|done|done]].
  rewrite !run_println, run_question. cbn [core stdout stderr].
  destruct (run inputs _ (wait_for_link recv) _) as [[[[]|err|] m2] x2];
    [|intros [= <- _ <-]; exists qr, Null;
      apply (stops_after [line1; "QR Code:" ++ String "010" qr; "Waiting for wallet to connect..."]%string);
      [by eexists|cbn; by rewrite <- !(assoc_L app)|done|done]..].
  rewrite run_println, run_question. cbn [core stdout stderr with_core].
  destruct (run inputs _ (send _ _ _) _) as [[[resp|err|] m3] x3] eqn:Hs;
    [|intros [= <- _ <-]; exists qr, Null;
      apply (stops_after [line1; "QR Code:" ++ String "010" qr; "Waiting for wallet to connect..."; "Connected!"]%string);
      [by eexists|cbn; by rewrite <- !(assoc_L app)|done|done]..].
  rewrite run_println, run_question. cbn [core stdout stderr with_core].
  assert (Hcl := run_close_closed (properties dapp) inputs (S m3) x3).
  set (lines := [line1; "QR Code:" ++ String "010" qr; "Waiting for wallet to connect..."; "Connected!";
                 "Response: " ++ value_to_string resp]%string).
  assert (((((stdout w ++ [line1]) ++ [("QR Code:" ++ String "010" qr)%string]) ++ ["Waiting for wallet to connect..."]) ++
    ["Connected!"]) ++ [("Response: " ++ value_to_string resp)%string] = stdout w ++ lines) as ->
    by (by rewrite <- !(assoc_L app)).
  destruct (run inputs (S m3) (close (properties dapp)) x3) as [[[u|err|] m4] x4];
    intros [= <- _ <-]; exists qr, resp; [|by apply (stops_after lines)..].
  exists lines. split; [done|]. split; [done|]. split; [by exists lines|]. intros _. split_and!; [done..|].
  by eexists _, _, _, _.
Qed.

(** ** Witnesses *)

Import CryptoModel TextModel UriModel SignalingSafety.LayerModel SessionSpec.SessionModel BridgeModel.

#[local] Instance example_lib : ExampleLib := {| qr_code url := inl "##"; test_signer := inr "no key" |}.

Definition witness_joined (properties : SignalingLayer.SignalingProperties) : NewSession :=
  build_session
    (Version1 (mkVersion1SessionUri "s" "h" (mkHandshakeKey "k" []) Mqtt "mqtt"))
    (SignalingLayer.is_host properties) (MqttChannel "mqtt" "s", properties)
    (SignalingLayer.prop_decryption_key properties).

Definition witness_process (w : SessionInner) : Process := mkProcess w [] [].
Definition witness_turns : list (option (Value + RecvError)) := [Some (inl (Bool true)); None].

Lemma wallet_outcome_witness :
  exists n w, run (fun _ => model_sinput (Ok Null)) 0
      (wallet_session (witness_joined model_client) [inl Transport.Connected] witness_turns)
      (witness_process (inner (witness_joined model_client))) = (Ok Watching, n, w) /\
    stdout w = "Connected!" :: shown witness_turns.
Proof.
  assert ((run (fun _ => model_sinput (Ok Null)) 0
      (wallet_session (witness_joined model_client) [inl Transport.Connected] witness_turns)
      (witness_process (inner (witness_joined model_client)))).1.1 = Ok Watching) as Hx by (vm_compute; reflexivity).
  destruct (run _ _ _ _) as [[r n] w] eqn:Hr. cbn in Hx. subst r. exists n, w. split; [reflexivity|].
  destruct (wallet_outcome _ _ _ _ _ _ _ _ _ Hr)
    as [[H _]|(m & x & m1 & x1 & _ & _ & [(_ & _ & _ & Ho & _)|[H _]])]; [discriminate|exact Ho|discriminate].
Defined.

Lemma app_outcome_witness :
  exists n w, run (fun _ => model_sinput (Ok Null)) 0
      (app_session (2 ^ 62) (witness_joined model_host) [inl Transport.Connected])
      (witness_process (inner (witness_joined model_host)))
    = (Ok (Err (SessionFailure (Errors.Session "session not ready"))), n, w) /\
    stderr w = [].
Proof.
  assert ((run (fun _ => model_sinput (Ok Null)) 0
      (app_session (2 ^ 62) (witness_joined model_host) [inl Transport.Connected])
      (witness_process (inner (witness_joined model_host)))).1.1
    = Ok (Err (SessionFailure (Errors.Session "session not ready")))) as Hx by (vm_compute; reflexivity).
  destruct (run _ _ _ _) as [[r n] w] eqn:Hr. cbn in Hx. subst r. exists n, w. split; [reflexivity|].
  destruct (app_outcome _ _ _ _ _ _ _ _ _ Hr) as (qr & resp & lines & _ & He & _). exact He.
Defined.
